(* ===== verification/_CoqProject ===== *)
-Q . S2P
Prelude.v
Utils.v
Sha2.v
Types.v
Proto.v
ToyCodec.v
Json.v
Config.v
Storage.v
Calls.v
Task.v
Frame.v
Kademlia.v
RoutingTable.v
MerkleDag.v
Dht.v
Signature.v
Engine.v
KeyStore.v
Identity.v
Tls.v
Handshake.v
Transport.v
Dispatcher.v
Stream.v
Delivery.v
Loops.v
Sessions.v
SessionRuns.v
Swarm.v
SwarmSpec.v
NodeStore.v
StoreRuns.v
Connections.v
Ingress.v
IngressDelivery.v
Gossip.v
GossipRuns.v
Messenger.v
Services.v
Discovery.v
Mdns.v
Logger.v
Node.v
NodeIngress.v
Main.v
Network.v
NetworkDelivery.v
