(* ===== verification/Prelude.v ===== *)
(** * EchoFog core: a verification library

    EchoFog core (Go, under [src/]) is the core of a peer-to-peer messenger: a
    node has an Ed25519 identity kept in a local database, connects to other
    nodes over QUIC, authenticates them, gossips signed messages to the connected
    peers and hands incoming ones to services (chat, discovery).  A Kademlia-like
    routing table and a content-addressed file store use the same database.

    ** How the parts interact

    [pkg/node] starts everything.  [internal/network] dials and accepts
    connections, runs the handshake on their first stream and publishes them on a
    channel; [internal/p2p] (the swarm) registers each as a peer and installs the
    callbacks of its streams.  A gossip stream carries one frame with a signed
    envelope; the callback pushes it to [internal/dispatcher], whose workers check
    the signature and call the service registered for the payload.  Outgoing
    messages go from a service to [internal/p2p/gossip], which starts one
    transmission per connected peer; the swarm signs the message and writes the
    frame.

    ** The files

    - [Prelude]: bytes, machine integers, arrays, errors, panics, the monads,
      runs of step relations ([ends_in], [rtc_ind_inv]), automation.
    - [Utils]: [pkg/utils], the buffer pool.
    - [Sha2]: SHA-256 and SHA-512, executable, checked on the published vectors.
    - [Types]: [pkg/api/types].
    - [Proto]: the message structs of the .pb.go files and the class [Codec].
    - [ToyCodec]: one codec with the law of [Codec], for the witnesses.
    - [Json]: the text format of encoding/json, with its round trip; [Config]:
      [internal/config], with the struct tags.
    - [Storage]: [internal/storage]; the class [Storage] with its laws, and
      [BadgerStorage], which discharges them over the class [Badger].
    - [Calls]: programs of storage calls, their interleavings and a
      rely/guarantee logic for them.
    - [Task]: what a handler that is running still has to do, as the accesses to
      the state that handlers share.
    - [Frame]: [length-prefix.go], [quic_frame.go].
    - [Kademlia], [RoutingTable], [MerkleDag], [Dht]: [internal/p2p/dht].
    - [Signature], [Engine]: [internal/crypto]; [KeyStore] and [Tls]: its
      [security_keys.go].
    - [Identity]: [internal/identity], the addresses of the machine and STUN.
    - [Handshake]: [handshake.go], and of [quic.go] one connection attempt.
    - [Transport]: of [quic.go], the set-up of the endpoint.
    - [Dispatcher]: [internal/dispatcher].
    - [Stream]: [stream.go], and of [quic.go] the type [PeerWrapper]; [Delivery]:
      that a stream delivers; [Loops]: the accept loops of a [PeerWrapper].
    - [Sessions]: [internal/p2p/sessions.go]; [SessionRuns]: concurrent calls of
      [AddStream] with the users of a session.
    - [Swarm]: [internal/p2p/swarm.go], [peer.go]; [SwarmSpec]: the registry
      without pointers that the swarm implements, operation by operation.
    - [NodeStore]: the writes of all components to the shared database, one
      operation after the other; [StoreRuns]: the same operations as programs of
      [Calls], in any number of goroutines.
    - [Connections]: the accept loop of [quic.go], its channel of events and the
      registration loop of [swarm.go] as one system.
    - [Ingress]: [Connections], the loops of every connection and the dispatcher
      as one system; [IngressDelivery]: that what reaches it is handled.
    - [Gossip]: [internal/p2p/gossip]; [GossipRuns]: its concurrent calls, lock
      section by lock section, while the swarm changes.
    - [Messenger], [Discovery], [Mdns], [Services]: [internal/services].
    - [Logger]: [internal/logger].
    - [Node]: [pkg/node] and [internal/services/service.go], and the chat message
      end to end; [NodeIngress]: [Ingress] with these services as its handlers.
    - [Main]: [cmd/app].
    - [Network]: any number of nodes that chat; [NetworkDelivery]: that their
      messages arrive.

    The definitions carry the names of the Go functions; where two functions of
    one file share a name, that of the component is prefixed.

    ** How the code is modelled

    A function that can fail or panic returns a [res]; one that works on state is
    in the monad [M], which keeps the state reached when an error is returned.
    No panic is recovered in the program, so [Panic] is the end of the process.
    Integers have their width: [uint w] and [sint w] in records, the wrap-around
    written where the code computes.  Go arrays are [array n]; the conversion of
    a slice to an array panics when the slice is short and cuts it when it is
    long ([to_array]).

    Objects that the code shares by pointer live in a heap: peers, sessions,
    streams, the arrays behind the attribute slices of the logger.  Goroutines are
    step relations ([Dispatcher.step], [Stream.step], [Loops.conn_step],
    [Swarm.swarm_step], [Connections.conn_step], [SessionRuns.sess_step],
    [GossipRuns.gossip_step], [GCWorker_step], [Utils.pool_step]) in which every
    critical section and channel operation is one step.  The workers of the
    dispatcher hold no lock while a handler runs: the handler is a [Task.task],
    whose accesses to the shared state are single steps among those of the other
    workers ([Dispatcher.worker_step]).  Each service gives its task beside its
    [Handle], with the proof that the two agree when nothing interferes (the
    fields of the class [Handler]); that a service touches the state at most
    once, as its last act, is the class [SingleAccess], which the two services of
    the node satisfy.  The goroutine of a gossip stream reads without a deadline:
    a [GossipStream] says whether the peer has ended the stream, and the handler
    of one that stays open without a whole frame waits for ever ([silent]).  An operation that makes
    several calls to the database is a function of the component's file, which
    runs it alone, and in [StoreRuns] a program of these calls ([Calls.prog]),
    which [Calls.pool_step] interleaves with those of other goroutines; the
    theorem [calls_sequential] says that the two agree when nothing interferes,
    as [broadcast_alone] does for [Gossip] and [GossipRuns].
    [Ingress.ingress_step] composes the
    transport, the swarm, the loops of all connections and the dispatcher of one
    node, with peers that send anything; [Network.net_step] composes the
    components of all nodes with the transmissions between them, which may fail,
    be lost and overtake each other.  Bounded channels have
    their capacity.  A [range] over a map takes its order as an argument, and so do
    time, random bytes and the results of calls to QUIC and the operating system.

    Code that is not under [src/] is a class with the laws it documents: [Badger],
    [Codec], [Uuid], [Ed25519], [EngineLib] (X25519, HKDF, AES-GCM),
    [KeyLib] (Argon2id, XChaCha20-Poly1305), [Writer], [X509] (certificates),
    [Net] and [FileSystem] (the operating system), [Stun].  The class [Storage.Json] is the result of
    [json.Unmarshal] of a stored value into an interface.  Those whose laws a theorem uses have a concrete
    instance in a [Toy] module, in which the witnesses of the theorems run.  The
    standard library is written out where the code uses it (SHA-2, [io.ReadFull],
    [encoding/binary], [encoding/hex], [encoding/json] on the configuration, [errors.Is],
    [filepath.Join], [fmt.Scanln],
    the text form of IP addresses).

    ** What is proved

    - End to end: [Node.chat_end_to_end] follows a text from [Messenger.Send]
      through encryption, gossip, signature, framing, the dispatcher and back to
      plain text; [Network.network_provenance] says of any number of nodes where
      every line of a log comes from, and [NetworkDelivery.network_delivers] that
      every text is logged when nothing fails; [Node.Node_Start_identity] keeps the identity
      over restarts, [Node.Node_Start_wiring] says what a started node is made of.
    - One node against the world: [Ingress.ingress_provenance] traces every packet
      that reaches a handler back to a stream of a connection whose peer has
      answered this node's challenge, at most one packet per stream;
      [Ingress.ingress_refines] projects each run of the composition to runs of
      its parts, [Ingress.one_live_connection] gives each identity one live
      connection and ends the loops of the others, but for the goroutines that
      wait on silent streams, and
      [IngressDelivery.ingress_delivers] says that the streams of the live ones
      are handed over and handled; [NodeIngress.node_log_provenance] says, for a
      started node and peers that send anything, where each line of its log comes
      from.
    - Authentication: two honest nodes that dial each other publish each other's
      key; nothing unauthenticated is published, and every peer in the table has
      answered the challenge of its own connection; a reflected handshake is
      accepted, and TLS accepts everybody.
    - Messages: handlers see signed messages only and never fail on a type; the
      dispatcher's queue is bounded and FIFO, its workers take one packet each,
      their interleavings, with those of the accesses their handlers make, amount to
      a sequence of packets if a handler makes one access, and not otherwise
      ([handlers_can_race]), and they finish.  Frames
      survive any segmentation; streams deliver in order under every interleaving,
      and they do deliver; gossip streams are handed to the callback exactly once,
      in any order; closing a connection ends its loops and the handlers of its streams, except
      for streams left open and silent, which leak ([silent_streams_leak]); encryption round-trips
      and the scalar is clamped.
    - Peers: one open peer per identifier under every interleaving, and the table
      of shared peers is what the same operations make of a registry without
      pointers; gossip sends an
      identifier to a peer at most once, however its calls interleave with each
      other and with the swarm, with the hop limit in 32 bits; bans,
      history, discovery and dialling as they are.  Streams are handed to the
      user of a session in order and once, and [AddStream] returns when the
      session is closed.
    - Storage: the interface laws for Badger, the order of [FindValues], stability
      of the stored key, the XOR meaning of the bucket index, refinement and
      invariant of the routing table, integrity and round trip of the file store,
      round trip of the configuration through the struct tags and the text of its file; and that a stored file can be read
      back ([StoreRuns.interleavings_keep_files]), and that the buckets, the
      identity and the stored blocks stay well formed and in place
      ([StoreRuns.interleavings_safe]), whatever operations run beside each other
      on the database and however their calls interleave.  What interleaving does
      break, a contact saved twice at once into one bucket, is
      [saveInKBucket_lost_update].

    The theorems about the unhappy paths state what the code does: they are
    part of its specification and the list of its defects at once.

    ** Bounds and fuel

    [ReadFull_loop] has one unit of fuel more than the stream has segments: every
    iteration ends a segment or fills the buffer ([ReadFull_loop_full]).
    [calculateFileChunk_loop] has the length of the file, as every chunk takes at
    least a byte.  [chunks] likewise.  The digits of an IPv6 group are
    four at most.  [Json.digits] has 19 units for the at most 20 digits of a 64-bit integer
    ([digits_spec]); the lexer and the parser of [Json] recurse on their input.
    The other recursions are structural.  That goroutines end is proved by
    measures ([steps_left], [conn_left], [calls_left], [left_over]), and of the
    programs of [Calls] and the tasks of [Task] by induction on their trees, whose
    branches follow the replies ([pool_ends], [next_sn], [worker_step_sn]),
    without fuel.

    ** What is not modelled

    The wire format of protobuf and the reflection code of the .pb.go files; the
    inside of the QUIC library, of TLS, STUN and mDNS, whose calls appear with
    their results, and with them the timeouts, which appear as errors; the texts
    of error values and the lines that [log] and [fmt] print in libraries of the
    program (only [main]'s and the node's log are kept); three empty methods of
    [Peer] without a caller.  [Network] has honest nodes only; what dishonest ones
    can do is the subject of the theorems on one node ([Ingress], [NodeIngress]).
    The handlers of [Ingress] have a state of their own, which loses nothing:
    neither service of the program touches the swarm or the storage when it
    handles a message.  The data race on a
    message shared by the transmissions of one broadcast is not observable in the
    model, since nothing writes to it after they start. *)

From Stdlib Require Import ZArith Lia.
From Stdlib Require Export Strings.Byte.
From stdpp Require Export base countable gmap list strings.
From stdpp Require Import relations well_founded.

Declare Scope go_scope.
Delimit Scope go_scope with go.
Open Scope go_scope.

(** ** Bytes

    A Go [byte] is the Standard Library's [Byte.byte]; [bZ] and [Zb] are the
    conversions [int(b)] and [byte(i)] (the latter truncates). *)

Abbreviation bytes := (list Byte.byte).

Definition bZ (b : Byte.byte) : Z := Z.of_N (Byte.to_N b).

Definition Zb (z : Z) : Byte.byte :=
  match Byte.of_N (Z.to_N (z mod 256)) with Some b => b | None => Byte.x00 end.

Lemma bZ_range b : (0 <= bZ b < 256)%Z.
Proof. unfold bZ. pose proof (Byte.to_N_bounded b). lia. Qed.

Lemma Zb_bZ b : Zb (bZ b) = b.
Proof.
  unfold Zb. rewrite Z.mod_small by apply bZ_range.
  unfold bZ. by rewrite N2Z.id, Byte.of_to_N.
Qed.

Lemma bZ_Zb z : bZ (Zb z) = (z mod 256)%Z.
Proof.
  pose proof (Z.mod_pos_bound z 256 ltac:(lia)) as Hb.
  unfold Zb. destruct (Byte.of_N _) as [b|] eqn:E.
  - apply Byte.to_of_N in E. unfold bZ. rewrite E. lia.
  - apply Byte.of_N_None_iff in E. lia.
Qed.

Lemma bZ_inj a b : bZ a = bZ b → a = b.
Proof. intros H. by rewrite <- (Zb_bZ a), H, Zb_bZ. Qed.

#[export] Instance byte_eq_dec : EqDecision Byte.byte := Byte.byte_eq_dec.

#[export] Instance byte_countable : Countable Byte.byte :=
  inj_countable Byte.to_N Byte.of_N Byte.of_to_N.

(** Text as bytes, the conversion [[]byte("...")]. *)
Definition str (s : string) : bytes := String.list_byte_of_string s.

(** A boolean fact in a form that computes to [I] on closed terms, so that
    records carrying one are compared by computation. *)
Definition canon (b : bool) : Is_true b → Is_true b :=
  match b with true => λ _, I | false => λ H, H end.

(** ** Machine integers

    The wrap-around of a [w]-bit integer is written where the code computes on
    it; a field of a record holds a [uint w] or a [sint w], whose value is in
    range by construction. *)

Definition u8 (z : Z) : Z := (z mod 2 ^ 8)%Z.
Definition u32 (z : Z) : Z := (z mod 2 ^ 32)%Z.
Definition u64 (z : Z) : Z := (z mod 2 ^ 64)%Z.
Definition i32 (z : Z) : Z := ((z + 2 ^ 31) mod 2 ^ 32 - 2 ^ 31)%Z.
Definition i64 (z : Z) : Z := ((z + 2 ^ 63) mod 2 ^ 64 - 2 ^ 63)%Z.

Lemma u32_range z : (0 <= u32 z < 2 ^ 32)%Z.
Proof. apply Z.mod_pos_bound. lia. Qed.

Lemma u32_small z : (0 <= z < 2 ^ 32)%Z → u32 z = z.
Proof. apply Z.mod_small. Qed.

Lemma u64_range z : (0 <= u64 z < 2 ^ 64)%Z.
Proof. apply Z.mod_pos_bound. lia. Qed.

Lemma i64_u64 z : (- 2 ^ 63 <= z < 2 ^ 63)%Z → i64 (u64 z) = z.
Proof.
  intros H. unfold i64, u64.
  rewrite Z.add_mod_idemp_l by lia. rewrite Z.mod_small; lia.
Qed.

Lemma u64_i64 z : (0 <= z < 2 ^ 64)%Z → u64 (i64 z) = z.
Proof.
  intros H. unfold i64, u64.
  rewrite <- (Z.mod_small z (2 ^ 64)) at 2 by lia.
  rewrite Zminus_mod, Z.mod_mod, <- Zminus_mod by lia. f_equal. lia.
Qed.

Record uint (w : positive) : Type := UInt {
  uv : Z;
  uv_ok : Is_true ((0 <=? uv)%Z && (uv <? 2 ^ Zpos w)%Z)
}.
Arguments UInt {w} _ _.
Arguments uv {w} _.
Arguments uv_ok {w} _.

Lemma mk_uint_ok w z :
  Is_true ((0 <=? z mod 2 ^ Zpos w)%Z && (z mod 2 ^ Zpos w <? 2 ^ Zpos w)%Z).
Proof.
  pose proof (Z.mod_pos_bound z (2 ^ Zpos w) ltac:(lia)).
  apply Is_true_true, andb_true_iff. split; [apply Z.leb_le|apply Z.ltb_lt]; lia.
Qed.

Definition mk_uint (w : positive) (z : Z) : uint w :=
  UInt (z mod 2 ^ Zpos w) (canon _ (mk_uint_ok w z)).

Lemma uint_eq {w} (a b : uint w) : uv a = uv b → a = b.
Proof.
  destruct a as [x p], b as [y q]. simpl. intros <-. f_equal. apply proof_irrel.
Qed.

Lemma uint_range {w} (a : uint w) : (0 <= uv a < 2 ^ Zpos w)%Z.
Proof.
  destruct a as [x p]. simpl. apply Is_true_true, andb_true_iff in p.
  destruct p as [?%Z.leb_le ?%Z.ltb_lt]. lia.
Qed.

Lemma mk_uint_uv {w} (a : uint w) : mk_uint w (uv a) = a.
Proof. apply uint_eq. simpl. apply Z.mod_small, uint_range. Qed.

Lemma uv_mk w z : (0 <= z < 2 ^ Zpos w)%Z → uv (mk_uint w z) = z.
Proof. intros H. simpl. by apply Z.mod_small. Qed.

#[export] Instance uint_eq_dec w : EqDecision (uint w).
Proof.
  intros a b. destruct (decide (uv a = uv b)) as [H|H].
  - left. by apply uint_eq.
  - right. congruence.
Defined.

(** Signed integers are two's complement: the same bits, read with a sign. *)
Record sint (w : positive) : Type := SInt { sbits : uint w }.
Arguments SInt {w} _.
Arguments sbits {w} _.

Definition sv {w} (a : sint w) : Z :=
  let u := uv (sbits a) in if (u <? 2 ^ (Zpos w - 1))%Z then u else (u - 2 ^ Zpos w)%Z.
Definition mk_sint (w : positive) (z : Z) : sint w := SInt (mk_uint w z).

#[export] Instance sint_eq_dec w : EqDecision (sint w).
Proof. solve_decision. Defined.

Lemma sv_range {w} (a : sint w) : (- 2 ^ (Zpos w - 1) <= sv a < 2 ^ (Zpos w - 1))%Z.
Proof.
  unfold sv. pose proof (uint_range (sbits a)) as Hr.
  assert (2 ^ Zpos w = 2 * 2 ^ (Zpos w - 1))%Z as E.
  { rewrite <- Z.pow_succ_r by lia. f_equal. lia. }
  destruct (Z.ltb_spec (uv (sbits a)) (2 ^ (Zpos w - 1))); lia.
Qed.

Lemma mk_sint_sv {w} (a : sint w) : mk_sint w (sv a) = a.
Proof.
  destruct a as [u]. unfold mk_sint, sv. cbn [sbits]. f_equal. apply uint_eq.
  cbn [mk_uint uv]. pose proof (uint_range u) as Hr.
  destruct (_ <? _)%Z; [by apply Z.mod_small|].
  rewrite <- (Z.mod_small (uv u) (2 ^ Zpos w)) at 2 by lia.
  rewrite <- (Z_mod_plus_full (uv u - 2 ^ Zpos w) 1). f_equal. lia.
Qed.

(** ** Lists that a filter takes whole, or not at all *)

Lemma list_filter_none {A} (P : A → Prop) `{∀ x, Decision (P x)} l :
  Forall (λ x, ¬ P x) l → filter P l = [].
Proof. induction 1; [done|]. by rewrite filter_cons, decide_False. Qed.

Lemma list_filter_whole {A} (P : A → Prop) `{∀ x, Decision (P x)} l :
  Forall P l → filter P l = l.
Proof. induction 1 as [|x l Hx _ IH]; [done|]. by rewrite filter_cons, decide_True, IH. Qed.

(** ** Big-endian integers: [encoding/binary]'s [BigEndian] *)

Fixpoint be_put (n : nat) (z : Z) : bytes :=
  match n with
  | O => []
  | S n => Zb (Z.shiftr z (8 * Z.of_nat n)) :: be_put n z
  end.

Definition be_get (l : bytes) : Z := foldl (λ acc b, acc * 256 + bZ b)%Z 0%Z l.

Lemma length_be_put n z : length (be_put n z) = n.
Proof. induction n; simpl; auto. Qed.

Lemma be_get_acc l acc :
  foldl (λ acc b, acc * 256 + bZ b)%Z acc l
  = (acc * 2 ^ (8 * Z.of_nat (length l)) + be_get l)%Z.
Proof.
  unfold be_get. revert acc. induction l as [|b l IH]; intros acc.
  - cbn -[Z.pow Z.mul]. rewrite Z.mul_0_r, Z.pow_0_r. lia.
  - cbn -[Z.pow Z.mul Z.of_nat]. rewrite IH, (IH (0 * 256 + bZ b)%Z).
    replace (8 * Z.of_nat (S (length l)))%Z with (8 + 8 * Z.of_nat (length l))%Z by lia.
    rewrite Z.pow_add_r by lia. change (2 ^ 8)%Z with 256%Z. ring.
Qed.

Lemma be_get_cons b l :
  be_get (b :: l) = (bZ b * 2 ^ (8 * Z.of_nat (length l)) + be_get l)%Z.
Proof. unfold be_get at 1. simpl. by rewrite be_get_acc. Qed.

Lemma be_get_range l : (0 <= be_get l < 2 ^ (8 * Z.of_nat (length l)))%Z.
Proof.
  induction l as [|b l IH]; [by vm_compute|].
  rewrite be_get_cons. pose proof (bZ_range b).
  replace (8 * Z.of_nat (length (b :: l)))%Z
    with (8 + 8 * Z.of_nat (length l))%Z by (simpl length; lia).
  rewrite Z.pow_add_r by lia. change (2 ^ 8)%Z with 256%Z. nia.
Qed.

Lemma be_get_put n z : be_get (be_put n z) = (z mod 2 ^ (8 * Z.of_nat n))%Z.
Proof.
  induction n as [|n IH].
  - change (be_get (be_put 0 z)) with 0%Z. by rewrite Z.mul_0_r, Z.mod_1_r.
  - cbn [be_put]. rewrite be_get_cons, length_be_put, IH, bZ_Zb.
    rewrite Z.shiftr_div_pow2 by lia.
    replace (8 * Z.of_nat (S n))%Z with (8 * Z.of_nat n + 8)%Z by lia.
    rewrite Z.pow_add_r by lia. change (2 ^ 8)%Z with 256%Z.
    rewrite Z.rem_mul_r by lia. ring.
Qed.

Lemma be_put_mod n z : be_put n (z mod 2 ^ (8 * Z.of_nat n)) = be_put n z.
Proof.
  assert (∀ m y, (n <= m)%nat → be_put n (y mod 2 ^ (8 * Z.of_nat m)) = be_put n y) as H;
    [|by apply H].
  clear z. induction n as [|n IH]; intros m y Hm; [done|].
  cbn [be_put]. f_equal; [|apply IH; lia].
  apply bZ_inj. rewrite !bZ_Zb. change 256%Z with (2 ^ 8)%Z.
  rewrite !Z.shiftr_div_pow2 by lia.
  replace (8 * Z.of_nat m)%Z
    with (8 * Z.of_nat n + 8 + 8 * Z.of_nat (m - S n))%Z by lia.
  rewrite !Z.pow_add_r by lia. set (a := (2 ^ (8 * Z.of_nat n))%Z).
  set (c := (2 ^ (8 * Z.of_nat (m - S n)))%Z).
  assert (0 < a)%Z by (subst a; lia). assert (0 < c)%Z by (subst c; lia).
  rewrite <- Z.mul_assoc, Z.rem_mul_r by lia.
  rewrite (Z.mul_comm a ((_ / _) mod _)), Z.div_add by lia.
  rewrite (Z.div_small (y mod a) a) by (apply Z.mod_pos_bound; lia).
  rewrite Z.add_0_l, Z.rem_mul_r by lia.
  rewrite (Z.mul_comm (2 ^ 8) (_ mod c)), Z.mod_add by lia.
  apply Z.mod_mod. lia.
Qed.

Lemma be_put_get n l : length l = n → be_put n (be_get l) = l.
Proof.
  intros <-. induction l as [|b l IH]; [done|].
  cbn [be_put length]. pose proof (be_get_range l).
  rewrite be_get_cons. f_equal.
  - rewrite Z.shiftr_div_pow2 by lia.
    rewrite Z.div_add_l by lia. rewrite Z.div_small by lia.
    by rewrite Z.add_0_r, Zb_bZ.
  - rewrite <- be_put_mod, Z.add_comm, Z.mod_add by lia.
    by rewrite be_put_mod.
Qed.

(** ** Fixed-size arrays: Go's [[n]byte] *)

Record array (n : nat) : Type := Array {
  arr : bytes;
  arr_ok : Is_true (Nat.eqb (length arr) n)
}.
Arguments Array {n} _ _.
Arguments arr {n} _.
Arguments arr_ok {n} _.

Lemma array_eq {n} (a b : array n) : arr a = arr b → a = b.
Proof.
  destruct a as [l p], b as [l' p']. simpl. intros <-. f_equal. apply proof_irrel.
Qed.

Lemma length_arr {n} (a : array n) : length (arr a) = n.
Proof. destruct a as [l p]. simpl. apply Is_true_true in p. by apply Nat.eqb_eq. Qed.

#[export] Instance array_eq_dec n : EqDecision (array n).
Proof.
  intros a b. destruct (decide (arr a = arr b)) as [H|H].
  - left. by apply array_eq.
  - right. congruence.
Defined.

(** [mk_array n l] is [l] cut or zero-padded to [n] bytes: [copy(a[:], l)] into a
    zero array [a]. *)
Definition pad (n : nat) (l : bytes) : bytes :=
  take n l ++ replicate (n - length l) Byte.x00.

Lemma length_pad n l : length (pad n l) = n.
Proof. unfold pad. rewrite length_app, length_take, length_replicate. lia. Qed.

Lemma pad_exact n l : length l = n → pad n l = l.
Proof.
  intros <-. unfold pad. by rewrite firstn_all, Nat.sub_diag, app_nil_r.
Qed.

Lemma pad_ok n l : Is_true (Nat.eqb (length (pad n l)) n).
Proof. apply Is_true_true. apply Nat.eqb_eq, length_pad. Qed.

Definition pad_array (n : nat) (l : bytes) : array n :=
  Array (pad n l) (canon _ (pad_ok n l)).

Definition zero_array (n : nat) : array n := pad_array n [].

Lemma pad_array_arr {n} (a : array n) : pad_array n (arr a) = a.
Proof. apply array_eq. simpl. apply pad_exact, length_arr. Qed.

#[export] Instance array_countable n : Countable (array n).
Proof.
  refine (inj_countable' arr (pad_array n) _). apply pad_array_arr.
Defined.

(** ** Errors, panics and results

    A Go function that returns an [error] and may panic returns a [res].  A
    panic is not recovered anywhere in the program, so it ends the process. *)

Inductive gerror :=
  | ErrorString (s : string)            (* errors.New / fmt.Errorf *)
  | ErrorWrap (s : string) (e : gerror) (* fmt.Errorf("...: %w", e) *)
  | EOF                                 (* io.EOF *)
  | ErrUnexpectedEOF                    (* io.ErrUnexpectedEOF *)
  | ErrKeyNotFound                      (* badger.ErrKeyNotFound *)
  | ErrLib (code : N).                  (* any other error of a library *)

#[export] Instance gerror_eq_dec : EqDecision gerror.
Proof. solve_decision. Defined.

(** [errors.Is(err, target)] follows the chain of wrapped errors. *)
Fixpoint errors_Is (err target : gerror) : bool :=
  bool_decide (err = target) ||
  match err with ErrorWrap _ e => errors_Is e target | _ => false end.

Inductive panic :=
  | PanicConvert (have want : nat)  (* slice to array conversion, slice too short *)
  | PanicIndex (i len : nat)        (* index out of range *)
  | PanicType                       (* failed type assertion x.(T) *)
  | PanicNil                        (* nil pointer or nil interface *)
  | PanicText (s : string)          (* panic("...") *)
  | Exit (code : Z).                (* os.Exit, log.Fatal: no panic, but the end as well *)

Inductive res (A : Type) : Type :=
  | Ok (a : A)
  | Err (e : gerror)
  | Panic (p : panic).
Arguments Ok {A} _.
Arguments Err {A} _.
Arguments Panic {A} _.

#[export] Instance res_ret : MRet res := @Ok.
#[export] Instance res_bind : MBind res := λ A B f m,
  match m with Ok a => f a | Err e => Err e | Panic p => Panic p end.

Definition is_panic {A} (r : res A) : bool :=
  match r with Panic _ => true | _ => false end.

(** ** Stateful code: state passing with an error result

    The state reached so far is kept when a function returns an error: Go does
    not roll anything back. *)

Definition M (S A : Type) : Type := S → res A * S.

#[export] Instance M_ret S : MRet (M S) := λ A a s, (Ok a, s).
#[export] Instance M_bind S : MBind (M S) := λ A B f m s,
  match m s with
  | (Ok a, s') => f a s'
  | (Err e, s') => (Err e, s')
  | (Panic p, s') => (Panic p, s')
  end.

Definition get_state {S} : M S S := λ s, (Ok s, s).
Definition put_state {S} (s : S) : M S unit := λ _, (Ok (), s).
Definition lift {S A} (r : res A) : M S A := λ s, (r, s).

(** [try m] is [x, err := m()] followed by a test of [err]: an error becomes a
    value, a panic goes on unwinding. *)
Definition try {S A} (m : M S A) : M S (A + gerror) := λ s,
  match m s with
  | (Ok a, s') => (Ok (inl a), s')
  | (Err e, s') => (Ok (inr e), s')
  | (Panic p, s') => (Panic p, s')
  end.

(** A computation on a part of the state. *)
Definition zoom {S T A} (get : S → T) (set : T → S → S) (m : M T A) : M S A := λ s,
  let '(a, t) := m (get s) in (a, set t s).
Definition on_fst {S T A} (m : M S A) : M (S * T) A :=
  zoom fst (λ s p, (s, p.2)) m.
Definition on_snd {S T A} (m : M T A) : M (S * T) A :=
  zoom snd (λ t p, (p.1, t)) m.

(** A conversion [[n]byte(s)] of a slice panics when the slice is shorter than
    [n], and takes its first [n] bytes when it is longer. *)
Definition to_array (n : nat) (s : bytes) : res (array n) :=
  if decide (length s < n) then Panic (PanicConvert (length s) n)
  else Ok (pad_array n s).

Lemma to_array_arr {n} (a : array n) : to_array n (arr a) = Ok a.
Proof.
  unfold to_array. rewrite decide_False by (rewrite length_arr; lia).
  by rewrite pad_array_arr.
Qed.

Lemma to_array_short n s : length s < n → to_array n s = Panic (PanicConvert (length s) n).
Proof. intros H. unfold to_array. by rewrite decide_True. Qed.

Lemma to_array_long n s : n <= length s → ∃ a, to_array n s = Ok a ∧ arr a = take n s.
Proof.
  intros H. unfold to_array. rewrite decide_False by lia.
  eexists. split; [done|]. simpl. unfold pad.
  by replace (n - length s) with 0 by lia; rewrite app_nil_r.
Qed.

(** ** Cutting a list into chunks of [n] *)

Fixpoint chunks_fuel {A} (fuel n : nat) (l : list A) : list (list A) :=
  match fuel, l with
  | S fuel, _ :: _ => take n l :: chunks_fuel fuel n (drop n l)
  | _, _ => []
  end.

Definition chunks {A} (n : nat) (l : list A) : list (list A) :=
  chunks_fuel (length l) n l.

Lemma concat_chunks_fuel {A} fuel n (l : list A) :
  0 < n → length l <= fuel → concat (chunks_fuel fuel n l) = l.
Proof.
  intros Hn. revert l. induction fuel as [|fuel IH]; intros [|x l] Hl; simpl in *;
    try done; [lia|].
  destruct n as [|n]; [lia|]. simpl in *. rewrite IH by (rewrite length_drop; lia).
  by rewrite take_drop.
Qed.

Lemma concat_chunks {A} n (l : list A) : 0 < n → concat (chunks n l) = l.
Proof. intros Hn. by apply concat_chunks_fuel. Qed.

Lemma chunks_fuel_length {A} fuel n (l c : list A) :
  c ∈ chunks_fuel fuel n l → length c <= n.
Proof.
  revert l. induction fuel as [|fuel IH]; intros [|x l]; simpl;
    try (by intros ?%elem_of_nil).
  intros [->|?]%elem_of_cons; [|by eapply IH].
  rewrite length_take. lia.
Qed.

Lemma chunks_length {A} n (l c : list A) : c ∈ chunks n l → length c <= n.
Proof. apply chunks_fuel_length. Qed.

(** ** Runs that end

    [ends_in R P x]: no run of [R] from [x] is infinite, and one that has not
    reached a state of [P] can go on; so every run from [x], whatever the
    scheduling, can only end in [P]. *)
Definition ends_in {A} (R : relation A) (P : A → Prop) (x : A) : Prop :=
  sn R x ∧ ∀ y, rtc R x y → red R y ∨ P y.

Lemma sn_measure {A} (R : relation A) (f : A → nat) x :
  (∀ y, rtc R x y → ∀ z, R y z → f z < f y) → sn R x.
Proof.
  intros Hf. remember (f x) as n eqn:En.
  assert (f x <= n) as Hn by lia. clear En. revert x Hf Hn.
  induction n as [|n IH]; intros x Hf Hn; constructor; intros y Hxy;
    pose proof (Hf x (rtc_refl _ _) y Hxy); [lia|].
  apply IH; [|lia]. intros y' Hy. apply Hf. by eapply rtc_l.
Qed.

Lemma ends_in_reached {A} (R : relation A) P x : ends_in R P x → ∃ y, rtc R x y ∧ P y.
Proof.
  intros [Hsn Hp]. induction Hsn as [x _ IH].
  destruct (Hp x (rtc_refl _ _)) as [[y Hy]|Hx]; [|by exists x; split; [apply rtc_refl|]].
  destruct (IH y Hy) as (z & Hz & Pz).
  - intros z Hz. apply Hp. by eapply rtc_l.
  - exists z. split; [by eapply rtc_l|done].
Qed.

Lemma rtc_ind_inv {A} (R : relation A) (I : A → Prop) x y :
  (∀ x y, R x y → I x → I y) → rtc R x y → I x → I y.
Proof. intros Hs. induction 1; eauto. Qed.

(** When every element can take finitely many steps, so can the list. *)
Definition list_step {A} (R : relation A) (l l' : list A) : Prop :=
  ∃ i x y, l !! i = Some x ∧ R x y ∧ l' = <[i := y]> l.

Lemma list_step_sn {A} (R : relation A) l : Forall (sn R) l → sn (list_step R) l.
Proof.
  induction 1 as [|x l Hx _ IH].
  { constructor. intros l' (i & x & y & Hi & _). done. }
  revert l IH. induction Hx as [x _ IHx]. intros l Hl. induction Hl as [l Hl IHl].
  constructor. intros l' ([|i] & a & b & Hi & Hab & ->); cbn in Hi |- *.
  - injection Hi as ->. apply IHx; [done|]. by constructor.
  - apply IHl. by exists i, a, b.
Qed.

Lemma sn_map {A B} (R : relation A) (Q : relation B) (f : A → B) x :
  (∀ x y, R x y → Q (f x) (f y)) → sn Q (f x) → sn R x.
Proof.
  intros Hf Hs. remember (f x) as b eqn:E. revert x E.
  induction Hs as [b _ IH]. intros x ->. constructor. intros y Hy. eapply IH; [|done]. by apply Hf.
Qed.

(** Two systems side by side. *)
Definition pair_step {A B} (R : relation A) (Q : relation B) (x y : A * B) : Prop :=
  (R x.1 y.1 ∧ y.2 = x.2) ∨ (y.1 = x.1 ∧ Q x.2 y.2).

Lemma pair_step_sn {A B} (R : relation A) (Q : relation B) a b :
  sn R a → sn Q b → sn (pair_step R Q) (a, b).
Proof.
  intros Ha. revert b. induction Ha as [a _ IHa]. intros b Hb. induction Hb as [b Hb IHb].
  constructor. intros [a' b'] [[Hr E]|[E Hq]]; cbn in *; subst; [|by apply IHb].
  apply IHa; [done|]. by constructor.
Qed.

Lemma lt_sn (n : nat) : sn (flip lt) n.
Proof. apply (sn_measure _ id). by intros. Qed.

(** ** Automation

    [run_M] unfolds the two monads and their operations, so that a run is a
    [match] on the calls it makes; [len] computes lengths and solves linear
    arithmetic with the length lemmas of the database [len]. *)
Ltac run_M := unfold mbind, M_bind, lift, try, get_state, put_state.

Create Rewrite HintDb len.
#[export] Hint Rewrite @length_arr @length_app @length_take @length_drop @length_replicate
  @length_fmap @length_insert length_be_put length_pad : len.
Ltac len := autorewrite with len in *; simpl length in *; lia.

(** A run whose result is known, with the state it leads to: the witnesses
    evaluate the result alone. *)
Lemma run_eq {S A} (m : M S A) (s : S) (r : res A) : (m s).1 = r → m s = (r, (m s).2).
Proof. intros <-. by destruct (m s). Qed.
