(* ===== verification/Utils.v ===== *)
(** * The buffer pool: pkg/utils/buffer_pool.go

    A [sync.Pool] of buffers of 64 KiB.  [Get] may return any buffer of the pool
    or make a new one, and the garbage collector may take buffers out of the
    pool at any time. *)

From Stdlib Require Import ZArith Lia.
From stdpp Require Import relations.
From S2P Require Import Prelude.

Definition MaxPacketSize : nat := Z.to_nat 65536.

(** [bp_pool] are the buffers in the pool, [bp_held] those that callers of
    [GetBuffer] have, each as often as it was got and not put back. *)
Record BufferPool := mkBufferPool {
  bp_pool : list nat;
  bp_held : list nat;
  bp_heap : gmap nat bytes;
  bp_next : nat
}.

Definition bufPool : BufferPool := mkBufferPool [] [] ∅ 0.

(** [choice] is the buffer that the pool gives, none when [New] is called. *)
Definition GetBuffer (choice : option nat) (p : BufferPool) : nat * BufferPool :=
  match b ← choice; l ← list_find (b =.) (bp_pool p); Some (b, l.1) with
  | Some (b, i) => (b, mkBufferPool (delete i (bp_pool p)) (bp_held p ++ [b]) (bp_heap p) (bp_next p))
  | None =>
      let b := bp_next p in
      (b, mkBufferPool (bp_pool p) (bp_held p ++ [b])
            (<[b := replicate MaxPacketSize Byte.x00]> (bp_heap p)) (S b))
  end.

(** The pool takes whatever it is given, and clears nothing. *)
Definition PutBuffer (b : nat) (p : BufferPool) : BufferPool :=
  mkBufferPool (b :: bp_pool p)
    (match list_find (b =.) (bp_held p) with Some (i, _) => delete i (bp_held p) | None => bp_held p end)
    (bp_heap p) (bp_next p).

(** Callers that give back what they have, and the garbage collector. *)
Inductive pool_step : BufferPool → BufferPool → Prop :=
| pl_get choice p : pool_step p (GetBuffer choice p).2
| pl_put b p : b ∈ bp_held p → pool_step p (PutBuffer b p)
| pl_write b data p :
    b ∈ bp_held p →
    pool_step p (mkBufferPool (bp_pool p) (bp_held p) (<[b := data]> (bp_heap p)) (bp_next p))
| pl_gc i p :
    pool_step p (mkBufferPool (delete i (bp_pool p)) (bp_held p) (bp_heap p) (bp_next p)).

Definition pool_inv (p : BufferPool) : Prop :=
  NoDup (bp_pool p ++ bp_held p) ∧ Forall (λ b, b < bp_next p) (bp_pool p ++ bp_held p).

Lemma find_eq (b : nat) l i x : list_find (b =.) l = Some (i, x) → l ≡ₚ b :: delete i l.
Proof.
  intros (Hi & <- & _)%list_find_Some. by rewrite <- delete_Permutation.
Qed.

Lemma sublist_inv p q :
  bp_next p = bp_next q → bp_pool q ++ bp_held q `sublist_of` bp_pool p ++ bp_held p →
  pool_inv p → pool_inv q.
Proof.
  intros E Hs [Hn Hf]. split; [by eapply sublist_NoDup|].
  rewrite <- E. rewrite Forall_forall in Hf. apply Forall_forall. intros x Hx. apply Hf.
  by eapply elem_of_sublist.
Qed.

Lemma perm_inv p q :
  bp_next p = bp_next q → bp_pool p ++ bp_held p ≡ₚ bp_pool q ++ bp_held q → pool_inv p → pool_inv q.
Proof. intros E Hp [Hn Hf]. split; [by rewrite <- Hp|]. by rewrite <- E, <- Hp. Qed.

Lemma pool_step_inv p q : pool_step p q → pool_inv p → pool_inv q.
Proof.
  destruct 1 as [choice p|b p Hb|b data p Hb|i p]; intros Hinv.
  - unfold GetBuffer. destruct (b ← choice; _) as [[b i]|] eqn:E; cbn [snd].
    + destruct choice as [c|]; [|done]. cbn in E.
      destruct (list_find (c =.) (bp_pool p)) as [[j x]|] eqn:Ef; [|done].
      injection E as <- <-. apply find_eq in Ef. apply (perm_inv p); [done| |exact Hinv]. cbn.
      rewrite app_assoc, <- Permutation_cons_append. by rewrite Ef at 1.
    + destruct Hinv as [Hn Hf]. split; cbn.
      * rewrite app_assoc. apply NoDup_app. split_and!; [done| |apply NoDup_singleton].
        intros x Hx%(proj1 (Forall_forall _ _) Hf) ->%list_elem_of_singleton. lia.
      * rewrite app_assoc. apply Forall_app. split; [|apply Forall_singleton; lia].
        eapply Forall_impl; [exact Hf|]. intros x. cbn. lia.
  - apply (perm_inv p); [done| |exact Hinv]. cbn.
    destruct (list_find (b =.) (bp_held p)) as [[i x]|] eqn:Ef.
    + apply find_eq in Ef. rewrite Ef at 1. by rewrite Permutation_middle.
    + apply list_find_None in Ef. rewrite Forall_forall in Ef. by apply Ef in Hb.
  - by apply (sublist_inv p).
  - apply (sublist_inv p); [done| |exact Hinv]. cbn.
    apply sublist_app; [apply sublist_delete|done].
Qed.

(** Buffers are not shared: as long as callers put back only what they hold,
    [GetBuffer] never returns a buffer that somebody has; but a buffer put back
    twice is then given to two callers, and a buffer comes back with what its
    last holder wrote. *)
Theorem buffers_exclusive (p : BufferPool) (choice : option nat)
    (Hrun : rtc pool_step bufPool p) :
  ((GetBuffer choice p).1 ∉ bp_held p)
  ∧ NoDup (bp_held (GetBuffer choice p).2)
  ∧ ∀ b, b ∈ bp_held p →
      let q := PutBuffer b (PutBuffer b p) in
      let '(x, q1) := GetBuffer (Some b) q in
      let '(y, q2) := GetBuffer (Some b) q1 in
      x = b ∧ y = b ∧ bp_heap q2 !! b = bp_heap p !! b.
Proof.
  assert (pool_inv p) as Hp.
  { apply (rtc_ind_inv pool_step pool_inv bufPool p); [apply pool_step_inv|exact Hrun|].
    split; [apply NoDup_nil_2|by apply Forall_nil]. }
  assert (pool_inv (GetBuffer choice p).2) as [Hq _] by (eapply pool_step_inv; [apply pl_get|done]).
  assert (bp_held (GetBuffer choice p).2 = bp_held p ++ [(GetBuffer choice p).1]) as Eh.
  { unfold GetBuffer. by destruct (b ← choice; _) as [[b i]|]. }
  apply NoDup_app in Hq as (_ & _ & Hq). split_and!; [|done|].
  - rewrite Eh in Hq. apply NoDup_app in Hq as (_ & Hd & _).
    intros Hin. apply (Hd _ Hin). by apply list_elem_of_singleton.
  - intros b _. cbn. unfold GetBuffer. cbn. rewrite !decide_True by done. cbn.
    rewrite decide_True by done. cbn. done.
Qed.

Lemma buffers_exclusive_witness :
  (GetBuffer (Some 0) (GetBuffer None bufPool).2).1 ∉ [0].
Proof.
  refine (proj1 (buffers_exclusive (GetBuffer None bufPool).2 (Some 0) _)).
  apply rtc_once. apply (pl_get None).
Defined.
