(* ===== verification/Sha2.v ===== *)
(** * The hash functions of the Go standard library the program calls

    [crypto/sha256] and [crypto/sha512] as FIPS 180-4 defines them, executable.
    The round constants are computed from the primes as the standard defines
    them.  Nothing here is proved about collisions: the theorems that need one
    to be absent say so about the byte strings at hand. *)

From Stdlib Require Import ZArith Lia.
From S2P Require Import Prelude.

Local Open Scope Z_scope.

(** The words of the fractional parts of square and cube roots of primes. *)
Definition prime_list (n : nat) : list Z :=
  take n (filter (λ p, forallb (λ d, negb (p mod d =? 0)) (seqZ 2 (Z.sqrt p - 1)))
            (seqZ 2 420)).

(** Integer cube root, one bit at a time. *)
Fixpoint cbrt (bit : nat) (x r : Z) : Z :=
  let r' := r + 2 ^ Z.of_nat bit in
  let r := if r' * r' * r' <=? x then r' else r in
  match bit with O => r | S bit => cbrt bit x r end.

Definition root_words (w : Z) (n : nat) : list Z :=
  map (λ p, Z.sqrt (p * 2 ^ (2 * w)) mod 2 ^ w) (prime_list n).
Definition cube_words (w : Z) (n : nat) : list Z :=
  map (λ p, cbrt (Z.to_nat w + 4) (p * 2 ^ (3 * w)) 0 mod 2 ^ w) (prime_list n).

Definition K256 : list Z := Eval vm_compute in cube_words 32 64.
Definition H256 : list Z := Eval vm_compute in root_words 32 8.
Definition K512 : list Z := Eval vm_compute in cube_words 64 80.
Definition H512 : list Z := Eval vm_compute in root_words 64 8.

(** ** The compression function, for a word of [w] bits and its rotations *)
Section sha2.
Context (w : Z) (big0 big1 small0 small1 : Z * Z * Z) (ks : list Z).

Definition add (x y : Z) : Z := (x + y) mod 2 ^ w.
Definition rotr (n x : Z) : Z :=
  Z.lor (Z.shiftr x n) (Z.shiftl (Z.land x (Z.ones n)) (w - n)).
Definition sigma3 (r : Z * Z * Z) (x : Z) : Z :=
  let '(i, j, k) := r in Z.lxor (rotr i x) (Z.lxor (rotr j x) (rotr k x)).
Definition sigma2 (r : Z * Z * Z) (x : Z) : Z :=
  let '(i, j, k) := r in Z.lxor (rotr i x) (Z.lxor (rotr j x) (Z.shiftr x k)).
Definition choose (e f g : Z) : Z := Z.lxor g (Z.land e (Z.lxor f g)).
Definition majority (a b c : Z) : Z :=
  Z.lor (Z.land a b) (Z.land c (Z.lor a b)).

(** [win] is the window of the sixteen schedule words still needed. *)
Fixpoint rounds (ks : list Z) (win : list Z) (st : list Z) : list Z :=
  match ks, win, st with
  | k :: ks, w0 :: win, [a; b; c; d; e; f; g; h] =>
      let t1 := add h (add (sigma3 big1 e) (add (choose e f g) (add k w0))) in
      let t2 := add (sigma3 big0 a) (majority a b c) in
      let w16 := add (sigma2 small1 (nth 13 win 0))
                     (add (nth 8 win 0) (add (sigma2 small0 (nth 0 win 0)) w0)) in
      rounds ks (win ++ [w16]) [add t1 t2; a; b; c; add d t1; e; f; g]
  | _, _, _ => st
  end.

Definition compress (st block : list Z) : list Z :=
  zip_with add st (rounds ks block st).

Definition wbytes : nat := Z.to_nat (w / 8).

Definition padding (n : nat) : bytes :=
  let bs := Z.of_nat (16 * wbytes) in
  let zeros := (bs - 1 - Z.of_nat (2 * wbytes) - Z.of_nat n) mod bs in
  Byte.x80 :: replicate (Z.to_nat zeros) Byte.x00
    ++ be_put (2 * wbytes) (8 * Z.of_nat n).

Definition blocks (msg : bytes) : list (list Z) :=
  chunks 16 (map be_get (chunks wbytes (msg ++ padding (length msg)))).

Definition digest (h0 : list Z) (msg : bytes) : bytes :=
  concat (map (be_put wbytes) (foldl compress h0 (blocks msg))).
End sha2.

(** [sha256.Sum256] *)
Definition sha256 (msg : bytes) : array 32 :=
  pad_array 32
    (digest 32 (2, 13, 22) (6, 11, 25) (7, 18, 3) (17, 19, 10) K256 H256 msg).

(** [sha512.Sum512] *)
Definition sha512 (msg : bytes) : array 64 :=
  pad_array 64
    (digest 64 (28, 34, 39) (14, 18, 41) (1, 8, 7) (19, 61, 6) K512 H512 msg).

(** Test vectors of FIPS 180-4 ("abc" and the empty string). *)
Example sha256_abc :
  be_get (arr (sha256 (str "abc")))
  = 0xba7816bf8f01cfea414140de5dae2223b00361a396177a9cb410ff61f20015ad.
Proof. vm_compute. reflexivity. Qed.

Example sha256_empty :
  be_get (arr (sha256 []))
  = 0xe3b0c44298fc1c149afbf4c8996fb92427ae41e4649b934ca495991b7852b855.
Proof. vm_compute. reflexivity. Qed.

Example sha256_two_blocks :
  be_get (arr (sha256 (str "abcdbcdecdefdefgefghfghighijhijkijkljklmklmnlmnomnopnopq")))
  = 0x248d6a61d20638b8e5c026930c3e6039a33ce45964ff2167f6ecedd419db06c1.
Proof. vm_compute. reflexivity. Qed.

Example sha512_abc :
  be_get (arr (sha512 (str "abc")))
  = 0xddaf35a193617abacc417349ae20413112e6fa4e89a97ea20a9eeee64b55d39a2192992a274fc1a836ba3c23a3feebbd454d4423643ce80e2a9ac94fa54ca49f.
Proof. vm_compute. reflexivity. Qed.

(** From here on the hash values are computed only by [vm_compute]. *)
#[global] Strategy 1000 [sha256 sha512 digest].
#[global] Arguments sha256 : simpl never.
#[global] Arguments sha512 : simpl never.
