(* ===== verification/Types.v ===== *)
(** * Identifiers: pkg/api/types/types.go

    The array types of identifiers and keys and the conversions between them.
    [uuid] (github.com/google/uuid) is a parameter. *)

From Stdlib Require Import ZArith Lia.
From stdpp Require Import pretty.
From S2P Require Import Prelude Sha2.

Definition PeerID : Type := array 32.
Definition SessionID : Type := array 16.
Definition MessageID : Type := array 16.
Definition ContentHash : Type := array 32.
Definition PeerPublicKey : Type := array 32.
Definition PeerPrivateKey : Type := array 64.

#[export] Instance PeerID_eq_dec : EqDecision PeerID := array_eq_dec 32.
#[export] Instance PeerID_countable : Countable PeerID := array_countable 32.
#[export] Instance SessionID_eq_dec : EqDecision SessionID := array_eq_dec 16.
#[export] Instance SessionID_countable : Countable SessionID := array_countable 16.

Definition ToPeerID (b : bytes) : res PeerID :=
  if negb (length b =? 32) then
    Err (ErrorString (String.append "wrong length: " (pretty (length b))))
  else Ok (pad_array 32 b).

Definition PeerPubKeyToID (pubKey : PeerPublicKey) : PeerID := sha256 (arr pubKey).

(** The last 32 bytes of an Ed25519 private key are its public key. *)
Definition PeerPrivateKeyToPublic (privKey : PeerPrivateKey) : PeerPublicKey :=
  pad_array 32 (drop 32 (arr privKey)).

(** ** github.com/google/uuid *)
Class Uuid := {
  uuid_FromBytes : bytes → array 16 + gerror;
  uuid_ParseBytes : bytes → array 16 + gerror
}.

(** Documented: [FromBytes] copies a slice of length 16 and fails on any other
    length; [ParseBytes] reads the textual forms, of 32, 36, 38 and 45 bytes. *)
Class UuidLaws `{Uuid} := {
  FromBytes_16 b : length b = 16 → uuid_FromBytes b = inl (pad_array 16 b);
  FromBytes_other b : length b ≠ 16 → ∃ e, uuid_FromBytes b = inr e;
  ParseBytes_length b u : uuid_ParseBytes b = inl u → length b ∈ [32; 36; 38; 45]
}.

(** A library call returns a value or an error, and does not panic. *)
Definition of_lib {A} (r : A + gerror) : res A :=
  match r with inl a => Ok a | inr e => Err e end.

Definition ParseMessageID `{Uuid} (data : bytes) : res MessageID :=
  match uuid_FromBytes data with
  | inr err => Err err
  | inl b => Ok b
  end.

(** ** Properties *)

Lemma ToPeerID_spec b :
  match ToPeerID b with
  | Ok id => length b = 32 ∧ arr id = b
  | Err _ => length b ≠ 32
  | Panic _ => False
  end.
Proof.
  unfold ToPeerID. destruct (Nat.eqb_spec (length b) 32) as [H|H]; simpl; [|done].
  split; [done|]. by apply pad_exact.
Qed.

Lemma PeerPrivateKeyToPublic_arr k : arr (PeerPrivateKeyToPublic k) = drop 32 (arr k).
Proof.
  simpl. apply pad_exact. rewrite length_drop, length_arr. done.
Qed.

Lemma ParseMessageID_16 `{UuidLaws} b : length b = 16 → ParseMessageID b = Ok (pad_array 16 b).
Proof. intros Hb. unfold ParseMessageID. by rewrite FromBytes_16. Qed.

Lemma ParseMessageID_other `{UuidLaws} b : length b ≠ 16 → ∃ e, ParseMessageID b = Err e.
Proof.
  intros [e He]%FromBytes_other. unfold ParseMessageID. rewrite He. eauto.
Qed.

(** A uuid library for the witnesses. *)
Module ToyUuid.
#[export] Instance uuid : Uuid := {
  uuid_FromBytes b := if length b =? 16 then inl (pad_array 16 b) else inr (ErrLib 1);
  uuid_ParseBytes b := inr (ErrLib 2)
}.
#[export] Instance laws : UuidLaws.
Proof.
  split; simpl; intros b.
  - intros ->. done.
  - intros H%Nat.eqb_neq. rewrite H. eauto.
  - done.
Qed.
End ToyUuid.
