(* ===== verification/Proto.v ===== *)
(** * Protobuf messages: the .pb.go files

    One record per message struct and one inductive type per [oneof], with the
    Go field widths.  The bookkeeping fields of the generated code ([state],
    [unknownFields], [sizeCache]) are left out, and a pointer to a sub-message
    is the sub-message: [proto.Unmarshal] allocates it and every literal of the
    program fills it.  [proto.Marshal] and [proto.Unmarshal] belong to
    google.golang.org/protobuf: the class [Codec]. *)

From Stdlib Require Import ZArith Lia.
From S2P Require Import Prelude.

(** ** internal/proto/message.pb.go *)

Record Envelope := mkEnvelope {
  Envelope_Data : bytes;
  Envelope_Signature : bytes;
  Envelope_PubKey : bytes
}.

Record HandshakeInit := mkHandshakeInit { HandshakeInit_Nonce : bytes }.

Record Ping := mkPing { Ping_Nonce : sint 64 }.

Record Ack := mkAck { Ack_RefMessageId : bytes }.

Record ChatMessage := mkChatMessage { ChatMessage_EncryptedPayload : bytes }.

Record PeerList_Peer := mkPeerList_Peer {
  PeerList_Peer_Id : bytes;
  PeerList_Peer_LastKnownAddr : string
}.

Record PeerList := mkPeerList { PeerList_Peers : list PeerList_Peer }.

Record Transaction := mkTransaction {
  Transaction_AssetId : bytes;
  Transaction_Amount : uint 64;
  Transaction_Memo : string
}.

Record HandshakeResponse := mkHandshakeResponse {
  HandshakeResponse_PubKey : bytes;
  HandshakeResponse_Signature : bytes;
  HandshakeResponse_Version : uint 32
}.

Record PeerInfo := mkPeerInfo {
  PeerInfo_PubKey : bytes;
  PeerInfo_Address : string
}.

Record PeerRequest := mkPeerRequest { PeerRequest_Count : uint 32 }.

Record PeerResponse := mkPeerResponse { PeerResponse_Peers : list PeerInfo }.

Inductive isMessageData_Payload :=
  | MessageData_HandshakeInit (HandshakeInit : HandshakeInit)
  | MessageData_Ping (Ping : Ping)
  | MessageData_Ack (Ack : Ack)
  | MessageData_ChatMessage (ChatMessage : ChatMessage)
  | MessageData_PeerList (PeerList : PeerList)
  | MessageData_Transfer (Transfer : Transaction)
  | MessageData_HandshakeResponse (HandshakeResponse : HandshakeResponse)
  | MessageData_PeerReq (PeerReq : PeerRequest)
  | MessageData_PeerRes (PeerRes : PeerResponse).

Record MessageData := mkMessageData {
  MessageData_MessageId : bytes;
  MessageData_OriginId : bytes;
  MessageData_TargetId : bytes;
  MessageData_Timestamp : uint 64;
  MessageData_HopLimit : uint 32;
  MessageData_Payload : option isMessageData_Payload
}.

(** [msg.Payload = p] and [msg.HopLimit = n] on a copy. *)
Definition set_HopLimit (m : MessageData) (n : uint 32) : MessageData :=
  mkMessageData (MessageData_MessageId m) (MessageData_OriginId m)
    (MessageData_TargetId m) (MessageData_Timestamp m) n (MessageData_Payload m).

#[export] Instance MessageData_eq_dec : EqDecision MessageData.
Proof.
  assert (EqDecision PeerList_Peer) by solve_decision.
  assert (EqDecision PeerInfo) by solve_decision.
  assert (EqDecision isMessageData_Payload).
  { assert (EqDecision HandshakeInit) by solve_decision.
    assert (EqDecision Ping) by solve_decision. assert (EqDecision Ack) by solve_decision.
    assert (EqDecision ChatMessage) by solve_decision.
    assert (EqDecision PeerList) by solve_decision.
    assert (EqDecision Transaction) by solve_decision.
    assert (EqDecision HandshakeResponse) by solve_decision.
    assert (EqDecision PeerRequest) by solve_decision.
    assert (EqDecision PeerResponse) by solve_decision. solve_decision. }
  solve_decision.
Defined.

(** ** internal/p2p/dht/dht.pb.go *)

Inductive MerkleNode_Type := MerkleNode_FILE_CHUNK | MerkleNode_META_LINK.

Record MerkleNode := mkMerkleNode {
  MerkleNode_type : MerkleNode_Type;
  MerkleNode_Data : bytes;
  MerkleNode_Links : list bytes;
  MerkleNode_Size : uint 64
}.

Module Dht.
Record PeerStoreEntry := mkPeerStoreEntry {
  PubKey : bytes;
  HashId : bytes;
  LastKnownAddr : string;
  LastSeen : uint 64;
  TrustScore : uint 32
}.
End Dht.

Record KBucket := mkKBucket {
  KBucket_Index : sint 32;
  KBucket_Peers : list Dht.PeerStoreEntry
}.

(** ** internal/storage/types.pb.go *)
Module Store.
Record PeerStoreEntry := mkPeerStoreEntry {
  PubKey : bytes;
  LastKnownAddr : string;
  LastSeen : uint 64;
  TrustScore : uint 32
}.
End Store.

(** ** internal/crypto/security_keys.pb.go *)
Record EncryptedPrivateKey := mkEncryptedPrivateKey {
  EncryptedPrivateKey_Salt : bytes;
  EncryptedPrivateKey_Nonce : bytes;
  EncryptedPrivateKey_EncryptedKey : bytes;
  EncryptedPrivateKey_Algorithm : string
}.

(** ** pkg/api/proto/content.pb.go *)
Record SessionInitRequest := mkSessionInitRequest {
  SessionInitRequest_RootHash : bytes;
  SessionInitRequest_DesiredStreams : uint 32;
  SessionInitRequest_ProtocolVersion : uint 32
}.

Record SessionInitResponse := mkSessionInitResponse {
  SessionInitResponse_Accepted : bool;
  SessionInitResponse_AllowedStreams : uint 32;
  SessionInitResponse_FileSize : uint 64;
  SessionInitResponse_SessionId : bytes
}.

Record ChunkRequest := mkChunkRequest {
  ChunkRequest_SessionId : bytes;
  ChunkRequest_ChunkHash : bytes
}.

Record ChunkResponse := mkChunkResponse {
  ChunkResponse_Data : bytes;
  ChunkResponse_Found : bool
}.

Inductive isContentMessage_Payload :=
  | ContentMessage_InitReq (InitReq : SessionInitRequest)
  | ContentMessage_InitRes (InitRes : SessionInitResponse)
  | ContentMessage_ChunkReq (ChunkReq : ChunkRequest)
  | ContentMessage_ChunkRes (ChunkRes : ChunkResponse).

Record ContentMessage := mkContentMessage {
  ContentMessage_Payload : option isContentMessage_Payload
}.

(** ** [proto.Marshal] and [proto.Unmarshal] *)
Class Codec (A : Type) := {
  marshal : A → bytes + gerror;
  unmarshal : bytes → A + gerror
}.

(** Documented: what [Marshal] writes, [Unmarshal] reads back.  ([Marshal] may
    refuse a message, one with a string that is not UTF-8 for instance.) *)
Class CodecLaws (A : Type) `{Codec A} := {
  unmarshal_marshal a bs : marshal a = inl bs → unmarshal bs = inl a
}.

Lemma marshal_inj `{CodecLaws A} (a b : A) bs :
  marshal a = inl bs → marshal b = inl bs → a = b.
Proof.
  intros Ha%unmarshal_marshal Hb%unmarshal_marshal. congruence.
Qed.
