(* ===== verification/ToyCodec.v ===== *)
(** * A concrete codec for the witnesses

    [proto.Marshal] is a parameter of the model ([Proto.Codec]).  The witnesses
    need one function that has its documented law: the serialisation below,
    fields one after the other, lengths in unary.  It is not the protobuf wire
    format and no definition of the model refers to it. *)

From Stdlib Require Import ZArith Lia.
From S2P Require Import Prelude Proto.

Class Ser (A : Type) := {
  ser : A → bytes;
  de : bytes → option (A * bytes);
  de_ser a rest : de (ser a ++ rest) = Some (a, rest)
}.

Fixpoint ser_nat (n : nat) : bytes :=
  match n with O => [Byte.x00] | S n => Byte.x01 :: ser_nat n end.
Fixpoint de_nat (l : bytes) : option (nat * bytes) :=
  match l with
  | Byte.x00 :: l => Some (0, l)
  | Byte.x01 :: l => '(n, l) ← de_nat l; Some (S n, l)
  | _ => None
  end.
#[export] Program Instance nat_ser : Ser nat := {| ser := ser_nat; de := de_nat |}.
Next Obligation. induction a as [|n IH]; intros rest; simpl; [done|]. by rewrite IH. Qed.

#[export] Program Instance byte_ser : Ser Byte.byte := {|
  ser b := [b];
  de l := match l with b :: l => Some (b, l) | [] => None end
|}.
Next Obligation. done. Qed.

#[export] Program Instance prod_ser `{Ser A, Ser B} : Ser (A * B) := {|
  ser p := ser p.1 ++ ser p.2;
  de l := '(a, l) ← de l; '(b, l) ← de l; Some ((a, b), l)
|}.
Next Obligation.
  intros A ? B ? [a b] rest. cbn. rewrite <- app_assoc, de_ser. simpl.
  by rewrite de_ser.
Qed.

Definition de_sum `{Ser A, Ser B} (l : bytes) : option ((A + B) * bytes) :=
  match l with
  | Byte.x00 :: l => '(a, l) ← de l; Some (inl a, l)
  | Byte.x01 :: l => '(b, l) ← de l; Some (inr b, l)
  | _ => None
  end.
#[export] Instance sum_ser `{Ser A, Ser B} : Ser (A + B).
Proof.
  refine {|
    ser s := match s with inl a => Byte.x00 :: ser a | inr b => Byte.x01 :: ser b end;
    de := de_sum
  |}.
  intros [a|b] rest; simpl; by rewrite de_ser.
Defined.

#[export] Program Instance unit_ser : Ser unit := {|
  ser _ := []; de l := Some ((), l)
|}.
Next Obligation. by intros []. Qed.

(** A type that injects into a serialisable one. *)
Definition iso_ser {A B} `{Ser B} (f : A → B) (g : B → A) (gf : ∀ a, g (f a) = a) : Ser A.
Proof.
  refine {| ser a := ser (f a); de l := '(b, l) ← de l; Some (g b, l) |}.
  intros a rest. rewrite de_ser. simpl. by rewrite gf.
Defined.

Fixpoint ser_items {A} `{Ser A} (l : list A) : bytes :=
  match l with [] => [] | x :: l => ser x ++ ser_items l end.
Fixpoint de_items {A} `{Ser A} (n : nat) (bs : bytes) : option (list A * bytes) :=
  match n with
  | O => Some ([], bs)
  | S n => '(x, bs) ← de bs; '(l, bs) ← de_items n bs; Some (x :: l, bs)
  end.
Lemma de_items_ser `{Ser A} (l : list A) rest :
  de_items (length l) (ser_items l ++ rest) = Some (l, rest).
Proof.
  induction l as [|x l IH]; simpl; [done|].
  rewrite <- app_assoc, de_ser. simpl. by rewrite IH.
Qed.

#[export] Instance list_ser `{Ser A} : Ser (list A).
Proof.
  refine {|
    ser l := ser (length l) ++ ser_items l;
    de bs := '(n, bs) ← de bs; de_items n bs
  |}.
  intros l rest. rewrite <- app_assoc, de_ser. apply de_items_ser.
Defined.

#[export] Instance option_ser `{Ser A} : Ser (option A).
Proof.
  refine (iso_ser (λ o, match o with None => inl () | Some a => inr a end)
            (λ s, match s with inl _ => None | inr a => Some a end) _).
  by intros [].
Defined.

#[export] Instance bool_ser : Ser bool.
Proof.
  refine (iso_ser (λ b : bool, if b then inl () else inr ())
            (λ s : () + (), match s with inl _ => true | inr _ => false end) _).
  by intros [].
Defined.

(** A 64-bit number in eight bytes, other naturals by their bits. *)
Fixpoint pos_bits (p : positive) : bytes :=
  match p with xH => [] | xO p => Byte.x00 :: pos_bits p | xI p => Byte.x01 :: pos_bits p end.
Fixpoint bits_pos (l : bytes) : positive :=
  match l with
  | [] => xH
  | Byte.x00 :: l => xO (bits_pos l)
  | _ :: l => xI (bits_pos l)
  end.
#[export] Instance N_ser : Ser N.
Proof.
  refine (iso_ser (λ n, pos_bits (N.succ_pos n)) (λ l, Pos.pred_N (bits_pos l)) _).
  intros n. rewrite <- (N.pos_pred_succ n) at 2. f_equal.
  generalize (N.succ_pos n). intros p. induction p; simpl; congruence.
Defined.

#[export] Instance uint_ser w : Ser (uint w).
Proof.
  refine (iso_ser (λ u, Z.to_N (uv u)) (λ n, mk_uint w (Z.of_N n)) _).
  intros u. rewrite Z2N.id by apply uint_range. apply mk_uint_uv.
Defined.
#[export] Instance sint_ser w : Ser (sint w).
Proof. refine (iso_ser sbits SInt _). by intros []. Defined.
#[export] Instance Z_ser : Ser Z.
Proof.
  refine (iso_ser (λ z, (bool_decide (0 <= z)%Z, Z.to_N (Z.abs z)))
            (λ '(b, n), if b : bool then Z.of_N n else (- Z.of_N n)%Z) _).
  intros z. case_bool_decide; lia.
Defined.
#[export] Instance string_ser : Ser string.
Proof.
  refine (iso_ser String.list_byte_of_string String.string_of_list_byte _).
  apply String.string_of_list_byte_of_string.
Defined.

(** ** The messages *)

Ltac ser_record f g := refine (iso_ser f g _); by intros [].

#[export] Instance Envelope_ser : Ser Envelope.
Proof.
  ser_record (λ m, (Envelope_Data m, Envelope_Signature m, Envelope_PubKey m))
    (λ '(a, b, c), mkEnvelope a b c).
Defined.
#[export] Instance PeerInfo_ser : Ser PeerInfo.
Proof.
  ser_record (λ m, (PeerInfo_PubKey m, PeerInfo_Address m)) (λ '(a, b), mkPeerInfo a b).
Defined.
#[export] Instance PeerList_Peer_ser : Ser PeerList_Peer.
Proof.
  ser_record (λ m, (PeerList_Peer_Id m, PeerList_Peer_LastKnownAddr m))
    (λ '(a, b), mkPeerList_Peer a b).
Defined.

#[export] Instance Payload_ser : Ser isMessageData_Payload.
Proof.
  refine (iso_ser
    (λ p : isMessageData_Payload, match p with
     | MessageData_HandshakeInit m => inl (inl (inl (HandshakeInit_Nonce m)))
     | MessageData_Ping m => inl (inl (inr (Ping_Nonce m)))
     | MessageData_Ack m => inl (inr (inl (Ack_RefMessageId m)))
     | MessageData_ChatMessage m => inl (inr (inr (ChatMessage_EncryptedPayload m)))
     | MessageData_PeerList m => inr (inl (inl (PeerList_Peers m)))
     | MessageData_Transfer m =>
         inr (inl (inr (Transaction_AssetId m, Transaction_Amount m, Transaction_Memo m)))
     | MessageData_HandshakeResponse m =>
         inr (inr (inl (HandshakeResponse_PubKey m, HandshakeResponse_Signature m,
                        HandshakeResponse_Version m)))
     | MessageData_PeerReq m => inr (inr (inr (inl (PeerRequest_Count m))))
     | MessageData_PeerRes m => inr (inr (inr (inr (PeerResponse_Peers m))))
     end)
    (λ s, match s with
     | inl (inl (inl a)) => MessageData_HandshakeInit (mkHandshakeInit a)
     | inl (inl (inr a)) => MessageData_Ping (mkPing a)
     | inl (inr (inl a)) => MessageData_Ack (mkAck a)
     | inl (inr (inr a)) => MessageData_ChatMessage (mkChatMessage a)
     | inr (inl (inl a)) => MessageData_PeerList (mkPeerList a)
     | inr (inl (inr (a, b, c))) => MessageData_Transfer (mkTransaction a b c)
     | inr (inr (inl (a, b, c))) =>
         MessageData_HandshakeResponse (mkHandshakeResponse a b c)
     | inr (inr (inr (inl a))) => MessageData_PeerReq (mkPeerRequest a)
     | inr (inr (inr (inr a))) => MessageData_PeerRes (mkPeerResponse a)
     end) _).
  by intros [[]|[]|[]|[]|[]|[]|[]|[]|[]].
Defined.

#[export] Instance MessageData_ser : Ser MessageData.
Proof.
  ser_record
    (λ m, (MessageData_MessageId m, MessageData_OriginId m, MessageData_TargetId m,
           MessageData_Timestamp m, MessageData_HopLimit m, MessageData_Payload m))
    (λ '(a, b, c, d, e, f), mkMessageData a b c d e f).
Defined.

#[export] Instance MerkleNode_Type_ser : Ser MerkleNode_Type.
Proof.
  refine (iso_ser
    (λ t, match t with MerkleNode_FILE_CHUNK => false | MerkleNode_META_LINK => true end)
    (λ b : bool, if b then MerkleNode_META_LINK else MerkleNode_FILE_CHUNK) _).
  by intros [].
Defined.
#[export] Instance MerkleNode_ser : Ser MerkleNode.
Proof.
  ser_record (λ m, (MerkleNode_type m, MerkleNode_Data m, MerkleNode_Links m, MerkleNode_Size m))
    (λ '(a, b, c, d), mkMerkleNode a b c d).
Defined.
#[export] Instance DhtEntry_ser : Ser Dht.PeerStoreEntry.
Proof.
  ser_record (λ m, (Dht.PubKey m, Dht.HashId m, Dht.LastKnownAddr m, Dht.LastSeen m,
                    Dht.TrustScore m))
    (λ '(a, b, c, d, e), Dht.mkPeerStoreEntry a b c d e).
Defined.
#[export] Instance KBucket_ser : Ser KBucket.
Proof.
  ser_record (λ m, (KBucket_Index m, KBucket_Peers m)) (λ '(a, b), mkKBucket a b).
Defined.
#[export] Instance StoreEntry_ser : Ser Store.PeerStoreEntry.
Proof.
  ser_record (λ m, (Store.PubKey m, Store.LastKnownAddr m, Store.LastSeen m,
                    Store.TrustScore m))
    (λ '(a, b, c, d), Store.mkPeerStoreEntry a b c d).
Defined.
#[export] Instance EncryptedPrivateKey_ser : Ser EncryptedPrivateKey.
Proof.
  ser_record (λ m, (EncryptedPrivateKey_Salt m, EncryptedPrivateKey_Nonce m,
                    EncryptedPrivateKey_EncryptedKey m, EncryptedPrivateKey_Algorithm m))
    (λ '(a, b, c, d), mkEncryptedPrivateKey a b c d).
Defined.
#[export] Instance ContentMessage_ser : Ser ContentMessage.
Proof.
  refine (iso_ser
    (λ m, (λ p : isContentMessage_Payload, match p with
      | ContentMessage_InitReq m =>
          inl (inl (SessionInitRequest_RootHash m, SessionInitRequest_DesiredStreams m,
                    SessionInitRequest_ProtocolVersion m))
      | ContentMessage_InitRes m =>
          inl (inr (SessionInitResponse_Accepted m, SessionInitResponse_AllowedStreams m,
                    SessionInitResponse_FileSize m, SessionInitResponse_SessionId m))
      | ContentMessage_ChunkReq m => inr (inl (ChunkRequest_SessionId m, ChunkRequest_ChunkHash m))
      | ContentMessage_ChunkRes m => inr (inr (ChunkResponse_Data m, ChunkResponse_Found m))
      end) <$> ContentMessage_Payload m)
    (λ o, mkContentMessage ((λ s, match s with
      | inl (inl (a, b, c)) => ContentMessage_InitReq (mkSessionInitRequest a b c)
      | inl (inr (a, b, c, d)) => ContentMessage_InitRes (mkSessionInitResponse a b c d)
      | inr (inl (a, b)) => ContentMessage_ChunkReq (mkChunkRequest a b)
      | inr (inr (a, b)) => ContentMessage_ChunkRes (mkChunkResponse a b)
      end) <$> o)) _).
  by intros [[[[]|[]|[]|[]]|]].
Defined.

(** ** The codec of a serialisable type; trailing bytes are refused. *)
#[export] Instance codec_of_ser `{Ser A} : Codec A := {
  marshal a := inl (ser a);
  unmarshal bs := match de bs with Some (a, []) => inl a | _ => inr (ErrLib 10) end
}.

#[export] Instance codec_of_ser_laws `{Ser A} : CodecLaws A.
Proof.
  split. intros a bs [= <-]. simpl.
  rewrite <- (app_nil_r (ser a)), de_ser. done.
Qed.
