(* ===== verification/Json.v ===== *)
(** * The text of encoding/json

    What the configuration uses of Go's encoding/json and unicode/utf8: the
    text that [MarshalIndent] writes for a tree of values ([Json.print]) and the
    tree that [Unmarshal] reads in a text ([Json.parse]), as a lexer and a
    push-down parser in the manner of the package's scanner.  The recursion of
    both is on their input, so there is no fuel.  [Json.parse_print] is the
    round trip. *)

From Stdlib Require Import ZArith Lia.
From S2P Require Import Prelude.

(** ** UTF-8 *)
Module Utf8.

Definition between (lo hi : Z) (b : Byte.byte) : bool := (lo <=? bZ b)%Z && (bZ b <? hi)%Z.
Definition ascii (b : Byte.byte) : bool := (bZ b <? 128)%Z.
Definition cont : Byte.byte → bool := between 128 192.

(** The runes of two, three and four bytes: no overlong form, no surrogate,
    nothing above U+10FFFF. *)
Definition two (b c : Byte.byte) : bool := between 194 224 b && cont c.
Definition three (b c d : Byte.byte) : bool :=
  between 224 240 b && cont c && cont d && negb ((bZ b =? 224)%Z && (bZ c <? 160)%Z)
  && negb ((bZ b =? 237)%Z && (160 <=? bZ c)%Z).
Definition four (b c d e : Byte.byte) : bool :=
  between 240 245 b && cont c && cont d && cont e && negb ((bZ b =? 240)%Z && (bZ c <? 144)%Z)
  && negb ((bZ b =? 244)%Z && (144 <=? bZ c)%Z).

(** How many bytes of continuation follow the first one; 0 if [DecodeRune]
    answers [RuneError]. *)
Definition multibyte (l : bytes) : nat :=
  match l with
  | b :: c :: l =>
      if two b c then 1
      else match l with
      | d :: l =>
          if three b c d then 2
          else match l with e :: _ => if four b c d e then 3 else 0 | [] => 0 end
      | [] => 0
      end
  | _ => 0
  end.

(** [utf8.Valid]; the first [k] bytes belong to a rune that was looked at. *)
Fixpoint valid_from (k : nat) (l : bytes) : bool :=
  match l, k with
  | [], _ => true
  | _ :: l, S k => valid_from k l
  | b :: l, O =>
      if ascii b then valid_from 0 l
      else match multibyte (b :: l) with O => false | n => valid_from n l end
  end.

Definition utf8_valid (l : bytes) : bool := valid_from 0 l.

(** [utf8.EncodeRune] *)
Definition encode_rune (r : Z) : bytes :=
  (if r <? 128 then [Zb r]
   else if r <? 2048 then [Zb (192 + r / 64); Zb (128 + r mod 64)]
   else if r <? 65536 then [Zb (224 + r / 4096); Zb (128 + r / 64 mod 64); Zb (128 + r mod 64)]
   else [Zb (240 + r / 262144); Zb (128 + r / 4096 mod 64); Zb (128 + r / 64 mod 64);
         Zb (128 + r mod 64)])%Z.

(** [utf8.RuneError] *)
Definition replacement : bytes := encode_rune 65533.

(** Text that is valid, rune by rune. *)
Inductive utf8 : bytes → Prop :=
| utf8_nil : utf8 []
| utf8_ascii b l : ascii b = true → utf8 l → utf8 (b :: l)
| utf8_rune b r l :
    ascii b = false → r ≠ [] → multibyte (b :: r) = length r → utf8 l → utf8 (b :: r ++ l).

Lemma multibyte_split b l n :
  multibyte (b :: l) = S n →
  ∃ r l', l = r ++ l' ∧ length r = S n ∧ multibyte (b :: r) = S n.
Proof.
  intros E. exists (take (S n) l), (drop (S n) l).
  rewrite take_drop. split; [done|]. revert E.
  destruct l as [|c [|d [|e l]]]; cbn; [done| | |];
    (destruct (two b c) eqn:E2; [intros [= <-]; cbn; by rewrite ?E2|]); [done| |];
    (destruct (three b c d) eqn:E3; [intros [= <-]; cbn; by rewrite ?E2, ?E3|]); [done|].
  destruct (four b c d e) eqn:E4; [intros [= <-]; cbn; by rewrite ?E2, ?E3, ?E4|done].
Qed.

Lemma multibyte_app b r l :
  r ≠ [] → multibyte (b :: r) = length r → multibyte (b :: r ++ l) = length r.
Proof.
  destruct r as [|c [|d [|e [|f r]]]]; cbn; intros ?; [done|..];
    destruct (two b c); try done; destruct (three b c d); try done;
    destruct (four b c d e); done.
Qed.

Lemma valid_from_app r l : valid_from (length r) (r ++ l) = valid_from 0 l.
Proof. by induction r. Qed.

Lemma valid_from_cons b l :
  valid_from 0 (b :: l)
  = if ascii b then valid_from 0 l
    else match multibyte (b :: l) with O => false | n => valid_from n l end.
Proof. done. Qed.

Lemma utf8_valid_utf8 l : utf8_valid l = true → utf8 l.
Proof.
  unfold utf8_valid. induction l as [[|b l] IH] using (well_founded_induction (well_founded_ltof _ length));
    [constructor|]. rewrite valid_from_cons. destruct (ascii b) eqn:Ea.
  { intros Hv. constructor; [done|]. apply IH; [unfold ltof; cbn; lia|done]. }
  destruct (multibyte (b :: l)) as [|k] eqn:Em; [done|]. intros Hv.
  apply multibyte_split in Em as (r & l' & -> & Hr & Em). rewrite <- Hr in Hv, Em.
  rewrite valid_from_app in Hv. apply utf8_rune; [done|by destruct r|done|].
  apply IH; [unfold ltof; cbn; rewrite length_app; lia|done].
Qed.
End Utf8.

(** ** JSON *)
Module Json.
Import Utf8.

Inductive json :=
| J_null
| J_bool (b : bool)
| J_num (lit : bytes)       (* a number is kept as it is written *)
| J_str (s : bytes)
| J_arr (l : list json)
| J_obj (l : list (bytes * json)).

(** *** Characters *)
Definition quote_mark : Byte.byte := Byte.x22.
Definition backslash : Byte.byte := Byte.x5c.
Definition newline : Byte.byte := Byte.x0a.

Definition isspace (b : Byte.byte) : bool := bool_decide (b ∈ [Byte.x20; Byte.x09; Byte.x0d; newline]).
Definition numchar (b : Byte.byte) : bool := bool_decide (b ∈ str "0123456789+-.eE").
Definition digit (b : Byte.byte) : bool := between 48 58 b.

Definition hex_digits : bytes := str "0123456789abcdef".
Definition hex (z : Z) : Byte.byte := nth (Z.to_nat z) hex_digits Byte.x30.
Definition unhex (b : Byte.byte) : option Z :=
  if digit b then Some (bZ b - 48)%Z
  else if between 97 103 b then Some (bZ b - 87)%Z
  else if between 65 71 b then Some (bZ b - 55)%Z
  else None.

(** *** The writer *)

(** [appendString] with the escapes for HTML. *)
Definition html_safe (b : Byte.byte) : bool :=
  between 32 128 b && bool_decide (b ∉ [quote_mark; backslash] ++ str "<>&").

Definition escape (b : Byte.byte) : bytes :=
  if html_safe b then [b]
  else if bool_decide (b = quote_mark ∨ b = backslash) then [backslash; b]
  else if bool_decide (b = Byte.x08) then str "\b"
  else if bool_decide (b = Byte.x0c) then str "\f"
  else if bool_decide (b = newline) then str "\n"
  else if bool_decide (b = Byte.x0d) then str "\r"
  else if bool_decide (b = Byte.x09) then str "\t"
  else str "\u00" ++ [hex (bZ b / 16); hex (bZ b mod 16)].

(** U+2028 and U+2029 are escaped too. *)
Definition separator (l : bytes) : option Byte.byte :=
  match l with
  | b :: c :: d :: _ =>
      if bool_decide (b = Byte.xe2 ∧ c = Byte.x80 ∧ (d = Byte.xa8 ∨ d = Byte.xa9))
      then Some (hex (bZ d mod 16)) else None
  | _ => None
  end.

(** The next [k] bytes belong to a rune that was looked at; they are copied if
    [copy] is set. *)
Fixpoint quote_from (copy : bool) (k : nat) (l : bytes) : bytes :=
  match l, k with
  | [], _ => []
  | b :: l, S k => (if copy then [b] else []) ++ quote_from copy k l
  | b :: l, O =>
      if ascii b then escape b ++ quote_from true 0 l
      else match separator (b :: l) with
      | Some h => str "\u202" ++ [h] ++ quote_from false 2 l
      | None =>
          match multibyte (b :: l) with
          | O => str "\ufffd" ++ quote_from true 0 l
          | n => b :: quote_from true n l
          end
      end
  end.

Definition quote (s : bytes) : bytes := [quote_mark] ++ quote_from true 0 s ++ [quote_mark].

(** [strconv.AppendInt] of an integer with at most 20 digits. *)
Fixpoint digits (fuel : nat) (z : Z) : bytes :=
  match fuel with
  | S fuel => if (z <? 10)%Z then [Zb (48 + z)] else digits fuel (z / 10) ++ [Zb (48 + z mod 10)]
  | O => [Zb (48 + z)]
  end.
Definition show_int (z : Z) : bytes :=
  if (z <? 0)%Z then str "-" ++ digits 19 (- z) else digits 19 z.

(** The items with something between them. *)
Definition sep_concat {A} (sep : list A) (items : list (list A)) : list A :=
  match items with
  | [] => []
  | x :: items => x ++ concat (List.map (λ y, sep ++ y) items)
  end.

(** [appendIndent] with no prefix and two spaces: a line for each item, nothing
    between the brackets of an empty value. *)
Definition new_line (depth : nat) : bytes := newline :: replicate (2 * depth) Byte.x20.
Definition bracket (o c : Byte.byte) (depth : nat) (items : list bytes) : bytes :=
  match items with
  | [] => [o; c]
  | _ => [o] ++ new_line (S depth) ++ sep_concat (str "," ++ new_line (S depth)) items
         ++ new_line depth ++ [c]
  end.

Fixpoint print (j : json) (depth : nat) : bytes :=
  match j with
  | J_null => str "null"
  | J_bool b => if b then str "true" else str "false"
  | J_num lit => lit
  | J_str s => quote s
  | J_arr l => bracket Byte.x5b Byte.x5d depth (List.map (λ x, print x (S depth)) l)
  | J_obj l =>
      bracket Byte.x7b Byte.x7d depth
        (List.map (λ m, quote m.1 ++ str ": " ++ print m.2 (S depth)) l)
  end.

(** *** The reader: tokens *)

Inductive token :=
| T_open_obj | T_close_obj | T_open_arr | T_close_arr | T_colon | T_comma
| T_null | T_bool (b : bool) | T_num (lit : bytes) | T_str (s : bytes).

Fixpoint drop_digits (l : bytes) : bytes :=
  match l with
  | [] => []
  | b :: l' => if digit b then drop_digits l' else l
  end.

(** The grammar of numbers, from the exponent, from the fraction, from the
    beginning. *)
Definition expo_ok (l : bytes) : bool :=
  match l with
  | [] => true
  | e :: l =>
      bool_decide (e ∈ str "eE")
      && match match l with s :: l' => if bool_decide (s ∈ str "+-") then l' else l | [] => [] end with
         | d :: l => digit d && bool_decide (drop_digits l = [])
         | [] => false
         end
  end.
Definition frac_ok (l : bytes) : bool :=
  match l with
  | p :: l' =>
      if bool_decide (p = Byte.x2e)
      then match l' with d :: l' => digit d && expo_ok (drop_digits l') | [] => false end
      else expo_ok l
  | [] => true
  end.
Definition number_ok (l : bytes) : bool :=
  match match l with s :: l' => if bool_decide (s = Byte.x2d) then l' else l | [] => [] end with
  | d :: l =>
      if bool_decide (d = Byte.x30) then frac_ok l else digit d && frac_ok (drop_digits l)
  | [] => false
  end.

(** The character after a backslash; ["u"] is treated apart. *)
Definition unescape (e : Byte.byte) : option Byte.byte :=
  if bool_decide (e ∈ [quote_mark; backslash; Byte.x2f]) then Some e
  else if bool_decide (e = Byte.x62) then Some Byte.x08
  else if bool_decide (e = Byte.x66) then Some Byte.x0c
  else if bool_decide (e = Byte.x6e) then Some newline
  else if bool_decide (e = Byte.x72) then Some Byte.x0d
  else if bool_decide (e = Byte.x74) then Some Byte.x09
  else None.

Definition hex4 (a b c d : Byte.byte) : option Z :=
  a ← unhex a; b ← unhex b; c ← unhex c; d ← unhex d;
  Some (((a * 16 + b) * 16 + c) * 16 + d)%Z.

(** [utf16.DecodeRune] of the surrogates [r1] and [r2]. *)
Definition surrogate (r : Z) : bool := (55296 <=? r)%Z && (r <? 57344)%Z.
Definition decode_pair (r1 r2 : Z) : option Z :=
  if ((55296 <=? r1) && (r1 <? 56320) && (56320 <=? r2) && (r2 <? 57344))%Z
  then Some ((r1 - 55296) * 1024 + (r2 - 56320) + 65536)%Z else None.

(** A rune in front of the string that the rest of the text begins with. *)
Definition emit (r : bytes) (m : option (bytes * list token)) : option (bytes * list token) :=
  '(s, ts) ← m; Some (r ++ s, ts).

Definition punctuation (b : Byte.byte) : option token :=
  if bool_decide (b = Byte.x7b) then Some T_open_obj
  else if bool_decide (b = Byte.x7d) then Some T_close_obj
  else if bool_decide (b = Byte.x5b) then Some T_open_arr
  else if bool_decide (b = Byte.x5d) then Some T_close_arr
  else if bool_decide (b = Byte.x3a) then Some T_colon
  else if bool_decide (b = Byte.x2c) then Some T_comma
  else None.

(** The number [num] that the lexer has collected, before the tokens [ts]. *)
Definition flush (num : bytes) (ts : option (list token)) : option (list token) :=
  match num with
  | [] => ts
  | _ => if number_ok num then cons (T_num num) <$> ts else None
  end.

(** [lex num l] are the tokens of [l] after the characters [num] of a number;
    [lex_str k l] is the rest of a string and the tokens after it, the next [k]
    bytes belonging to a rune that was looked at. *)
Fixpoint lex (num : bytes) (l : bytes) {struct l} : option (list token) :=
  match l with
  | [] => flush num (Some [])
  | b :: l =>
      if numchar b then lex (num ++ [b]) l
      else flush num
        (if isspace b then lex [] l
         else if bool_decide (b = quote_mark)
         then '(s, ts) ← lex_str 0 l; Some (T_str s :: ts)
         else match punctuation b with
         | Some t => cons t <$> lex [] l
         | None =>
             match l with
             | c :: d :: e :: l =>
                 if bool_decide ([b; c; d; e] = str "null") then cons T_null <$> lex [] l
                 else if bool_decide ([b; c; d; e] = str "true") then cons (T_bool true) <$> lex [] l
                 else match l with
                 | f :: l =>
                     if bool_decide ([b; c; d; e; f] = str "false")
                     then cons (T_bool false) <$> lex [] l else None
                 | [] => None
                 end
             | _ => None
             end
         end)
  end
with lex_str (k : nat) (l : bytes) {struct l} : option (bytes * list token) :=
  match l with
  | [] => None
  | b :: l =>
      match k with
      | S k => emit [b] (lex_str k l)
      | O =>
          if bool_decide (b = quote_mark) then ts ← lex [] l; Some ([], ts)
          else if bool_decide (b = backslash) then
            match l with
            | e :: l =>
                match unescape e with
                | Some c => emit [c] (lex_str 0 l)
                | None =>
                    match l with
                    | h1 :: h2 :: h3 :: h4 :: l =>
                        if bool_decide (e = Byte.x75) then
                          match hex4 h1 h2 h3 h4 with
                          | None => None
                          | Some r =>
                              if surrogate r then
                                match l with
                                | s :: u :: g1 :: g2 :: g3 :: g4 :: l' =>
                                    match (if bool_decide ([s; u] = str "\u")
                                           then r2 ← hex4 g1 g2 g3 g4; decode_pair r r2
                                           else None) with
                                    | Some r => emit (encode_rune r) (lex_str 0 l')
                                    | None => emit replacement (lex_str 0 l)
                                    end
                                | _ => emit replacement (lex_str 0 l)
                                end
                              else emit (encode_rune r) (lex_str 0 l)
                          end
                        else None
                    | _ => None
                    end
                end
            | [] => None
            end
          else if (bZ b <? 32)%Z then None
          else if ascii b then emit [b] (lex_str 0 l)
          else match multibyte (b :: l) with
          | O => emit replacement (lex_str 0 l)
          | n => emit [b] (lex_str n l)
          end
      end
  end.

(** *** The reader: values *)

(** The value that is open around the place of the parser. *)
Inductive frame :=
| F_arr (done : list json)
| F_obj (done : list (bytes * json)) (key : bytes).

Inductive place :=
| Value (st : list frame)          (* a value comes *)
| Value_or_end (st : list frame)   (* after "[" *)
| Key_or_end (st : list frame)     (* after "{" *)
| Key (done : list (bytes * json)) (st : list frame)
| Colon (done : list (bytes * json)) (key : bytes) (st : list frame)
| After (v : json) (st : list frame).

(** [maxNestingDepth] *)
Definition max_depth : Z := 10000.
Definition too_deep (st : list frame) : bool := (max_depth <? Z.of_nat (S (length st)))%Z.

Definition begin_value (st : list frame) (t : token) : option place :=
  match t with
  | T_null => Some (After J_null st)
  | T_bool b => Some (After (J_bool b) st)
  | T_num lit => Some (After (J_num lit) st)
  | T_str s => Some (After (J_str s) st)
  | T_open_arr => if too_deep st then None else Some (Value_or_end st)
  | T_open_obj => if too_deep st then None else Some (Key_or_end st)
  | _ => None
  end.

Definition place_step (p : place) (t : token) : option place :=
  match p, t with
  | Value st, _ => begin_value st t
  | Value_or_end st, T_close_arr => Some (After (J_arr []) st)
  | Value_or_end st, _ => begin_value (F_arr [] :: st) t
  | Key_or_end st, T_close_obj => Some (After (J_obj []) st)
  | Key_or_end st, T_str k => Some (Colon [] k st)
  | Key done st, T_str k => Some (Colon done k st)
  | Colon done k st, T_colon => Some (Value (F_obj done k :: st))
  | After v (F_arr done :: st), T_comma => Some (Value (F_arr (done ++ [v]) :: st))
  | After v (F_arr done :: st), T_close_arr => Some (After (J_arr (done ++ [v])) st)
  | After v (F_obj done k :: st), T_comma => Some (Key (done ++ [(k, v)]) st)
  | After v (F_obj done k :: st), T_close_obj => Some (After (J_obj (done ++ [(k, v)])) st)
  | _, _ => None
  end.

Fixpoint run (p : place) (ts : list token) : option place :=
  match ts with
  | [] => Some p
  | t :: ts => p ← place_step p t; run p ts
  end.

(** The whole text is one value. *)
Definition parse (l : bytes) : option json :=
  ts ← lex [] l;
  p ← run (Value []) ts;
  match p with After v [] => Some v | _ => None end.

Definition sample : json :=
  J_obj [(str "a<", J_arr [J_num (show_int (-120)); J_null; J_str (str "x")]);
         (str "", J_obj []); (str "b", J_bool true)].
Example parse_sample : parse (print sample 0) = Some sample.
Proof. vm_compute. reflexivity. Qed.
Example parse_spaces : parse (str " [ 1 , -2.5e+3,{}] ") = Some (J_arr [J_num (str "1"); J_num (str "-2.5e+3"); J_obj []]).
Proof. vm_compute. reflexivity. Qed.
Example parse_pair : parse (str "[" ++ [quote_mark] ++ str "\ud83d\ude00\ud83d\/" ++ [quote_mark] ++ str "]")
  = Some (J_arr [J_str ([Byte.xf0; Byte.x9f; Byte.x98; Byte.x80] ++ replacement ++ str "/")]).
Proof. vm_compute. reflexivity. Qed.
Example parse_bad : parse (str "[01]") = None ∧ parse (str "[1,]") = None ∧ parse (str "") = None
  ∧ parse (str "nul") = None ∧ parse (str "1 2") = None ∧ parse (str "{}}") = None.
Proof. by vm_compute. Qed.

(** ** The round trip *)

Lemma json_tree_ind (P : json → Prop)
    (Hnull : P J_null) (Hbool : ∀ b, P (J_bool b)) (Hnum : ∀ lit, P (J_num lit))
    (Hstr : ∀ s, P (J_str s)) (Harr : ∀ l, Forall P l → P (J_arr l))
    (Hobj : ∀ l, Forall (λ m, P m.2) l → P (J_obj l)) :
  ∀ j, P j.
Proof.
  fix IH 1. intros [|b|lit|s|l|l]; [apply Hnull|apply Hbool|apply Hnum|apply Hstr| |].
  - apply Harr. induction l as [|x l IHl]; constructor; [apply IH|apply IHl].
  - apply Hobj. induction l as [|[k x] l IHl]; constructor; [apply IH|apply IHl].
Qed.

(** How deep a value is nested. *)
Fixpoint height (j : json) : nat :=
  match j with
  | J_arr l => S (max_list (List.map height l))
  | J_obj l => S (max_list (List.map (λ m, height m.2) l))
  | _ => 0
  end.

(** Strings are UTF-8 and numbers are numbers. *)
Inductive well_formed : json → Prop :=
| wf_null : well_formed J_null
| wf_bool b : well_formed (J_bool b)
| wf_num lit : number_ok lit = true → Forall (λ b, numchar b = true) lit → well_formed (J_num lit)
| wf_str s : utf8 s → well_formed (J_str s)
| wf_arr l : Forall well_formed l → well_formed (J_arr l)
| wf_obj l : Forall (λ m, utf8 m.1 ∧ well_formed m.2) l → well_formed (J_obj l).

Fixpoint tokens (j : json) : list token :=
  match j with
  | J_null => [T_null]
  | J_bool b => [T_bool b]
  | J_num lit => [T_num lit]
  | J_str s => [T_str s]
  | J_arr l => T_open_arr :: sep_concat [T_comma] (List.map tokens l) ++ [T_close_arr]
  | J_obj l =>
      T_open_obj :: sep_concat [T_comma] (List.map (λ m, T_str m.1 :: T_colon :: tokens m.2) l)
      ++ [T_close_obj]
  end.

(** *** The parser reads the tokens of a tree *)

Lemma run_app p ts1 ts2 : run p (ts1 ++ ts2) = p' ← run p ts1; run p' ts2.
Proof.
  revert p. induction ts1 as [|t ts1 IH]; intros p; cbn; [done|].
  destruct (place_step p t); [apply IH|done].
Qed.

Lemma not_too_deep (st : list frame) n : (Z.of_nat (S n + length st) <= max_depth)%Z → too_deep st = false.
Proof. intros H. apply Z.ltb_ge. lia. Qed.

(** What the parser does with the tokens of [j] in front of any others. *)
Definition read_by (j : json) : Prop :=
  ∀ st ts, (Z.of_nat (height j + length st) <= max_depth)%Z →
  run (Value st) (tokens j ++ ts) = run (After j st) ts.

Lemma run_elements l front st ts v :
  Forall read_by l → (Z.of_nat (S (max_list (List.map height l)) + length st) <= max_depth)%Z →
  run (After v (F_arr front :: st))
    (concat (List.map (λ y, [T_comma] ++ y) (List.map tokens l)) ++ T_close_arr :: ts)
  = run (After (J_arr (front ++ v :: l)) st) ts.
Proof.
  intros Hl. revert front v. induction Hl as [|x l Hx _ IH]; intros front v Hd; [done|].
  cbn [List.map concat app run place_step mbind option_bind] in *.
  rewrite <- app_assoc, Hx by (cbn in *; lia).
  rewrite IH by (cbn in *; lia). by rewrite <- app_assoc.
Qed.

Lemma run_members l front st ts k v :
  Forall (λ m, read_by m.2) l →
  (Z.of_nat (S (max_list (List.map (λ m, height m.2) l)) + length st) <= max_depth)%Z →
  run (After v (F_obj front k :: st))
    (concat (List.map (λ y, [T_comma] ++ y)
              (List.map (λ m : bytes * json, T_str m.1 :: T_colon :: tokens m.2) l)) ++ T_close_obj :: ts)
  = run (After (J_obj (front ++ (k, v) :: l)) st) ts.
Proof.
  intros Hl. revert front k v. induction Hl as [|[k' x] l Hx _ IH]; intros front k v Hd; [done|].
  cbn [List.map concat app run place_step mbind option_bind fst snd] in *.
  rewrite <- app_assoc, Hx by (cbn in *; lia).
  rewrite IH by (cbn in *; lia). by rewrite <- app_assoc.
Qed.

(** After "[" a value may begin as anywhere else. *)
Lemma run_first x st ts :
  run (Value_or_end st) (tokens x ++ ts) = run (Value (F_arr [] :: st)) (tokens x ++ ts).
Proof. by destruct x. Qed.

Lemma run_tokens j : read_by j.
Proof.
  induction j as [|b|lit|s|l Hl|l Hl] using json_tree_ind; intros st ts Hd; try done;
    cbn [tokens app run place_step begin_value mbind option_bind].
  - rewrite (not_too_deep st (max_list (List.map height l))) by (cbn in *; lia).
    destruct Hl as [|x l Hx Hl]; [done|]. cbn [List.map sep_concat]. rewrite <- !app_assoc.
    cbn [mbind option_bind app]. rewrite run_first, Hx by (cbn in *; lia). by rewrite run_elements by (cbn in *; (done || lia)).
  - rewrite (not_too_deep st (max_list (List.map (λ m, height m.2) l))) by (cbn in *; lia).
    destruct Hl as [|[k x] l Hx Hl]; [done|]. cbn [List.map sep_concat]. rewrite <- !app_assoc.
    cbn [app run place_step mbind option_bind fst snd] in *.
    rewrite Hx by (cbn in *; lia). by rewrite run_members by (cbn in *; (done || lia)).
Qed.

(** *** The lexer reads the tokens of a printed tree *)

(** The text does not go on with a number. *)
Definition clean (l : bytes) : Prop := match l with [] => True | b :: _ => numchar b = false end.

(** The text [l] is read as the tokens [ts] in front of any text; one that ends
    in a number needs a clean one there. *)
Definition lexes (number : bool) (l : bytes) (ts : list token) : Prop :=
  ∀ rest, (number = true → clean rest) → lex [] (l ++ rest) = app ts <$> lex [] rest.

Lemma lexes_nil : lexes false [] [].
Proof. intros rest _. cbn. by destruct (lex [] rest). Qed.

Lemma lexes_app n1 n2 l1 l2 ts1 ts2 :
  lexes n1 l1 ts1 → lexes n2 l2 ts2 → (n1 = true → clean l2 ∧ l2 ≠ []) →
  lexes n2 (l1 ++ l2) (ts1 ++ ts2).
Proof.
  intros H1 H2 Hc rest Hr.
  assert (n1 = true → clean (l2 ++ rest)) by (intros [E Hn]%Hc; by destruct l2).
  rewrite <- app_assoc, H1, H2 by done. destruct (lex [] rest); cbn; by rewrite <- ?app_assoc.
Qed.

Lemma lexes_weaken n l ts : lexes false l ts → lexes n l ts.
Proof. intros H rest _. by apply H. Qed.

Lemma lexes_spaces l : Forall (λ b, isspace b = true) l → lexes false l [].
Proof.
  intros Hl rest _. induction Hl as [|b l Hb _ IH]; [by apply lexes_nil|].
  etransitivity; [|exact IH]. by destruct b.
Qed.

Lemma lexes_cons b t l ts n :
  numchar b = false → isspace b = false → b ≠ quote_mark → punctuation b = Some t →
  lexes n l ts → lexes n (b :: l) (t :: ts).
Proof.
  intros Hb Hs Hq Hp Hl rest Hr. cbn [app lex]. rewrite Hb, Hs, bool_decide_false, Hp, Hl by done.
  cbn [flush]. by destruct (lex [] rest).
Qed.

Lemma lex_number lit rest :
  Forall (λ b, numchar b = true) lit → ∀ num, lex num (lit ++ rest) = lex (num ++ lit) rest.
Proof.
  induction 1 as [|b lit Hb _ IH]; intros num; cbn [app]; [by rewrite app_nil_r|].
  cbn [lex]. rewrite Hb, IH. by rewrite <- app_assoc.
Qed.

Lemma lex_flush num rest : clean rest → lex num rest = flush num (lex [] rest).
Proof. destruct rest as [|b rest]; [done|]. cbn [clean lex]. by intros ->. Qed.

Lemma lexes_number lit :
  number_ok lit = true → Forall (λ b, numchar b = true) lit → lexes true lit [T_num lit].
Proof.
  intros Hok Hl rest Hr. rewrite lex_number by done. rewrite lex_flush by auto.
  cbn [app]. unfold flush. rewrite Hok. by destruct lit.
Qed.

(** *** Strings *)

Lemma emit_emit a b m : emit a (emit b m) = emit (a ++ b) m.
Proof. destruct m as [[s ts]|]; cbn; [by rewrite app_assoc|done]. Qed.

Lemma lex_str_ascii b l : ascii b = true → lex_str 0 (escape b ++ l) = emit [b] (lex_str 0 l).
Proof. by destruct b. Qed.

Lemma lex_str_copy r l : lex_str (length r) (r ++ l) = emit r (lex_str 0 l).
Proof.
  induction r as [|b r IH]; cbn [length app lex_str]; [by destruct (lex_str 0 l) as [[]|]|].
  by rewrite IH, emit_emit.
Qed.

Lemma lex_str_rune b r l :
  ascii b = false → r ≠ [] → multibyte (b :: r) = length r →
  lex_str 0 (b :: r ++ l) = emit (b :: r) (lex_str 0 l).
Proof.
  intros Ha Hr Hm. pose proof (multibyte_app b r l Hr Hm) as E. cbn [lex_str].
  rewrite E, Ha. destruct r as [|c r]; [done|]. cbn [length].
  rewrite (lex_str_copy (c :: r)), emit_emit. unfold ascii in Ha. apply Z.ltb_ge in Ha.
  rewrite !bool_decide_false by (intros ->; by cbv in Ha).
  rewrite (proj2 (Z.ltb_ge _ _)) by lia. done.
Qed.

Lemma quote_from_copy r l : quote_from true (length r) (r ++ l) = r ++ quote_from true 0 l.
Proof. induction r as [|b r IH]; cbn; [done|by rewrite IH]. Qed.

Lemma quote_from_start copy l : quote_from copy 0 l = quote_from true 0 l.
Proof. by destruct l. Qed.

(** The two line separators. *)
Lemma separator_rune b r l h :
  r ≠ [] → multibyte (b :: r) = length r → separator (b :: r ++ l) = Some h →
  ∃ d, (d = Byte.xa8 ∨ d = Byte.xa9) ∧ h = hex (bZ d mod 16) ∧ b = Byte.xe2 ∧ r = [Byte.x80; d].
Proof.
  intros Hr Hm. destruct r as [|c [|d r]]; [done| |]; cbn [app separator].
  - destruct l as [|d l]; [done|]. case_bool_decide as Hd; [|done].
    by destruct Hd as (-> & -> & _).
  - case_bool_decide as Hd; [|done]. intros [= <-]. destruct Hd as (-> & -> & Hd). exists d.
    split_and!; [done..|]. destruct r; [done|]. by destruct Hd as [-> | ->].
Qed.

Lemma quote_from_rune b r l rest :
  ascii b = false → r ≠ [] → multibyte (b :: r) = length r →
  lex_str 0 (quote_from true 0 (b :: r ++ l) ++ rest)
  = emit (b :: r) (lex_str 0 (quote_from true 0 l ++ rest)).
Proof.
  intros Ha Hr Hm. cbn [quote_from]. rewrite Ha. destruct (separator (b :: r ++ l)) as [h|] eqn:Es.
  - apply separator_rune in Es as (d & Hd & -> & -> & ->); [|done..].
    cbn [app quote_from]. rewrite quote_from_start. by destruct Hd as [-> | ->].
  - rewrite multibyte_app by done. destruct (length r) eqn:El; [by destruct r|].
    rewrite <- El, quote_from_copy. cbn [app]. rewrite <- app_assoc. apply lex_str_rune; congruence.
Qed.

Lemma lex_str_quote s rest :
  utf8 s → lex_str 0 (quote_from true 0 s ++ rest) = emit s (lex_str 0 rest).
Proof.
  induction 1 as [|b l Ha _ IH|b r l Ha Hr Hm _ IH].
  - cbn [quote_from app]. by destruct (lex_str 0 rest) as [[]|].
  - cbn [quote_from]. by rewrite Ha, <- app_assoc, lex_str_ascii, IH, emit_emit.
  - by rewrite quote_from_rune, IH, emit_emit by done.
Qed.

Lemma lexes_quote s : utf8 s → lexes false (quote s) [T_str s].
Proof.
  intros Hs rest _. unfold quote. cbn [app]. rewrite <- app_assoc.
  transitivity ('(s, ts) ← lex_str 0 (quote_from true 0 s ++ quote_mark :: rest);
                Some (T_str s :: ts)); [done|].
  rewrite lex_str_quote by done. cbn [lex_str]. rewrite bool_decide_true by done.
  destruct (lex [] rest); cbn; by rewrite ?app_nil_r.
Qed.

(** *** Values *)

Lemma lexes_punctuation b t n l ts :
  punctuation b = Some t → lexes n l ts → lexes n (b :: l) (t :: ts).
Proof. intros Hp. apply lexes_cons; [by destruct b..|done]. Qed.

Lemma lexes_new_line d n l ts : lexes n l ts → lexes n (new_line d ++ l) ts.
Proof.
  intros Hl. apply (lexes_app false n _ l [] ts); [|done..].
  apply lexes_spaces. constructor; [done|]. apply Forall_replicate. done.
Qed.

(** What follows the first item of an array or an object. *)
Lemma lexes_items c tc d items tss :
  punctuation c = Some tc → Forall2 (lexes true) items tss →
  let l := concat (List.map (λ y, (str "," ++ new_line (S d)) ++ y) items) ++ new_line d ++ [c] in
  clean l ∧ l ≠ []
  ∧ lexes false l (concat (List.map (λ y, [T_comma] ++ y) tss) ++ [tc]).
Proof.
  intros Hc Hl. cbn zeta. induction Hl as [|x ts items tss Hx _ (Hcl & Hne & IH)].
  - split_and!; [done..|]. apply lexes_new_line, lexes_punctuation; [done|apply lexes_nil].
  - split_and!; [done..|]. cbn [List.map concat]. rewrite <- !app_assoc.
    apply lexes_punctuation; [done|]. apply lexes_new_line.
    eapply lexes_app; [exact Hx|exact IH|done].
Qed.

Lemma lexes_bracket o c to tc d items tss :
  punctuation o = Some to → punctuation c = Some tc → Forall2 (lexes true) items tss →
  lexes false (bracket o c d items) (to :: sep_concat [T_comma] tss ++ [tc]).
Proof.
  intros Ho Hc Hl. destruct Hl as [|x ts items tss Hx Hl].
  - by repeat (apply lexes_punctuation; [done|]); apply lexes_nil.
  - unfold bracket, sep_concat. cbn [app]. apply lexes_punctuation; [done|].
    apply (lexes_new_line (S d)). rewrite <- !app_assoc.
    destruct (lexes_items c tc d items tss Hc Hl) as (Hcl & Hne & Hi).
    eapply lexes_app; [exact Hx|exact Hi|done].
Qed.

Lemma lexes_print j : well_formed j → ∀ d, lexes true (print j d) (tokens j).
Proof.
  induction j as [|b|lit|s|l IH|l IH] using json_tree_ind; intros Hj d;
    inversion Hj as [| |? Hok Hnum|? Hs|? Hl|? Hl]; subst.
  - apply lexes_weaken. intros rest _. cbn. by destruct (lex [] rest).
  - apply lexes_weaken. intros rest _. destruct b; cbn; by destruct (lex [] rest).
  - by apply lexes_number.
  - by apply lexes_weaken, lexes_quote.
  - apply lexes_weaken. cbn [print tokens]. apply lexes_bracket; [done..|].
    apply Forall2_fmap, Forall_Forall2_diag, Forall_forall. intros x Hx.
    rewrite Forall_forall in IH, Hl. auto.
  - apply lexes_weaken. cbn [print tokens]. apply lexes_bracket; [done..|].
    apply Forall2_fmap, Forall_Forall2_diag, Forall_forall. intros [k x] Hx.
    rewrite Forall_forall in IH, Hl. destruct (Hl _ Hx) as [Hk Hv].
    apply (lexes_app false true _ _ [T_str k]); [by apply lexes_quote| |done].
    apply (lexes_punctuation _ T_colon); [done|].
    apply (lexes_app false true (str " ") _ [] _); [| |done].
    + apply lexes_spaces. by repeat constructor.
    + exact (IH _ Hx Hv (S d)).
Qed.

(** Everything that is written is read back. *)
Lemma parse_print j :
  well_formed j → (Z.of_nat (height j) <= max_depth)%Z → parse (print j 0) = Some j.
Proof.
  intros Hj Hh. unfold parse. rewrite <- (app_nil_r (print j 0)), lexes_print by done.
  cbn [lex flush fmap option_fmap option_map mbind option_bind].
  rewrite (run_tokens j []) by (cbn; lia). done.
Qed.

(** *** Integers *)

(** [strconv.ParseUint] and [ParseInt] of the characters of a number, before
    the test of the range. *)
Definition decimal (l : bytes) : Z := foldl (λ a b, a * 10 + (bZ b - 48))%Z 0%Z l.
Definition ParseUint (l : bytes) : option Z :=
  if bool_decide (l ≠ []) && forallb digit l then Some (decimal l) else None.
Definition ParseInt (l : bytes) : option Z :=
  match l with
  | b :: l' => if bool_decide (b = Byte.x2d) then Z.opp <$> ParseUint l' else ParseUint l
  | [] => None
  end.

Lemma digit_char z : (0 <= z < 10)%Z → digit (Zb (48 + z)) = true ∧ bZ (Zb (48 + z)) = (48 + z)%Z.
Proof.
  intros Hz. assert (bZ (Zb (48 + z)) = (48 + z)%Z) as E.
  { rewrite bZ_Zb. apply Z.mod_small. lia. }
  split; [|done]. unfold digit, between. rewrite E.
  apply andb_true_iff. split; [apply Z.leb_le|apply Z.ltb_lt]; lia.
Qed.

(** The digits of an integer: its value, and no leading zero. *)
Lemma digits_spec fuel z :
  (0 <= z < 10 ^ Z.of_nat (S fuel))%Z →
  Forall (λ b, digit b = true) (digits fuel z) ∧ decimal (digits fuel z) = z
  ∧ ∃ d l, digits fuel z = d :: l ∧ (0 < z → d ≠ Byte.x30)%Z ∧ (z = 0 → l = [])%Z.
Proof.
  assert (∀ z, (0 <= z < 10)%Z →
    Forall (λ b, digit b = true) [Zb (48 + z)] ∧ decimal [Zb (48 + z)] = z
    ∧ ∃ d l, [Zb (48 + z)] = d :: l ∧ (0 < z → d ≠ Byte.x30)%Z ∧ (z = 0 → l = [])%Z) as Hone.
  { intros x Hx. destruct (digit_char x Hx) as [Hd E]. split_and!; [by constructor| |].
    - unfold decimal. cbn -[bZ Zb Z.mul Z.add]. rewrite E. lia.
    - do 2 eexists. split_and!; [done| |done]. intros Hp E0. rewrite E0 in E. cbn in E. lia. }
  revert z. induction fuel as [|fuel IH]; intros z Hz; [by apply Hone|]. cbn [digits].
  destruct (Z.ltb_spec z 10) as [Hlt|Hge]; [apply Hone; lia|].
  rewrite (Nat2Z.inj_succ (S fuel)), Z.pow_succ_r in Hz by lia.
  assert (0 <= z / 10 < 10 ^ Z.of_nat (S fuel))%Z as Hq.
  { split; [apply Z.div_pos; lia|apply Z.div_lt_upper_bound; lia]. }
  assert (1 <= z / 10)%Z as Hq1 by (apply Z.div_le_lower_bound; lia).
  pose proof (Z.mod_pos_bound z 10 ltac:(lia)) as Hr.
  destruct (digit_char _ Hr) as [Hd E]. destruct (IH _ Hq) as (Hf & Hv & d & l & Eq & Hd0 & _).
  split_and!.
  - apply Forall_app. split; [done|by constructor].
  - unfold decimal in *. rewrite foldl_snoc, Hv, E. pose proof (Z.div_mod z 10). lia.
  - rewrite Eq. exists d, (l ++ [Zb (48 + z mod 10)]). split_and!; [done|intros _; apply Hd0; lia|lia].
Qed.

Lemma digit_numchar b : digit b = true → numchar b = true ∧ b ≠ Byte.x2d.
Proof. by destruct b. Qed.

Lemma drop_digits_all l : Forall (λ b, digit b = true) l → drop_digits l = [].
Proof. induction 1 as [|b l Hb _ IH]; cbn; [done|by rewrite Hb]. Qed.

Definition small (z : Z) : Prop := (Z.abs z < 10 ^ 20)%Z.

Lemma small_64 z : (- 2 ^ 63 <= z < 2 ^ 64)%Z → small z.
Proof.
  unfold small. intros Hz. change (2 ^ 63)%Z with 9223372036854775808%Z in Hz.
  change (2 ^ 64)%Z with 18446744073709551616%Z in Hz.
  change (10 ^ 20)%Z with 100000000000000000000%Z. lia.
Qed.

Lemma digits_number z :
  (0 <= z)%Z → small z →
  ParseUint (digits 19 z) = Some z ∧ well_formed (J_num (digits 19 z))
  ∧ well_formed (J_num (str "-" ++ digits 19 z))
  ∧ ∃ d l, digits 19 z = d :: l ∧ d ≠ Byte.x2d.
Proof.
  intros Hz Hs. destruct (digits_spec 19 z) as (Hf & Hv & d & l & E & Hd & Hl).
  { unfold small in Hs. rewrite Z.abs_eq in Hs by done. by split. }
  assert (ParseUint (digits 19 z) = Some z) as Hp.
  { unfold ParseUint. rewrite Hv, E, bool_decide_true by done. rewrite <- E.
    rewrite (proj2 (List.forallb_forall digit _)); [done|].
    intros b Hb%list_elem_of_In. by rewrite Forall_forall in Hf; apply Hf. }
  rewrite E in *. apply Forall_cons in Hf as [Hd1 Hf]. destruct (digit_numchar d Hd1) as [Hn Hm].
  assert (number_ok (str "-" ++ d :: l) = true) as Hok.
  { transitivity (if bool_decide (d = Byte.x30) then frac_ok l
                  else digit d && frac_ok (drop_digits l)); [done|]. case_bool_decide as Hz0; [|by rewrite Hd1, drop_digits_all].
    destruct (Z.eq_dec z 0%Z) as [->|]; [by rewrite Hl|]. destruct Hd; [lia|done]. }
  assert (Forall (λ b, numchar b = true) (d :: l)) as Hc.
  { constructor; [done|]. eapply Forall_impl; [exact Hf|]. by intros b [? _]%digit_numchar. }
  split_and!; [done| | |eauto].
  - constructor; [|done]. rewrite <- Hok. unfold number_ok at 1. by rewrite (bool_decide_false (d = _)) by done.
  - constructor; [done|]. by constructor.
Qed.

Lemma show_int_roundtrip z : small z → ParseInt (show_int z) = Some z ∧ well_formed (J_num (show_int z)).
Proof.
  intros Hs. unfold show_int. destruct (Z.ltb_spec z 0).
  - destruct (digits_number (- z)) as (Hp & _ & Hw & _); [lia|unfold small in *; lia|].
    split; [|done]. transitivity (Z.opp <$> ParseUint (digits 19 (- z))); [done|]. rewrite Hp. cbn. by rewrite Z.opp_involutive.
  - destruct (digits_number z) as (Hp & Hw & _ & d & l & E & Hd); [lia|done|].
    split; [|done]. unfold ParseInt. rewrite E in *. by rewrite bool_decide_false.
Qed.

Lemma show_uint_roundtrip z : (0 <= z)%Z → small z → ParseUint (show_int z) = Some z.
Proof.
  intros Hz Hs. unfold show_int. destruct (Z.ltb_spec z 0); [lia|]. by apply digits_number.
Qed.
End Json.
