(* ===== verification/Config.v ===== *)
(** * The configuration: internal/config/standard_peers.go

    Defaults, and the file they are read from and written to.  The operating
    system's files are the class [FileSystem]; path/filepath is written out for
    Unix, and so is what encoding/json does with the structure: the struct tags
    are the tables of fields below, the text is that of [Json]. *)

From Stdlib Require Import ZArith Lia.
From S2P Require Import Prelude Types Json.

(** ** path/filepath *)
Module Filepath.
Definition slash : Byte.byte := Byte.x2f.
Definition dot : Byte.byte := Byte.x2e.

(** The elements between the slashes. *)
Fixpoint split (l : bytes) : list bytes :=
  match l with
  | [] => [[]]
  | b :: l =>
      match split l with
      | x :: xs => if decide (b = slash) then [] :: x :: xs else (b :: x) :: xs
      | [] => [[b]]
      end
  end.

Definition join (parts : list bytes) : bytes :=
  match parts with
  | [] => []
  | p :: ps => p ++ concat ((λ x, slash :: x) <$> ps)
  end.

(** [Clean]: no empty element and no ".", and ".." only in front; [out] is what
    is kept, the last element first. *)
Fixpoint clean_parts (rooted : bool) (parts out : list bytes) : list bytes :=
  match parts with
  | [] => reverse out
  | p :: parts =>
      if decide (p = [] ∨ p = [dot]) then clean_parts rooted parts out
      else if decide (p = [dot; dot]) then
        match out with
        | x :: out' =>
            if decide (x = [dot; dot]) then clean_parts rooted parts (p :: out)
            else clean_parts rooted parts out'
        | [] => clean_parts rooted parts (if rooted then [] else [p])
        end
      else clean_parts rooted parts (p :: out)
  end.

Definition Clean (path : bytes) : bytes :=
  let rooted := match path with b :: _ => bool_decide (b = slash) | [] => false end in
  let out := join (clean_parts rooted (split path) []) in
  if rooted then slash :: out else match out with [] => [dot] | _ => out end.

(** Leading empty elements are dropped. *)
Fixpoint Join_bytes (elem : list bytes) : bytes :=
  match elem with
  | [] => []
  | [] :: elem => Join_bytes elem
  | elem => Clean (join elem)
  end.

Definition Join (elem : list string) : string :=
  String.string_of_list_byte (Join_bytes (str <$> elem)).

Example join_home : Join ["/root/"; ".echofog"] = "/root/.echofog".
Proof. reflexivity. Qed.
Example join_empty : Join [""; "Downloads"; "EchoFog"] = "Downloads/EchoFog".
Proof. reflexivity. Qed.
Example clean_dots : Join ["/a/./b//../c"; "../.."; "x"] = "/x".
Proof. reflexivity. Qed.
Example clean_up : Join ["a/../.."; "b"] = "../b".
Proof. reflexivity. Qed.
End Filepath.

(** ** The structure *)

Definition CurrentProtocolVersion : uint 32 := mk_uint 32 100.
Definition DefaultConfigName : string := "echofog.json".
Definition AppName : string := "EchoFog".

(** The nested structs flattened; [int] has 64 bits.  A slice may be nil. *)
Record AppConfig := mkAppConfig {
  Callsign : string;                 (* Identity *)
  KeyPath : string;
  ListenAddr : string;               (* Network *)
  BootstrapNodes : option (list string);
  cfg_MaxConnections : sint 64;
  ProtocolVersion : uint 32;
  EnableMDNS : bool;
  DatabasePath : string;             (* Storage *)
  DownloadsDir : string;
  AnonymousMode : bool;              (* Security *)
  HideTraffic : bool
}.

Definition zero_AppConfig : AppConfig :=
  mkAppConfig "" "" "" None (mk_sint 64 0) (mk_uint 32 0) false "" "" false false.

(** The defaults for a home directory. *)
Definition default_config (home : string) : AppConfig :=
  let appDir := Filepath.Join [home; ".echofog"] in
  mkAppConfig "" (Filepath.Join [appDir; "identity.key"])
    ":0" None (mk_sint 64 100) CurrentProtocolVersion true
    (Filepath.Join [appDir; "db"]) (Filepath.Join [home; "Downloads"; "EchoFog"])
    false false.

(** ** The operating system *)
Class FileSystem (F : Type) := {
  os_Stat : string → F → option gerror;
  os_IsNotExist : gerror → bool;
  os_ReadFile : string → F → bytes + gerror;
  os_WriteFile : string → bytes → F → option gerror * F;
  os_MkdirAll : string → F → option gerror * F;
  os_UserHomeDir : F → string + gerror
}.

(** A file that was written is there and has the content. *)
Class FileSystemLaws (F : Type) `{FileSystem F} := {
  write_read path data fs fs' :
    os_WriteFile path data fs = (None, fs') →
    os_Stat path fs' = None ∧ os_ReadFile path fs' = inl data
}.

(** ** encoding/json on the structure *)
Module ConfigJson.
Import Json.

(** A field of basic type: how it is read and set. *)
Inductive slot :=
| string_slot (get : AppConfig → string) (set : string → AppConfig → AppConfig)
| int_slot (get : AppConfig → sint 64) (set : sint 64 → AppConfig → AppConfig)
| uint32_slot (get : AppConfig → uint 32) (set : uint 32 → AppConfig → AppConfig)
| bool_slot (get : AppConfig → bool) (set : bool → AppConfig → AppConfig)
| strings_slot (get : AppConfig → option (list string))
    (set : option (list string) → AppConfig → AppConfig).

(** The fields of a struct with their tags, in the order of the source. *)
Abbreviation fields A := (list (string * A)).

Definition Identity_fields : fields slot :=
  [("callsign", string_slot Callsign
      (λ x '(mkAppConfig _ b c d e f g h i j k), mkAppConfig x b c d e f g h i j k));
   ("key_path", string_slot KeyPath
      (λ x '(mkAppConfig a _ c d e f g h i j k), mkAppConfig a x c d e f g h i j k))].

Definition Network_fields : fields slot :=
  [("listen_addr", string_slot ListenAddr
      (λ x '(mkAppConfig a b _ d e f g h i j k), mkAppConfig a b x d e f g h i j k));
   ("bootstrap_nodes", strings_slot BootstrapNodes
      (λ x '(mkAppConfig a b c _ e f g h i j k), mkAppConfig a b c x e f g h i j k));
   ("max_connections", int_slot cfg_MaxConnections
      (λ x '(mkAppConfig a b c d _ f g h i j k), mkAppConfig a b c d x f g h i j k));
   ("protocol_version", uint32_slot ProtocolVersion
      (λ x '(mkAppConfig a b c d e _ g h i j k), mkAppConfig a b c d e x g h i j k));
   ("enable_mdns", bool_slot EnableMDNS
      (λ x '(mkAppConfig a b c d e f _ h i j k), mkAppConfig a b c d e f x h i j k))].

Definition Storage_fields : fields slot :=
  [("database_path", string_slot DatabasePath
      (λ x '(mkAppConfig a b c d e f g _ i j k), mkAppConfig a b c d e f g x i j k));
   ("downloads_dir", string_slot DownloadsDir
      (λ x '(mkAppConfig a b c d e f g h _ j k), mkAppConfig a b c d e f g h x j k))].

Definition Security_fields : fields slot :=
  [("anonymous_mode", bool_slot AnonymousMode
      (λ x '(mkAppConfig a b c d e f g h i _ k), mkAppConfig a b c d e f g h i x k));
   ("hide_traffic", bool_slot HideTraffic
      (λ x '(mkAppConfig a b c d e f g h i j _), mkAppConfig a b c d e f g h i j x))].

Definition AppConfig_fields : fields (fields slot) :=
  [("identity", Identity_fields); ("network", Network_fields);
   ("storage", Storage_fields); ("security", Security_fields)].

(** Fields of one struct with the same tag annihilate each other. *)
Definition dominant {A} (fs : fields A) : fields A :=
  filter (λ f, length (filter (λ g, g.1 = f.1) fs) = 1) fs.

(** *** Writing *)
Definition encode_slot (c : AppConfig) (s : slot) : json :=
  match s with
  | string_slot get _ => J_str (str (get c))
  | int_slot get _ => J_num (show_int (sv (get c)))
  | uint32_slot get _ => J_num (show_int (uv (get c)))
  | bool_slot get _ => J_bool (get c)
  | strings_slot get _ =>
      match get c with
      | None => J_null
      | Some l => J_arr ((λ s, J_str (str s)) <$> l)
      end
  end.

Definition encode_object {A} (encode : A → json) (fs : fields A) : json :=
  J_obj ((λ f, (str f.1, encode f.2)) <$> dominant fs).

Definition encode_config (c : AppConfig) : json :=
  encode_object (encode_object (encode_slot c)) AppConfig_fields.

(** It has no error on a structure of strings, numbers, booleans and slices. *)
Definition json_MarshalIndent (c : AppConfig) : bytes + gerror := inl (print (encode_config c) 0).

(** *** Reading *)
Definition SyntaxError : gerror := ErrLib 60.
Definition UnmarshalTypeError : gerror := ErrLib 61.

(** What has been read: the structure, the old elements in the memory behind
    its slice, and the first error of a type. *)
Record decoded := mkDecoded {
  dc_cfg : AppConfig;
  dc_old : list string;
  dc_err : option gerror
}.

Definition update (f : AppConfig → AppConfig) (d : decoded) : decoded :=
  mkDecoded (f (dc_cfg d)) (dc_old d) (dc_err d).
Definition type_error (d : decoded) : decoded :=
  mkDecoded (dc_cfg d) (dc_old d)
    (match dc_err d with Some e => Some e | None => Some UnmarshalTypeError end).

Definition text (s : bytes) : string := String.string_of_list_byte s.

(** The elements of an array go into the memory of the slice: [null] leaves what
    is there.  The result is the elements, the memory behind them, and whether
    all of them were strings. *)
Fixpoint decode_elements (es : list json) (memory : list string) : list string * list string * bool :=
  match es with
  | [] => ([], memory, true)
  | e :: es =>
      let old := match memory with m :: _ => m | [] => EmptyString end in
      let '(xs, rest, ok) := decode_elements es (tail memory) in
      match e with
      | J_str s => (text s :: xs, rest, ok)
      | J_null => (old :: xs, rest, ok)
      | _ => (old :: xs, rest, false)
      end
  end.

(** The method [value] of the decoder, for a field of basic type. *)
Definition decode_slot (s : slot) (v : json) (d : decoded) : decoded :=
  match s, v with
  | strings_slot _ set, J_null => mkDecoded (set None (dc_cfg d)) [] (dc_err d)
  | strings_slot get set, J_arr [] => mkDecoded (set (Some []) (dc_cfg d)) [] (dc_err d)
  | strings_slot get set, J_arr es =>
      let '(xs, rest, ok) := decode_elements es (default [] (get (dc_cfg d)) ++ dc_old d) in
      let d := mkDecoded (set (Some xs) (dc_cfg d)) rest (dc_err d) in
      if ok then d else type_error d
  | _, J_null => d
  | string_slot _ set, J_str b => update (set (text b)) d
  | bool_slot _ set, J_bool b => update (set b) d
  | int_slot _ set, J_num lit =>
      match ParseInt lit with
      | Some z => if ((- 2 ^ 63 <=? z) && (z <? 2 ^ 63))%Z then update (set (mk_sint 64 z)) d
                  else type_error d
      | None => type_error d
      end
  | uint32_slot _ set, J_num lit =>
      match ParseUint lit with
      | Some z => if (z <? 2 ^ 32)%Z then update (set (mk_uint 32 z)) d else type_error d
      | None => type_error d
      end
  | _, _ => type_error d
  end.

(** [foldName]: upper case, with the two letters that fold to ASCII. *)
Definition upper (b : Byte.byte) : Byte.byte :=
  if Utf8.between 97 123 b then Zb (bZ b - 32) else b.
Definition long_s : bytes := Utf8.encode_rune 383.
Definition kelvin : bytes := Utf8.encode_rune 8490.
Fixpoint foldName (l : bytes) : bytes :=
  match l with
  | [] => []
  | b :: l1 =>
      match l1 with
      | c :: l2 =>
          if bool_decide ([b; c] = long_s) then Byte.x53 :: foldName l2
          else match l2 with
          | d :: l3 =>
              if bool_decide ([b; c; d] = kelvin) then Byte.x4b :: foldName l3
              else upper b :: foldName l1
          | [] => upper b :: foldName l1
          end
      | [] => [upper b]
      end
  end.

(** The field for a key: the exact name, or the first that is equal but for the
    case. *)
Fixpoint find_tag {A} (is_tag : bytes → bool) (fs : fields A) : option A :=
  match fs with
  | [] => None
  | f :: fs => if is_tag (str f.1) then Some f.2 else find_tag is_tag fs
  end.
Definition find_field {A} (key : bytes) (fs : fields A) : option A :=
  match find_tag (λ t, bool_decide (t = key)) (dominant fs) with
  | Some a => Some a
  | None => find_tag (λ t, bool_decide (foldName t = foldName key)) (dominant fs)
  end.

(** The method [object]: keys of no field are skipped, and [null] changes
    nothing. *)
Definition decode_object {A} (decode : A → json → decoded → decoded) (fs : fields A)
    (v : json) (d : decoded) : decoded :=
  match v with
  | J_obj ms =>
      foldl (λ d m, match find_field m.1 fs with Some a => decode a m.2 d | None => d end) d ms
  | J_null => d
  | _ => type_error d
  end.

Definition decode_config : json → decoded → decoded :=
  decode_object (decode_object decode_slot) AppConfig_fields.

(** [Unmarshal] fills a struct that exists; the whole text is checked first. *)
Definition json_Unmarshal (data : bytes) (cfg : AppConfig) : AppConfig * option gerror :=
  match parse data with
  | None => (cfg, Some SyntaxError)
  | Some v => let d := decode_config v (mkDecoded cfg [] None) in (dc_cfg d, dc_err d)
  end.

(** *** The round trip *)

Definition config_utf8 (c : AppConfig) : bool :=
  forallb (λ s, Utf8.utf8_valid (str s))
    ([Callsign c; KeyPath c; ListenAddr c; DatabasePath c; DownloadsDir c]
     ++ default [] (BootstrapNodes c)).

Lemma text_str s : text (str s) = s.
Proof. apply String.string_of_list_byte_of_string. Qed.

Lemma str_inj s1 s2 : str s1 = str s2 → s1 = s2.
Proof. intros E. by rewrite <- (text_str s1), E, text_str. Qed.

(** No two fields share a tag. *)
Definition distinct {A} (fs : fields A) : Prop := NoDup fs.*1.

Lemma find_tag_found {A} (fs : fields A) f :
  distinct fs → f ∈ fs → find_tag (λ t, bool_decide (t = str f.1)) fs = Some f.2.
Proof.
  unfold distinct. induction fs as [|g fs IH]; cbn; [by intros _ ?%elem_of_nil|].
  rewrite NoDup_cons. intros [Hg Hfs] [->|Hf]%elem_of_cons; [by rewrite bool_decide_true|].
  rewrite bool_decide_false; [by apply IH|]. intros E%str_inj. apply Hg. rewrite E.
  by apply list_elem_of_fmap_2.
Qed.

Lemma dominant_distinct {A} (fs : fields A) : distinct fs → dominant fs = fs.
Proof.
  unfold distinct, dominant. intros Hfs. apply list_filter_whole, Forall_forall.
  intros f Hf. revert Hfs Hf. induction fs as [|g fs IH]; [by intros _ ?%elem_of_nil|].
  cbn [fmap list_fmap]. rewrite NoDup_cons, filter_cons. intros [Hg Hfs] [->|Hf]%elem_of_cons.
  - rewrite decide_True, list_filter_none; [done| |done].
    apply Forall_forall. intros x Hx E. apply Hg. rewrite <- E. by apply list_elem_of_fmap_2.
  - rewrite decide_False; [by apply IH|]. intros E. apply Hg. rewrite E.
    by apply list_elem_of_fmap_2.
Qed.

Lemma find_field_found {A} (fs : fields A) f :
  distinct fs → f ∈ fs → find_field (str f.1) fs = Some f.2.
Proof. intros Hfs Hf. unfold find_field. by rewrite dominant_distinct, find_tag_found. Qed.

(** An object is decoded field by field, in the order in which it was written. *)
Lemma decode_encode_object {A} (decode : A → json → decoded → decoded) (encode : A → json)
    (fs : fields A) d :
  distinct fs →
  decode_object decode fs (encode_object encode fs) d
  = foldl (λ d f, decode f.2 (encode f.2) d) d fs.
Proof.
  intros Hfs. unfold encode_object. rewrite (dominant_distinct fs) by done. cbn [decode_object].
  assert (∀ l d, l ⊆ fs →
    foldl (λ d m, match find_field m.1 fs with Some a => decode a m.2 d | None => d end) d
      ((λ f, (str f.1, encode f.2)) <$> l) = foldl (λ d f, decode f.2 (encode f.2) d) d l) as H.
  { induction l as [|f l IH]; intros e Hl; [done|]. cbn [fmap list_fmap foldl].
    cbn [fst snd]. rewrite (find_field_found fs f Hfs (Hl f (list_elem_of_here _ _))). apply IH. set_solver. }
  by apply H.
Qed.

(** Keys of no field are skipped. *)
Lemma decode_unknown {A} (decode : A → json → decoded → decoded) (fs : fields A) ms d :
  Forall (λ m, find_field m.1 fs = None) ms → decode_object decode fs (J_obj ms) d = d.
Proof.
  intros Hms. cbn [decode_object]. revert d.
  induction Hms as [|m ms Hm _ IH]; intros d; [done|]. cbn [foldl]. by rewrite Hm.
Qed.

(** *** One field *)

Lemma decode_elements_strings l memory :
  decode_elements ((λ s, J_str (str s)) <$> l) memory = (l, drop (length l) memory, true).
Proof.
  revert memory. induction l as [|s l IH]; intros memory; [done|].
  cbn [fmap list_fmap decode_elements length]. rewrite IH, text_str. destruct memory; cbn [tail drop]; by rewrite ?drop_nil.
Qed.

(** What a field decodes to when it was encoded: its value.  A slice must find
    no old elements. *)
Definition set_slot (c : AppConfig) (s : slot) : AppConfig → AppConfig :=
  match s with
  | string_slot get set => set (get c)
  | int_slot get set => set (get c)
  | uint32_slot get set => set (get c)
  | bool_slot get set => set (get c)
  | strings_slot get set => set (get c)
  end.

Lemma decode_encode_slot c s d :
  dc_old d = [] → match s with strings_slot get _ => get (dc_cfg d) = None | _ => True end →
  decode_slot s (encode_slot c s) d
  = mkDecoded (set_slot c s (dc_cfg d)) (dc_old d) (dc_err d).
Proof.
  destruct d as [cfg old err]. cbn [dc_old dc_cfg]. intros -> Hs.
  destruct s as [get set|get set|get set|get set|get set]; cbn [encode_slot decode_slot set_slot].
  - by rewrite text_str.
  - pose proof (sv_range (get c) : (- 2 ^ 63 <= sv (get c) < 2 ^ 63)%Z) as Hr.
    rewrite (proj1 (show_int_roundtrip (sv (get c)) ltac:(apply small_64; lia))).
    rewrite (proj2 (Z.leb_le _ _)), (proj2 (Z.ltb_lt _ _)) by lia. cbn [andb].
    by rewrite mk_sint_sv.
  - pose proof (uint_range (get c)) as Hr.
    rewrite (show_uint_roundtrip _ (proj1 Hr)) by (apply small_64; lia).
    rewrite (proj2 (Z.ltb_lt _ _)) by lia. by rewrite mk_uint_uv.
  - done.
  - destruct (get c) as [l|] eqn:Eg; [|done]. destruct l as [|x l]; [done|].
    transitivity (let '(xs, rest, ok) := decode_elements ((λ s, J_str (str s)) <$> x :: l)
                                           (default [] (get cfg) ++ []) in
      let d := mkDecoded (set (Some xs) cfg) rest err in if ok then d else type_error d); [done|].
    rewrite Hs, decode_elements_strings; cbn [default app]; by rewrite drop_nil.
Qed.

Lemma fields_distinct :
  distinct AppConfig_fields ∧ distinct Identity_fields ∧ distinct Network_fields
  ∧ distinct Storage_fields ∧ distinct Security_fields.
Proof. unfold distinct. split_and!; refine (bool_decide_unpack _ _); vm_compute; exact I. Qed.

Lemma decode_encode_config c :
  decode_config (encode_config c) (mkDecoded zero_AppConfig [] None) = mkDecoded c [] None.
Proof.
  destruct fields_distinct as (H1 & H2 & H3 & H4 & H5).
  unfold decode_config, encode_config. rewrite decode_encode_object by done.
  cbn [AppConfig_fields foldl snd]. rewrite !decode_encode_object by done.
  cbn [Identity_fields Network_fields Storage_fields Security_fields foldl snd].
  repeat match goal with
    |- context [decode_slot ?s (encode_slot c ?s) (mkDecoded ?cfg ?old ?err)] =>
      rewrite (decode_encode_slot c s (mkDecoded cfg old err)) by done;
      cbn [set_slot dc_cfg dc_old dc_err zero_AppConfig]
  end.
  by destruct c.
Qed.

Lemma max_list_zeros l : max_list (List.map height ((λ s, J_str (str s)) <$> l)) = 0.
Proof. induction l; [done|]. cbn. by rewrite IHl. Qed.

Lemma encode_slot_flat c s : height (encode_slot c s) <= 1.
Proof.
  destruct s as [get ?|get ?|get ?|get ?|get ?]; cbn [encode_slot height]; try lia.
  destruct (get c) as [l|]; cbn [height]; [rewrite max_list_zeros|]; lia.
Qed.

(** Every string in a structure of UTF-8 strings, and every number. *)
Definition slot_utf8 (c : AppConfig) (s : slot) : Prop :=
  match s with
  | string_slot get _ => Utf8.utf8 (str (get c))
  | strings_slot get _ => Forall (λ s, Utf8.utf8 (str s)) (default [] (get c))
  | _ => True
  end.

Lemma encode_slot_well_formed c s : slot_utf8 c s → well_formed (encode_slot c s).
Proof.
  destruct s as [get ?|get ?|get ?|get ?|get ?]; cbn [encode_slot slot_utf8]; intros Hs.
  - by constructor.
  - pose proof (sv_range (get c) : (- 2 ^ 63 <= sv (get c) < 2 ^ 63)%Z).
    apply show_int_roundtrip, small_64. lia.
  - pose proof (uint_range (get c)). apply show_int_roundtrip, small_64. lia.
  - constructor.
  - destruct (get c) as [l|]; [|constructor]. constructor. apply Forall_fmap.
    eapply Forall_impl; [exact Hs|]. intros s. apply wf_str.
Qed.

(** The tables hold tags in ASCII. *)
Lemma encode_object_well_formed {A} (encode : A → json) (fs : fields A) :
  Forall (λ f, Utf8.utf8_valid (str f.1) = true ∧ well_formed (encode f.2)) fs →
  well_formed (encode_object encode fs).
Proof.
  rewrite Forall_forall. intros Hfs. constructor. apply Forall_fmap, Forall_forall.
  intros f [_ Hf]%list_elem_of_filter. destruct (Hfs f Hf) as [Ht Hw].
  split; [by apply Utf8.utf8_valid_utf8|done].
Qed.

Lemma config_utf8_slots c :
  config_utf8 c = true → Forall (λ f, Forall (λ g, slot_utf8 c g.2) f.2) AppConfig_fields.
Proof.
  unfold config_utf8. rewrite forallb_app, andb_true_iff. cbn [forallb].
  rewrite !andb_true_iff, List.forallb_forall. intros [(H1 & H2 & H3 & H4 & H5 & _) Hl].
  repeat constructor; cbn [fst snd slot_utf8]; try by apply Utf8.utf8_valid_utf8.
  apply Forall_forall. intros x Hx. by apply Utf8.utf8_valid_utf8, Hl, list_elem_of_In.
Qed.

Lemma tags_utf8 :
  Forall (λ f, Utf8.utf8_valid (str f.1) = true
               ∧ Forall (λ g, Utf8.utf8_valid (str g.1) = true) f.2) AppConfig_fields.
Proof. by repeat constructor. Qed.

Lemma encode_config_well_formed c : config_utf8 c = true → well_formed (encode_config c).
Proof.
  intros Hc%config_utf8_slots. apply encode_object_well_formed, Forall_forall. intros f Hf.
  pose proof tags_utf8 as Ht. rewrite Forall_forall in Hc, Ht. destruct (Ht f Hf) as [Hf1 Hf2].
  split; [done|]. apply encode_object_well_formed, Forall_forall. intros g Hg.
  pose proof (Hc f Hf) as Hc'. rewrite Forall_forall in Hf2, Hc'. split; [auto|].
  by apply encode_slot_well_formed, Hc'.
Qed.

Lemma max_list_bound n l : Forall (λ x, x <= n) l → max_list l <= n.
Proof. induction 1; cbn; [lia|]. by apply Nat.max_lub. Qed.

Lemma encode_config_height c : (Z.of_nat (height (encode_config c)) <= max_depth)%Z.
Proof.
  assert (∀ {A} (encode : A → json) (fs : fields A) n,
            Forall (λ f, height (encode f.2) <= n) fs → height (encode_object encode fs) <= S n) as Hobj.
  { intros A encode fs n Hfs. cbn [encode_object height]. apply le_n_S, max_list_bound.
    apply Forall_fmap, Forall_fmap, Forall_forall. intros f [_ Hf]%list_elem_of_filter.
    by apply (Forall_forall _ fs). }
  assert (height (encode_config c) <= 3); [|unfold max_depth; lia].
  apply Hobj, Forall_forall. intros f _. apply Hobj, Forall_forall. intros g _. apply encode_slot_flat.
Qed.

Lemma Unmarshal_MarshalIndent c data :
  json_MarshalIndent c = inl data → config_utf8 c = true →
  parse data = Some (encode_config c) ∧ json_Unmarshal data zero_AppConfig = (c, None).
Proof.
  unfold json_MarshalIndent. intros E%(inj inl) Hc. subst data.
  assert (parse (print (encode_config c) 0) = Some (encode_config c)) as E.
  { apply parse_print; [by apply encode_config_well_formed|apply encode_config_height]. }
  split; [done|]. unfold json_Unmarshal. by rewrite E, decode_encode_config.
Qed.
End ConfigJson.
Export ConfigJson.

(** ** The operations *)
Section config.
Context {F : Type} `{FileSystem F}.

Definition MkdirAll (path : string) : M F unit := λ fs, (Ok (), (os_MkdirAll path fs).2).

(** The errors of the home directory and of [MkdirAll] are ignored. *)
Definition DefaultConfig : M F AppConfig :=
  fs ← get_state;
  let home := match os_UserHomeDir fs with inl h => h | inr _ => EmptyString end in
  let cfg := default_config home in
  _ ← MkdirAll (DatabasePath cfg);
  _ ← MkdirAll (DownloadsDir cfg);
  mret cfg.

Definition LoadConfig (path : string) : M F AppConfig :=
  fs ← get_state;
  if match os_Stat path fs with Some err => os_IsNotExist err | None => false end
  then DefaultConfig
  else
    data ← lift (of_lib (os_ReadFile path fs));
    match json_Unmarshal data zero_AppConfig with
    | (_, Some err) => lift (Err err)
    | (cfg, None) => mret cfg
    end.

Definition Save (c : AppConfig) (path : string) : M F unit := λ fs,
  match json_MarshalIndent c with
  | inr err => (Err err, fs)
  | inl data =>
      match os_WriteFile path data fs with
      | (Some err, fs) => (Err err, fs)
      | (None, fs) => (Ok (), fs)
      end
  end.
End config.

(** ** Properties *)
Section config_properties.
Context {F : Type} `{FileSystemLaws F}.

(** An object with keys in text. *)
Definition object (members : list (string * Json.json)) : Json.json :=
  Json.J_obj ((λ m, (str m.1, m.2)) <$> members).

(** C37. A configuration of UTF-8 strings that was saved is loaded again, field by
    field, a nil list of nodes and an empty one apart, and loading changes
    nothing; and what is in the file is the JSON text of one object, with the four
    sections, their keys and their values as they are spelled out here. *)
Theorem LoadConfig_Save (c : AppConfig) (path : string) (fs fs' : F)
    (Hutf8 : config_utf8 c = true) (Hsave : Save c path fs = (Ok (), fs')) :
  LoadConfig path fs' = (Ok c, fs')
  ∧ ∃ data, os_ReadFile path fs' = inl data ∧
      Json.parse data = Some (object
        [("identity", object
            [("callsign", Json.J_str (str (Callsign c)));
             ("key_path", Json.J_str (str (KeyPath c)))]);
         ("network", object
            [("listen_addr", Json.J_str (str (ListenAddr c)));
             ("bootstrap_nodes",
                match BootstrapNodes c with
                | None => Json.J_null
                | Some nodes => Json.J_arr ((λ node, Json.J_str (str node)) <$> nodes)
                end);
             ("max_connections", Json.J_num (Json.show_int (sv (cfg_MaxConnections c))));
             ("protocol_version", Json.J_num (Json.show_int (uv (ProtocolVersion c))));
             ("enable_mdns", Json.J_bool (EnableMDNS c))]);
         ("storage", object
            [("database_path", Json.J_str (str (DatabasePath c)));
             ("downloads_dir", Json.J_str (str (DownloadsDir c)))]);
         ("security", object
            [("anonymous_mode", Json.J_bool (AnonymousMode c));
             ("hide_traffic", Json.J_bool (HideTraffic c))])]).
Proof.
  unfold Save in Hsave. destruct (json_MarshalIndent c) as [data|e] eqn:Em; [|done].
  destruct (os_WriteFile path data fs) as [[e|] fs1] eqn:Ew; [done|].
  injection Hsave as <-. destruct (write_read _ _ _ _ Ew) as [Hst Hrd].
  destruct (Unmarshal_MarshalIndent c data Em Hutf8) as [Hp Hu]. split.
  - unfold LoadConfig. run_M. rewrite Hst, Hrd. cbn [of_lib]. by rewrite Hu.
  - exists data. split; [done|]. rewrite Hp. reflexivity.
Qed.

(** The file is not merged with the defaults: a section that it does not name
    is zero in the structure that is loaded. *)
Theorem LoadConfig_partial (ms : list (bytes * Json.json)) (data : bytes) (path : string) (fs : F)
    (Hstat : os_Stat path fs = None) (Hread : os_ReadFile path fs = inl data)
    (Hparse : Json.parse data = Some (Json.J_obj ms))
    (Hnone : Forall (λ m, find_field m.1 AppConfig_fields = None) ms) :
  LoadConfig path fs = (Ok zero_AppConfig, fs).
Proof.
  unfold LoadConfig. run_M. rewrite Hstat, Hread. cbn [of_lib]. unfold json_Unmarshal.
  rewrite Hparse. unfold decode_config. by rewrite decode_unknown.
Qed.
End config_properties.

Module ToyConfig.
Abbreviation files := (gmap string bytes).
#[export] Instance fs : FileSystem files := {
  os_Stat path f := match f !! path with Some _ => None | None => Some (ErrLib 2) end;
  os_IsNotExist e := bool_decide (e = ErrLib 2);
  os_ReadFile path f := match f !! path with Some d => inl d | None => inr (ErrLib 2) end;
  os_WriteFile path d f := (None, <[path := d]> f);
  os_MkdirAll path f := (None, f);
  os_UserHomeDir f := inl "/home/user"
}.
#[export] Instance fs_laws : FileSystemLaws files.
Proof.
  split. intros path data f f' E. cbn [os_WriteFile fs] in E. apply (f_equal snd) in E. cbn [snd] in E. subst f'.
  cbn [os_Stat os_ReadFile fs snd]. by rewrite lookup_insert_eq.
Qed.

Definition cfg : AppConfig :=
  mkAppConfig "A <&> B" "id.key" ":0" (Some ["1.2.3.4:5"; ":6"]) (mk_sint 64 (-7))
    CurrentProtocolVersion true "/home/user/.echofog/db" "d" false true.
Definition saved : res unit * files := Save cfg "echofog.json" ∅.

Lemma LoadConfig_Save_witness :
  LoadConfig "echofog.json" saved.2 = (Ok cfg, saved.2) ∧ BootstrapNodes cfg = Some ["1.2.3.4:5"; ":6"].
Proof.
  split; [|reflexivity].
  refine (proj1 (LoadConfig_Save cfg "echofog.json" ∅ saved.2 _ (run_eq _ _ _ _))); reflexivity.
Defined.

Lemma LoadConfig_partial_witness :
  LoadConfig "a" ({["a" := str "{ }"]} : files) = (Ok zero_AppConfig, {["a" := str "{ }"]}).
Proof.
  apply (LoadConfig_partial [] (str "{ }")); [reflexivity..|constructor].
Defined.

(** What the decoder makes of other texts. *)
Definition load (text : string) : res AppConfig := (LoadConfig "a" ({["a" := str text]} : files)).1.
Definition quoted (s : string) : string := String.string_of_list_byte (Json.quote (str s)).

Example load_case : load ("{" ++ quoted "NetWork" ++ ":{" ++ quoted "MAX_CONNECTIONS" ++ ":5}}")%string
  = Ok (mkAppConfig "" "" "" None (mk_sint 64 5) (mk_uint 32 0) false "" "" false false).
Proof. vm_compute. reflexivity. Qed.
Example load_type : load ("{" ++ quoted "network" ++ ":{" ++ quoted "max_connections" ++ ":1e2}}")%string
  = Err UnmarshalTypeError.
Proof. vm_compute. reflexivity. Qed.
Example load_text : load "{" = Err SyntaxError ∧ load "null" = Ok zero_AppConfig ∧ load "[]" = Err UnmarshalTypeError.
Proof. by vm_compute. Qed.
End ToyConfig.
