(* ===== verification/Storage.v ===== *)
(** * Key-value storage: internal/storage

    The interface [storage.Storage] as a class with its laws, and its
    implementation [BadgerStorage] over the transactions of
    github.com/dgraph-io/badger/v4, which is a parameter (class [Badger]).
    The clients (routing table, Merkle store, swarm, key store) are verified
    against the interface; [badger_storage_laws] discharges it. *)

From Stdlib Require Import ZArith Lia.
From stdpp Require Import sorting.
From S2P Require Import Prelude.

(** ** The byte-wise order of keys: [bytes.Compare] and [bytes.HasPrefix] *)

Fixpoint bytes_leb (a b : bytes) : bool :=
  match a, b with
  | [], _ => true
  | _ :: _, [] => false
  | x :: a, y :: b =>
      if (bZ x <? bZ y)%Z then true
      else if (bZ x =? bZ y)%Z then bytes_leb a b else false
  end.

Definition bytes_le (a b : bytes) : Prop := Is_true (bytes_leb a b).
#[export] Instance bytes_le_dec a b : Decision (bytes_le a b).
Proof. unfold bytes_le. apply _. Defined.

Fixpoint HasPrefix (k prefix : bytes) : bool :=
  match prefix, k with
  | [], _ => true
  | p :: prefix, x :: k => bool_decide (p = x) && HasPrefix k prefix
  | _ :: _, [] => false
  end.

Ltac bytes_cases :=
  repeat (match goal with
  | |- context [(?x <? ?y)%Z] => destruct (Z.ltb_spec x y)
  | |- context [(?x =? ?y)%Z] => destruct (Z.eqb_spec x y)
  end; simpl); try lia; try done.

Lemma bytes_le_trans a b c : bytes_le a b → bytes_le b c → bytes_le a c.
Proof.
  unfold bytes_le. revert b c.
  induction a as [|x a IH]; intros [|y b] [|z c]; simpl; try done.
  bytes_cases; eauto.
Qed.

Lemma bytes_le_total a b : bytes_le a b ∨ bytes_le b a.
Proof.
  unfold bytes_le. revert b.
  induction a as [|x a IH]; intros [|y b]; simpl; auto.
  destruct (IH b); bytes_cases; auto.
Qed.

#[export] Instance bytes_le_transitive : Transitive bytes_le.
Proof. intros a b c. apply bytes_le_trans. Qed.
#[export] Instance bytes_le_is_total : Total bytes_le.
Proof. intros a b. apply bytes_le_total. Qed.

Lemma HasPrefix_le k p : HasPrefix k p = true → bytes_le p k.
Proof.
  unfold bytes_le. revert k. induction p as [|x p IH]; intros [|y k]; simpl; try done.
  intros [->%bool_decide_eq_true Hk]%andb_true_iff. bytes_cases. auto.
Qed.

(** Between a prefix and a key with that prefix, all keys have it. *)
Lemma HasPrefix_between p k k' :
  bytes_le p k → bytes_le k k' → HasPrefix k' p = true → HasPrefix k p = true.
Proof.
  unfold bytes_le. revert k k'.
  induction p as [|x p IH]; intros [|y k] [|z k']; simpl; try done.
  rewrite !andb_true_iff, !bool_decide_eq_true.
  intros Hpk Hkk' [<- Hk']. revert Hpk Hkk'. bytes_cases.
  intros Hpk Hkk'. split; [by apply bZ_inj|by eapply IH].
Qed.

(** ** Dynamic values: Go's [interface{}] as the program meets it *)
Inductive any :=
  | ANil
  | ABool (b : bool)
  | AFloat64 (repr : uint 64)
  | AString (s : string)
  | ASlice (l : list any)              (* []interface{} *)
  | AMap (kvs : list (string * any))   (* map[string]interface{} *)
  | ABytes (b : bytes).                (* []byte *)

(** github.com/json-iterator/go.  Documented: a JSON text decoded into an
    [interface{}] gives nil, a bool, a float64, a string, a slice of
    [interface{}] or a map from strings. *)
Class Json := { json_Unmarshal : bytes → any + gerror }.
Class JsonLaws `{Json} := {
  json_not_bytes v b : json_Unmarshal v ≠ inl (ABytes b)
}.

(** ** The interface *)
Class Storage (S : Type) := {
  storage_Set : bytes → bytes → M S unit;
  storage_Get : bytes → M S bytes;
  storage_Delete : bytes → M S unit;
  storage_FindValues : bytes → S → list any * option gerror;
  storage_Exists : bytes → S → bool
}.

(** What it promises, for the map [kv] of the entries that can be read: a
    successful write or delete is visible and touches one key, a failed one
    changes nothing, and a read changes nothing and tells an absent key from
    other failures by [ErrKeyNotFound]. *)
Class StorageLaws (S : Type) `{Storage S} := {
  kv : S → gmap bytes bytes;
  Set_spec k v s :
    (∃ s', storage_Set k v s = (Ok (), s') ∧ kv s' = <[k:=v]> (kv s))
    ∨ (∃ e, storage_Set k v s = (Err e, s));
  Delete_spec k s :
    (∃ s', storage_Delete k s = (Ok (), s') ∧ kv s' = delete k (kv s))
    ∨ (∃ e, storage_Delete k s = (Err e, s));
  Get_found k v s : kv s !! k = Some v → storage_Get k s = (Ok v, s);
  Get_missing k s : kv s !! k = None →
    ∃ e, storage_Get k s = (Err e, s) ∧ (k ≠ [] → e = ErrKeyNotFound);
  Exists_spec k s : storage_Exists k s = bool_decide (is_Some (kv s !! k))
}.

(** What [FindValues] returns was decoded from JSON, so no value is a byte slice. *)
Class StorageValues (S : Type) `{Storage S} :=
  FindValues_decoded prefix s b : ABytes b ∉ (storage_FindValues prefix s).1.

(** ** Badger *)
Class Badger (db txn item : Type) := {
  db_View : ∀ {L}, (txn → M L unit) → db → M L unit;
  db_Update : M txn unit → M db unit;
  txn_Get : txn → bytes → item + gerror;
  txn_Set : bytes → bytes → M txn unit;
  txn_SetEntry : bytes → bytes → Z → M txn unit;
  txn_Delete : bytes → M txn unit;
  item_Key : item → bytes;
  item_Value : item → bytes + gerror;
  it_Seek : txn → bytes → list item
}.

(** Documented: [View] runs its function on a snapshot and relays its result;
    [Update] runs it on a transaction and commits it, unless the function or
    the commit fails, when nothing is written; an iterator gives the entries in
    byte-wise key order, from the first key not below the one sought. *)
Class BadgerLaws (db txn item : Type) `{Badger db txn item} := {
  snapshot : db → txn;
  contents : txn → gmap bytes bytes;
  View_spec L (f : txn → M L unit) d l : db_View f d l = f (snapshot d) l;
  Update_ok f d t : f (snapshot d) = (Ok (), t) →
    (∃ d', db_Update f d = (Ok (), d') ∧ contents (snapshot d') = contents t)
    ∨ (∃ e, db_Update f d = (Err e, d));
  Update_err f d e t : f (snapshot d) = (Err e, t) → db_Update f d = (Err e, d);
  txn_Get_found t k v : contents t !! k = Some v →
    ∃ it, txn_Get t k = inl it ∧ item_Value it = inl v;
  txn_Get_missing t k : contents t !! k = None →
    ∃ e, txn_Get t k = inr e ∧ (k ≠ [] → e = ErrKeyNotFound);
  txn_Set_spec k v t :
    (∃ t', txn_Set k v t = (Ok (), t') ∧ contents t' = <[k:=v]> (contents t))
    ∨ (∃ e t', txn_Set k v t = (Err e, t'));
  txn_Delete_spec k t :
    (∃ t', txn_Delete k t = (Ok (), t') ∧ contents t' = delete k (contents t))
    ∨ (∃ e t', txn_Delete k t = (Err e, t'));
  Seek_sorted t k : StronglySorted bytes_le (item_Key <$> it_Seek t k);
  Seek_nodup t k : NoDup (item_Key <$> it_Seek t k);
  Seek_elem t k k' v : (contents t !! k' = Some v ∧ bytes_le k k') ↔
    ∃ it, it ∈ it_Seek t k ∧ item_Key it = k' ∧ item_Value it = inl v;
  Seek_value t k it : it ∈ it_Seek t k → ∃ v, item_Value it = inl v
}.

(** [RunValueLogGC(0.5)].  Documented: it rewrites a file of the value log, and
    what the database stores stays. *)
Class BadgerGC (db : Type) := db_RunValueLogGC : M db unit.
Class BadgerGCLaws (db txn item : Type) `{BadgerLaws db txn item, BadgerGC db} :=
  RunValueLogGC_keeps d :
    contents (snapshot (db_RunValueLogGC d).2) = contents (snapshot d).

(** ** BadgerStorage: internal/storage/badger_storage.go *)
Module BadgerStorage.
Section badger.
Context {db txn item : Type} `{Badger db txn item} `{Json}.

Definition Update (key value : bytes) : M db unit :=
  db_Update (txn_Set key value).

Definition UpdateTTL (key value : bytes) (ttl : Z) : M db unit :=
  db_Update (txn_SetEntry key value ttl).

(** The closure writes the captured variable [data]. *)
Definition Read_closure (key : bytes) (t : txn) : M bytes unit :=
  match txn_Get t key with
  | inr err => lift (Err err)
  | inl item =>
      match item_Value item with
      | inr err => lift (Err err)
      | inl val => put_state val
      end
  end.

Definition Read (key : bytes) : M db bytes := λ d,
  match db_View (Read_closure key) d [] with
  | (Ok _, data) => (Ok data, d)
  | (Err err, _) => (Err err, d)
  | (Panic p, _) => (Panic p, d)
  end.

Definition Delete (key : bytes) : M db unit := db_Update (txn_Delete key).

Definition Set_ (key value : bytes) : M db unit := Update key value.

Definition Get (key : bytes) : M db bytes := Read key.

(** The loop [for it.Seek(prefix); it.ValidForPrefix(prefix); it.Next()]; the
    captured [values] grows. *)
Fixpoint FindValues_loop (prefix : bytes) (items : list item) : M (list any) unit :=
  match items with
  | [] => mret ()
  | it :: items =>
      if HasPrefix (item_Key it) prefix then
        match item_Value it with
        | inr err => lift (Err err)
        | inl v =>
            match json_Unmarshal v with
            | inr err => lift (Err err)
            | inl val =>
                values ← get_state;
                _ ← put_state (values ++ [val]);
                FindValues_loop prefix items
            end
        end
      else mret ()
  end.

Definition FindValues (prefix : bytes) (d : db) : list any * option gerror :=
  match db_View (λ t, FindValues_loop prefix (it_Seek t prefix)) d [] with
  | (Err err, values) => (values, Some err)
  | (_, values) => (values, None)
  end.

Definition Exists (key : bytes) (d : db) : bool :=
  match db_View (λ t : txn, match txn_Get t key with
                            | inr err => lift (Err err)
                            | inl _ => mret ()
                            end) d () with
  | (Ok _, _) => true
  | _ => false
  end.

(** One tick of the ticker of [GCWorker]: the value log is collected again and
    again until a call reports that it rewrote nothing.  [results] are the results
    of the calls of [RunValueLogGC(0.5)] to come; the number of calls that the
    tick makes, and the results left for later ticks. *)
Fixpoint GCWorker_tick (results : list (option gerror)) : option (nat * list (option gerror)) :=
  match results with
  | [] => None
  | Some err :: results => Some (1, results)
  | None :: results => '(n, rest) ← GCWorker_tick results; Some (S n, rest)
  end.

(** [NewBadgerStorage] starts the collector, a goroutine that waits for the next
    tick, or collects; it runs beside everything that uses the database. *)
Inductive GC_phase := GCWaiting | GCAgain.

Definition NewBadgerStorage (d : db) : GC_phase * db := (GCWaiting, d).

Inductive GCWorker_step `{BadgerGC db} : GC_phase * db → GC_phase * db → Prop :=
| gc_tick d : GCWorker_step (GCWaiting, d) (GCAgain, d)
| gc_again d d' :
    db_RunValueLogGC d = (Ok (), d') → GCWorker_step (GCAgain, d) (GCAgain, d')
| gc_err d d' e :
    db_RunValueLogGC d = (Err e, d') → GCWorker_step (GCAgain, d) (GCWaiting, d').

#[global] Instance badger_storage : Storage db := {
  storage_Set := Set_;
  storage_Get := Get;
  storage_Delete := Delete;
  storage_FindValues := FindValues;
  storage_Exists := Exists
}.
End badger.

(** A tick ends with the first call that fails, and not before. *)
Lemma GCWorker_tick_calls n e rest :
  GCWorker_tick (replicate n None ++ Some e :: rest) = Some (S n, rest)
  ∧ GCWorker_tick (replicate n None) = None.
Proof. induction n as [|n [IH1 IH2]]; [done|]. simpl. by rewrite IH1, IH2. Qed.
End BadgerStorage.

(** ** BadgerStorage implements the interface *)
Section badger_laws.
Context {db txn item : Type} `{BadgerLaws db txn item} `{Json}.
Import BadgerStorage.

Implicit Types (d : db) (t : txn) (it : item).

Definition badger_kv (d : db) : gmap bytes bytes := contents (snapshot d).

(** The collector changes nothing that can be read. *)
Lemma GCWorker_keeps `{BadgerGC db, !BadgerGCLaws db txn item} (x y : GC_phase * db) :
  rtc GCWorker_step x y → badger_kv y.2 = badger_kv x.2.
Proof.
  unfold badger_kv. induction 1 as [|x y z St _ IH]; [done|]. rewrite IH.
  destruct St as [d|d d' E|d d' e E]; [done|..]; pose proof (RunValueLogGC_keeps d) as Hk;
    by rewrite E in Hk.
Qed.

Lemma badger_Set_spec k v d :
  (∃ d', Set_ k v d = (Ok (), d') ∧ badger_kv d' = <[k:=v]> (badger_kv d))
  ∨ (∃ e, Set_ k v d = (Err e, d)).
Proof.
  unfold Set_, Update. destruct (txn_Set_spec k v (snapshot d)) as [(t & Ht & Hc)|(e & t & Ht)].
  - destruct (Update_ok _ _ _ Ht) as [(d' & Hd & Hk)|(e & He)]; [left|right]; eauto.
    exists d'. split; [done|]. unfold badger_kv. by rewrite Hk, Hc.
  - right. exists e. by eapply Update_err.
Qed.

Lemma badger_Delete_spec k d :
  (∃ d', Delete k d = (Ok (), d') ∧ badger_kv d' = delete k (badger_kv d))
  ∨ (∃ e, Delete k d = (Err e, d)).
Proof.
  unfold Delete. destruct (txn_Delete_spec k (snapshot d)) as [(t & Ht & Hc)|(e & t & Ht)].
  - destruct (Update_ok _ _ _ Ht) as [(d' & Hd & Hk)|(e & He)]; [left|right]; eauto.
    exists d'. split; [done|]. unfold badger_kv. by rewrite Hk, Hc.
  - right. exists e. by eapply Update_err.
Qed.

Lemma badger_Get_found k v d : badger_kv d !! k = Some v → Get k d = (Ok v, d).
Proof.
  intros (it & Hit & Hv)%txn_Get_found. unfold Get, Read.
  rewrite View_spec. unfold Read_closure. by rewrite Hit, Hv.
Qed.

Lemma badger_Get_missing k d : badger_kv d !! k = None →
  ∃ e, Get k d = (Err e, d) ∧ (k ≠ [] → e = ErrKeyNotFound).
Proof.
  intros (e & He & Hk)%txn_Get_missing. exists e. split; [|done].
  unfold Get, Read. rewrite View_spec. unfold Read_closure. by rewrite He.
Qed.

Lemma badger_Exists_spec k d :
  Exists k d = bool_decide (is_Some (badger_kv d !! k)).
Proof.
  unfold Exists. rewrite View_spec. unfold badger_kv.
  destruct (contents (snapshot d) !! k) as [v|] eqn:E.
  - apply txn_Get_found in E as (it & -> & _). done.
  - apply txn_Get_missing in E as (e & -> & _). done.
Qed.

#[export] Instance badger_storage_laws : StorageLaws db := {
  kv := badger_kv;
  Set_spec := badger_Set_spec;
  Delete_spec := badger_Delete_spec;
  Get_found := badger_Get_found;
  Get_missing := badger_Get_missing;
  Exists_spec := badger_Exists_spec
}.

(** *** FindValues *)

(** The values decoded one after the other, up to the first that fails. *)
Fixpoint decode_values (vs : list bytes) (acc : list any) : list any * option gerror :=
  match vs with
  | [] => (acc, None)
  | v :: vs =>
      match json_Unmarshal v with
      | inr err => (acc, Some err)
      | inl val => decode_values vs (acc ++ [val])
      end
  end.

Definition item_val (it : item) : bytes :=
  match item_Value it with inl v => v | inr _ => [] end.

(** The entries the loop visits: those from the first, while they have the
    prefix. *)
Fixpoint visited (prefix : bytes) (items : list item) : list item :=
  match items with
  | it :: items =>
      if HasPrefix (item_Key it) prefix then it :: visited prefix items else []
  | [] => []
  end.

Lemma FindValues_loop_visited prefix items acc :
  Forall (λ it, ∃ v, item_Value it = inl v) items →
  FindValues_loop prefix items acc
  = match decode_values (item_val <$> visited prefix items) acc with
    | (vs, None) => (Ok (), vs)
    | (vs, Some e) => (Err e, vs)
    end.
Proof.
  intros Hval. revert acc.
  induction Hval as [|it items [v Hv] _ IH]; intros acc; simpl; [done|].
  destruct (HasPrefix _ _); simpl; [|done].
  unfold item_val. rewrite Hv.
  destruct (json_Unmarshal v) as [val|e]; [|done]. by rewrite <- IH.
Qed.

(** Among sorted keys not below the prefix, those that have it come first. *)
Lemma visited_complete prefix items it :
  StronglySorted bytes_le (item_Key <$> items) →
  Forall (λ it, bytes_le prefix (item_Key it)) items →
  (it ∈ visited prefix items ↔ it ∈ items ∧ HasPrefix (item_Key it) prefix = true).
Proof.
  induction items as [|it0 items IH]; simpl; intros Hs Hp.
  { split; [|intros [Hin _]; revert Hin]; by intros ?%elem_of_nil. }
  inversion Hs as [|? ? Hs' Hle]; subst. inversion Hp as [|? ? Hp0 Hp']; subst.
  destruct (HasPrefix (item_Key it0) prefix) eqn:E; simpl.
  - rewrite !elem_of_cons, IH by done. clear -E. split.
    + intros [->|[??]]; auto.
    + intros [[->|?] ?]; auto.
  - rewrite elem_of_cons. split; [by intros ?%elem_of_nil|].
    intros [[->|Hin] Hpre]; [congruence|]. exfalso.
    assert (bytes_le (item_Key it0) (item_Key it)) as Hle1.
    { rewrite Forall_forall in Hle. apply Hle. apply list_elem_of_fmap. eauto. }
    rewrite (HasPrefix_between _ _ _ Hp0 Hle1 Hpre) in E. done.
Qed.

Lemma visited_sublist prefix items : visited prefix items `sublist_of` items.
Proof.
  induction items as [|it items IH]; simpl; [done|].
  destruct (HasPrefix _ _); [by apply sublist_skip|apply sublist_nil_l].
Qed.
End badger_laws.

(** ** A Badger for the witnesses: maps, with writes that always succeed *)
Module ToyBadger.
Abbreviation store := (gmap bytes bytes).

Definition key_le (p q : bytes * bytes) : Prop := bytes_le p.1 q.1.
#[export] Instance key_le_dec p q : Decision (key_le p q).
Proof. unfold key_le. apply _. Defined.
#[export] Instance key_le_trans : Transitive key_le.
Proof. intros p q r. apply bytes_le_trans. Qed.
#[export] Instance key_le_total : Total key_le.
Proof. intros p q. apply bytes_le_total. Qed.

Definition toy_seek (t : store) (k : bytes) : list (bytes * bytes) :=
  filter (λ p, bytes_le k p.1) (merge_sort key_le (map_to_list t)).

#[export] Instance badger : Badger store store (bytes * bytes) := {
  db_View L f d := f d;
  db_Update f d := match f d with
                   | (Ok u, t) => (Ok u, t)
                   | (Err e, _) => (Err e, d)
                   | (Panic p, _) => (Panic p, d)
                   end;
  txn_Get t k := match t !! k with Some v => inl (k, v) | None => inr ErrKeyNotFound end;
  txn_Set k v t := (Ok (), <[k:=v]> t);
  txn_SetEntry k v _ t := (Ok (), <[k:=v]> t);
  txn_Delete k t := (Ok (), delete k t);
  item_Key := fst;
  item_Value it := inl it.2;
  it_Seek := toy_seek
}.

Lemma elem_of_toy_seek t k k' v :
  (k', v) ∈ toy_seek t k ↔ t !! k' = Some v ∧ bytes_le k k'.
Proof.
  unfold toy_seek. rewrite list_elem_of_filter, merge_sort_Permutation.
  rewrite elem_of_map_to_list. simpl. tauto.
Qed.

Lemma toy_seek_sorted t k : StronglySorted bytes_le (toy_seek t k).*1.
Proof.
  unfold toy_seek. pose proof (StronglySorted_merge_sort key_le (map_to_list t)) as Hs.
  induction Hs as [|p l Hs IH Hp]; simpl; [constructor|].
  rewrite filter_cons. case_decide; simpl; [|done].
  constructor; [done|]. apply Forall_forall. rewrite Forall_forall in Hp.
  intros x (q & -> & [_ Hq]%list_elem_of_filter)%list_elem_of_fmap. by apply Hp.
Qed.

Lemma toy_seek_nodup t k : NoDup (toy_seek t k).*1.
Proof.
  eapply (sublist_NoDup _ (merge_sort key_le (map_to_list t)).*1).
  - rewrite merge_sort_Permutation. apply NoDup_fst_map_to_list.
  - apply fmap_sublist. unfold toy_seek. apply sublist_filter.
Qed.

#[export] Instance badger_laws : BadgerLaws store store (bytes * bytes).
Proof.
  refine {| snapshot := id; contents := id |}; simpl; try done.
  - intros f d t ->. eauto.
  - intros f d e t ->. done.
  - intros t k v ->. eauto.
  - intros t k ->. eauto.
  - eauto.
  - eauto.
  - apply toy_seek_sorted.
  - apply toy_seek_nodup.
  - intros t k k' v. rewrite <- elem_of_toy_seek. split; [by eexists|].
    intros ([] & Hin & <- & [= <-]). done.
  - eauto.
Defined.

(** A decoder that reads every text as [null]. *)
#[export] Instance json : Json := { json_Unmarshal v := inl ANil }.
#[export] Instance json_laws : JsonLaws.
Proof. done. Qed.
End ToyBadger.

(** ** Properties of BadgerStorage *)

Lemma StronglySorted_sublist {A} (R : A → A → Prop) l l' :
  l `sublist_of` l' → StronglySorted R l' → StronglySorted R l.
Proof.
  induction 1 as [|x l l' Hsub IH|x l l' Hsub IH]; intros Hs; [done| |].
  - apply StronglySorted_inv in Hs as [Hs Hx]. constructor; [by apply IH|].
    rewrite Forall_forall in Hx |- *. intros y Hy. apply Hx.
    by eapply elem_of_submseteq, sublist_submseteq.
  - apply StronglySorted_inv in Hs as [Hs _]. by apply IH.
Qed.

Section badger_properties.
Context {db txn item : Type} `{BadgerLaws db txn item} `{Json}.
Import BadgerStorage.

(** A value that [Set] stored is the one [Get] returns and [Exists] sees,
    reads of every other key are as before, and a [Set] that fails leaves the
    store as it was. *)
Theorem badger_set_get (k v : bytes) (d d' : db) (r : res unit)
    (Hset : Set_ k v d = (r, d')) :
  match r with
  | Ok _ => Get k d' = (Ok v, d') ∧ Exists k d' = true
            ∧ ∀ k', k' ≠ k → k' ≠ [] → (Get k' d').1 = (Get k' d).1
  | Err _ => d' = d
  | Panic _ => False
  end.
Proof.
  destruct (badger_Set_spec k v d) as [(d1 & Hd & Hkv)|(e & He)];
    [rewrite Hset in Hd; injection Hd as -> <-|rewrite Hset in He; by injection He as -> ->].
  split; [|split].
  - apply badger_Get_found. rewrite Hkv. apply lookup_insert_eq.
  - rewrite badger_Exists_spec, Hkv, lookup_insert_eq. by apply bool_decide_eq_true.
  - intros k' Hne Hnil.
    assert (badger_kv d' !! k' = badger_kv d !! k') as Hk
      by (rewrite Hkv; by apply lookup_insert_ne).
    destruct (badger_kv d !! k') as [w|] eqn:E.
    + by rewrite (badger_Get_found _ _ _ Hk), (badger_Get_found _ _ _ E).
    + destruct (badger_Get_missing _ _ Hk) as (e & -> & He).
      destruct (badger_Get_missing _ _ E) as (e' & -> & He').
      by rewrite He, He'.
Qed.

(** After a successful [Delete] the key reads as [ErrKeyNotFound] and does
    not exist. *)
Theorem badger_delete_get (k : bytes) (d d' : db)
    (Hdel : Delete k d = (Ok (), d')) (Hk : k ≠ []) :
  Get k d' = (Err ErrKeyNotFound, d') ∧ Exists k d' = false.
Proof.
  destruct (badger_Delete_spec k d) as [(d1 & Hd & Hkv)|(e & He)];
    [rewrite Hdel in Hd; injection Hd as <-|by rewrite Hdel in He].
  assert (badger_kv d' !! k = None) as E by (rewrite Hkv; apply lookup_delete_eq).
  split.
  - destruct (badger_Get_missing _ _ E) as (e & -> & He). by rewrite He.
  - by rewrite badger_Exists_spec, E.
Qed.

Lemma visited_entries prefix (d : db) k v :
  (k, v) ∈ (λ it, (item_Key it, item_val it)) <$> visited prefix (it_Seek (snapshot d) prefix)
  ↔ badger_kv d !! k = Some v ∧ HasPrefix k prefix = true.
Proof.
  set (items := it_Seek (snapshot d) prefix).
  assert (Hle : Forall (λ it, bytes_le prefix (item_Key it)) items).
  { apply Forall_forall. intros it Hit. destruct (Seek_value _ _ _ Hit) as [w Hw].
    by apply (Seek_elem (snapshot d) prefix (item_Key it) w); eauto. }
  assert (Hvis : ∀ it, it ∈ visited prefix items ↔
            it ∈ items ∧ HasPrefix (item_Key it) prefix = true)
    by (intros it; apply visited_complete; [apply Seek_sorted|done]).
  rewrite list_elem_of_fmap. split.
  - intros (it & [= -> ->] & [Hit Hpre]%Hvis). split; [|done].
    destruct (Seek_value _ _ _ Hit) as [w Hw]. unfold item_val. rewrite Hw.
    apply (Seek_elem (snapshot d) prefix). eauto.
  - intros [Hkv Hpre].
    destruct (proj1 (Seek_elem (snapshot d) prefix k v)) as (it & Hit & <- & Hv);
      [split; [done|by apply HasPrefix_le]|].
    exists it. split; [unfold item_val; by rewrite Hv|by apply Hvis].
Qed.

(** C36. [FindValues] decodes the values of exactly the keys that have the
    prefix, in byte-wise key order, stopping at the first that is not JSON. *)
Theorem FindValues_entries (prefix : bytes) (d : db) :
  ∃ entries : list (bytes * bytes),
    StronglySorted bytes_le entries.*1 ∧ NoDup entries.*1
    ∧ (∀ k v, (k, v) ∈ entries ↔ badger_kv d !! k = Some v ∧ HasPrefix k prefix = true)
    ∧ FindValues prefix d = decode_values entries.*2 [].
Proof.
  set (items := it_Seek (snapshot d) prefix).
  set (vis := visited prefix items).
  exists ((λ it, (item_Key it, item_val it)) <$> vis).
  assert (Hkeys : ((λ it, (item_Key it, item_val it)) <$> vis).*1 = item_Key <$> vis)
    by by rewrite <- list_fmap_compose.
  assert (Hvals : ((λ it, (item_Key it, item_val it)) <$> vis).*2 = item_val <$> vis)
    by by rewrite <- list_fmap_compose.
  assert (Hsub : (item_Key <$> vis) `sublist_of` (item_Key <$> items))
    by apply fmap_sublist, visited_sublist.
  rewrite Hkeys, Hvals. split; [|split; [|split]].
  - eapply StronglySorted_sublist; [exact Hsub|apply Seek_sorted].
  - eapply sublist_NoDup; [apply Seek_nodup|exact Hsub].
  - intros k v. apply visited_entries.
  - unfold FindValues. rewrite View_spec, FindValues_loop_visited.
    + fold items vis. by destruct (decode_values _ _) as [vs [e|]].
    + apply Forall_forall. apply Seek_value.
Qed.
End badger_properties.

(** Badger's [FindValues] decodes JSON. *)
Lemma decode_values_not_bytes `{JsonLaws} vs acc b :
  ABytes b ∉ acc → ABytes b ∉ (decode_values vs acc).1.
Proof.
  revert acc. induction vs as [|v vs IH]; intros acc Hacc; simpl; [done|].
  destruct (json_Unmarshal v) as [val|e] eqn:E; [|done]. apply IH.
  rewrite elem_of_app, list_elem_of_singleton. intros [?|Hb]; [done|].
  apply (json_not_bytes v b). congruence.
Qed.

#[export] Instance badger_storage_values {db txn item : Type} `{BadgerLaws db txn item}
    `{JsonLaws} : @StorageValues db BadgerStorage.badger_storage.
Proof.
  intros prefix d b. cbn [storage_FindValues BadgerStorage.badger_storage].
  unfold BadgerStorage.FindValues. rewrite View_spec, FindValues_loop_visited.
  - pose proof (decode_values_not_bytes
      (item_val <$> visited prefix (it_Seek (snapshot d) prefix)) [] b) as Hd.
    destruct (decode_values _ _) as [vs [e|]]; apply Hd; by intros ?%elem_of_nil.
  - apply Forall_forall. apply Seek_value.
Qed.

Module StorageWitness.
Import ToyBadger.
Definition key : bytes := str "k".
Definition other : bytes := str "other".

Lemma badger_set_get_witness :
  BadgerStorage.Get key (<[key:=str "v"]> ∅ : store) = (Ok (str "v"), <[key:=str "v"]> ∅).
Proof.
  apply (badger_set_get (db:=store) (txn:=store) key (str "v") ∅ (<[key:=str "v"]> ∅)
           (Ok ())). reflexivity.
Defined.

Lemma badger_delete_get_witness :
  BadgerStorage.Get key (∅ : store) = (Err ErrKeyNotFound, ∅).
Proof.
  apply (badger_delete_get (db:=store) key (<[key:=str "v"]> ∅) ∅); [reflexivity|done].
Defined.

Lemma FindValues_entries_witness :
  ∃ entries : list (bytes * bytes),
    BadgerStorage.FindValues (str "k") (<[key:=str "v"]> ∅ : store)
    = decode_values entries.*2 [] ∧ (key, str "v") ∈ entries.
Proof.
  destruct (FindValues_entries (db:=store) (str "k") (<[key:=str "v"]> ∅))
    as (entries & _ & _ & Hin & Hf).
  exists entries. split; [exact Hf|]. apply Hin. split; reflexivity.
Defined.
End StorageWitness.
