(* ===== verification/Calls.v ===== *)
(** * Concurrent users of the storage

    Every call of [storage.Storage] is one transaction of Badger and so atomic,
    but an operation of the node makes several of them, and the operations run in
    different goroutines.  [prog] is an operation as the tree of its calls;
    [exec] runs it alone; [pool_step] interleaves the calls of any number of
    them.  [wp] is a logic for such programs in which each promises what it
    writes and deletes and relies on the promises of the others;
    [calls_step_inv] is its soundness. *)

From Stdlib Require Import ZArith Lia.
From stdpp Require Import relations well_founded.
From S2P Require Import Prelude Storage.

Inductive prog (A : Type) : Type :=
| Done (r : res A)
| GetThen (k : bytes) (c : bytes + gerror → prog A)
| SetThen (k v : bytes) (c : unit + gerror → prog A)
| DeleteThen (k : bytes) (c : unit + gerror → prog A)
| ExistsThen (k : bytes) (c : bool → prog A).
Arguments Done {A} _.
Arguments GetThen {A} _ _.
Arguments SetThen {A} _ _ _.
Arguments DeleteThen {A} _ _.
Arguments ExistsThen {A} _ _.

Fixpoint prog_bind {A B} (f : A → prog B) (p : prog A) : prog B :=
  match p with
  | Done (Ok a) => f a
  | Done (Err e) => Done (Err e)
  | Done (Panic q) => Done (Panic q)
  | GetThen k c => GetThen k (λ r, prog_bind f (c r))
  | SetThen k v c => SetThen k v (λ r, prog_bind f (c r))
  | DeleteThen k c => DeleteThen k (λ r, prog_bind f (c r))
  | ExistsThen k c => ExistsThen k (λ r, prog_bind f (c r))
  end.

#[export] Instance prog_mret : MRet prog := λ A a, Done (Ok a).
#[export] Instance prog_mbind : MBind prog := @prog_bind.

Definition res_of {A} (r : A + gerror) : res A :=
  match r with inl a => Ok a | inr e => Err e end.

(** The calls, with their errors returned to the caller. *)
Definition get_call (k : bytes) : prog bytes := GetThen k (λ r, Done (res_of r)).
Definition set_call (k v : bytes) : prog unit := SetThen k v (λ r, Done (res_of r)).
Definition delete_call (k : bytes) : prog unit := DeleteThen k (λ r, Done (res_of r)).

(** ** Programs that run alone, and pools of them *)
Section runs.
Context {S : Type} `{Storage S}.

Fixpoint exec {A} (p : prog A) : M S A :=
  match p with
  | Done r => lift r
  | GetThen k c => r ← try (storage_Get k); exec (c r)
  | SetThen k v c => r ← try (storage_Set k v); exec (c r)
  | DeleteThen k c => r ← try (storage_Delete k); exec (c r)
  | ExistsThen k c => λ s, exec (c (storage_Exists k s)) s
  end.

(** One call of a program. *)
Inductive call {A} : prog A * S → prog A * S → Prop :=
| call_get k c r s s' : try (storage_Get k) s = (Ok r, s') → call (GetThen k c, s) (c r, s')
| call_set k v c r s s' : try (storage_Set k v) s = (Ok r, s') → call (SetThen k v c, s) (c r, s')
| call_delete k c r s s' : try (storage_Delete k) s = (Ok r, s') → call (DeleteThen k c, s) (c r, s')
| call_exists k c s : call (ExistsThen k c, s) (c (storage_Exists k s), s).

Definition returned {A} (p : prog A) : Prop := ∃ r, p = Done r.
Definition panicked {A} (p : prog A) : Prop := ∃ q, p = Done (Panic q).

(** Goroutines that run programs; a panic of one ends the process. *)
Definition pool_step {A} (c c' : list (prog A) * S) : Prop :=
  ∃ i p p', c.1 !! i = Some p ∧ call (p, c.2) (p', c'.2) ∧ c'.1 = <[i := p']> c.1
            ∧ Forall (λ p, ¬ panicked p) c.1.
End runs.

Section alone.
Context {S : Type} `{StorageLaws S}.

Lemma try_Get k s : ∃ r, try (storage_Get k) s = (Ok r, s)
  ∧ match r with
    | inl v => kv s !! k = Some v
    | inr e => kv s !! k = None ∧ (k ≠ [] → e = ErrKeyNotFound)
    end.
Proof.
  unfold try. destruct (kv s !! k) as [v|] eqn:E.
  - rewrite (Get_found _ _ _ E). by exists (inl v).
  - destruct (Get_missing _ _ E) as (e & -> & He). by exists (inr e).
Qed.

Lemma try_Set k v s : ∃ r s', try (storage_Set k v) s = (Ok r, s')
  ∧ match r with inl _ => kv s' = <[k := v]> (kv s) | inr _ => s' = s end.
Proof.
  unfold try. destruct (Set_spec k v s) as [(s' & -> & Hk)|(e & ->)].
  - by exists (inl ()), s'.
  - by exists (inr e), s.
Qed.

Lemma try_Delete k s : ∃ r s', try (storage_Delete k) s = (Ok r, s')
  ∧ match r with inl _ => kv s' = delete k (kv s) | inr _ => s' = s end.
Proof.
  unfold try. destruct (Delete_spec k s) as [(s' & -> & Hk)|(e & ->)].
  - by exists (inl ()), s'.
  - by exists (inr e), s.
Qed.

Lemma exec_bind {A B} (p : prog A) (f : A → prog B) (s : S) :
  exec (p ≫= f) s = (exec p ≫= λ a, exec (f a)) s.
Proof.
  unfold mbind, prog_mbind, M_bind. revert s.
  induction p as [[a|e|q]|k c IH|k v c IH|k c IH|k c IH]; intros s; cbn [prog_bind exec];
    unfold mbind, M_bind, lift; [done..| | | |by rewrite IH];
    destruct (try _ s) as [[r|e|q] s1]; done || by rewrite IH.
Qed.

(** A program that is not interrupted does what [exec] says. *)
Lemma exec_alone {A} (p : prog A) (s : S) :
  rtc call (p, s) (Done (exec p s).1, (exec p s).2).
Proof.
  revert s. induction p as [r|k c IH|k v c IH|k c IH|k c IH]; intros s; cbn [exec]; [done|..];
    unfold mbind, M_bind.
  - destruct (try_Get k s) as (r & E & _). rewrite E. eapply rtc_l; [by apply call_get|apply IH].
  - destruct (try_Set k v s) as (r & s' & E & _). rewrite E.
    eapply rtc_l; [by apply call_set|apply IH].
  - destruct (try_Delete k s) as (r & s' & E & _). rewrite E.
    eapply rtc_l; [by apply call_delete|apply IH].
  - eapply rtc_l; [apply call_exists|apply IH].
Qed.

Lemma call_not_panicked {A} (x y : prog A * S) : call x y → ¬ panicked x.1.
Proof. by intros [] [q E]. Qed.

(** In a pool any goroutine can run to its end. *)
Lemma pool_calls {A} i (l : list (prog A)) (x y : prog A * S) :
  rtc call x y → l !! i = Some x.1 → Forall (λ p, ¬ panicked p) l →
  rtc pool_step (l, x.2) (<[i := y.1]> l, y.2).
Proof.
  intros Hrun. revert l. induction Hrun as [x|x x1 y St Hrun IH]; intros l Hi Hl.
  { by rewrite list_insert_id. }
  assert (pool_step (l, x.2) (<[i := x1.1]> l, x1.2)) as Hone.
  { exists i, x.1, x1.1. by destruct x, x1. }
  inversion Hrun as [|? x2 ? St2 Hrun2]; subst; [by apply rtc_once|].
  eapply rtc_l; [exact Hone|]. rewrite <- (list_insert_insert_eq l i y.1 x1.1). apply IH.
  - apply list_lookup_insert_eq. by eapply lookup_lt_Some.
  - apply Forall_insert; [done|]. by eapply call_not_panicked.
Qed.

Lemma pool_alone {A} i (p : prog A) l (s : S) :
  l !! i = Some p → Forall (λ p, ¬ panicked p) l →
  rtc pool_step (l, s) (<[i := Done (exec p s).1]> l, (exec p s).2).
Proof. intros Hi Hl. by apply (pool_calls i l (p, s) _ (exec_alone p s)). Qed.

(** ** Pools end *)

Lemma call_red {A} (p : prog A) (s : S) : returned p ∨ ∃ p' s', call (p, s) (p', s').
Proof.
  destruct p as [r|k c|k v c|k c|k c]; [left; by exists r|right..].
  - destruct (try_Get k s) as (r & E & _). do 2 eexists. by apply call_get.
  - destruct (try_Set k v s) as (r & s' & E & _). do 2 eexists. by apply call_set.
  - destruct (try_Delete k s) as (r & s' & E & _). do 2 eexists. by apply call_delete.
  - do 2 eexists. by apply call_exists.
Qed.

(** A program makes finitely many calls, whatever they return. *)
Definition after {A} (p p' : prog A) : Prop := ∃ s s' : S, call (p, s) (p', s').

Lemma after_sn {A} (p : prog A) : sn after p.
Proof.
  induction p as [r|k c IH|k v c IH|k c IH|k c IH]; constructor; intros p' (s & s' & St);
    by inversion St; subst.
Qed.

Lemma pool_steps_length {A} (c c' : list (prog A) * S) :
  rtc pool_step c c' → length c.1 = length c'.1.
Proof.
  induction 1 as [|c c1 c' (i & p & p' & _ & _ & E & _) _ IH]; [done|].
  rewrite <- IH, E. symmetry. apply length_insert.
Qed.

Lemma pool_ends {A} (ps : list (prog A)) (s : S) :
  ends_in pool_step (λ c, Forall returned c.1 ∨ Exists panicked c.1) (ps, s).
Proof.
  split.
  - apply (sn_map _ (list_step after) fst).
    + intros [l s1] [l' s2] (i & p & p' & Hi & St & -> & _). exists i, p, p'.
      split; [done|]. split; [|done]. by exists s1, s2.
    + apply list_step_sn, Forall_forall. intros p _. apply after_sn.
  - intros [l s'] _. cbn [fst].
    assert (Exists panicked l ∨ Forall (λ p, ¬ panicked p) l) as [Hp|Hp].
    { induction l as [|p l [IH|IH]]; [by right|by left; right|].
      destruct p as [[a|e|q]|k c|k v c|k c|k c]; try (right; constructor; [by intros [q E]|done]).
      left. left. by exists q. }
    { by right; right. }
    assert (Forall returned l ∨ ∃ i p, l !! i = Some p ∧ ¬ returned p) as [Hr|(i & p & Hi & Hn)].
    { clear Hp. induction l as [|p l [IH|(i & q & Hi & Hq)]]; [by left| |right; by exists (Datatypes.S i), q].
      destruct p as [r|k c|k v c|k c|k c]; [left; constructor; [by exists r|done]|right; exists 0..];
        eexists; (split; [done|]); by intros [r E]. }
    { by right; left. }
    left. destruct (call_red p s') as [Hr|(p' & s2 & St)]; [done|].
    exists (<[i := p']> l, s2). by exists i, p, p'.
Qed.
End alone.

(** ** Promises

    [V] is what the storage holds at the start, [W] what a program of the pool
    may write, [D] what it may delete. *)
Section logic.
Variables (V W : bytes → bytes → Prop) (D : bytes → Prop).
Implicit Types K : bytes → bytes → Prop.

(** An entry that is in the storage stays as it is. *)
Definition stable (k v : bytes) : Prop := ¬ D k ∧ ∀ v', W k v' → v' = v.

Definition learn (k v : bytes) K : bytes → bytes → Prop := λ k' v',
  K k' v' ∨ (k' = k ∧ v' = v ∧ stable k v).

(** The program keeps its promises, and ends with [Q]; it knows that the entries
    [K] are in the storage. *)
Fixpoint wp {A} (p : prog A) K (Q : (bytes → bytes → Prop) → res A → Prop) : Prop :=
  match p with
  | Done r => Q K r
  | GetThen k c =>
      (∀ v, V k v ∨ W k v → (∀ v', K k v' → v = v') → wp (c (inl v)) K Q)
      ∧ ∀ e, (∀ v, ¬ K k v) → (¬ D k → ∀ v, ¬ V k v) → wp (c (inr e)) K Q
  | SetThen k v c => W k v ∧ wp (c (inl ())) (learn k v K) Q ∧ ∀ e, wp (c (inr e)) K Q
  | DeleteThen k c => D k ∧ ∀ r, wp (c r) K Q
  | ExistsThen k c => wp (c true) K Q ∧ wp (c false) K Q
  end.

Definition more K K' : Prop := ∀ k v, K k v → K' k v.

Lemma learn_more k v K : more K (learn k v K).
Proof. intros k' v' Hk. by left. Qed.

(** What a program has learned it keeps. *)
Lemma wp_mono {A} (p : prog A) K (Q Q' : (bytes → bytes → Prop) → res A → Prop) :
  wp p K Q → (∀ K' r, more K K' → Q K' r → Q' K' r) → wp p K Q'.
Proof.
  revert K. induction p as [r|k c IH|k v c IH|k c IH|k c IH]; intros K; cbn [wp]; intros Hp Hq.
  - apply Hq; [|done]. by intros k v.
  - destruct Hp as [H1 H2]. split; eauto.
  - destruct Hp as (Hw & H1 & H2). split; [done|]. split; [|eauto].
    eapply IH; [exact H1|]. intros K' r Hm. apply Hq. intros k' v' Hk. by apply Hm, learn_more.
  - destruct Hp as [Hd Hp]. eauto.
  - destruct Hp as [H1 H2]. split; eauto.
Qed.

Lemma wp_bind {A B} (p : prog A) (f : A → prog B) K Q :
  wp p K (λ K' r, match r with
                  | Ok a => wp (f a) K' Q
                  | Err e => Q K' (Err e)
                  | Panic q => Q K' (Panic q)
                  end) →
  wp (p ≫= f) K Q.
Proof.
  unfold mbind, prog_mbind. revert K.
  induction p as [[a|e|q]|k c IH|k v c IH|k c IH|k c IH]; intros K; cbn [wp prog_bind]; try done.
  - intros [Hv He]. split; auto.
  - intros (Hw & Hv & He). split_and!; auto.
  - intros [Hd Hr]. split; auto.
  - intros [Ht Hf]. split; auto.
Qed.

(** ** The storage of a pool *)
Section pool.
Context {S : Type} `{StorageLaws S}.

Record store_inv (s : S) : Prop := {
  si_values : ∀ k v, kv s !! k = Some v → V k v ∨ W k v;
  si_stays : ∀ k v, V k v → ¬ D k → is_Some (kv s !! k);
  si_stable : ∀ k v, V k v → stable k v → kv s !! k = Some v
}.

(** What a program knows is so and remains so. *)
Definition knows K (s : S) : Prop := ∀ k v, K k v → kv s !! k = Some v ∧ stable k v.

Lemma knows_learn k v K s s' :
  W k v → kv s' = <[k := v]> (kv s) → knows K s → knows (learn k v K) s'.
Proof.
  intros Hw E Hk k' v' [Hk'|(-> & -> & Hs)].
  - destruct (Hk _ _ Hk') as [Hv Hst]. split; [|done]. rewrite E, lookup_insert.
    case_decide as Ek; [subst k'|done]. f_equal. by apply Hst.
  - by rewrite E, lookup_insert_eq.
Qed.

(** A call keeps the promises: to the storage, to its program and to the others. *)
Lemma call_inv {A} (p p' : prog A) s s' K Q :
  call (p, s) (p', s') → store_inv s → knows K s → wp p K Q →
  store_inv s' ∧ (∃ K', knows K' s' ∧ wp p' K' Q ∧ more K K') ∧ ∀ K2, knows K2 s → knows K2 s'.
Proof.
  intros St [Iv Is Ist] Hk Hp. inversion St as [k c r x y E|k v c r x y E|k c r x y E|k c x]; subst.
  - destruct (try_Get k s) as (r' & E' & Hr). rewrite E in E'. injection E' as -> ->.
    split; [done|]. split; [|done]. exists K. split; [done|]. split; [|by intros ??].
    cbn [wp] in Hp. destruct Hp as [Hv He].
    destruct r' as [v|e]; [apply Hv; [by apply Iv|]|apply He].
    + intros v' Hv'. apply Hk in Hv' as [Hv' _]. congruence.
    + intros v Hv'. apply Hk in Hv' as [Hv' _]. destruct Hr. congruence.
    + intros Hd v Hv'. destruct Hr as [Hn _]. destruct (Is k v Hv' Hd) as [? ?]. congruence.
  - destruct (try_Set k v s) as (r' & s2 & E' & Hr). rewrite E in E'. injection E' as -> ->.
    cbn [wp] in Hp. destruct Hp as (Hw & H1 & H2). destruct r' as [[]|e].
    2:{ subst s2. split; [done|]. split; [|done]. exists K. split; [done|]. split; [apply H2|by intros ??]. }
    split; [|split; [exists (learn k v K)|]].
    + split.
      * intros k' v'. rewrite Hr, lookup_insert. case_decide as Ek; [|apply Iv].
        intros [= <-]. subst k'. by right.
      * intros k' v' Hv' Hd. rewrite Hr, lookup_insert. case_decide; [by eexists|eauto].
      * intros k' v' Hv' Hst. rewrite Hr, lookup_insert. case_decide as Ek; [subst k'|by apply Ist].
        f_equal. by apply Hst.
    + split; [by eapply knows_learn|]. split; [done|apply learn_more].
    + intros K2 Hk2 k' v' Hkv. eapply (knows_learn k v K2); [done..|by apply learn_more].
  - destruct (try_Delete k s) as (r' & s2 & E' & Hr). rewrite E in E'. injection E' as -> ->.
    cbn [wp] in Hp. destruct Hp as [Hd Hp].
    assert (∀ K2, knows K2 s → knows K2 s2) as Hkn.
    { intros K2 Hk2 k' v' Hkv. destruct (Hk2 _ _ Hkv) as [Hv Hst]. split; [|done].
      destruct r' as [u|e]; [|by subst s2]. rewrite Hr, lookup_delete_ne; [done|]. intros ->. by destruct Hst. }
    split; [|split; [exists K; split; [by apply Hkn|]; split; [done|by intros ??]|done]].
    destruct r' as [u|e]; [|by subst s2]. split.
    + intros k' v'. rewrite Hr, lookup_delete. case_decide; [done|apply Iv].
    + intros k' v' Hv' Hd'. rewrite Hr, lookup_delete_ne; [eauto|]. by intros ->.
    + intros k' v' Hv' Hst. rewrite Hr, lookup_delete_ne; [by apply Ist|]. intros ->. by destruct Hst.
  - cbn [wp] in Hp. destruct Hp as [H1 H2]. split; [done|]. split; [|done]. exists K. split; [done|].
    split; [by destruct (storage_Exists _ _)|by intros ??].
Qed.

(** The pool: every program keeps its promises, and will end as its [Q] says. *)
Record pool_inv {A} (Q : nat → (bytes → bytes → Prop) → res A → Prop)
    (c : list (prog A) * S) : Prop := {
  pi_store : store_inv c.2;
  pi_progs : ∀ i p, c.1 !! i = Some p → ∃ K, knows K c.2 ∧ wp p K (Q i)
}.

Lemma calls_step_inv {A} Q (c c' : list (prog A) * S) :
  pool_step c c' → pool_inv Q c → pool_inv Q c'.
Proof.
  destruct c as [l s], c' as [l' s']. intros (i & p & p' & Hi & St & E & _) [Hs Hp].
  cbn [fst snd] in *. subst l'. destruct (Hp i p Hi) as (K & HK & Hw).
  destruct (call_inv p p' s s' K (Q i) St Hs HK Hw) as (Hs' & (K' & HK' & Hw' & _) & Hall).
  split; [done|]. cbn [fst snd]. intros j q Hj.
  destruct (decide (j = i)) as [->|Hne].
  - rewrite list_lookup_insert_eq in Hj by (by eapply lookup_lt_Some). injection Hj as <-. by exists K'.
  - rewrite list_lookup_insert_ne in Hj by done.
    destruct (Hp j q Hj) as (K2 & HK2 & Hw2). exists K2. split; [by apply Hall|done].
Qed.

Lemma pool_steps_inv {A} Q (c c' : list (prog A) * S) :
  rtc pool_step c c' → pool_inv Q c → pool_inv Q c'.
Proof. apply (rtc_ind_inv pool_step (pool_inv Q)), calls_step_inv. Qed.

(** Knowledge of one moment is knowledge of every later one. *)
Lemma pool_steps_know {A} Q K (c c' : list (prog A) * S) :
  rtc pool_step c c' → pool_inv Q c → knows K c.2 → knows K c'.2.
Proof.
  intros Hrun Hinv Hk.
  apply (rtc_ind_inv pool_step (λ c, pool_inv Q c ∧ knows K c.2) c c'); [|done|done].
  intros [l s] [l' s'] St [Hi HK]. split; [by eapply calls_step_inv|].
  destruct St as (i & p & p' & Hl & St & _). destruct Hi as [Hs Hp]. cbn [fst snd] in *.
  destruct (Hp i p Hl) as (K' & HK' & Hw).
  by destruct (call_inv p p' s s' K' (Q i) St Hs HK' Hw) as (_ & _ & Hall); apply Hall.
Qed.
End pool.
End logic.
