(* ===== verification/Task.v ===== *)
(** * Handlers at work

    The handlers of the dispatcher run in its worker goroutines without a lock
    around them, so two of them may be half-way through at the same time.  A
    [task] is what a handler still has to do, as the tree of its accesses to the
    state that the handlers share: an access reads and writes this state at
    once - a call under a mutex, the send of one log record -, everything
    between two accesses is private.  [run_task] runs a task alone. *)

From stdpp Require Import relations.
From S2P Require Import Prelude.

(** [Access f k]: the state [s] becomes [f s], and what was read decides how the
    task goes on. *)
Inductive task (S : Type) :=
  | Ends (r : res unit)
  | Access (f : S → S) (k : S → task S).
Arguments Ends {S} _.
Arguments Access {S} _ _.

Section task.
Context {S : Type}.
Implicit Types (t : task S) (m : M S unit).

Fixpoint run_task t : M S unit := λ s,
  match t with
  | Ends r => (r, s)
  | Access f k => run_task (k s) (f s)
  end.

(** A computation that is a single access. *)
Definition atomically m : task S := Access (λ s, (m s).2) (λ s, Ends (m s).1).

(** A part of the state. *)
Fixpoint zoom_task {T} (get : S → T) (set : T → S → S) (t : task T) : task S :=
  match t with
  | Ends r => Ends r
  | Access f k => Access (λ s, set (f (get s)) s) (λ s, zoom_task get set (k (get s)))
  end.

Definition ended t : bool := match t with Ends _ => true | Access _ _ => false end.

(** It has at most one access, after which it returns. *)
Definition at_most_once t : Prop :=
  match t with Ends _ => True | Access _ k => ∀ s, k s = Ends (Ok ()) end.

(** However others write between its accesses. *)
Fixpoint never_fails t : Prop :=
  match t with
  | Ends r => r = Ok ()
  | Access _ k => ∀ s, never_fails (k s)
  end.

Lemma run_atomically m s : run_task (atomically m) s = m s.
Proof. cbn. by destruct (m s). Qed.

(** The one access of a task does all its work. *)
Lemma run_once f k s : at_most_once (Access f k) → run_task (Access f k) s = (Ok (), f s).
Proof. intros Hk. cbn. by rewrite (Hk s). Qed.

Lemma never_fails_run t s : never_fails t → ∃ s', run_task t s = (Ok (), s').
Proof. revert s. induction t as [r|f k IH]; intros s; cbn; [intros ->; eauto|intros Hk; by apply IH]. Qed.

Lemma once_never_fails t s s' : at_most_once t → run_task t s = (Ok (), s') → never_fails t.
Proof. destruct t as [r|f k]; cbn; [by intros _ [= -> _]|]. intros Hk _ x. by rewrite Hk. Qed.

(** ** Tasks end *)

Definition next t t' : Prop := ∃ f k s, t = Access f k ∧ t' = k s.

Lemma next_sn t : sn next t.
Proof. induction t as [r|f k IH]; constructor; intros t' (f' & k' & s & E & ->); [done|]. by injection E as <- <-. Qed.

End task.

Lemma zoom_task_once {S T} (get : S → T) (set : T → S → S) (t : task T) :
  at_most_once t → at_most_once (zoom_task get set t).
Proof. destruct t as [r|f k]; cbn; [done|]. intros Hk s. by rewrite Hk. Qed.

Lemma run_zoom_task {S T} (get : S → T) (set : T → S → S) (t : task T) s :
  (∀ x, set (get x) x = x) → at_most_once t →
  run_task (zoom_task get set t) s = zoom get set (run_task t) s.
Proof.
  intros Hget. destruct t as [r|f k]; cbn; unfold zoom; cbn; [by rewrite Hget|].
  intros Hk. by rewrite Hk.
Qed.
