(* ===== verification/Frame.v ===== *)
(** * Framing: internal/network/length-prefix.go, quic_frame.go

    A frame is a 4-byte big-endian length, a type byte and the payload.  The
    [io.Reader] of a stream delivers its bytes in segments of any size, and
    [io.ReadFull] of the Go standard library loops over them; the [io.Writer]
    is the class [Writer], because a QUIC stream may refuse a write. *)

From Stdlib Require Import ZArith Lia.
From S2P Require Import Prelude.

Local Open Scope Z_scope.

(** ** Message types: internal/network/quic.go, an [int] with [iota] *)
Definition MessageType : Type := Z.
Definition TypeUnknown : MessageType := 0.
Definition TypeHandshake : MessageType := 1.
Definition TypeReady : MessageType := 2.
Definition TypeGossip : MessageType := 3.
Definition TypePing : MessageType := 4.
Definition TypeChatMessage : MessageType := 5.
Definition TypeDatagram : MessageType := 6.
Definition TypeGetPeerRequest : MessageType := 7.
Definition TypeGetPeerResponse : MessageType := 8.
Definition TypeBlockRequest : MessageType := 9.
Definition TypeBlockResponse : MessageType := 10.
Definition TypeSessionInitRequest : MessageType := 11.
Definition TypeSessionInitResponse : MessageType := 12.
Definition TypeStreamInitRequest : MessageType := 13.
Definition TypeChunkRequest : MessageType := 14.
Definition TypeChunkResponse : MessageType := 15.
Definition TypeStreamCancel : MessageType := 16.

(** ** [io.Reader]: the segments still to be delivered, then end of file *)
Abbreviation Reader := (list bytes).

(** One call [r.Read(buf)] with [len(buf) = n]. *)
Definition Read (n : Z) (r : Reader) : bytes * option gerror * Reader :=
  if n =? 0 then ([], None, r)
  else match r with
       | [] => ([], Some EOF, [])
       | s :: r =>
           if Z.of_nat (length s) <=? n then (s, None, r)
           else (take (Z.to_nat n) s, None, drop (Z.to_nat n) s :: r)
       end.

(** [io.ReadFull(r, buf)]: read until [n] bytes are there or an error.  Every
    call either ends a segment or fills the buffer, so the number of segments
    bounds the loop. *)
Fixpoint ReadFull_loop (fuel : nat) (n : Z) (buf : bytes) (r : Reader) : res bytes * Reader :=
  if Z.of_nat (length buf) <? n then
    match fuel with
    | O => (Err EOF, r)
    | S fuel =>
        match Read (n - Z.of_nat (length buf)) r with
        | (got, None, r) => ReadFull_loop fuel n (buf ++ got) r
        | (got, Some err, r) =>
            let buf := buf ++ got in
            if n <=? Z.of_nat (length buf) then (Ok buf, r)
            else if bool_decide (err = EOF) && negb (Nat.eqb (length buf) 0)
                 then (Err ErrUnexpectedEOF, r) else (Err err, r)
        end
    end
  else (Ok buf, r).

Definition ReadFull (n : Z) : M Reader bytes := λ r, ReadFull_loop (S (length r)) n [] r.

(** ** [io.Writer] *)
Class Writer (W : Type) := { Write : bytes → M W nat }.
(** Documented: a write without error has taken all the bytes; it does not
    panic. *)
Class WriterLaws (W : Type) `{Writer W} := {
  written : W → bytes;
  Write_ok p w n w' : Write p w = (Ok n, w') → written w' = written w ++ p;
  Write_no_panic p w q w' : Write p w ≠ (Panic q, w')
}.

(** ** length-prefix.go *)
Definition writeLengthPrefix `{Writer W} (data : bytes) : M W unit :=
  let buf := be_put 4 (u32 (Z.of_nat (length data))) ++ data in
  _ ← Write buf;
  mret ().

Definition readLengthPrefix : M Reader bytes :=
  header ← ReadFull 4;
  let length := be_get header in
  payload ← ReadFull length;
  mret payload.

(** ** quic_frame.go *)
Definition writeFrame `{Writer W} (msgType : MessageType) (data : bytes) : M W unit :=
  let payload := Zb msgType :: data in
  writeLengthPrefix payload.

Definition readFrame : M Reader (MessageType * bytes) :=
  data ← readLengthPrefix;
  match data with
  | [] => lift (Panic (PanicIndex 0 0))
  | b :: rest => mret (bZ b, rest)
  end.

Definition sendReadyFrame `{Writer W} (w : W) : res bool * W :=
  match Write [Zb TypeReady] w with
  | (Ok _, w) => (Ok true, w)
  | (Err _, w) => (Ok false, w)
  | (Panic p, w) => (Panic p, w)
  end.

Definition acceptReadyFrame (r : Reader) : res bool * Reader :=
  match ReadFull 1 r with
  | (Ok data, r) => (Ok (bool_decide (data = [Zb TypeReady])), r)
  | (Err _, r) => (Ok false, r)
  | (Panic p, r) => (Panic p, r)
  end.

(** ** Lemmas *)

(** What [ReadFull] does to the bytes, whatever their segmentation. *)
Definition full (n : Z) (s : bytes) : res bytes * bytes :=
  if n <=? Z.of_nat (length s) then (Ok (take (Z.to_nat n) s), drop (Z.to_nat n) s)
  else (Err (match s with [] => EOF | _ => ErrUnexpectedEOF end), []).

#[global] Arguments full : simpl never.
#[global] Arguments ReadFull : simpl never.

Definition flat {A} (p : res A * Reader) : res A * bytes := (p.1, concat p.2).

Lemma ReadFull_loop_done fuel n buf r :
  n = Z.of_nat (length buf) → ReadFull_loop fuel n buf r = (Ok buf, r).
Proof. intros ->. destruct fuel; cbn [ReadFull_loop]; by rewrite Z.ltb_irrefl. Qed.

Lemma full_app_done n buf s : n = Z.of_nat (length buf) → full n (buf ++ s) = (Ok buf, s).
Proof.
  intros ->. unfold full. rewrite length_app, Nat2Z.id.
  destruct (Z.leb_spec (Z.of_nat (length buf)) (Z.of_nat (length buf + length s))); [|lia].
  by rewrite take_app_length, drop_app_length.
Qed.

Lemma ReadFull_loop_full fuel n buf r :
  (length r < fuel)%nat → Z.of_nat (length buf) <= n →
  flat (ReadFull_loop fuel n buf r) = full n (buf ++ concat r).
Proof.
  revert buf r. induction fuel as [|fuel IH]; intros buf r Hf Hbuf; [lia|].
  destruct (Z.ltb_spec (Z.of_nat (length buf)) n) as [Hlt|Hge].
  2: { rewrite ReadFull_loop_done, full_app_done by lia. done. }
  cbn [ReadFull_loop]. rewrite (proj2 (Z.ltb_lt _ _) Hlt). unfold Read.
  destruct (Z.eqb_spec (n - Z.of_nat (length buf)) 0); [lia|].
  destruct r as [|s r]; cbn [concat].
  - rewrite !app_nil_r. unfold full.
    destruct (Z.leb_spec n (Z.of_nat (length buf))); [lia|].
    rewrite bool_decide_eq_true_2 by done. by destruct buf.
  - destruct (Z.leb_spec (Z.of_nat (length s)) (n - Z.of_nat (length buf))) as [Hs|Hs].
    + rewrite IH by (rewrite ?length_app; cbn [length] in *; lia).
      by rewrite <- app_assoc.
    + set (m := Z.to_nat (n - Z.of_nat (length buf))).
      assert (n = Z.of_nat (length (buf ++ take m s))) as Hm
        by len.
      rewrite (ReadFull_loop_done _ _ _ _ Hm).
      transitivity (full n ((buf ++ take m s) ++ (drop m s ++ concat r))).
      * by rewrite (full_app_done _ _ _ Hm).
      * f_equal. by rewrite <- app_assoc, (app_assoc (take m s)), take_drop.
Qed.

Lemma ReadFull_full n r : 0 <= n → flat (ReadFull n r) = full n (concat r).
Proof.
  intros Hn. unfold ReadFull. by rewrite ReadFull_loop_full by (simpl; lia).
Qed.

(** A computation on a reader that depends on its bytes only. *)
Lemma flat_bind {A B} (m : M Reader A) (f : A → M Reader B) r (g : A → bytes → res B * bytes) s p :
  flat (m r) = (p, s) →
  (∀ a r', concat r' = s → flat (f a r') = g a s) →
  flat ((m ≫= f) r)
  = match p with Ok a => g a s | Err e => (Err e, s) | Panic q => (Panic q, s) end.
Proof.
  unfold flat, mbind, M_bind. intros Hm Hf. destruct (m r) as [q r']. cbn in Hm.
  injection Hm as -> <-. destruct p; simpl; [|done..]. by apply Hf.
Qed.

(** [readFrame] as a function of the bytes of the stream. *)
Definition frame_of (s : bytes) : res (MessageType * bytes) * bytes :=
  match full 4 s with
  | (Ok h, s) =>
      match full (be_get h) s with
      | (Ok (b :: d), s) => (Ok (bZ b, d), s)
      | (Ok [], s) => (Panic (PanicIndex 0 0), s)
      | (Err e, s) => (Err e, s)
      | (Panic q, s) => (Panic q, s)
      end
  | (Err e, s) => (Err e, s)
  | (Panic q, s) => (Panic q, s)
  end.

Lemma be_get_nonneg l : 0 <= be_get l.
Proof. apply be_get_range. Qed.

Lemma readFrame_flat (r : Reader) : flat (readFrame r) = frame_of (concat r).
Proof.
  unfold readFrame, readLengthPrefix, frame_of.
  pose proof (ReadFull_full 4 r ltac:(lia)) as Hh.
  unfold mbind, M_bind, flat in *. destruct (ReadFull 4 r) as [[h|e|q] r1];
    cbn in Hh |- *; rewrite <- Hh; cbn; [|reflexivity..].
  pose proof (ReadFull_full (be_get h) r1 (be_get_nonneg h)) as Hp.
  unfold flat in Hp. destruct (ReadFull (be_get h) r1) as [[d|e|q] r2];
    cbn in Hp |- *; rewrite <- Hp; cbn; [|reflexivity..].
  by destruct d.
Qed.

(** C38. [readFrame] depends only on the bytes of the stream and not on how the
    network cut them into segments; [frame_of] gives its result on every byte
    sequence, the errors and the panic included, and the bytes left. *)
Theorem readFrame_frame_of (r : Reader) : flat (readFrame r) = frame_of (concat r).
Proof. apply readFrame_flat. Qed.

Lemma full_header h s : (length h = 4)%nat → full 4 (h ++ s) = (Ok h, s).
Proof. intros Hh. apply full_app_done. by rewrite Hh. Qed.

Lemma frame_of_header z s :
  frame_of (be_put 4 z ++ s)
  = match full (u32 z) s with
    | (Ok (b :: d), s) => (Ok (bZ b, d), s)
    | (Ok [], s) => (Panic (PanicIndex 0 0), s)
    | (Err e, s) => (Err e, s)
    | (Panic q, s) => (Panic q, s)
    end.
Proof.
  unfold frame_of. rewrite full_header by apply length_be_put.
  by rewrite be_get_put.
Qed.

(** The bytes [writeFrame] writes. *)
Definition frame_bytes (msgType : MessageType) (data : bytes) : bytes :=
  be_put 4 (u32 (Z.of_nat (S (length data)))) ++ Zb msgType :: data.

Lemma u32_idemp z : u32 (u32 z) = u32 z.
Proof. unfold u32. by apply Z.mod_mod. Qed.

Lemma frame_of_bytes msgType data rest :
  Z.of_nat (length data) + 1 < 2 ^ 32 →
  frame_of (frame_bytes msgType data ++ rest) = (Ok (msgType mod 256, data), rest).
Proof.
  intros Hlen. unfold frame_bytes. rewrite <- app_assoc, frame_of_header, u32_idemp.
  rewrite u32_small by lia.
  rewrite (full_app_done _ (Zb msgType :: data)) by (cbn [length]; lia).
  by rewrite bZ_Zb.
Qed.

Section writer.
Context {W : Type} `{WriterLaws W}.

Lemma writeFrame_written msgType data (w w' : W) :
  writeFrame msgType data w = (Ok (), w') →
  written w' = written w ++ frame_bytes msgType data.
Proof.
  unfold writeFrame, writeLengthPrefix, mbind, M_bind.
  destruct (Write _ w) as [[n|e|q] w1] eqn:E; intros [= <-].
  by apply Write_ok in E.
Qed.

(** C11. Round trip: a frame that [writeFrame] wrote, of less than 2^32 bytes, is
    read back by [readFrame] from any segmentation of the stream, with its
    type modulo 256 and its payload, and exactly its bytes are consumed. *)
Theorem frame_roundtrip (msgType : MessageType) (data rest : bytes) (w w' : W) (r : Reader)
    (Hlen : Z.of_nat (length data) + 1 < 2 ^ 32)
    (Hwrite : writeFrame msgType data w = (Ok (), w'))
    (Hstream : written w ++ concat r = written w' ++ rest) :
  ∃ r', readFrame r = (Ok (msgType mod 256, data), r') ∧ concat r' = rest.
Proof.
  apply writeFrame_written in Hwrite. rewrite Hwrite, <- app_assoc in Hstream.
  apply app_inv_head in Hstream.
  pose proof (readFrame_flat r) as Hr.
  rewrite Hstream, frame_of_bytes in Hr by done.
  unfold flat in Hr. destruct (readFrame r) as [a r']. injection Hr as -> <-. eauto.
Qed.
End writer.

Lemma frame_of_empty s : frame_of (be_put 4 0 ++ s) = (Panic (PanicIndex 0 0), s).
Proof.
  rewrite frame_of_header. pose proof (full_app_done (u32 0) [] s eq_refl) as H.
  cbn [app] in H. by rewrite H.
Qed.

(** A peer that sends four zero bytes makes [readFrame] panic, on any
    connection: [data[0]] of an empty frame is out of range. *)
Theorem readFrame_empty_frame_panics (r : Reader) (rest : bytes)
    (Hr : concat r = be_put 4 0 ++ rest) :
  (readFrame r).1 = Panic (PanicIndex 0 0).
Proof.
  pose proof (readFrame_flat r) as H. rewrite Hr, frame_of_empty in H.
  unfold flat in H. destruct (readFrame r) as [a r']. by injection H as -> _.
Qed.

(** The 32-bit length prefix overflows: a payload of 2^32 - 1 bytes, which
    [writeFrame] accepts, is announced with length 0 and makes the reader
    panic. *)
Theorem writeFrame_overflow_panics `{WriterLaws W} (msgType : MessageType) (data : bytes)
    (w w' : W) (r : Reader)
    (Hlen : Z.of_nat (length data) = 2 ^ 32 - 1)
    (Hwrite : writeFrame msgType data w = (Ok (), w'))
    (Hstream : written w ++ concat r = written w') :
  (readFrame r).1 = Panic (PanicIndex 0 0).
Proof.
  apply writeFrame_written in Hwrite. rewrite Hwrite in Hstream.
  apply app_inv_head in Hstream.
  pose proof (readFrame_flat r) as Hr. rewrite Hstream in Hr.
  unfold frame_bytes in Hr.
  replace (u32 (Z.of_nat (S (length data)))) with 0 in Hr
    by (replace (Z.of_nat (S (length data))) with (2 ^ 32) by lia; done).
  rewrite frame_of_empty in Hr. unfold flat in Hr.
  destruct (readFrame r) as [a r']. by injection Hr as -> _.
Qed.

(** ** The ready frame *)
Lemma acceptReadyFrame_spec r :
  (acceptReadyFrame r).1
  = Ok (match concat r with b :: _ => bool_decide (b = Zb TypeReady) | [] => false end).
Proof.
  unfold acceptReadyFrame. pose proof (ReadFull_full 1 r ltac:(lia)) as H.
  unfold flat in H. destruct (ReadFull 1 r) as [a r']. unfold full in H. cbn [fst snd] in H.
  destruct (concat r) as [|b s]; cbn [length] in H.
  - injection H as -> _. done.
  - destruct (Z.leb_spec 1 (Z.of_nat (S (length s)))); [|lia].
    injection H as -> _. cbn. f_equal. apply bool_decide_ext. naive_solver.
Qed.

(** ** A writer for the witnesses: a growing buffer *)
Module ToyWriter.
#[export] Instance writer : Writer bytes := {
  Write p w := (Ok (length p), w ++ p)
}.
#[export] Instance writer_laws : WriterLaws bytes.
Proof.
  refine {| written := id |}; simpl.
  - by intros p w n w' [= _ <-].
  - done.
Defined.

Lemma writeFrame_toy msgType data (w : bytes) :
  writeFrame msgType data w = (Ok (), w ++ frame_bytes msgType data).
Proof. done. Qed.
End ToyWriter.

Module FrameWitness.
Import ToyWriter.

(** A frame cut inside its header and inside its payload. *)
Definition segmented : Reader :=
  [[Byte.x00; Byte.x00]; [Byte.x00; Byte.x04; Byte.x01]; []; str "ab"; str "c!"].

Example readFrame_segmented : readFrame segmented = (Ok (TypeHandshake, str "abc"), [str "!"]).
Proof. vm_compute. reflexivity. Qed.

Lemma frame_roundtrip_witness :
  ∃ r', readFrame segmented = (Ok (1, str "abc"), r') ∧ concat r' = str "!".
Proof.
  apply (frame_roundtrip (W:=bytes) TypeHandshake (str "abc") (str "!") []
           (frame_bytes TypeHandshake (str "abc")) segmented); reflexivity.
Defined.

Lemma readFrame_empty_frame_panics_witness :
  (readFrame [be_put 4 0; str "rest"]).1 = Panic (PanicIndex 0 0).
Proof.
  apply (readFrame_empty_frame_panics [be_put 4 0; str "rest"] (str "rest")). reflexivity.
Defined.

Lemma writeFrame_overflow_panics_witness :
  (readFrame [frame_bytes TypeGossip
     (replicate (Z.to_nat (2 ^ 32 - 1)) Byte.x00)]).1 = Panic (PanicIndex 0 0).
Proof.
  set (data := replicate _ _).
  apply (writeFrame_overflow_panics (W:=bytes) TypeGossip data []
           ([] ++ frame_bytes TypeGossip data)).
  - unfold data. rewrite length_replicate. apply Z2Nat.id. lia.
  - apply writeFrame_toy.
  - apply app_nil_r.
Defined.
End FrameWitness.
