(* ===== verification/Kademlia.v ===== *)
(** * Bucket index: internal/p2p/dht/kademlia.go

    [getBucketIndex] scans two identifiers byte by byte; it is proved to be the
    Kademlia index of their XOR distance, the identifiers read as 256-bit
    big-endian numbers. *)

From Stdlib Require Import ZArith Lia.
From S2P Require Import Prelude Types.

Local Open Scope Z_scope.

Definition IDLength : Z := 32.

(** [bits.LeadingZeros8] of the standard library: 8 less the bit length. *)
Definition LeadingZeros8 (x : Z) : Z := 8 - (if x =? 0 then 0 else Z.log2 x + 1).

(** The loop from index [i], on the bytes from [i] of the two arrays. *)
Fixpoint getBucketIndex_loop (i : Z) (localID remoteID : bytes) : Z :=
  match localID, remoteID with
  | a :: localID, b :: remoteID =>
      let xor := Z.lxor (bZ a) (bZ b) in
      if negb (xor =? 0) then i * 8 + LeadingZeros8 xor
      else getBucketIndex_loop (i + 1) localID remoteID
  | _, _ => IDLength * 8 - 1
  end.

Definition getBucketIndex (localID remoteID : PeerID) : Z :=
  getBucketIndex_loop 0 (arr localID) (arr remoteID).

(** The XOR metric. *)
Definition distance (a b : PeerID) : Z := Z.lxor (be_get (arr a)) (be_get (arr b)).

(** ** Lemmas on XOR *)

Lemma testbit_split z k m : 0 <= k → 0 <= m →
  Z.testbit z m
  = if m <? k then Z.testbit (z mod 2 ^ k) m else Z.testbit (z / 2 ^ k) (m - k).
Proof.
  intros Hk Hm. destruct (Z.ltb_spec m k).
  - by rewrite Z.mod_pow2_bits_low.
  - rewrite Z.div_pow2_bits by lia. f_equal. lia.
Qed.

Lemma lxor_range x y k :
  0 <= k → 0 <= x < 2 ^ k → 0 <= y < 2 ^ k → 0 <= Z.lxor x y < 2 ^ k.
Proof.
  intros Hk Hx Hy.
  assert (Z.lxor x y = Z.lxor x y mod 2 ^ k) as ->; [|apply Z.mod_pos_bound; lia].
  apply Z.bits_inj'. intros m Hm. destruct (Z.ltb_spec m k).
  - by rewrite Z.mod_pow2_bits_low.
  - rewrite Z.mod_pow2_bits_high by lia.
    rewrite <- (Z.mod_small x (2 ^ k)), <- (Z.mod_small y (2 ^ k)) by lia.
    by rewrite Z.lxor_spec, !Z.mod_pow2_bits_high by lia.
Qed.

Lemma lxor_concat a b x y k :
  0 <= k → 0 <= x < 2 ^ k → 0 <= y < 2 ^ k →
  Z.lxor (a * 2 ^ k + x) (b * 2 ^ k + y) = Z.lxor a b * 2 ^ k + Z.lxor x y.
Proof.
  intros Hk Hx Hy. pose proof (lxor_range x y k Hk Hx Hy) as Hxy.
  assert (Hpow : 2 ^ k ≠ 0) by lia.
  assert (Hmod : ∀ c z, 0 <= z < 2 ^ k → (c * 2 ^ k + z) mod 2 ^ k = z).
  { intros c z Hz. rewrite Z.add_comm, Z.mod_add by done. by apply Z.mod_small. }
  assert (Hdiv : ∀ c z, 0 <= z < 2 ^ k → (c * 2 ^ k + z) / 2 ^ k = c).
  { intros c z Hz. rewrite Z.div_add_l, Z.div_small by done. apply Z.add_0_r. }
  apply Z.bits_inj'. intros m Hm.
  rewrite Z.lxor_spec, (testbit_split (a * 2 ^ k + x) k m),
    (testbit_split (b * 2 ^ k + y) k m),
    (testbit_split (Z.lxor a b * 2 ^ k + Z.lxor x y) k m) by done.
  rewrite !Hmod, !Hdiv by done.
  destruct (m <? k); by rewrite Z.lxor_spec.
Qed.

Lemma lxor_byte_range a b : 0 <= Z.lxor (bZ a) (bZ b) < 256.
Proof. apply (lxor_range _ _ 8); [lia|apply bZ_range..]. Qed.

Lemma log2_high A X k : 0 <= k → 0 < A → 0 <= X < 2 ^ k →
  Z.log2 (A * 2 ^ k + X) = Z.log2 A + k.
Proof.
  intros Hk HA HX. pose proof (Z.log2_spec A HA) as [Hlo Hhi].
  pose proof (Z.log2_nonneg A).
  apply Z.log2_unique; [lia|].
  rewrite <- Z.add_succ_l, !Z.pow_add_r by lia. nia.
Qed.

Lemma getBucketIndex_loop_spec i l r :
  length l = length r → i + Z.of_nat (length l) = IDLength →
  getBucketIndex_loop i l r = IDLength * 8 - 1 - Z.log2 (Z.lxor (be_get l) (be_get r)).
Proof.
  revert i r. induction l as [|a l IH]; intros i [|b r] Hlen Hi; try done.
  injection Hlen as Hlen. cbn [length] in Hi. cbn [getBucketIndex_loop].
  pose proof (be_get_range l) as Hl. pose proof (be_get_range r) as Hr.
  rewrite <- Hlen in Hr. set (k := 8 * Z.of_nat (length l)) in *.
  assert (Hx : Z.lxor (be_get (a :: l)) (be_get (b :: r))
               = Z.lxor (bZ a) (bZ b) * 2 ^ k + Z.lxor (be_get l) (be_get r)).
  { rewrite !be_get_cons, <- Hlen. fold k. apply lxor_concat; lia. }
  rewrite Hx. pose proof (lxor_byte_range a b) as Hab.
  destruct (Z.eqb_spec (Z.lxor (bZ a) (bZ b)) 0) as [E|E]; simpl negb; cbv iota.
  - rewrite E, Z.mul_0_l, Z.add_0_l. apply IH; [done|lia].
  - rewrite log2_high.
    + unfold LeadingZeros8. rewrite (proj2 (Z.eqb_neq _ _) E). unfold IDLength in *. lia.
    + lia.
    + lia.
    + apply lxor_range; lia.
Qed.

Lemma getBucketIndex_distance a b :
  getBucketIndex a b = 255 - Z.log2 (distance a b).
Proof.
  unfold getBucketIndex, distance.
  rewrite getBucketIndex_loop_spec; rewrite ?length_arr; done.
Qed.

Lemma distance_range a b : 0 <= distance a b < 2 ^ 256.
Proof.
  unfold distance. apply lxor_range; [lia| |]; rewrite <- ?(length_arr a);
  pose proof (be_get_range (arr a)) as Ha; pose proof (be_get_range (arr b)) as Hb;
  rewrite length_arr in Ha, Hb; done.
Qed.

Lemma be_get_inj a b : length a = length b → be_get a = be_get b → a = b.
Proof.
  intros Hl H. rewrite <- (be_put_get (length a) a), <- (be_put_get (length a) b) by done.
  by rewrite H.
Qed.

Lemma distance_0 a b : distance a b = 0 ↔ a = b.
Proof.
  unfold distance. rewrite Z.lxor_eq_0_iff. split; [|by intros ->].
  intros H. apply array_eq, be_get_inj; [by rewrite !length_arr|done].
Qed.

Lemma getBucketIndex_range a b : 0 <= getBucketIndex a b <= 255.
Proof.
  rewrite getBucketIndex_distance. pose proof (distance_range a b) as Hr.
  pose proof (Z.log2_nonneg (distance a b)).
  assert (Z.log2 (distance a b) <= 255); [|lia].
  change 255 with (Z.log2 (2 ^ 256 - 1)). apply Z.log2_le_mono. lia.
Qed.

(** ** Properties *)

(** C27. [getBucketIndex] is the Kademlia bucket of the XOR distance: for
    different identifiers the number of leading bits they share, and 255 for an
    identifier and itself, which is also the index of its nearest neighbours. *)
Theorem getBucketIndex_xor (a b : PeerID) :
  getBucketIndex a b = (if decide (a = b) then 255 else 255 - Z.log2 (distance a b))
  ∧ 0 <= getBucketIndex a b <= 255.
Proof.
  split; [|apply getBucketIndex_range]. rewrite getBucketIndex_distance.
  case_decide as E; [|done]. apply distance_0 in E. by rewrite E.
Qed.

(** The index is symmetric and orders peers by distance: a peer in a bucket
    of higher index is nearer to the local node. *)
Theorem getBucketIndex_nearer (a b c : PeerID)
    (Hidx : getBucketIndex a c < getBucketIndex a b) :
  distance a b < distance a c ∧ getBucketIndex b a = getBucketIndex a b.
Proof.
  rewrite !getBucketIndex_distance in *. split.
  - pose proof (distance_range a b). pose proof (distance_range a c).
    destruct (Z.eq_dec (distance a c) 0) as [E|E].
    { rewrite E in Hidx. change (Z.log2 0) with 0 in Hidx.
      pose proof (Z.log2_nonneg (distance a b)). lia. }
    apply Z.log2_lt_cancel. lia.
  - unfold distance. by rewrite Z.lxor_comm.
Qed.

Module KademliaWitness.
Definition id1 : PeerID := pad_array 32 [Byte.x80].
Definition id2 : PeerID := pad_array 32 [Byte.x81].

Example index_self : getBucketIndex id1 id1 = 255.
Proof. vm_compute. reflexivity. Qed.
Example index_7 : getBucketIndex id1 id2 = 7.
Proof. vm_compute. reflexivity. Qed.

Lemma getBucketIndex_nearer_witness :
  distance id1 id2 < distance id1 (zero_array 32).
Proof.
  apply (getBucketIndex_nearer id1 id2 (zero_array 32)). vm_compute. reflexivity.
Defined.
End KademliaWitness.
