(* ===== verification/RoutingTable.v ===== *)
(** * Routing table: internal/p2p/dht/routing_table.go

    The k-buckets live in the storage, one protobuf [KBucket] under the key
    ["routing_table:" ++ index].  The table is verified against the interface
    [Storage] and the codec of [KBucket]. *)

From Stdlib Require Import ZArith Lia.
From S2P Require Import Prelude Sha2 Types Proto ToyCodec Storage Kademlia.

Definition MaxBucketSize : nat := 20.

Record RoutingTable := mkRoutingTable {
  rt_myPubKey : PeerPublicKey;
  rt_myID : PeerID
}.

Definition NewRoutingTable (myPubKey : PeerPublicKey) : RoutingTable :=
  let hashID := sha256 (arr myPubKey) in mkRoutingTable myPubKey hashID.

Definition intToKey (prefix : string) (index : Z) : bytes :=
  str prefix ++ be_put 8 (u64 index).

(** [key[prefixLen:]] panics when it is out of range, [BigEndian.Uint64] when it
    has fewer than 8 bytes. *)
Definition keyToInt (key : bytes) (prefixLen : nat) : res Z :=
  if decide (length key < prefixLen) then Panic (PanicIndex prefixLen (length key))
  else
    let numBytes := drop prefixLen key in
    if decide (length numBytes < 8) then Panic (PanicIndex 7 (length numBytes))
    else Ok (i64 (be_get (take 8 numBytes))).

Section routing_table.
Context {S : Type} `{Storage S} `{Codec KBucket}.

Definition setInStorage (index : Z) (data : bytes) : M S unit :=
  storage_Set (intToKey "routing_table:" index) data.

Definition getFromStorage (index : Z) : M S bytes :=
  storage_Get (intToKey "routing_table:" index).

Definition GetPeers (index : Z) : M S (list Dht.PeerStoreEntry) :=
  fromStorage ← getFromStorage index;
  match unmarshal fromStorage with
  | inr err => lift (Err err)
  | inl bucket => mret (KBucket_Peers bucket)
  end.

(** The part of [saveInKBucket] after the read of the bucket; [r] is what
    [getFromStorage] returned. *)
Definition saveInKBucket_write (index : Z) (peer : Dht.PeerStoreEntry)
    (r : bytes + gerror) : M S unit :=
  match r with
  | inr err =>
      if errors_Is err ErrKeyNotFound then
        let peers := [peer] in
        match marshal (mkKBucket (mk_sint 32 index) peers) with
        | inr err => lift (Err err)
        | inl data => setInStorage index data
        end
      else lift (Err err)
  | inl bucket =>
      match unmarshal bucket with
      | inr err => lift (Err err)
      | inl kBucketProto =>
          if decide (MaxBucketSize <= length (KBucket_Peers kBucketProto))
          then lift (Err (ErrorString "bucket cap"))
          else
            match marshal (mkKBucket (KBucket_Index kBucketProto)
                             (KBucket_Peers kBucketProto ++ [peer])) with
            | inr err => lift (Err err)
            | inl marshalBucket => setInStorage index marshalBucket
            end
      end
  end.

Definition saveInKBucket (index : Z) (peer : Dht.PeerStoreEntry) : M S unit :=
  bucket ← try (getFromStorage index);
  saveInKBucket_write index peer bucket.
End routing_table.

(** ** Keys *)

Lemma drop_str prefix l : drop (String.length prefix) (str prefix ++ l) = l.
Proof.
  assert (length (str prefix) = String.length prefix) as <-.
  { unfold str. induction prefix; simpl; auto. }
  apply drop_app_length.
Qed.

Lemma length_str s : length (str s) = String.length s.
Proof. unfold str. induction s; simpl; auto. Qed.

Lemma keyToInt_intToKey prefix index :
  (- 2 ^ 63 <= index < 2 ^ 63)%Z →
  keyToInt (intToKey prefix index) (String.length prefix) = Ok index.
Proof.
  intros Hi. unfold keyToInt, intToKey.
  rewrite decide_False by (rewrite length_app, length_str, length_be_put; lia).
  rewrite drop_str, decide_False by len.
  rewrite firstn_all2 by len.
  rewrite be_get_put. change (8 * Z.of_nat 8)%Z with 64%Z.
  unfold u64. rewrite Z.mod_mod by lia. fold (u64 index). by rewrite i64_u64.
Qed.

Lemma intToKey_inj prefix i j :
  (- 2 ^ 63 <= i < 2 ^ 63)%Z → (- 2 ^ 63 <= j < 2 ^ 63)%Z →
  intToKey prefix i = intToKey prefix j → i = j.
Proof.
  intros Hi Hj E. apply (keyToInt_intToKey prefix) in Hi, Hj. congruence.
Qed.

Lemma intToKey_nonempty prefix i : intToKey prefix i ≠ [].
Proof.
  intros E%(f_equal length). unfold intToKey in E.
  rewrite length_app, length_be_put in E. simpl in E. lia.
Qed.

(** Round trip of the storage key of a bucket: [keyToInt] reads back the
    index that [intToKey] wrote, for every 64-bit [int], and a key cut short
    makes it panic. *)
Theorem intToKey_roundtrip (prefix : string) (index : Z) (n : nat)
    (Hi : (- 2 ^ 63 <= index < 2 ^ 63)%Z) :
  keyToInt (intToKey prefix index) (String.length prefix) = Ok index
  ∧ (n < 8 → is_panic (keyToInt (take (String.length prefix + n) (intToKey prefix index))
                          (String.length prefix)) = true).
Proof.
  split; [by apply keyToInt_intToKey|]. intros Hn.
  assert (length (take (String.length prefix + n) (intToKey prefix index))
          = String.length prefix + n) as Hl.
  { rewrite length_take. unfold intToKey. rewrite length_app, length_str, length_be_put. lia. }
  unfold keyToInt. rewrite Hl, decide_False by lia.
  rewrite decide_True; [done|]. rewrite length_drop, Hl. lia.
Qed.

(** ** The abstract routing table

    Every index has a list of peers, at most [MaxBucketSize] of them, in the
    order of their arrival. *)
Section abstract.
Context {S : Type} `{StorageLaws S} `{CodecLaws KBucket}.

Definition raw_bucket (s : S) (index : Z) : option bytes :=
  kv s !! intToKey "routing_table:" index.

Definition bucket_at (s : S) (index : Z) : option KBucket :=
  v ← raw_bucket s index;
  match unmarshal v with inl b => Some b | inr _ => None end.

(** Nothing at this index, or something that decodes. *)
Definition bucket_readable (s : S) (index : Z) : Prop :=
  ∀ v, raw_bucket s index = Some v → ∃ b, unmarshal v = inl b.

Definition table (s : S) (index : Z) : list Dht.PeerStoreEntry :=
  match bucket_at s index with Some b => KBucket_Peers b | None => [] end.

Definition is_index (i : Z) : Prop := (- 2 ^ 63 <= i < 2 ^ 63)%Z.

Lemma getFromStorage_spec s index :
  match raw_bucket s index with
  | Some v => getFromStorage index s = (Ok v, s)
  | None => getFromStorage index s = (Err ErrKeyNotFound, s)
  end.
Proof.
  unfold getFromStorage, raw_bucket. destruct (kv s !! _) as [v|] eqn:E.
  - by apply Get_found.
  - apply Get_missing in E as (e & -> & He). by rewrite He by apply intToKey_nonempty.
Qed.

(** The write of one bucket: the other buckets stay. *)
Lemma setInStorage_spec index data s r s' :
  setInStorage index data s = (r, s') →
  (r = Ok () ∧ kv s' = <[intToKey "routing_table:" index := data]> (kv s))
  ∨ (∃ e, r = Err e ∧ s' = s ∧ setInStorage index data s = (Err e, s)).
Proof.
  unfold setInStorage. destruct (Set_spec (intToKey "routing_table:" index) data s)
    as [(s1 & -> & Hkv)|(e & E)]; [intros [= <- <-]; eauto|].
  rewrite E. intros [= <- <-]. eauto 6.
Qed.

Lemma table_write s s' index b data :
  is_index index → unmarshal data = inl b →
  kv s' = <[intToKey "routing_table:" index := data]> (kv s) →
  table s' index = KBucket_Peers b ∧
  ∀ j, is_index j → j ≠ index → raw_bucket s' j = raw_bucket s j.
Proof.
  intros Hi Hb Hkv. unfold table, bucket_at, raw_bucket. rewrite Hkv. split.
  - rewrite lookup_insert_eq. simpl. by rewrite Hb.
  - intros j Hj Hne. rewrite lookup_insert_ne; [done|].
    intros E. apply Hne. symmetry. by eapply intToKey_inj.
Qed.

(** The ways the write of a bucket with the peers [l] can fail: its encoder
    refuses it, or the storage refuses the bytes. *)
Definition write_fails (index : Z) (l : list Dht.PeerStoreEntry) (s : S) (e : gerror) : Prop :=
  ∃ b, KBucket_Peers b = l
       ∧ (marshal b = inr e
          ∨ ∃ data, marshal b = inl data
                    ∧ storage_Set (intToKey "routing_table:" index) data s = (Err e, s)).

(** What [saveInKBucket] promises of the abstract table. *)
Definition save_post (index : Z) (peer : Dht.PeerStoreEntry) (s s' : S)
    (r : res unit) : Prop :=
  match r with
  | Ok _ => length (table s index) < MaxBucketSize
            ∧ table s' index = table s index ++ [peer]
            ∧ ∀ j, is_index j → j ≠ index → raw_bucket s' j = raw_bucket s j
  | Err e => s' = s
             ∧ (MaxBucketSize <= length (table s index) ∧ e = ErrorString "bucket cap"
                ∨ length (table s index) < MaxBucketSize
                  ∧ write_fails index (table s index ++ [peer]) s e)
  | Panic _ => False
  end.

Lemma write_bucket_post index peer b (s s' : S) r :
  is_index index → length (table s index) < MaxBucketSize →
  KBucket_Peers b = table s index ++ [peer] →
  match marshal b with
  | inr err => lift (Err err)
  | inl data => setInStorage index data
  end s = (r, s') →
  save_post index peer s s' r
  ∧ (r = Ok () → ∃ data, unmarshal data = inl b
                         ∧ raw_bucket s' index = Some data).
Proof.
  intros Hi Hlt Hp. destruct (marshal b) as [data|e] eqn:Em.
  - intros [[-> Hkv]|(e & -> & -> & He)]%setInStorage_spec;
      [|split; [|done]; split; [done|]; right; split; [done|]; exists b; eauto].
    apply unmarshal_marshal in Em.
    destruct (table_write s s' index b data) as [Ht Ho]; [done..|].
    split; [split; [done|]; split; [congruence|done]|].
    intros _. exists data. split; [done|]. unfold raw_bucket. rewrite Hkv. apply lookup_insert_eq.
  - intros [= <- <-]. split; [|done]. split; [done|]. right. split; [done|]. exists b. eauto.
Qed.

(** The second half of [saveInKBucket], for what was read at a moment when the
    bucket had the peers [l]. *)
Definition read_as (r : bytes + gerror) (l : list Dht.PeerStoreEntry) : Prop :=
  match r with
  | inl v => ∃ b, unmarshal v = inl b ∧ KBucket_Peers b = l
  | inr e => e = ErrKeyNotFound ∧ l = []
  end.

Lemma try_getFromStorage s index :
  bucket_readable s index →
  ∃ r, try (getFromStorage index) s = (Ok r, s) ∧ read_as r (table s index).
Proof.
  intros Hread. unfold try. pose proof (getFromStorage_spec s index) as Hget.
  unfold bucket_readable, table, bucket_at in *.
  destruct (raw_bucket s index) as [v|] eqn:E; rewrite Hget;
    eexists; (split; [done|]); [|done].
  destruct (Hread v eq_refl) as [b Hb]. exists b. split; [done|]. simpl. by rewrite Hb.
Qed.

(** The bucket that the second half writes, if the one read was not full. *)
Lemma saveInKBucket_write_eq index peer r l :
  read_as r l → length l < MaxBucketSize →
  ∃ b, KBucket_Peers b = l ++ [peer] ∧
    saveInKBucket_write (S:=S) index peer r
    = match marshal b with
      | inr err => lift (Err err)
      | inl data => setInStorage index data
      end.
Proof.
  destruct r as [v|e]; simpl.
  - intros (b & Hb & <-) Hlt. exists (mkKBucket (KBucket_Index b) (KBucket_Peers b ++ [peer])).
    split; [done|]. by rewrite Hb, decide_False by lia.
  - intros [-> ->] _. by exists (mkKBucket (mk_sint 32 index) [peer]).
Qed.

Lemma saveInKBucket_write_full index peer r l s :
  read_as r l → MaxBucketSize <= length l →
  saveInKBucket_write (S:=S) index peer r s = (Err (ErrorString "bucket cap"), s).
Proof.
  destruct r as [v|e]; simpl.
  - intros (b & Hb & <-) Hle. by rewrite Hb, decide_True by lia.
  - intros [_ ->] Hle. unfold MaxBucketSize in Hle. simpl in Hle. lia.
Qed.

Lemma saveInKBucket_post index peer s s' r :
  is_index index → bucket_readable s index →
  saveInKBucket index peer s = (r, s') →
  save_post index peer s s' r ∧ bucket_readable s' index.
Proof.
  intros Hi Hread Hsave. unfold saveInKBucket, mbind, M_bind in Hsave.
  destruct (try_getFromStorage s index Hread) as (v & Hv & Hl). rewrite Hv in Hsave.
  destruct (decide (MaxBucketSize <= length (table s index))) as [Hfull|Hfull].
  - rewrite (saveInKBucket_write_full _ _ _ _ _ Hl Hfull) in Hsave.
    injection Hsave as <- <-. split; [|done]. split; [done|]. by left.
  - destruct (saveInKBucket_write_eq index peer _ _ Hl ltac:(lia)) as (b & Hb & Heq).
    rewrite Heq in Hsave. apply write_bucket_post with (peer := peer) in Hsave as [Hpost Hok];
      [|done|lia|done]. split; [done|].
    destruct r as [[]|e|p]; [|by destruct Hpost as [-> _]|done].
    destruct (Hok eq_refl) as (data & Hd & Hk). intros w Hw. exists b. congruence.
Qed.

(** C20. Refinement: [saveInKBucket] appends the peer to the bucket of its index
    when the bucket holds fewer than [MaxBucketSize] peers and refuses with
    "bucket cap" when it is full.  Below the capacity it fails only with the
    error of the encoder or of the storage for exactly that longer bucket; the
    other buckets do not change, and on an error nothing changes. *)
Theorem saveInKBucket_refines (index : Z) (peer : Dht.PeerStoreEntry) (s s' : S)
    (r : res unit)
    (Hindex : is_index index) (Hread : bucket_readable s index)
    (Hsave : saveInKBucket index peer s = (r, s')) :
  match r with
  | Ok _ => length (table s index) < MaxBucketSize
            ∧ table s' index = table s index ++ [peer]
            ∧ ∀ j, is_index j → j ≠ index → raw_bucket s' j = raw_bucket s j
  | Err e => s' = s
             ∧ (MaxBucketSize <= length (table s index) ∧ e = ErrorString "bucket cap"
                ∨ length (table s index) < MaxBucketSize
                  ∧ ∃ b, KBucket_Peers b = table s index ++ [peer]
                         ∧ (marshal b = inr e
                            ∨ ∃ data, marshal b = inl data
                                      ∧ storage_Set (intToKey "routing_table:" index) data s
                                        = (Err e, s)))
  | Panic _ => False
  end.
Proof. by apply (saveInKBucket_post index peer s s' r). Qed.

(** The invariant of the table: every bucket decodes and holds at most
    [MaxBucketSize] peers. *)
Definition table_inv (s : S) : Prop :=
  ∀ i, is_index i → bucket_readable s i ∧ length (table s i) <= MaxBucketSize.

Lemma raw_bucket_table s s' j :
  raw_bucket s' j = raw_bucket s j →
  table s' j = table s j ∧ (bucket_readable s j → bucket_readable s' j).
Proof.
  intros E. unfold table, bucket_at, bucket_readable. by rewrite E.
Qed.

Lemma table_inv_save index peer s s' r :
  is_index index → table_inv s → saveInKBucket index peer s = (r, s') → table_inv s'.
Proof.
  intros Hindex Hinv Hsave. destruct (Hinv index Hindex) as [Hread Hlen].
  destruct (saveInKBucket_post _ _ _ _ _ Hindex Hread Hsave) as [Hpost Hread'].
  destruct r as [u|e|p]; [|by destruct Hpost as [-> _]|done].
  destruct Hpost as (Hlt & Hnew & Hothers). intros j Hj.
  destruct (decide (j = index)) as [->|Hne].
  - split; [done|]. rewrite Hnew, length_app. simpl. lia.
  - destruct (raw_bucket_table s s' j) as [Ht Hr]; [by apply Hothers|].
    rewrite Ht. destruct (Hinv j Hj). auto.
Qed.

(** Invariant: from a table whose buckets all decode and hold at most
    [MaxBucketSize] peers, any sequence of saves, those that fail included,
    leads to such a table. *)
Theorem saveInKBucket_invariant (saves : list (Z * Dht.PeerStoreEntry)) (s s' : S)
    (Hindex : Forall (λ p, is_index p.1) saves) (Hinv : table_inv s)
    (Hrun : s' = foldl (λ s p, (saveInKBucket p.1 p.2 s).2) s saves) :
  table_inv s'.
Proof.
  subst s'. revert s Hinv. induction Hindex as [|[i p] saves Hi _ IH]; intros s Hinv; [done|].
  simpl. apply IH. simpl in Hi. destruct (saveInKBucket i p s) as [r s1] eqn:E.
  by eapply table_inv_save.
Qed.

Lemma GetPeers_eq index s :
  bucket_readable s index →
  GetPeers index s
  = match raw_bucket s index with
    | Some _ => (Ok (table s index), s)
    | None => (Err ErrKeyNotFound, s)
    end.
Proof.
  intros Hread. unfold GetPeers, mbind, M_bind, table, bucket_at, bucket_readable in *.
  pose proof (getFromStorage_spec s index) as Hget.
  destruct (raw_bucket s index) as [v|]; rewrite Hget; [|done].
  destruct (Hread v eq_refl) as [b Hb]. simpl. by rewrite Hb.
Qed.

(** Two saves that run at the same time are not atomic: when both read the
    bucket before either writes it, both report success and the peer written
    first is gone. *)
Theorem saveInKBucket_lost_update (index : Z) (p1 p2 : Dht.PeerStoreEntry)
    (s s1 s2 : S) (r1 r2 : bytes + gerror)
    (Hindex : is_index index) (Hread : bucket_readable s index)
    (Hlen : length (table s index) < MaxBucketSize)
    (Hread1 : try (getFromStorage index) s = (Ok r1, s))
    (Hread2 : try (getFromStorage index) s = (Ok r2, s))
    (Hwrite1 : saveInKBucket_write index p1 r1 s = (Ok (), s1))
    (Hwrite2 : saveInKBucket_write index p2 r2 s1 = (Ok (), s2)) :
  table s2 index = table s index ++ [p2].
Proof.
  destruct (try_getFromStorage s index Hread) as (r & Hr & Hl).
  assert (r2 = r) as -> by congruence.
  destruct (saveInKBucket_write_eq index p2 _ _ Hl Hlen) as (b & Hb & Heq).
  rewrite Heq in Hwrite2. destruct (marshal b) as [data|e] eqn:Em; [|done].
  destruct (setInStorage_spec _ _ _ _ _ Hwrite2) as [[_ Hkv]|(e & ? & _ & _)]; [|done].
  apply unmarshal_marshal in Em.
  destruct (table_write s1 s2 index b data) as [Ht _]; [done..|congruence].
Qed.

(** Saving one peer [n] times. *)
Fixpoint save_n (n : nat) (index : Z) (peer : Dht.PeerStoreEntry) : M S unit :=
  match n with
  | O => mret ()
  | Datatypes.S n => _ ← saveInKBucket index peer; save_n n index peer
  end.

Lemma save_n_table n index peer s s' :
  is_index index → bucket_readable s index → save_n n index peer s = (Ok (), s') →
  table s' index = table s index ++ replicate n peer ∧ bucket_readable s' index.
Proof.
  intros Hi. revert s. induction n as [|n IH]; intros s Hread; simpl.
  { intros [= <-]. by rewrite app_nil_r. }
  run_M. destruct (saveInKBucket index peer s) as [[u|e|p] s1] eqn:E;
    intros Hrun; try done.
  destruct (saveInKBucket_post _ _ _ _ _ Hi Hread E) as [(_ & Ht & _) Hread'].
  destruct (IH s1 Hread' Hrun) as [-> ?]. rewrite Ht, <- app_assoc. done.
Qed.

(** Nothing keeps a peer from entering its bucket twice: one peer saved
    [MaxBucketSize] times fills it, and every other peer is then refused. *)
Theorem same_peer_fills_bucket (index : Z) (p q : Dht.PeerStoreEntry) (s s' : S)
    (Hindex : is_index index) (Hempty : raw_bucket s index = None)
    (Hsave : save_n MaxBucketSize index p s = (Ok (), s')) :
  table s' index = replicate MaxBucketSize p
  ∧ saveInKBucket index q s' = (Err (ErrorString "bucket cap"), s').
Proof.
  assert (Hread : bucket_readable s index) by (intros v; by rewrite Hempty).
  destruct (save_n_table _ _ _ _ _ Hindex Hread Hsave) as [Ht Hread'].
  assert (table s index = []) as E by (unfold table, bucket_at; by rewrite Hempty).
  rewrite E, app_nil_l in Ht. split; [done|].
  destruct (try_getFromStorage s' index Hread') as (r & Hr & Hl).
  unfold saveInKBucket, mbind, M_bind. rewrite Hr.
  apply (saveInKBucket_write_full _ _ _ (table s' index)); [done|].
  rewrite Ht, length_replicate. done.
Qed.
End abstract.

Module RoutingTableWitness.
Import ToyBadger.

Definition peer (n : N) : Dht.PeerStoreEntry :=
  Dht.mkPeerStoreEntry [Zb (Z.of_N n)] [] "addr" (mk_uint 64 7) (mk_uint 32 100).

Lemma empty_table i : table (∅ : store) i = [].
Proof. reflexivity. Qed.

Lemma empty_inv : table_inv (∅ : store).
Proof. intros i _. split; [done|]. rewrite empty_table. simpl. lia. Qed.

Lemma intToKey_roundtrip_witness :
  keyToInt (intToKey "routing_table:" 255) 14 = Ok 255%Z.
Proof. apply (intToKey_roundtrip "routing_table:" 255 0). lia. Defined.

Lemma saveInKBucket_refines_witness :
  table (saveInKBucket 3 (peer 1) (∅ : store)).2 3 = [peer 1].
Proof.
  refine (proj1 (proj2 (saveInKBucket_refines 3 (peer 1) (∅ : store) _ (Ok ()) _ _ _)));
    [unfold is_index; lia|done|reflexivity].
Defined.

Lemma saveInKBucket_invariant_witness :
  table_inv (foldl (λ s p, (saveInKBucket p.1 p.2 s).2) (∅ : store)
               [(3%Z, peer 1); (3%Z, peer 2)]).
Proof.
  apply (saveInKBucket_invariant [(3%Z, peer 1); (3%Z, peer 2)] (∅ : store));
    [|apply empty_inv|reflexivity].
  repeat constructor; simpl; lia.
Defined.

Lemma saveInKBucket_lost_update_witness :
  let s1 := (saveInKBucket_write 3 (peer 1) (inr ErrKeyNotFound) (∅ : store)).2 in
  let s2 := (saveInKBucket_write 3 (peer 2) (inr ErrKeyNotFound) s1).2 in
  table s2 3 = [peer 2].
Proof.
  intros s1 s2.
  refine (saveInKBucket_lost_update 3 (peer 1) (peer 2) (∅ : store) s1 s2
           (inr ErrKeyNotFound) (inr ErrKeyNotFound) _ _ _ _ _ _ _);
    [unfold is_index; lia|done|rewrite empty_table; unfold MaxBucketSize; simpl; lia
    |reflexivity..].
Defined.

Lemma same_peer_fills_bucket_witness :
  let s' := (save_n MaxBucketSize 3 (peer 1) (∅ : store)).2 in
  saveInKBucket 3 (peer 2) s' = (Err (ErrorString "bucket cap"), s').
Proof.
  intros s'.
  refine (proj2 (same_peer_fills_bucket 3 (peer 1) (peer 2) (∅ : store) s' _ _ _)).
  - unfold is_index. lia.
  - reflexivity.
  - apply (run_eq (save_n MaxBucketSize 3 (peer 1))). vm_compute. reflexivity.
Defined.
End RoutingTableWitness.
