(* ===== verification/MerkleDag.v ===== *)
(** * Content-addressed files: internal/p2p/dht/merkle_dag.go

    A file is one [META_LINK] node holding its bytes, or a [META_LINK] node with
    the hashes of [FILE_CHUNK] nodes of at most [ChunkSize] bytes; a node is
    stored under ["dag_storage:"] and the SHA-256 of its encoding. *)

From Stdlib Require Import ZArith Lia.
From S2P Require Import Prelude Sha2 Proto ToyCodec Storage.

Local Open Scope Z_scope.

Definition ChunkSize : Z := 1024 * 256.

Definition dagStorageKey : bytes := str "dag_storage:".

(** A value that [Unmarshal] leaves in its message when it fails: the code that
    ignores the error goes on with it. *)
Class CodecLeft (A : Type) := { unmarshal_left : bytes → A }.

Section merkle.
Context {S : Type} `{Storage S} `{Codec MerkleNode} `{CodecLeft MerkleNode}.

Definition saveAndHashData (data : bytes) : M S bytes :=
  let hashKey := sha256 data in
  let key := dagStorageKey ++ arr hashKey in
  _ ← storage_Set key data;
  mret (arr hashKey).

Definition getDataByHash (hashedID : bytes) : M S bytes :=
  let key := dagStorageKey ++ hashedID in
  storage_Get key.

Definition createMetaLink (data : bytes) (links : list bytes) (size : uint 64) : bytes + gerror :=
  marshal (mkMerkleNode MerkleNode_META_LINK data links size).

Definition createFileChunk (data : bytes) (size : uint 64) : bytes + gerror :=
  marshal (mkMerkleNode MerkleNode_FILE_CHUNK data [] size).

(** [uint64(len(s))] *)
Definition len64 (s : bytes) : uint 64 := mk_uint 64 (Z.of_nat (length s)).

(** [file[i:end]] *)
Definition slice (i e : Z) (file : bytes) : bytes :=
  take (Z.to_nat (e - i)) (drop (Z.to_nat i) file).

(** The loop of [calculateFileChunk] from index [i]; an iteration advances by
    [ChunkSize], so [len(file) + 1] rounds are more than enough. *)
Fixpoint calculateFileChunk_loop (fuel : nat) (file : bytes) (i : Z)
    (fileChunksKeys : list bytes) : M S (list bytes) :=
  if i <? Z.of_nat (length file) then
    match fuel with
    | O => mret fileChunksKeys
    | Datatypes.S fuel =>
        let e := i + ChunkSize in
        let e := if Z.of_nat (length file) <? e then Z.of_nat (length file) else e in
        match createFileChunk (slice i e file) (len64 (slice i e file)) with
        | inr err => lift (Err err)
        | inl chunk =>
            key ← saveAndHashData chunk;
            calculateFileChunk_loop fuel file (i + ChunkSize) (fileChunksKeys ++ [key])
        end
    end
  else mret fileChunksKeys.

Definition calculateFileChunk (file : bytes) : M S bytes :=
  if Z.of_nat (length file) <=? ChunkSize then
    match createMetaLink file [] (len64 file) with
    | inr err => lift (Err err)
    | inl metaLink => saveAndHashData metaLink
    end
  else
    fileChunksKeys ← calculateFileChunk_loop (Datatypes.S (length file)) file 0 [];
    match createMetaLink [] fileChunksKeys (len64 file) with
    | inr err => lift (Err err)
    | inl metaLink => saveAndHashData metaLink
    end.

(** The loop over [node.Links]; the error of [Unmarshal] is not looked at. *)
Fixpoint findFileByID_loop (links : list bytes) (fullFile : bytes) : M S bytes :=
  match links with
  | [] => mret fullFile
  | childKey :: links =>
      childBytes ← getDataByHash childKey;
      let childNode := match unmarshal childBytes with
                       | inl node => node
                       | inr _ => unmarshal_left childBytes
                       end in
      findFileByID_loop links (fullFile ++ MerkleNode_Data childNode)
  end.

Definition findFileByID (id : bytes) : M S bytes :=
  nodeBytes ← getDataByHash id;
  match unmarshal nodeBytes with
  | inr err => lift (Err err)
  | inl node =>
      match MerkleNode_type node with
      | MerkleNode_META_LINK =>
          if Nat.ltb 0 (length (MerkleNode_Data node)) then mret (MerkleNode_Data node)
          (* make([]byte, 0, node.Size) *)
          else if (2 ^ 63 <=? uv (MerkleNode_Size node))%Z
          then lift (Panic (PanicText "makeslice: cap out of range"))
          else findFileByID_loop (MerkleNode_Links node) []
      | MerkleNode_FILE_CHUNK => mret (MerkleNode_Data node)
      end
  end.

Definition hashExists (hash : bytes) (s : S) : bool :=
  let key := dagStorageKey ++ hash in
  storage_Exists key s.
End merkle.

(** ** The nodes of a file *)
Section nodes.
Context `{Codec MerkleNode}.

(** The chunks the loop cuts. *)
Definition file_chunks (file : bytes) : list bytes := chunks (Z.to_nat ChunkSize) file.

Definition chunk_node (c : bytes) : bytes + gerror := createFileChunk c (len64 c).

(** The encodings that are all [Ok], in order. *)
Fixpoint all_ok {A} (l : list (A + gerror)) : option (list A) :=
  match l with
  | [] => Some []
  | inl a :: l => (a ::.) <$> all_ok l
  | inr _ :: _ => None
  end.

(** The encodings of the nodes of [file], the root last. *)
Definition file_nodes (file : bytes) : option (list bytes) :=
  if Z.of_nat (length file) <=? ChunkSize then
    all_ok [createMetaLink file [] (len64 file)]
  else
    cs ← all_ok (chunk_node <$> file_chunks file);
    root ← all_ok [createMetaLink [] ((λ c, arr (sha256 c)) <$> cs) (len64 file)];
    Some (cs ++ root).

(** The encodings that a save of [file] can store, whether it succeeds or not. *)
Definition oks {A} (l : list (A + gerror)) : list A :=
  omap (λ r, match r with inl a => Some a | inr _ => None end) l.
Definition file_encodings (file : bytes) : list bytes :=
  if Z.of_nat (length file) <=? ChunkSize then oks [createMetaLink file [] (len64 file)]
  else
    let cs := oks (chunk_node <$> file_chunks file) in
    cs ++ oks [createMetaLink [] ((λ c, arr (sha256 c)) <$> cs) (len64 file)].

(** No two different encodings among [l] have the same hash. *)
Definition collision_free (l : list bytes) : Prop :=
  ∀ a b, a ∈ l → b ∈ l → sha256 a = sha256 b → a = b.
End nodes.

(** ** Lemmas *)

Lemma ChunkSize_pos : (0 < Z.to_nat ChunkSize)%nat.
Proof. unfold ChunkSize. lia. Qed.
#[global] Opaque ChunkSize.

Lemma dag_key_inj a b : dagStorageKey ++ a = dagStorageKey ++ b → a = b.
Proof. apply app_inv_head. Qed.

(** The index loop on [file] runs over its chunks from [i]. *)
Lemma slice_chunk (i : nat) file :
  (i < length file)%nat →
  slice (Z.of_nat i)
    (if Z.of_nat (length file) <? Z.of_nat i + ChunkSize then Z.of_nat (length file)
     else Z.of_nat i + ChunkSize) file
  = take (Z.to_nat ChunkSize) (drop i file).
Proof.
  intros Hi. unfold slice. rewrite Nat2Z.id. pose proof ChunkSize_pos.
  destruct (Z.ltb_spec (Z.of_nat (length file)) (Z.of_nat i + ChunkSize)).
  - rewrite !firstn_all2; [done|rewrite length_drop; lia..].
  - f_equal. lia.
Qed.

Lemma chunks_fuel_irrel {A} n fuel fuel' (l : list A) :
  (0 < n)%nat → (length l <= fuel)%nat → (length l <= fuel')%nat →
  chunks_fuel fuel n l = chunks_fuel fuel' n l.
Proof.
  intros Hn. revert fuel' l.
  induction fuel as [|fuel IH]; intros [|fuel'] [|x l] H1 H2; simpl in *; try done; try lia.
  f_equal. destruct n as [|n]; [lia|]. simpl. apply IH; rewrite length_drop; lia.
Qed.

Section store.
Context {S : Type} `{StorageLaws S} `{CodecLaws MerkleNode} `{CodecLeft MerkleNode}.

(** Saving the nodes [cs] one after the other. *)
Fixpoint save_all (cs : list (bytes + gerror)) (keys : list bytes) : M S (list bytes) :=
  match cs with
  | [] => mret keys
  | inr err :: _ => lift (Err err)
  | inl c :: cs => key ← saveAndHashData c; save_all cs (keys ++ [key])
  end.

Lemma calculateFileChunk_loop_save_all fuel file i keys s :
  (length (drop i file) < fuel)%nat →
  calculateFileChunk_loop fuel file (Z.of_nat i) keys s
  = save_all (chunk_node <$> chunks (Z.to_nat ChunkSize) (drop i file)) keys s.
Proof.
  pose proof ChunkSize_pos as Hc.
  revert i keys s. induction fuel as [|fuel IH]; intros i keys s Hf; [lia|].
  cbn [calculateFileChunk_loop].
  destruct (Z.ltb_spec (Z.of_nat i) (Z.of_nat (length file))) as [Hi|Hi].
  2: { rewrite skipn_all2 by lia. done. }
  rewrite slice_chunk by lia.
  destruct (drop i file) as [|x l] eqn:E.
  { apply (f_equal length) in E. rewrite length_drop in E. simpl in E. lia. }
  rewrite <- E in *. unfold chunks.
  destruct (length (drop i file)) as [|len] eqn:El; [rewrite E in El; done|].
  assert (chunks_fuel (Datatypes.S len) (Z.to_nat ChunkSize) (drop i file)
          = take (Z.to_nat ChunkSize) (drop i file)
            :: chunks (Z.to_nat ChunkSize) (drop (i + Z.to_nat ChunkSize) file)) as ->.
  { rewrite <- drop_drop. rewrite E at 1. simpl chunks_fuel. rewrite <- E.
    f_equal. unfold chunks. apply chunks_fuel_irrel; [done| |lia].
    rewrite length_drop, E. simpl length. rewrite E in El. simpl in El. lia. }
  rewrite fmap_cons. cbn [save_all]. fold (chunk_node (take (Z.to_nat ChunkSize) (drop i file))).
  destruct (chunk_node _) as [c|err]; [|done].
  run_M. destruct (saveAndHashData c s) as [[k|e|p] s1]; [|done..].
  replace (Z.of_nat i + ChunkSize) with (Z.of_nat (i + Z.to_nat ChunkSize)) by lia.
  apply IH. rewrite length_drop in *. lia.
Qed.

(** *** What a successful save leaves in the store *)

Definition node_key (c : bytes) : bytes := dagStorageKey ++ arr (sha256 c).

Definition store_nodes (nodes : list bytes) (m : gmap bytes bytes) : gmap bytes bytes :=
  foldl (λ m c, <[node_key c := c]> m) m nodes.

Lemma saveAndHashData_cases data s :
  (∃ s', saveAndHashData data s = (Ok (arr (sha256 data)), s')
         ∧ kv s' = <[node_key data := data]> (kv s))
  ∨ (∃ e, saveAndHashData data s = (Err e, s)).
Proof.
  unfold saveAndHashData, mbind, M_bind. fold (node_key data).
  destruct (Set_spec (node_key data) data s) as [(s1 & -> & Hkv)|(e & ->)]; eauto.
Qed.

Lemma store_nodes_lookup nodes m c :
  collision_free nodes → c ∈ nodes → store_nodes nodes m !! node_key c = Some c.
Proof.
  unfold store_nodes.
  induction nodes as [|a nodes IH] using rev_ind; intros Hcf Hc; [by apply elem_of_nil in Hc|].
  rewrite foldl_snoc. destruct (decide (a = c)) as [->|Hne]; [apply lookup_insert_eq|].
  rewrite lookup_insert_ne.
  - apply IH; [intros x y Hx Hy; apply Hcf; apply elem_of_app; by left|].
    apply elem_of_app in Hc as [?|Hc]; [done|].
    apply list_elem_of_singleton in Hc. congruence.
  - intros Hk%dag_key_inj%array_eq. apply Hne. apply Hcf; [apply elem_of_app; right; apply list_elem_of_here|done|done].
Qed.

Lemma save_all_ok cs keys s ks s' :
  save_all cs keys s = (Ok ks, s') →
  ∃ nodes, all_ok cs = Some nodes ∧ ks = keys ++ ((λ c, arr (sha256 c)) <$> nodes)
           ∧ kv s' = store_nodes nodes (kv s).
Proof.
  revert keys s. induction cs as [|[c|e] cs IH]; intros keys s; simpl; [|  |done].
  - intros [= <- <-]. exists []. rewrite app_nil_r. done.
  - run_M. destruct (saveAndHashData_cases c s) as [(s1 & -> & Hkv)|(e & ->)];
      [|done].
    intros (nodes & -> & -> & Hs)%IH. exists (c :: nodes). split; [done|].
    split; [simpl; by rewrite <- app_assoc|]. by rewrite Hs, Hkv.
Qed.

Lemma calculateFileChunk_ok file s id s' :
  calculateFileChunk file s = (Ok id, s') →
  ∃ nodes root, file_nodes file = Some (nodes ++ [root]) ∧ id = arr (sha256 root)
    ∧ kv s' = store_nodes (nodes ++ [root]) (kv s).
Proof.
  unfold calculateFileChunk, file_nodes.
  destruct (Z.leb_spec (Z.of_nat (length file)) ChunkSize) as [Hle|Hgt].
  - destruct (createMetaLink _ _ _) as [root|e]; [|done].
    destruct (saveAndHashData_cases root s) as [(s1 & -> & Hkv)|(e & ->)]; intros [= <- <-].
    exists [], root. auto.
  - unfold mbind at 1, M_bind at 1.
    rewrite (calculateFileChunk_loop_save_all _ _ 0)
      by (change (drop 0 file) with file; lia).
    change (drop 0 file) with file. fold (file_chunks file).
    destruct (save_all _ _ _) as [[ks|e|p] s1] eqn:E; [|done..].
    apply save_all_ok in E as (cs & -> & -> & Hs). simpl mbind.
    destruct (createMetaLink _ _ _) as [root|e]; [|done].
    destruct (saveAndHashData_cases root s1) as [(s2 & -> & Hkv)|(e & ->)]; intros [= <- <-].
    exists cs, root. split; [done|]. split; [done|].
    rewrite Hkv, Hs. unfold store_nodes. by rewrite foldl_snoc.
Qed.

Lemma all_ok_oks {A} (l : list (A + gerror)) l' : all_ok l = Some l' → oks l = l'.
Proof.
  revert l'. induction l as [|[a|e] l IH]; intros l'; cbn; [congruence| |done].
  destruct (all_ok l) as [k|]; [|done]. intros [= <-]. f_equal. by apply IH.
Qed.

Lemma file_nodes_encodings file nodes : file_nodes file = Some nodes → file_encodings file = nodes.
Proof.
  unfold file_nodes, file_encodings. destruct (_ <=? ChunkSize); [apply all_ok_oks|].
  destruct (all_ok (chunk_node <$> _)) as [cs|] eqn:E; [|done]. cbn.
  rewrite (all_ok_oks _ _ E). destruct (createMetaLink _ _ _); [|done]. by intros [= <-].
Qed.

(** Whatever a save returns, it has stored some of the encodings of its file and
    nothing else. *)
Lemma save_all_stores cs keys s r s' :
  save_all cs keys s = (r, s') →
  ∃ nodes, nodes ⊆ oks cs ∧ kv s' = store_nodes nodes (kv s).
Proof.
  revert keys s. induction cs as [|[c|e] cs IH]; intros keys s; simpl.
  - intros [= _ <-]. by exists [].
  - run_M. destruct (saveAndHashData_cases c s) as [(s1 & -> & Hkv)|(e & ->)].
    + intros (nodes & Hn & Hs)%IH. exists (c :: nodes). split; [by apply list_subseteq_skip|].
      by rewrite Hs, Hkv.
    + intros [= _ <-]. exists []. split; [apply list_subseteq_nil|done].
  - intros [= _ <-]. exists []. split; [apply list_subseteq_nil|done].
Qed.

Lemma saveAndHashData_stores c s r s' :
  saveAndHashData c s = (r, s') → ∃ nodes, nodes ⊆ [c] ∧ kv s' = store_nodes nodes (kv s).
Proof.
  destruct (saveAndHashData_cases c s) as [(s1 & -> & Hkv)|(e & ->)]; intros [= _ <-].
  - by exists [c].
  - exists []. split; [apply list_subseteq_nil|done].
Qed.

Lemma calculateFileChunk_stores file s r s' :
  calculateFileChunk file s = (r, s') →
  ∃ nodes, nodes ⊆ file_encodings file ∧ kv s' = store_nodes nodes (kv s).
Proof.
  unfold calculateFileChunk, file_encodings.
  destruct (Z.leb_spec (Z.of_nat (length file)) ChunkSize) as [Hle|Hgt].
  - destruct (createMetaLink _ _ _) as [root|e]; [apply saveAndHashData_stores|].
    intros [= _ <-]. by exists [].
  - unfold mbind at 1, M_bind at 1.
    rewrite (calculateFileChunk_loop_save_all _ _ 0) by (change (drop 0 file) with file; lia).
    change (drop 0 file) with file. fold (file_chunks file).
    destruct (save_all _ _ _) as [r1 s1] eqn:E.
    destruct (save_all_stores _ _ _ _ _ E) as (n1 & Hn1 & Hk1).
    assert (∀ l, n1 ⊆ oks (chunk_node <$> file_chunks file) ++ l) as Hpart
      by (intros l x Hx; apply elem_of_app; left; by apply Hn1).
    destruct r1 as [ks|e|p]; [|intros [= _ <-]; by exists n1..].
    destruct (save_all_ok _ _ _ _ _ E) as (cs & Hcs & -> & _). rewrite (all_ok_oks _ _ Hcs) in *.
    simpl mbind. destruct (createMetaLink _ _ _) as [root|e]; [|intros [= _ <-]; by exists n1].
    intros (n2 & Hn2 & Hk2)%saveAndHashData_stores. exists (n1 ++ n2). split.
    + intros x [Hx|Hx]%elem_of_app; [by apply Hpart|]. apply elem_of_app. right. by apply Hn2.
    + rewrite Hk2, Hk1. unfold store_nodes. by rewrite foldl_app.
Qed.

(** Nodes with other hashes leave a node where it is, and other keys are not
    touched. *)
Lemma store_nodes_keep nodes m c :
  m !! node_key c = Some c → (∀ a, a ∈ nodes → sha256 a = sha256 c → a = c) →
  store_nodes nodes m !! node_key c = Some c.
Proof.
  unfold store_nodes. induction nodes as [|a nodes IH] using rev_ind; intros Hm Hn; [done|].
  rewrite foldl_snoc, lookup_insert. case_decide as E.
  - apply dag_key_inj, array_eq in E. f_equal. apply Hn; [|done].
    apply elem_of_app. right. apply list_elem_of_here.
  - apply IH; [done|]. intros x Hx. apply Hn, elem_of_app. by left.
Qed.

Lemma store_nodes_other nodes m k :
  (∀ h, k ≠ dagStorageKey ++ h) → store_nodes nodes m !! k = m !! k.
Proof.
  intros Hk. unfold store_nodes. induction nodes as [|a nodes IH] using rev_ind; [done|].
  rewrite foldl_snoc, lookup_insert_ne; [done|]. intros E. by apply (Hk (arr (sha256 a))).
Qed.

(** *** Reading back *)

Lemma getDataByHash_node c s :
  kv s !! node_key c = Some c → getDataByHash (arr (sha256 c)) s = (Ok c, s).
Proof. apply Get_found. Qed.

Lemma findFileByID_loop_chunks chunks cs acc s :
  all_ok (chunk_node <$> chunks) = Some cs →
  (∀ c, c ∈ cs → kv s !! node_key c = Some c) →
  findFileByID_loop ((λ c, arr (sha256 c)) <$> cs) acc s = (Ok (acc ++ concat chunks), s).
Proof.
  revert cs acc. induction chunks as [|ch chunks IH]; intros cs acc Hok Hst.
  { injection Hok as <-. simpl. by rewrite app_nil_r. }
  rewrite fmap_cons in Hok. cbn [all_ok] in Hok.
  destruct (chunk_node ch) as [c|e] eqn:Ec; [|done].
  destruct (all_ok (chunk_node <$> chunks)) as [cs'|] eqn:Eok; [|done].
  injection Hok as <-. rewrite fmap_cons. cbn [findFileByID_loop].
  run_M.
  rewrite getDataByHash_node by (apply Hst, list_elem_of_here).
  apply unmarshal_marshal in Ec. rewrite Ec. simpl.
  rewrite (IH cs'); [by rewrite <- app_assoc|done|].
  intros c' Hc'. by apply Hst, list_elem_of_further.
Qed.

(** A file that [calculateFileChunk] stored is what [findFileByID] returns for
    the identifier it got. *)
Lemma len64_small (file : bytes) :
  (Z.of_nat (length file) < 2 ^ 63)%Z → (2 ^ 63 <=? uv (len64 file))%Z = false.
Proof.
  intros Hl. unfold len64. change (2 ^ 63)%Z with 9223372036854775808%Z in *.
  rewrite uv_mk by (change (2 ^ 64)%Z with 18446744073709551616%Z; lia). apply Z.leb_gt. lia.
Qed.

Lemma findFileByID_nodes (file : bytes) (s : S) nodes root
    (Hlen : (Z.of_nat (length file) < 2 ^ 63)%Z)
    (Hnodes : file_nodes file = Some (nodes ++ [root]))
    (Hst : ∀ c, c ∈ nodes ++ [root] → kv s !! node_key c = Some c) :
  findFileByID (arr (sha256 root)) s = (Ok file, s).
Proof.
  unfold findFileByID, mbind, M_bind.
  rewrite getDataByHash_node
    by (apply Hst, elem_of_app; right; apply list_elem_of_here).
  unfold file_nodes in Hnodes.
  destruct (Z.leb_spec (Z.of_nat (length file)) ChunkSize) as [Hle|Hgt].
  - simpl in Hnodes. destruct (createMetaLink _ _ _) as [root'|e] eqn:Em; [|done].
    injection Hnodes as Hn. destruct nodes as [|? [|]]; try done. injection Hn as ->.
    apply unmarshal_marshal in Em. rewrite Em.
    cbn [MerkleNode_type MerkleNode_Data MerkleNode_Size MerkleNode_Links].
    destruct file; [by rewrite len64_small|done].
  - destruct (all_ok (chunk_node <$> file_chunks file)) as [cs|] eqn:Ecs; [|done].
    simpl in Hnodes. destruct (createMetaLink _ _ _) as [root'|e] eqn:Em; [|done].
    injection Hnodes as [-> [= ->]]%app_inj_2; [|done].
    apply unmarshal_marshal in Em. rewrite Em.
    cbn [MerkleNode_type MerkleNode_Data MerkleNode_Size MerkleNode_Links length Nat.ltb Nat.leb].
    rewrite len64_small by done. rewrite (findFileByID_loop_chunks (file_chunks file));
      [|done|intros c Hc; apply Hst, elem_of_app; by left].
    simpl. unfold file_chunks. by rewrite concat_chunks by apply ChunkSize_pos.
Qed.

Lemma findFileByID_saved (file : bytes) (s s' : S) (id : bytes)
    (Hlen : (Z.of_nat (length file) < 2 ^ 63)%Z)
    (Hcf : ∀ nodes, file_nodes file = Some nodes → collision_free nodes)
    (Hsave : calculateFileChunk file s = (Ok id, s')) :
  findFileByID id s' = (Ok file, s').
Proof.
  apply calculateFileChunk_ok in Hsave as (nodes & root & Hnodes & -> & Hkv).
  apply (findFileByID_nodes file s' nodes); [done..|].
  intros c Hc. rewrite Hkv. apply store_nodes_lookup; eauto.
Qed.

(** *** Integrity of the store *)

(** Every entry of the DAG hashes to its key. *)
Definition dag_inv (s : S) : Prop :=
  ∀ h v, kv s !! (dagStorageKey ++ h) = Some v → arr (sha256 v) = h.

(** How the DAG operations may change the store. *)
Definition dag_step (s s' : S) : Prop :=
  (dag_inv s → dag_inv s')
  ∧ (∀ k, (∀ h, k ≠ dagStorageKey ++ h) → kv s' !! k = kv s !! k)
  ∧ (∀ k, is_Some (kv s !! k) → is_Some (kv s' !! k)).

#[export] Instance dag_step_preorder : PreOrder dag_step.
Proof.
  split; [by intros s|]. intros s1 s2 s3 (Ha & Hb & Hc) (Ha' & Hb' & Hc').
  split; [auto|]. split; [|auto]. intros k Hk. by rewrite Hb', Hb.
Qed.

Lemma saveAndHashData_step data s : dag_step s (saveAndHashData data s).2.
Proof.
  destruct (saveAndHashData_cases data s) as [(s1 & -> & Hkv)|(e & ->)]; [|done].
  cbn [snd]. unfold dag_step, dag_inv. rewrite Hkv. split; [|split].
  - intros Hinv h v. rewrite lookup_insert. case_decide as E; [|apply Hinv].
    intros [= ->]. by apply dag_key_inj in E.
  - intros k Hk. apply lookup_insert_ne. intros E. by apply (Hk (arr (sha256 data))).
  - intros k [v Hv]. rewrite lookup_insert. case_decide; eauto.
Qed.

Lemma save_all_step cs keys s : dag_step s (save_all cs keys s).2.
Proof.
  revert keys s. induction cs as [|[c|e] cs IH]; intros keys s; simpl; [done| |done].
  run_M. pose proof (saveAndHashData_step c s) as Hstep.
  destruct (saveAndHashData c s) as [[k|e|p] s1]; [|done..].
  etransitivity; [exact Hstep|apply IH].
Qed.

(** C17. Integrity: whatever [calculateFileChunk] returns, it leaves every entry
    of the DAG under the hash of its contents, removes nothing and touches no
    key outside the DAG; so what [findFileByID] reads for an identifier always
    hashes to that identifier. *)
Theorem calculateFileChunk_integrity (file : bytes) (s s' : S) (r : res bytes)
    (Hinv : dag_inv s) (Hrun : calculateFileChunk file s = (r, s')) :
  dag_inv s'
  ∧ (∀ k, (∀ h, k ≠ dagStorageKey ++ h) → kv s' !! k = kv s !! k)
  ∧ (∀ k, is_Some (kv s !! k) → is_Some (kv s' !! k))
  ∧ (∀ id data, getDataByHash id s' = (Ok data, s') → arr (sha256 data) = id).
Proof.
  assert (Hstep : dag_step s s').
  { unfold calculateFileChunk in Hrun. destruct (_ <=? ChunkSize).
    - destruct (createMetaLink _ _ _) as [root|e]; [|by injection Hrun as <- <-].
      pose proof (saveAndHashData_step root s) as Hs. by rewrite Hrun in Hs.
    - unfold mbind, M_bind in Hrun.
      rewrite (calculateFileChunk_loop_save_all _ _ 0) in Hrun
        by (change (drop 0 file) with file; lia).
      match type of Hrun with context [save_all ?cs ?ks s] =>
        pose proof (save_all_step cs ks s) as Hs; destruct (save_all cs ks s) as [[ks'|e|p] s1]
      end; [|by injection Hrun as <- <-..].
      destruct (createMetaLink _ _ _) as [root|e]; [|by injection Hrun as <- <-].
      pose proof (saveAndHashData_step root s1) as Hs'. rewrite Hrun in Hs'.
      etransitivity; eassumption. }
  destruct Hstep as (Hi & Ho & Hk). split; [auto|]. split; [done|]. split; [done|].
  intros id data Hget. unfold getDataByHash in Hget.
  destruct (kv s' !! (dagStorageKey ++ id)) as [v|] eqn:E.
  - rewrite (Get_found _ _ _ E) in Hget. injection Hget as <-. by apply Hi.
  - apply Get_missing in E as (e & He & _). by rewrite He in Hget.
Qed.
End store.

Module MerkleDagWitness.
Import ToyBadger.
#[export] Instance left : CodecLeft MerkleNode :=
  {| unmarshal_left _ := mkMerkleNode MerkleNode_FILE_CHUNK [] [] (mk_uint 64 0) |}.

Definition file : bytes := str "hello".

Lemma file_nodes_free nodes : file_nodes file = Some nodes → collision_free nodes.
Proof.
  assert (Hle : (Z.of_nat (length file) <=? ChunkSize) = true) by (vm_compute; reflexivity).
  unfold file_nodes. rewrite Hle. simpl. intros [= <-] a b.
  rewrite !list_elem_of_singleton. congruence.
Qed.

Definition saved : res bytes * store := calculateFileChunk file ∅.

Lemma saved_ok : saved.1 = Ok (arr (sha256 (ser (mkMerkleNode MerkleNode_META_LINK file []
                                                 (len64 file))))).
Proof. vm_compute. reflexivity. Qed.

Lemma calculateFileChunk_integrity_witness : dag_inv saved.2.
Proof.
  apply (calculateFileChunk_integrity file (∅ : store) saved.2 saved.1); [|reflexivity].
  intros h v Hv. discriminate Hv.
Defined.
End MerkleDagWitness.
