(* ===== verification/Dht.v ===== *)
(** * The DHT facade: internal/p2p/dht/dht.go

    [DHT] puts the bucket index, the routing table and the Merkle store
    together over one storage. *)

From Stdlib Require Import ZArith Lia.
From S2P Require Import Prelude Sha2 Types Proto ToyCodec Storage Kademlia.
From S2P Require Import RoutingTable MerkleDag.

Record DHT := mkDHT {
  dht_myPubKey : PeerPublicKey;
  dht_myID : PeerID;
  dht_routingTable : RoutingTable
}.

Definition NewDHT (myPubKey : PeerPublicKey) : DHT :=
  let myID := sha256 (arr myPubKey) in
  let routingTable := NewRoutingTable myPubKey in
  mkDHT myPubKey myID routingTable.

Section dht.
Context {S : Type} `{Storage S} `{Codec KBucket} `{Codec MerkleNode} `{CodecLeft MerkleNode}.

Definition GetNearPeers (d : DHT) (peerID : PeerID) : M S (list Dht.PeerStoreEntry) :=
  let index := getBucketIndex (dht_myID d) peerID in
  GetPeers index.

Definition SavePeer (d : DHT) (peerID : PeerID) (PubKey : bytes) (addr : string)
    (lastSeen : uint 64) (trustScore : uint 32) : M S unit :=
  let index := getBucketIndex (dht_myID d) peerID in
  let peer := Dht.mkPeerStoreEntry PubKey (arr peerID) addr lastSeen trustScore in
  saveInKBucket index peer.

Definition SaveFile (file : bytes) : M S bytes := λ s,
  let hash := sha256 file in
  if hashExists (arr hash) s then (Ok [], s)
  else calculateFileChunk file s.

Definition GetFileChunk (chunkHash : bytes) : M S bytes := findFileByID chunkHash.

Definition CalculateDistance (d : DHT) (peerID : PeerID) : Z :=
  getBucketIndex (dht_myID d) peerID.
End dht.

Lemma bucket_is_index a b : is_index (getBucketIndex a b).
Proof. unfold is_index. pose proof (getBucketIndex_range a b). lia. Qed.

(** The identifier under which a node is known is the hash of its key, in the
    facade and in the routing table alike. *)
Lemma NewDHT_id k :
  dht_myID (NewDHT k) = PeerPubKeyToID k ∧ rt_myID (dht_routingTable (NewDHT k)) = PeerPubKeyToID k.
Proof. done. Qed.

Section dht_properties.
Context {S : Type} `{StorageLaws S} `{CodecLaws KBucket} `{CodecLaws MerkleNode}
        `{CodecLeft MerkleNode}.

(** C34. A peer that [SavePeer] stored is the last one [GetNearPeers] lists for
    its identifier and for every identifier at the same distance class, after
    the peers that were there; and the bucket is one of 256. *)
Theorem SavePeer_GetNearPeers (d : DHT) (id id' : PeerID) (pk : bytes) (addr : string)
    (seen : uint 64) (trust : uint 32) (s s' : S)
    (Hinv : table_inv s)
    (Hsame : CalculateDistance d id' = CalculateDistance d id)
    (Hsave : SavePeer d id pk addr seen trust s = (Ok (), s')) :
  GetNearPeers d id' s'
  = (Ok (table s (CalculateDistance d id)
         ++ [Dht.mkPeerStoreEntry pk (arr id) addr seen trust]), s')
  ∧ (0 <= CalculateDistance d id < 256)%Z
  ∧ table_inv s'.
Proof.
  unfold SavePeer, GetNearPeers, CalculateDistance in *. rewrite Hsame.
  set (i := getBucketIndex (dht_myID d) id) in *.
  assert (Hi : is_index i) by apply bucket_is_index.
  destruct (Hinv i Hi) as [Hread _].
  destruct (saveInKBucket_post _ _ _ _ _ Hi Hread Hsave) as [(_ & Ht & _) Hread'].
  split; [|split; [pose proof (getBucketIndex_range (dht_myID d) id); subst i; lia
                  |by eapply table_inv_save]].
  rewrite GetPeers_eq by done. rewrite Ht.
  destruct (raw_bucket s' i) eqn:E; [done|].
  unfold table, bucket_at in Ht. rewrite E in Ht. simpl in Ht.
  symmetry in Ht. by apply app_eq_nil in Ht as [_ ?].
Qed.

Lemma hashExists_spec h (s : S) :
  hashExists h s = bool_decide (is_Some (kv s !! (dagStorageKey ++ h))).
Proof. apply Exists_spec. Qed.

(** The test for a known file compares the hash of the file with the hashes
    of nodes, so it does not see a file stored before: saving a file a second
    time stores its nodes again and returns the same identifier, unless the
    file has the hash of a node. *)
Theorem SaveFile_again (file : bytes) (s s' : S) (id : bytes)
    (Hnew : hashExists (arr (sha256 file)) s = false)
    (Hnode : ∀ nodes c, file_nodes file = Some nodes → c ∈ nodes → sha256 c ≠ sha256 file)
    (Hsave : SaveFile file s = (Ok id, s')) :
  SaveFile file s' = calculateFileChunk file s'
  ∧ ∀ id' s'', SaveFile file s' = (Ok id', s'') → id' = id.
Proof.
  unfold SaveFile in *. rewrite Hnew in Hsave.
  destruct (calculateFileChunk_ok _ _ _ _ Hsave) as (nodes & root & Hnodes & -> & Hkv).
  assert (Hlook : hashExists (arr (sha256 file)) s' = false).
  { rewrite hashExists_spec in Hnew |- *. rewrite Hkv.
    assert (Hn : ∀ c, c ∈ nodes ++ [root] → sha256 c ≠ sha256 file) by eauto.
    revert Hn. generalize (nodes ++ [root]) as l. unfold store_nodes.
    induction l as [|c l IH] using rev_ind; intros Hn; [done|].
    rewrite foldl_snoc, lookup_insert_ne.
    - apply IH. intros c' Hc'. apply Hn, elem_of_app. by left.
    - intros E%dag_key_inj%array_eq. apply (Hn c); [|done].
      apply elem_of_app. right. apply list_elem_of_here. }
  rewrite Hlook. split; [done|]. intros id' s'' Hrun.
  destruct (calculateFileChunk_ok _ _ _ _ Hrun) as (nodes' & root' & Hnodes' & -> & _).
  rewrite Hnodes in Hnodes'. injection Hnodes' as [_ [= ->]]%app_inj_2; done.
Qed.

(** A file that happens to be a stored node is dropped: [SaveFile] returns
    no identifier and no error, and stores nothing, so the caller has nothing
    to read the file back with. *)
Theorem SaveFile_drops_node (file : bytes) (s : S) (v : bytes)
    (Hnode : kv s !! node_key file = Some v) :
  SaveFile file s = (Ok [], s).
Proof.
  unfold SaveFile. rewrite hashExists_spec. unfold node_key in Hnode.
  rewrite bool_decide_eq_true_2; [done|]. rewrite Hnode. eauto.
Qed.

(** Round trip: a file that [SaveFile] stored is what [GetFileChunk]
    returns for the identifier it got, empty files and files of several chunks
    included, provided that the nodes of this file have different hashes. *)
Theorem SaveFile_GetFileChunk (file : bytes) (s s' : S) (id : bytes)
    (Hlen : (Z.of_nat (length file) < 2 ^ 63)%Z)
    (Hnew : hashExists (arr (sha256 file)) s = false)
    (Hcf : ∀ nodes, file_nodes file = Some nodes → collision_free nodes)
    (Hsave : SaveFile file s = (Ok id, s')) :
  GetFileChunk id s' = (Ok file, s').
Proof.
  unfold SaveFile in Hsave. rewrite Hnew in Hsave. unfold GetFileChunk.
  by apply (findFileByID_saved file s).
Qed.
End dht_properties.

Module DhtWitness.
Import ToyBadger MerkleDagWitness.

Definition dht : DHT := NewDHT (zero_array 32).
Definition id : PeerID := pad_array 32 [Byte.x01].

Definition save : M store unit :=
  SavePeer dht id [Byte.x07] "addr" (mk_uint 64 1) (mk_uint 32 100).

Lemma save_ok : (save ∅).1 = Ok ().
Proof. vm_compute. reflexivity. Qed.

Lemma SavePeer_GetNearPeers_witness :
  GetNearPeers dht id (save ∅).2
  = (Ok (table (∅ : store) (CalculateDistance dht id)
          ++ [Dht.mkPeerStoreEntry [Byte.x07] (arr id) "addr" (mk_uint 64 1) (mk_uint 32 100)]),
     (save ∅).2).
Proof.
  apply (SavePeer_GetNearPeers dht id id [Byte.x07] "addr" (mk_uint 64 1)
           (mk_uint 32 100) (∅ : store) (save ∅).2 RoutingTableWitness.empty_inv).
  - reflexivity.
  - apply (run_eq save ∅). exact save_ok.
Defined.

Lemma not_a_node nodes c : file_nodes file = Some nodes → c ∈ nodes → sha256 c ≠ sha256 file.
Proof.
  assert (Hle : (Z.of_nat (length file) <=? ChunkSize)%Z = true) by (vm_compute; reflexivity).
  unfold file_nodes. rewrite Hle. simpl. intros [= <-] ->%list_elem_of_singleton.
  intros E%(f_equal arr). revert E. vm_compute. discriminate.
Qed.

Lemma SaveFile_ok : (SaveFile file (∅ : store)).1
  = Ok (arr (sha256 (ser (mkMerkleNode MerkleNode_META_LINK file [] (len64 file))))).
Proof. vm_compute. reflexivity. Qed.

Lemma SaveFile_again_witness :
  SaveFile file (SaveFile file (∅ : store)).2
  = calculateFileChunk file (SaveFile file (∅ : store)).2.
Proof.
  refine (proj1 (SaveFile_again file (∅ : store) _ _ _ not_a_node
                   (run_eq (SaveFile file) (∅ : store) _ SaveFile_ok))).
  reflexivity.
Defined.

Lemma SaveFile_drops_node_witness :
  SaveFile (str "x") (<[node_key (str "x") := str "x"]> (∅ : store))
  = (Ok [], <[node_key (str "x") := str "x"]> ∅).
Proof.
  apply (SaveFile_drops_node (str "x") (<[node_key (str "x") := str "x"]> (∅ : store)) (str "x")).
  apply (lookup_insert_eq (∅ : store)).
Defined.

Lemma SaveFile_GetFileChunk_witness :
  ∃ id, GetFileChunk id (SaveFile file (∅ : store)).2 = (Ok file, (SaveFile file (∅ : store)).2).
Proof.
  eexists.
  refine (SaveFile_GetFileChunk file (∅ : store) _ _ _ _ file_nodes_free
            (run_eq (SaveFile file) (∅ : store) _ SaveFile_ok)).
  - apply Z.ltb_lt. vm_compute. reflexivity.
  - reflexivity.
Defined.
End DhtWitness.
