(* ===== verification/Signature.v ===== *)
(** * Signatures: internal/crypto/signature.go

    [crypto/ed25519] of the Go standard library is the class [Ed25519]: the
    functions the program calls, with the documented law that a signature made
    with a key pair verifies.  The length checks and panics of its API are
    written out. *)

From Stdlib Require Import ZArith Lia.
From S2P Require Import Prelude Sha2 Types.

Class Ed25519 := {
  ed_public : array 32 → PeerPublicKey;               (* seed to public key *)
  ed_sign : PeerPrivateKey → bytes → array 64;
  ed_verify : PeerPublicKey → bytes → array 64 → bool
}.

(** A private key is its seed followed by the public key. *)
Definition key_pair `{Ed25519} (k : PeerPrivateKey) : Prop :=
  PeerPrivateKeyToPublic k = ed_public (pad_array 32 (take 32 (arr k))).

Class Ed25519Laws `{Ed25519} := {
  ed_verify_sign k m :
    key_pair k → ed_verify (PeerPrivateKeyToPublic k) m (ed_sign k m) = true
}.

Definition PrivateKeySize : nat := 64.
Definition SignatureSize : nat := 64.

Section signature.
Context `{Ed25519}.

(** [ed25519.NewKeyFromSeed]. *)
Definition NewKeyFromSeed (seed : array 32) : PeerPrivateKey :=
  pad_array 64 (arr seed ++ arr (ed_public seed)).

(** [ed25519.Sign] panics on a private key of the wrong length. *)
Definition ed25519_Sign (privateKey message : bytes) : res bytes :=
  if negb (length privateKey =? PrivateKeySize)
  then Panic (PanicText "ed25519: bad private key length")
  else Ok (arr (ed_sign (pad_array 64 privateKey) message)).

Definition CreateSignature (payload privKey : bytes) : res bytes :=
  ed25519_Sign privKey payload.

Definition VerifySignature (pubKey : PeerPublicKey) (payload sig : bytes) : bool :=
  if negb (length sig =? SignatureSize) then false
  else ed_verify pubKey payload (pad_array 64 sig).
End signature.

Lemma NewKeyFromSeed_public `{Ed25519} seed :
  PeerPrivateKeyToPublic (NewKeyFromSeed seed) = ed_public seed.
Proof.
  apply array_eq. rewrite PeerPrivateKeyToPublic_arr. unfold NewKeyFromSeed. simpl arr.
  rewrite pad_exact by len.
  rewrite <- (length_arr seed) at 1. apply drop_app_length.
Qed.

Lemma NewKeyFromSeed_pair `{Ed25519} seed : key_pair (NewKeyFromSeed seed).
Proof.
  unfold key_pair. rewrite NewKeyFromSeed_public. f_equal. apply array_eq.
  unfold NewKeyFromSeed. simpl arr.
  rewrite (pad_exact 64) by len.
  rewrite take_app_length' by by rewrite length_arr.
  by rewrite pad_exact by apply length_arr.
Qed.

Lemma CreateSignature_arr `{Ed25519} payload (k : PeerPrivateKey) :
  CreateSignature payload (arr k) = Ok (arr (ed_sign k payload)).
Proof.
  unfold CreateSignature, ed25519_Sign, PrivateKeySize. rewrite length_arr. simpl.
  by rewrite pad_array_arr.
Qed.

Lemma VerifySignature_arr `{Ed25519} pk m (sig : array 64) :
  VerifySignature pk m (arr sig) = ed_verify pk m sig.
Proof.
  unfold VerifySignature, SignatureSize. rewrite length_arr. simpl. by rewrite pad_array_arr.
Qed.

Lemma VerifySignature_CreateSignature `{Ed25519Laws} (k : PeerPrivateKey) m sig :
  key_pair k → CreateSignature m (arr k) = Ok sig →
  VerifySignature (PeerPrivateKeyToPublic k) m sig = true.
Proof.
  intros Hk. rewrite CreateSignature_arr. intros [= <-].
  rewrite VerifySignature_arr. by apply ed_verify_sign.
Qed.

(** A signature scheme for the witnesses: the tag is the hash of the public key
    and the message. *)
Module ToySig.
Definition tag (pk : PeerPublicKey) (m : bytes) : array 64 :=
  pad_array 64 (arr (sha256 (arr pk ++ m))).

#[export] Instance ed25519 : Ed25519 := {
  ed_public seed := seed;
  ed_sign k m := tag (PeerPrivateKeyToPublic k) m;
  ed_verify pk m sig := bool_decide (sig = tag pk m)
}.
#[export] Instance ed25519_laws : Ed25519Laws.
Proof. split. intros k m _. by apply bool_decide_eq_true. Qed.
End ToySig.
