(* ===== verification/Engine.v ===== *)
(** * Message encryption: internal/crypto/engine.go

    Ed25519 identities are turned into X25519 keys, the shared secret is
    expanded by HKDF into an AES-256 key, and a message is sealed with AES-GCM
    under a random nonce that travels in front of the ciphertext.

    SHA-512 is the standard library's, concrete ([Sha2]); [crypto/ecdh],
    [crypto/aes], [crypto/cipher], filippo.io/edwards25519 and
    golang.org/x/crypto/hkdf are the class [EngineLib]. *)

From Stdlib Require Import ZArith Lia.
From S2P Require Import Prelude Sha2 Types Signature.

Class EngineLib := {
  (* edwards25519: Point.SetBytes then BytesMontgomery *)
  point_SetBytes_Montgomery : PeerPublicKey → bytes + gerror;
  (* ecdh.X25519(): NewPublicKey and PrivateKey.ECDH; the private key by its bytes *)
  ecdh_NewPrivateKey : bytes → unit + gerror;
  ecdh_NewPublicKey : bytes → unit + gerror;
  ecdh_ECDH : bytes → bytes → bytes + gerror;
  (* hkdf.New(sha256.New, secret, nil, info), then 32 bytes read from it *)
  hkdf_read32 : bytes → bytes → bytes + gerror;
  aes_NewCipher : bytes → unit + gerror;
  cipher_NewGCM : bytes → unit + gerror;
  gcm_NonceSize : nat;
  gcm_Seal : bytes → bytes → bytes → bytes;
  gcm_Open : bytes → bytes → bytes → bytes + gerror
}.

Record Engine := mkEngine { myDiffieHellmanKey : bytes }.

Section engine.
Context `{EngineLib}.

(** [out[i] = f(out[i])] *)
Definition byte_at (i : nat) (f : Z → Z) (l : bytes) : bytes := alter (λ b, Zb (f (bZ b))) i l.

(** [ed25519.PrivateKey] is a slice: [Seed] cuts [priv[:32]] out of it. *)
Definition Seed (edPriv : bytes) : res bytes :=
  if decide (length edPriv < 32) then Panic (PanicIndex 32 (length edPriv))
  else Ok (take 32 edPriv).

Definition edPrivToX25519 (edPriv : bytes) : res bytes :=
  seed ← Seed edPriv;
  let h := sha512 seed in
  let out := take 32 (arr h) in
  let out := byte_at 0 (λ x, Z.land x 248) out in
  let out := byte_at 31 (λ x, Z.land x 127) out in
  let out := byte_at 31 (λ x, Z.lor x 64) out in
  mret out.

Definition EdPubKeyToX25519 (edPub : PeerPublicKey) : res bytes :=
  match point_SetBytes_Montgomery edPub with
  | inr err => Err (ErrorWrap "invalid ed25519 public key point" err)
  | inl b => Ok b
  end.

Definition NewEngine (identityKey : bytes) : res Engine :=
  x25519Bytes ← edPrivToX25519 identityKey;
  match ecdh_NewPrivateKey x25519Bytes with
  | inr err => Err (ErrorWrap "failed to create X25519 private key" err)
  | inl _ => Ok (mkEngine x25519Bytes)
  end.

Definition computeSharedKey (e : Engine) (theirEdPub : PeerPublicKey) : res bytes :=
  theirX25519Bytes ← EdPubKeyToX25519 theirEdPub;
  match ecdh_NewPublicKey theirX25519Bytes with
  | inr err => Err (ErrorWrap "crypto/ecdh rejected the public key" err)
  | inl _ =>
      match ecdh_ECDH (myDiffieHellmanKey e) theirX25519Bytes with
      | inr err => Err (ErrorWrap "ecdh computation failed" err)
      | inl sharedSecret =>
          of_lib (hkdf_read32 sharedSecret (str "p2p-messenger-v1-aes-key"))
      end
  end.

(** [newGCM key] is the pair of calls [aes.NewCipher], [cipher.NewGCM]. *)
Definition newGCM (key : bytes) : res unit :=
  _ ← of_lib (aes_NewCipher key);
  of_lib (cipher_NewGCM key).

(** [rnd] is what [io.ReadFull(rand.Reader, nonce)] gives: it fills the nonce
    or fails. *)
Definition Encrypt (e : Engine) (rnd : array gcm_NonceSize + gerror) (plaintext : bytes)
    (recipientEdPub : PeerPublicKey) : res bytes :=
  key ← computeSharedKey e recipientEdPub;
  _ ← newGCM key;
  nonce ← of_lib rnd;
  mret (arr nonce ++ gcm_Seal key (arr nonce) plaintext).

Definition Decrypt (e : Engine) (ciphertext : bytes) (senderEdPub : PeerPublicKey) : res bytes :=
  key ← computeSharedKey e senderEdPub;
  _ ← newGCM key;
  let nonceSize := gcm_NonceSize in
  if decide (length ciphertext < nonceSize) then Err (ErrorString "ciphertext too short")
  else
    let nonce := take nonceSize ciphertext in
    let actualCiphertext := drop nonceSize ciphertext in
    match gcm_Open key nonce actualCiphertext with
    | inr err => Err (ErrorWrap "decryption failed (wrong key or tampering)" err)
    | inl plaintext => Ok plaintext
    end.
End engine.

(** Documented: Diffie-Hellman agrees on both sides (the Montgomery form of an
    Ed25519 public key is the X25519 public key of the clamped hash of its seed),
    the public key of a key pair is a point whose Montgomery form is an X25519
    key, and [Open] undoes [Seal] under the same key and nonce. *)
Class EngineLaws `{EngineLib, Ed25519} := {
  ecdh_agree (a b : PeerPrivateKey) da db xa xb :
    key_pair a → key_pair b →
    edPrivToX25519 (arr a) = Ok da → edPrivToX25519 (arr b) = Ok db →
    point_SetBytes_Montgomery (PeerPrivateKeyToPublic a) = inl xa →
    point_SetBytes_Montgomery (PeerPrivateKeyToPublic b) = inl xb →
    ecdh_ECDH da xb = ecdh_ECDH db xa;
  own_key a : key_pair a →
    ∃ xa, point_SetBytes_Montgomery (PeerPrivateKeyToPublic a) = inl xa
          ∧ ecdh_NewPublicKey xa = inl ();
  gcm_open_seal key nonce pt :
    length nonce = gcm_NonceSize → gcm_Open key nonce (gcm_Seal key nonce pt) = inl pt
}.

(** ** Lemmas *)

Definition le_get (l : bytes) : Z := be_get (rev l).

Lemma be_get_app l l' :
  be_get (l ++ l') = (be_get l * 2 ^ (8 * Z.of_nat (length l')) + be_get l')%Z.
Proof. unfold be_get at 1. rewrite foldl_app. apply be_get_acc. Qed.

Lemma le_get_cons b l : le_get (b :: l) = (bZ b + 256 * le_get l)%Z.
Proof.
  unfold le_get. simpl rev. rewrite be_get_app. simpl length.
  change (2 ^ (8 * Z.of_nat 1))%Z with 256%Z. unfold be_get at 2. simpl. lia.
Qed.

Lemma le_get_app l l' :
  le_get (l ++ l') = (le_get l + 2 ^ (8 * Z.of_nat (length l)) * le_get l')%Z.
Proof. unfold le_get. rewrite rev_app_distr, be_get_app, length_rev. lia. Qed.

Lemma le_get_range l : (0 <= le_get l < 2 ^ (8 * Z.of_nat (length l)))%Z.
Proof. unfold le_get. rewrite <- length_rev. apply be_get_range. Qed.

(** The bounds of the bit operations, checked on all bytes. *)
Lemma land_248 (b : Byte.byte) : (Z.land (bZ b) 248 mod 8 = 0 ∧ 0 <= Z.land (bZ b) 248 < 256)%Z.
Proof. by destruct b. Qed.
Lemma clamp_top (b : Byte.byte) :
  (64 <= Z.lor (bZ (Zb (Z.land (bZ b) 127))) 64 < 128)%Z.
Proof. by destruct b. Qed.

Definition clamp (out : bytes) : bytes :=
  byte_at 31 (λ x, Z.lor x 64) (byte_at 31 (λ x, Z.land x 127) (byte_at 0 (λ x, Z.land x 248) out)).

Lemma byte_at_last x mid y f : length mid = 30 →
  byte_at 31 f (x :: mid ++ [y]) = x :: mid ++ [Zb (f (bZ y))].
Proof.
  intros Hmid. unfold byte_at. rewrite !app_comm_cons, alter_app_r_alt by (simpl; lia).
  simpl length. by rewrite Hmid.
Qed.

Lemma clamp_shape out : length out = 32 →
  ∃ b0 mid b31, length mid = 30 ∧
    clamp out = Zb (Z.land (bZ b0) 248) :: mid
                  ++ [Zb (Z.lor (bZ (Zb (Z.land (bZ b31) 127))) 64)].
Proof.
  intros Hl. destruct out as [|b0 out]; [done|]. simpl in Hl.
  destruct out as [|b31 mid _] using rev_ind; [done|].
  rewrite length_app in Hl. simpl in Hl. exists b0, mid, b31.
  assert (length mid = 30) as Hmid by lia. split; [done|].
  unfold clamp. change (byte_at 0 ?f (?b :: ?l)) with (Zb (f (bZ b)) :: l).
  by rewrite !byte_at_last.
Qed.

(** ** Properties *)

Lemma le_get_clamped b0 mid b31 : length mid = 30 →
  let v := le_get (Zb (Z.land (bZ b0) 248) :: mid
                    ++ [Zb (Z.lor (bZ (Zb (Z.land (bZ b31) 127))) 64)]) in
  (v mod 8 = 0 ∧ 2 ^ 254 <= v < 2 ^ 255)%Z.
Proof.
  intros Hmid v. subst v. rewrite le_get_cons, le_get_app, Hmid.
  unfold le_get at 2 4 6. cbn [rev app].
  pose proof (le_get_range mid) as Hm. rewrite Hmid in Hm.
  pose proof (land_248 b0) as [H8 H0]. pose proof (clamp_top b31) as Ht.
  set (t := Z.lor _ 64) in *. set (lo := Z.land _ 248) in *.
  assert (∀ b, be_get [b] = bZ b) as Hone by (intros b; by destruct b).
  rewrite !Hone, !bZ_Zb, !(Z.mod_small lo), !(Z.mod_small t) by lia.
  change (2 ^ (8 * Z.of_nat 30))%Z with (2 ^ 240)%Z in *.
  split; [|lia].
  apply Z.mod_divide in H8 as [q Hq]; [|lia]. apply Z.mod_divide; [lia|].
  exists (q + 32 * (le_get mid + 2 ^ 240 * t))%Z. lia.
Qed.

Lemma edPrivToX25519_clamp (k : PeerPrivateKey) :
  ∃ out, length out = 32 ∧ edPrivToX25519 (arr k) = Ok (clamp out).
Proof.
  unfold edPrivToX25519, Seed. rewrite decide_False by len.
  eexists. split; [|reflexivity]. by rewrite length_take, length_arr.
Qed.

(** C39. An identity key of the right length is turned into an X25519 scalar
    without a panic, and the scalar is clamped as RFC 7748 asks: 32 bytes whose
    little-endian value is a multiple of 8 between 2^254 and 2^255. *)
Theorem edPrivToX25519_clamped (k : PeerPrivateKey) :
  ∃ out, edPrivToX25519 (arr k) = Ok out
  ∧ length out = 32
  ∧ (le_get out mod 8 = 0 ∧ 2 ^ 254 <= le_get out < 2 ^ 255)%Z.
Proof.
  destruct (edPrivToX25519_clamp k) as (out & Hl & ->).
  exists (clamp out). split; [done|].
  destruct (clamp_shape out Hl) as (b0 & mid & b31 & Hmid & ->).
  split; [simpl; rewrite length_app, Hmid; done|]. by apply le_get_clamped.
Qed.

(** The key both parties compute. *)
Lemma computeSharedKey_agree `{EngineLaws} (a b : PeerPrivateKey) ea eb :
  key_pair a → key_pair b →
  NewEngine (arr a) = Ok ea → NewEngine (arr b) = Ok eb →
  computeSharedKey ea (PeerPrivateKeyToPublic b) = computeSharedKey eb (PeerPrivateKeyToPublic a).
Proof.
  intros Ha Hb. unfold NewEngine.
  destruct (edPrivToX25519 (arr a)) as [da| |] eqn:Ea; cbn; try done.
  destruct (edPrivToX25519 (arr b)) as [db| |] eqn:Eb; cbn; try done.
  destruct (ecdh_NewPrivateKey da), (ecdh_NewPrivateKey db); try done.
  intros [= <-] [= <-]. unfold computeSharedKey, EdPubKeyToX25519.
  destruct (own_key a Ha) as (xa & Hxa & Hka), (own_key b Hb) as (xb & Hxb & Hkb).
  rewrite Hxa, Hxb. cbn. rewrite Hka, Hkb.
  by rewrite (ecdh_agree a b da db xa xb).
Qed.

(** The two ends after the shared key. *)
Lemma open_sealed `{EngineLaws} key (rnd : array gcm_NonceSize + gerror) pt ct :
  (_ ← newGCM key; nonce ← of_lib rnd; mret (arr nonce ++ gcm_Seal key (arr nonce) pt)) = Ok ct →
  (_ ← newGCM key;
   if decide (length ct < gcm_NonceSize) then Err (ErrorString "ciphertext too short")
   else match gcm_Open key (take gcm_NonceSize ct) (drop gcm_NonceSize ct) with
        | inr err => Err (ErrorWrap "decryption failed (wrong key or tampering)" err)
        | inl plaintext => Ok plaintext
        end) = Ok pt.
Proof.
  destruct (newGCM key) as [[]| |]; cbn; try done.
  destruct rnd as [nonce|]; cbn; try done. intros [= <-].
  rewrite decide_False by len.
  rewrite take_app_length', drop_app_length' by by rewrite length_arr.
  by rewrite gcm_open_seal by apply length_arr.
Qed.

Lemma engines_agree `{EngineLaws} (a b : PeerPrivateKey) ea eb rnd pt ct :
  key_pair a → key_pair b →
  NewEngine (arr a) = Ok ea → NewEngine (arr b) = Ok eb →
  Encrypt ea rnd pt (PeerPrivateKeyToPublic b) = Ok ct →
  Decrypt eb ct (PeerPrivateKeyToPublic a) = Ok pt.
Proof.
  intros Ha Hb Hea Heb. unfold Encrypt, Decrypt.
  rewrite <- (computeSharedKey_agree a b ea eb Ha Hb Hea Heb).
  destruct (computeSharedKey _ _) as [key| |]; cbn; try done. apply open_sealed.
Qed.

(** It decrypts what it has encrypted itself, too. *)
Lemma engine_own `{EngineLaws} e rnd pt ct pk :
  Encrypt e rnd pt pk = Ok ct → Decrypt e ct pk = Ok pt.
Proof.
  unfold Encrypt, Decrypt. destruct (computeSharedKey e pk) as [key| |]; cbn; try done.
  apply open_sealed.
Qed.

(** C10. What Alice's engine encrypts for Bob's public key, Bob's engine decrypts
    with Alice's public key to the same plaintext; a ciphertext cut down to less
    than a nonce it refuses with an error. *)
Theorem Decrypt_Encrypt `{EngineLaws} (a b : PeerPrivateKey) ea eb rnd pt ct :
  key_pair a → key_pair b →
  NewEngine (arr a) = Ok ea → NewEngine (arr b) = Ok eb →
  Encrypt ea rnd pt (PeerPrivateKeyToPublic b) = Ok ct →
  Decrypt eb ct (PeerPrivateKeyToPublic a) = Ok pt
  ∧ ∀ n, n < gcm_NonceSize →
      Decrypt eb (take n ct) (PeerPrivateKeyToPublic a) = Err (ErrorString "ciphertext too short").
Proof.
  intros Ha Hb Hea Heb Henc. split; [by eapply engines_agree|]. intros n Hn.
  unfold Encrypt in Henc. unfold Decrypt.
  rewrite <- (computeSharedKey_agree a b ea eb Ha Hb Hea Heb).
  destruct (computeSharedKey _ _) as [key| |]; cbn in *; try done.
  destruct (newGCM key) as [[]| |]; cbn in *; try done.
  rewrite decide_True; [done|]. rewrite length_take. lia.
Qed.

(** A ciphertext shorter than a nonce is rejected with an error before it is
    cut: [Decrypt] never panics. *)
Lemma Decrypt_no_panic `{EngineLib} e ct pk : is_panic (Decrypt e ct pk) = false.
Proof.
  unfold Decrypt, computeSharedKey, EdPubKeyToX25519, newGCM.
  destruct (point_SetBytes_Montgomery pk); cbn; [|done].
  destruct (ecdh_NewPublicKey _); cbn; [|done].
  destruct (ecdh_ECDH _ _); cbn; [|done].
  destruct (hkdf_read32 _ _) as [key|]; cbn; [|done].
  destruct (aes_NewCipher key); cbn; [|done].
  destruct (cipher_NewGCM key); cbn; [|done].
  case_decide; [done|]. by destruct (gcm_Open _ _ _).
Qed.

(** A library for the witnesses: the shared secret is the sum of the secrets'
    hashes, sealing appends a tag of the key and the nonce. *)
Module ToyEngine.
Definition xor_bytes (a b : bytes) : bytes :=
  zip_with (λ x y, Zb (Z.lxor (bZ x) (bZ y))) a b.

#[export] Instance ed25519 : Ed25519 := {
  ed_public seed := match edPrivToX25519 (arr seed) with
                    | Ok d => pad_array 32 d | _ => zero_array 32 end;
  ed_sign k m := ToySig.tag (PeerPrivateKeyToPublic k) m;
  ed_verify pk m sig := bool_decide (sig = ToySig.tag pk m)
}.
#[export] Instance ed25519_laws : Ed25519Laws.
Proof. split. intros k m _. by apply bool_decide_eq_true. Qed.

#[export] Instance lib : EngineLib := {
  point_SetBytes_Montgomery pk := inl (arr pk);
  ecdh_NewPrivateKey _ := inl ();
  ecdh_NewPublicKey _ := inl ();
  ecdh_ECDH d x := inl (xor_bytes d x);
  hkdf_read32 secret info := inl secret;
  aes_NewCipher _ := inl ();
  cipher_NewGCM _ := inl ();
  gcm_NonceSize := 12;
  gcm_Seal key nonce pt := pt ++ nonce ++ key;
  gcm_Open key nonce ct :=
    let n := length ct - length (nonce ++ key) in
    if bool_decide (drop n ct = nonce ++ key) then inl (take n ct) else inr (ErrLib 9)
}.

Lemma xor_bytes_comm a b : xor_bytes a b = xor_bytes b a.
Proof.
  unfold xor_bytes. revert b. induction a as [|x a IH]; intros [|y b]; simpl; [done..|].
  by rewrite IH, Z.lxor_comm.
Qed.

Lemma Seed_arr (a : PeerPrivateKey) : Seed (arr a) = Ok (take 32 (arr a)).
Proof. unfold Seed. by rewrite decide_False by len. Qed.

Lemma Seed_seed (a : PeerPrivateKey) :
  Seed (arr (pad_array 32 (take 32 (arr a)))) = Seed (arr a).
Proof.
  rewrite Seed_arr. simpl arr. rewrite pad_exact by len.
  unfold Seed. rewrite length_take, length_arr, take_take. done.
Qed.

Lemma public_scalar (a : PeerPrivateKey) d :
  key_pair a → edPrivToX25519 (arr a) = Ok d → arr (PeerPrivateKeyToPublic a) = d.
Proof.
  intros -> Hd. cbn [ed_public ed25519].
  assert (edPrivToX25519 (arr (pad_array 32 (take 32 (arr a)))) = Ok d) as ->.
  { rewrite <- Hd. unfold edPrivToX25519. by rewrite Seed_seed. }
  destruct (edPrivToX25519_clamp a) as (out & Hl & Hout).
  rewrite Hd in Hout. injection Hout as ->. apply pad_exact.
  unfold clamp, byte_at. by rewrite !length_alter.
Qed.

#[export] Instance laws : EngineLaws.
Proof.
  split.
  - intros a b da db xa xb Ha Hb Hda Hdb. cbn [point_SetBytes_Montgomery lib].
    rewrite (public_scalar a da), (public_scalar b db) by done.
    intros [= <-] [= <-]. cbn. by rewrite xor_bytes_comm.
  - intros a _. eexists. split; reflexivity.
  - intros key nonce pt _. simpl.
    replace (length (pt ++ nonce ++ key) - length (nonce ++ key)) with (length pt)
      by len.
    by rewrite drop_app_length, take_app_length, bool_decide_eq_true_2.
Qed.

Definition alice : PeerPrivateKey := NewKeyFromSeed (pad_array 32 (str "alice")).
Definition bob : PeerPrivateKey := NewKeyFromSeed (pad_array 32 (str "bob")).
End ToyEngine.

Module EngineWitness.
Import ToyEngine.
Definition engine_of (k : PeerPrivateKey) : Engine :=
  match NewEngine (arr k) with Ok e => e | _ => mkEngine [] end.
Definition nonce : array 12 := pad_array 12 (str "nonce").
Definition sealed : bytes :=
  match Encrypt (engine_of alice) (inl nonce) (str "hello") (PeerPrivateKeyToPublic bob) with
  | Ok ct => ct | _ => [] end.

Lemma Decrypt_Encrypt_witness :
  Decrypt (engine_of bob) sealed (PeerPrivateKeyToPublic alice) = Ok (str "hello").
Proof.
  refine (proj1 (Decrypt_Encrypt alice bob (engine_of alice) (engine_of bob) (inl nonce)
            (str "hello") sealed _ _ _ _ _)).
  - apply NewKeyFromSeed_pair.
  - apply NewKeyFromSeed_pair.
  - reflexivity.
  - reflexivity.
  - reflexivity.
Defined.
End EngineWitness.
