(* ===== verification/KeyStore.v ===== *)
(** * The key store: internal/crypto/security_keys.go

    The identity key lives in the storage under ["secret:keys"], sealed with
    XChaCha20-Poly1305 under a key that Argon2id derives from the password.
    Also here: the hexadecimal form of keys ([decodeKey], [GetPeerID]).

    golang.org/x/crypto is the class [KeyLib]; encoding/hex is the standard
    library's, written out in the module [Hex].  The random bytes a call reads
    are its argument [rnd]. *)

From Stdlib Require Import ZArith Lia.
From S2P Require Import Prelude Sha2 Types Proto ToyCodec Storage Signature.

(** ** encoding/hex *)
Module Hex.
Definition digit (n : Z) : Byte.byte := if decide (n < 10)%Z then Zb (48 + n) else Zb (87 + n).

Definition undigit (b : Byte.byte) : option Z :=
  let c := bZ b in
  if (48 <=? c)%Z && (c <=? 57)%Z then Some (c - 48)%Z
  else if (97 <=? c)%Z && (c <=? 102)%Z then Some (c - 87)%Z
  else if (65 <=? c)%Z && (c <=? 70)%Z then Some (c - 55)%Z
  else None.

Fixpoint encode (l : bytes) : bytes :=
  match l with
  | [] => []
  | b :: l => digit (Z.shiftr (bZ b) 4) :: digit (Z.land (bZ b) 15) :: encode l
  end.

(** Any odd digit or foreign character is an error. *)
Fixpoint decode (l : bytes) : option bytes :=
  match l with
  | [] => Some []
  | h :: d :: l =>
      h ← undigit h; d ← undigit d; rest ← decode l;
      Some (Zb (Z.lor (Z.shiftl h 4) d) :: rest)
  | [_] => None
  end.

Definition EncodeToString (l : bytes) : string := String.string_of_list_byte (encode l).
Definition DecodeString (s : string) : res bytes :=
  match decode (str s) with Some l => Ok l | None => Err (ErrLib 20) end.

Lemma undigit_digit (b : Byte.byte) :
  undigit (digit (Z.shiftr (bZ b) 4)) = Some (Z.shiftr (bZ b) 4)
  ∧ undigit (digit (Z.land (bZ b) 15)) = Some (Z.land (bZ b) 15)
  ∧ Zb (Z.lor (Z.shiftl (Z.shiftr (bZ b) 4) 4) (Z.land (bZ b) 15)) = b.
Proof. destruct b; vm_compute; auto. Qed.

Lemma decode_encode l : decode (encode l) = Some l.
Proof.
  induction l as [|b l IH]; [done|].
  destruct (undigit_digit b) as (Hh & Hd & Hb). cbn [encode decode].
  rewrite Hh, Hd. simpl. rewrite IH. simpl. by rewrite Hb.
Qed.

Lemma DecodeString_EncodeToString l : DecodeString (EncodeToString l) = Ok l.
Proof.
  unfold DecodeString, EncodeToString, str.
  by rewrite String.list_byte_of_string_of_list_byte, decode_encode.
Qed.
End Hex.

Definition decodeKey (hexStr : string) : res bytes :=
  data ← Hex.DecodeString hexStr;
  if negb (length data =? PrivateKeySize) then Err (ErrorString "invalid private key size")
  else Ok data.

(** [privKey.Public()] copies [privKey[32:]] into 32 bytes. *)
Definition Public (privKey : bytes) : res bytes :=
  if decide (length privKey < 32) then Panic (PanicIndex 32 (length privKey))
  else Ok (pad 32 (drop 32 privKey)).

Definition GetPeerID (privKey : bytes) : res string :=
  edPub ← Public privKey; mret (Hex.EncodeToString edPub).

(** ** golang.org/x/crypto: argon2 and chacha20poly1305 (XChaCha20) *)
Class KeyLib := {
  argon2_IDKey : bytes → bytes → Z → Z → Z → ∀ keyLen : nat, array keyLen;
  xchacha_Seal : array 32 → array 24 → bytes → bytes;
  xchacha_Open : array 32 → array 24 → bytes → bytes + gerror
}.

(** Documented: [Open] undoes [Seal]. *)
Class KeyLibLaws `{KeyLib} := {
  xchacha_open_seal key nonce pt : xchacha_Open key nonce (xchacha_Seal key nonce pt) = inl pt
}.

Definition NonceSizeX : nat := 24.

(** What the calls of one run read from [rand.Reader]: the seed of the new key,
    the salt, and the nonce buffer as it is after a read whose error the code
    ignores. *)
Record KeyRandom := mkKeyRandom {
  rnd_seed : array 32 + gerror;
  rnd_salt : array 16 + gerror;
  rnd_nonce : array 24
}.

(** The storage of the key store is the state of its operations. *)
Record SecureKeyStore := mkSecureKeyStore { Password : bytes }.
Definition NewSecureKeyStore (pass : bytes) : SecureKeyStore := mkSecureKeyStore pass.

Definition secretKeys : bytes := str "secret:keys".

Section keystore.
Context {S : Type} `{Storage S} `{Codec EncryptedPrivateKey} `{KeyLib} `{Ed25519}.

Definition encryptPrivateKey (s : SecureKeyStore) (rnd : KeyRandom) (privKey : bytes) :
    res bytes :=
  salt ← of_lib (rnd_salt rnd);
  let key := argon2_IDKey (Password s) (arr salt) 1 (64 * 1024) 4 32 in
  let nonce := rnd_nonce rnd in
  let cipherText := xchacha_Seal key nonce privKey in
  of_lib (marshal (mkEncryptedPrivateKey (arr salt) (arr nonce) cipherText
                     "argon2id-chacha20")).

(** [aead.Open] panics on a nonce of the wrong length. *)
Definition decryptPrivateKey (s : SecureKeyStore) (encryptedData : bytes) : res bytes :=
  protoData ← of_lib (unmarshal encryptedData);
  let salt := EncryptedPrivateKey_Salt protoData in
  let nonce := EncryptedPrivateKey_Nonce protoData in
  let actualCipher := EncryptedPrivateKey_EncryptedKey protoData in
  let key := argon2_IDKey (Password s) salt 1 (64 * 1024) 4 32 in
  if negb (length nonce =? NonceSizeX)
  then Panic (PanicText "chacha20poly1305: bad nonce length passed to Open")
  else
    match xchacha_Open key (pad_array 24 nonce) actualCipher with
    | inr _ => Err (ErrorString "decryption error (wrong password?)")
    | inl decrypted => Ok decrypted
    end.

Definition GetOrGenerateKeys (s : SecureKeyStore) (rnd : KeyRandom) : M S bytes :=
  keysBytes ← try (storage_Get secretKeys);
  match keysBytes with
  | inr err =>
      if errors_Is err ErrKeyNotFound then
        seed ← lift (of_lib (rnd_seed rnd));
        let priv := arr (NewKeyFromSeed seed) in
        keyData ← lift (encryptPrivateKey s rnd priv);
        _ ← storage_Set secretKeys keyData;
        mret priv
      else lift (Err err)
  | inl keysBytes => lift (decryptPrivateKey s keysBytes)
  end.
End keystore.

(** ** Lemmas *)

Lemma decryptPrivateKey_encrypt `{KeyLibLaws, CodecLaws EncryptedPrivateKey} s rnd k data :
  encryptPrivateKey s rnd k = Ok data → decryptPrivateKey s data = Ok k.
Proof.
  unfold encryptPrivateKey, decryptPrivateKey.
  destruct (rnd_salt rnd) as [salt|]; cbn; [|done].
  destruct (marshal _) as [bs|] eqn:E; cbn; [|done]. intros [= <-].
  rewrite (unmarshal_marshal _ _ E). cbn. rewrite length_arr. cbn.
  by rewrite pad_array_arr, xchacha_open_seal.
Qed.

(** The three ways a run can go. *)
Lemma GetOrGenerateKeys_cases {S : Type} `{StorageLaws S, Codec EncryptedPrivateKey, KeyLib, Ed25519}
    (s : SecureKeyStore) rnd (d : S) :
  (∃ v, kv d !! secretKeys = Some v ∧ GetOrGenerateKeys s rnd d = (decryptPrivateKey s v, d))
  ∨ (kv d !! secretKeys = None ∧
     ((∃ r, GetOrGenerateKeys s rnd d = (r, d) ∧ ∀ k, r ≠ Ok k)
      ∨ ∃ k v d', GetOrGenerateKeys s rnd d = (Ok k, d') ∧ kv d' = <[secretKeys:=v]> (kv d)
          ∧ encryptPrivateKey s rnd k = Ok v
          ∧ ∃ seed, rnd_seed rnd = inl seed ∧ k = arr (NewKeyFromSeed seed))).
Proof.
  unfold GetOrGenerateKeys, try, mbind, M_bind.
  destruct (kv d !! secretKeys) as [v|] eqn:E.
  - left. exists v. by rewrite (Get_found _ _ _ E).
  - right. split; [done|].
    destruct (Get_missing _ _ E) as (e & -> & He). rewrite He by done. cbn [errors_Is].
    rewrite bool_decide_eq_true_2 by done. cbn [orb].
    destruct (rnd_seed rnd) as [seed|e']; cbn [of_lib lift];
      [|left; by eexists; split].
    remember (arr (NewKeyFromSeed seed)) as priv eqn:Hp.
    destruct (encryptPrivateKey s rnd priv) as [v|e1|p] eqn:Ev; cbn [lift];
      [|left; by eexists; split..].
    destruct (Set_spec secretKeys v d) as [(d' & Hs & Hk)|(e1 & Hs)]; rewrite Hs.
    + right. exists priv, v, d'. repeat split; eauto.
    + left. by eexists; split.
Qed.

(** ** Properties *)

Section keystore_properties.
Context {S : Type} `{StorageLaws S} `{CodecLaws EncryptedPrivateKey} `{KeyLibLaws} `{Ed25519}.

Lemma GetOrGenerateKeys_again (s : SecureKeyStore) (rnd rnd' : KeyRandom) (d d' : S)
    (r : res bytes) (Hrun : GetOrGenerateKeys s rnd d = (r, d')) :
  (∀ k, r = Ok k → GetOrGenerateKeys s rnd' d' = (Ok k, d'))
  ∧ (is_Some (kv d !! secretKeys) ∨ (∀ k, r ≠ Ok k) → d' = d).
Proof.
  destruct (GetOrGenerateKeys_cases s rnd d) as
    [(v & Hv & E)|[Hn [(r' & E & Hr')|(k & v & d1 & E & Hkv & Hv & _)]]];
    rewrite Hrun in E; injection E as -> ->.
  - split; [|done]. intros k Hk.
    destruct (GetOrGenerateKeys_cases s rnd' d) as [(w & Hw & ->)|[Hn _]]; congruence.
  - split; [|done]. intros k Hk. by apply Hr' in Hk.
  - split.
    + intros k' [= <-].
      destruct (GetOrGenerateKeys_cases s rnd' d1) as [(w & Hw & ->)|[Hn' _]].
      * rewrite Hkv, lookup_insert_eq in Hw. injection Hw as <-.
        by rewrite (decryptPrivateKey_encrypt _ _ _ _ Hv).
      * by rewrite Hkv, lookup_insert_eq in Hn'.
    + intros [[w Hw]|Hne]; [by rewrite Hn in Hw|by edestruct Hne].
Qed.

(** C16. The identity is stable: once [GetOrGenerateKeys] has returned a key,
    every later call with the same password on the storage it left returns
    that key and writes nothing, whatever the random source gives.  An entry
    that is there is never overwritten, and a call that fails leaves the
    storage as it was. *)
Theorem GetOrGenerateKeys_stable (s : SecureKeyStore) (rnd rnd' : KeyRandom) (d d' : S)
    (r : res bytes) (Hrun : GetOrGenerateKeys s rnd d = (r, d')) :
  (∀ k, r = Ok k → GetOrGenerateKeys s rnd' d' = (Ok k, d'))
  ∧ (is_Some (kv d !! secretKeys) ∨ (∀ k, r ≠ Ok k) → d' = d).
Proof. by apply (GetOrGenerateKeys_again s rnd rnd' d d' r). Qed.

(** A generated key is a key pair: its second half is its public key. *)
Lemma GetOrGenerateKeys_pair (s : SecureKeyStore) rnd (d d' : S) k :
  kv d !! secretKeys = None → GetOrGenerateKeys s rnd d = (Ok k, d') →
  length k = PrivateKeySize ∧ key_pair (pad_array 64 k).
Proof.
  intros Hn Hrun.
  destruct (GetOrGenerateKeys_cases s rnd d) as
    [(v & Hv & _)|[_ [(r' & E & Hr')|(k' & v & d1 & E & _ & _ & seed & _ & Hk')]]];
    [congruence| |].
  - rewrite Hrun in E. injection E as <- _. by edestruct Hr'.
  - assert (k = arr (NewKeyFromSeed seed)) as -> by congruence.
    split; [apply length_arr|]. rewrite pad_array_arr. apply NewKeyFromSeed_pair.
Qed.
End keystore_properties.

(** The hexadecimal form of a key: what [hex.EncodeToString] writes of a key
    of 64 bytes [decodeKey] reads back, and whatever [decodeKey] accepts has 64
    bytes. *)
Theorem decodeKey_encode (l : bytes) (s : string) :
  (decodeKey (Hex.EncodeToString l)
   = if length l =? 64 then Ok l else Err (ErrorString "invalid private key size"))
  ∧ match decodeKey s with
    | Ok d => length d = 64 ∧ Hex.DecodeString s = Ok d
    | Err _ => True
    | Panic _ => False
    end.
Proof.
  unfold decodeKey, PrivateKeySize. rewrite Hex.DecodeString_EncodeToString. cbn.
  split; [by destruct (length l =? 64)|].
  destruct (Hex.DecodeString s) as [d| |] eqn:E; cbn; [|done|].
  - destruct (Nat.eqb_spec (length d) 64); cbn; [done|done].
  - unfold Hex.DecodeString in E. by destruct (Hex.decode _).
Qed.

(** The public half of a key, in hexadecimal, decodes to the public key. *)
Lemma GetPeerID_public (k : PeerPrivateKey) :
  ∃ s, GetPeerID (arr k) = Ok s ∧ Hex.DecodeString s = Ok (arr (PeerPrivateKeyToPublic k)).
Proof.
  unfold GetPeerID, Public. rewrite decide_False by len.
  eexists. split; [reflexivity|]. apply Hex.DecodeString_EncodeToString.
Qed.

(** A stored entry whose nonce is not 24 bytes long stops the program. *)
Lemma decryptPrivateKey_bad_nonce `{KeyLib, CodecLaws EncryptedPrivateKey} s m bs :
  marshal m = inl bs → length (EncryptedPrivateKey_Nonce m) ≠ 24 →
  is_panic (decryptPrivateKey s bs) = true.
Proof.
  intros Hm Hn. unfold decryptPrivateKey, NonceSizeX. rewrite (unmarshal_marshal _ _ Hm). cbn.
  destruct (Nat.eqb_spec (length (EncryptedPrivateKey_Nonce m)) 24); done.
Qed.

Module ToyKeys.
#[export] Instance lib : KeyLib := {
  argon2_IDKey pw salt _ _ _ n := pad_array n (pw ++ salt);
  xchacha_Seal key nonce pt := pt ++ arr nonce ++ arr key;
  xchacha_Open key nonce ct :=
    let n := length ct - length (arr nonce ++ arr key) in
    if bool_decide (drop n ct = arr nonce ++ arr key) then inl (take n ct) else inr (ErrLib 9)
}.
#[export] Instance laws : KeyLibLaws.
Proof.
  split. intros key nonce pt. simpl.
  replace (length (pt ++ arr nonce ++ arr key) - length (arr nonce ++ arr key))
    with (length pt) by len.
  by rewrite drop_app_length, take_app_length, bool_decide_eq_true_2.
Qed.
Definition rnd (s : string) : KeyRandom :=
  mkKeyRandom (inl (pad_array 32 (str s))) (inl (pad_array 16 (str s))) (pad_array 24 (str s)).
End ToyKeys.

Module KeyStoreWitness.
Import ToyBadger BadgerStorage ToyKeys ToySig.
Definition ks : SecureKeyStore := mkSecureKeyStore (str "password").
Definition first : res bytes * store := GetOrGenerateKeys ks (rnd "one") ∅.

Lemma first_ok : first.1 = Ok (arr (NewKeyFromSeed (pad_array 32 (str "one")))).
Proof. vm_compute. reflexivity. Qed.

Lemma GetOrGenerateKeys_stable_witness :
  GetOrGenerateKeys ks (rnd "two") first.2
  = (Ok (arr (NewKeyFromSeed (pad_array 32 (str "one")))), first.2).
Proof.
  refine (proj1 (GetOrGenerateKeys_stable (S:=store) ks (rnd "one") (rnd "two") ∅ first.2
           first.1 _) _ first_ok).
  reflexivity.
Defined.
End KeyStoreWitness.
