(* ===== verification/Identity.v ===== *)
(** * The node's addresses: internal/identity/ip.go, stun_ident.go

    The address of the machine in its network, the one it uses towards the
    internet and the one a STUN server sees.  What the operating system and the
    STUN library return is an argument; the methods of [net.IP] are written
    out. *)

From Stdlib Require Import ZArith Lia.
From stdpp Require Import pretty.
From S2P Require Import Prelude Types Storage Signature KeyStore.

(** ** net.IP *)
Module IP.
Definition v4_in_v6 : bytes := replicate 10 Byte.x00 ++ [Byte.xff; Byte.xff].

Definition To4 (ip : bytes) : option bytes :=
  if length ip =? 4 then Some ip
  else if (length ip =? 16) && bool_decide (take 12 ip = v4_in_v6) then Some (drop 12 ip)
  else None.

Definition IPv6loopback : bytes := replicate 15 Byte.x00 ++ [Byte.x01].

Definition IsLoopback (ip : bytes) : bool :=
  match To4 ip with
  | Some ip4 => match ip4 with b :: _ => (bZ b =? 127)%Z | [] => false end
  | None => bool_decide (ip = IPv6loopback)
  end.

Definition dotted (ip : bytes) : string :=
  String.concat "." ((λ b, pretty (Z.to_N (bZ b))) <$> ip).

(** The 16-bit groups of an IPv6 address. *)
Fixpoint groups (l : bytes) : list Z :=
  match l with a :: b :: l => (bZ a * 256 + bZ b)%Z :: groups l | _ => [] end.

Fixpoint zeros (l : list Z) : nat :=
  match l with z :: l => if (z =? 0)%Z then S (zeros l) else 0 | [] => 0 end.

(** The first of the longest runs of zero groups: where it starts and its
    length. *)
Fixpoint longest_run (i : nat) (l : list Z) : nat * nat :=
  match l with
  | [] => (i, 0)
  | _ :: l' =>
      let n := zeros l in
      let '(j, m) := longest_run (S i) l' in
      if m <=? n then (i, n) else (j, m)
  end.

(** A group in hexadecimal without leading zeros. *)
Fixpoint hex_digits (fuel : nat) (z : Z) (acc : bytes) : bytes :=
  match fuel with
  | O => acc
  | S fuel =>
      let acc := Hex.digit (z mod 16) :: acc in
      if (z / 16 =? 0)%Z then acc else hex_digits fuel (z / 16) acc
  end.
Definition group_text (z : Z) : string := String.string_of_list_byte (hex_digits 4 z []).
Definition groups_text (l : list Z) : string := String.concat ":" (group_text <$> l).

Definition v6_text (ip : bytes) : string :=
  let g := groups ip in
  let '(i, n) := longest_run 0 g in
  (if (2 <=? n)%nat then groups_text (take i g) +:+ "::" +:+ groups_text (drop (i + n)%nat g)
   else groups_text g)%string.

Definition to_string (ip : bytes) : string :=
  if length ip =? 0 then "<nil>"
  else
    match To4 ip with
    | Some ip4 => dotted ip4
    | None =>
        if length ip =? 16 then v6_text ip
        else ("?" +:+ Hex.EncodeToString ip)%string
    end.

Example v4 : to_string [Byte.xc0; Byte.xa8; Byte.x00; Byte.x0a] = "192.168.0.10".
Proof. reflexivity. Qed.
Example v4_mapped : to_string (v4_in_v6 ++ [Byte.x0a; Byte.x00; Byte.x00; Byte.x01]) = "10.0.0.1".
Proof. reflexivity. Qed.
Example v6_loopback : to_string IPv6loopback = "::1".
Proof. reflexivity. Qed.
Example v6_doc :
  to_string ([Byte.x20; Byte.x01; Byte.x0d; Byte.xb8] ++ replicate 4 Byte.x00
             ++ [Byte.x00; Byte.x01; Byte.x00; Byte.x00; Byte.x00; Byte.x00; Byte.xab; Byte.xcd])
  = "2001:db8::1:0:0:abcd".
Proof. reflexivity. Qed.
End IP.

(** ** ip.go *)

(** An address of an interface: a [*net.IPNet], or of another type. *)
Inductive net_Addr := IPNet (ip : bytes) | OtherAddr.

Fixpoint GetLocalIP_loop (addrs : list net_Addr) : res string :=
  match addrs with
  | [] => Err (ErrorString "local IP not found")
  | IPNet ip :: addrs =>
      if negb (IP.IsLoopback ip) then
        match IP.To4 ip with
        | Some _ => Ok (IP.to_string ip)
        | None => GetLocalIP_loop addrs
        end
      else GetLocalIP_loop addrs
  | OtherAddr :: addrs => GetLocalIP_loop addrs
  end.

Definition GetLocalIP (InterfaceAddrs : list net_Addr + gerror) : res string :=
  match InterfaceAddrs with
  | inr err => Err err
  | inl addrs => GetLocalIP_loop addrs
  end.

(** [conn] is the local address of the socket that [net.Dial] gives. *)
Inductive local_addr := LocalUDP (ip : bytes) | LocalOther.

Definition GetOutboundIP (conn : local_addr + gerror) : res string :=
  match conn with
  | inr err => Err err
  | inl (LocalUDP ip) => Ok (IP.to_string ip)
  | inl LocalOther => Panic PanicType
  end.

(** ** stun_ident.go *)
Record XORMappedAddress := mkXORMappedAddress { xor_IP : bytes; xor_Port : Z }.

Class Stun := {
  (* [XORMappedAddress.String] *)
  XORMappedAddress_String : XORMappedAddress → string
}.

(** A call of the callback: the error of the transaction, or a message with the
    result of [GetFrom] on it. *)
Inductive Event := EventError (e : gerror) | EventMessage (GetFrom : XORMappedAddress + gerror).

(** A function that waits for a channel may not return. *)
Inductive outcome (A : Type) := Returns (r : res A) | Blocks.
Arguments Returns {A} _.
Arguments Blocks {A}.

(** The callback: [close(done)] panics the second time. *)
Definition stun_callback (st : bool * XORMappedAddress) (ev : Event) : res (bool * XORMappedAddress) :=
  if st.1 then Panic (PanicText "close of closed channel")
  else
    Ok (true, match ev with
              | EventMessage (inl a) => a
              | _ => st.2
              end).

Fixpoint stun_callbacks (st : bool * XORMappedAddress) (events : list Event) :
    res (bool * XORMappedAddress) :=
  match events with
  | [] => Ok st
  | ev :: events => st ← stun_callback st ev; stun_callbacks st events
  end.

(** [dialled] and [done] are the results of [stun.Dial] and [client.Do], [events]
    the calls of the callback until then. *)
Definition StunIdent `{Stun} (dialled : unit + gerror) (events : list Event)
    (done : option gerror) : outcome string :=
  match dialled with
  | inr err => Returns (Err (ErrorString "stun dial"))
  | inl _ =>
      match stun_callbacks (false, mkXORMappedAddress [] 0) events with
      | Panic p => Returns (Panic p)
      | Err e => Returns (Err e)
      | Ok (closed, xorAddr) =>
          match done with
          | Some err => Returns (Err (ErrorString "stun do"))
          | None => if closed then Returns (Ok (XORMappedAddress_String xorAddr)) else Blocks
          end
      end
  end.

(** ** Properties *)

(** An address that [GetLocalIP] takes. *)
Definition usable (a : net_Addr) : Prop :=
  match a with IPNet ip => IP.IsLoopback ip = false ∧ is_Some (IP.To4 ip) | OtherAddr => False end.

#[export] Instance usable_dec a : Decision (usable a).
Proof. destruct a; apply _. Defined.

Lemma GetLocalIP_loop_run pre ip post :
  Forall (λ a, ¬ usable a) pre → usable (IPNet ip) →
  GetLocalIP_loop (pre ++ IPNet ip :: post) = Ok (IP.to_string ip).
Proof.
  intros Hpre [Hl [ip4 H4]]. induction Hpre as [|[a|] pre Ha _ IH]; cbn [app GetLocalIP_loop].
  - by rewrite Hl, H4.
  - destruct (IP.IsLoopback a) eqn:El; [done|]. destruct (IP.To4 a) eqn:E4; [|done].
    exfalso. apply Ha. by split.
  - done.
Qed.

Lemma GetLocalIP_loop_none addrs :
  Forall (λ a, ¬ usable a) addrs → GetLocalIP_loop addrs = Err (ErrorString "local IP not found").
Proof.
  induction 1 as [|[a|] pre Ha _ IH]; cbn [GetLocalIP_loop]; [done| |done].
  destruct (IP.IsLoopback a) eqn:El; [done|]. destruct (IP.To4 a) eqn:E4; [|done].
  exfalso. apply Ha. by split.
Qed.

Lemma first_usable addrs :
  Forall (λ a, ¬ usable a) addrs
  ∨ ∃ pre ip post, addrs = pre ++ IPNet ip :: post ∧ Forall (λ a, ¬ usable a) pre
                   ∧ usable (IPNet ip).
Proof.
  induction addrs as [|a addrs IH]; [by left|].
  destruct (decide (usable a)) as [Hu|Hu].
  - right. destruct a as [ip|]; [|done]. by exists [], ip, addrs.
  - destruct IH as [IH|(pre & ip & post & -> & Hpre & Hip)]; [left; by constructor|].
    right. exists (a :: pre), ip, post. split_and!; [done|by constructor|done].
Qed.

(** The local address is that of the first interface that has an IPv4
    address and is not a loopback, in dotted form; without one it is an error;
    so it is never 127.0.0.1 and never an IPv6 text. *)
Theorem GetLocalIP_spec (addrs : list net_Addr) :
  match GetLocalIP (inl addrs) with
  | Ok s => ∃ pre ip post ip4, addrs = pre ++ IPNet ip :: post ∧ Forall (λ a, ¬ usable a) pre
              ∧ IP.IsLoopback ip = false ∧ IP.To4 ip = Some ip4 ∧ s = IP.dotted ip4
  | Err e => e = ErrorString "local IP not found" ∧ Forall (λ a, ¬ usable a) addrs
  | Panic _ => False
  end.
Proof.
  unfold GetLocalIP. destruct (first_usable addrs) as [Hn|(pre & ip & post & -> & Hpre & Hip)].
  - by rewrite GetLocalIP_loop_none.
  - rewrite GetLocalIP_loop_run by done. destruct Hip as [Hl [ip4 H4]].
    exists pre, ip, post, ip4. split_and!; try done.
    unfold IP.to_string. rewrite H4. destruct (Nat.eqb_spec (length ip) 0) as [E|]; [|done].
    destruct ip; [|done]. by cbn in H4.
Qed.

(** A STUN transaction that fails is reported as a success: when the
    callback was called once, the result is the address of the server's answer,
    or - for a timeout or an answer without address - the text of the zero
    address, and no error.  It panics when the callback is called twice, and
    waits for ever when it was not called. *)
Theorem StunIdent_swallows_errors `{Stun} (ev : Event) (events : list Event) :
  (StunIdent (inl ()) [ev] None
   = Returns (Ok (XORMappedAddress_String
       match ev with EventMessage (inl a) => a | _ => mkXORMappedAddress [] 0 end)))
  ∧ StunIdent (inl ()) [] None = Blocks
  ∧ ∀ ev2 done, StunIdent (inl ()) (ev :: ev2 :: events) done
                = Returns (Panic (PanicText "close of closed channel")).
Proof. by split_and!. Qed.
