(* ===== verification/Tls.v ===== *)
(** * The TLS certificate: GenerateTLSConfig of internal/crypto/security_keys.go

    A node presents a self-signed certificate for its identity key and accepts
    every certificate of a peer: the handshake of [Handshake], inside the
    encrypted connection, is what authenticates peers.

    crypto/x509, encoding/pem and crypto/tls are the class [X509]: the functions
    the program calls, with what they document. *)

From Stdlib Require Import ZArith Lia.
From S2P Require Import Prelude Sha2 Types Proto ToyCodec Storage Signature KeyStore.

(** ** What the program fills in of the library's structs *)

(** [x509.Certificate]; times are nanoseconds since 1970. *)
Record x509_Certificate := mkCertificate {
  SerialNumber : Z;                (* *big.Int *)
  CommonName : string;
  Organization : list string;
  NotBefore : Z;
  NotAfter : Z;
  KeyUsage : Z;
  ExtKeyUsage : list Z;
  BasicConstraintsValid : bool
}.

Definition KeyUsageDigitalSignature : Z := 1.
Definition ExtKeyUsageServerAuth : Z := 1.
Definition ExtKeyUsageClientAuth : Z := 2.

(** [tls.Certificate]: the chain, leaf first, and the key. *)
Record tls_Certificate := mkTlsCertificate { chain : list bytes; cert_key : bytes }.

Inductive ClientAuthType :=
  | NoClientCert | RequestClientCert | RequireAnyClientCert | VerifyClientCertIfGiven
  | RequireAndVerifyClientCert.

(** [tls.Config]; the session cache by its capacity. *)
Record tls_Config := mkTlsConfig {
  Certificates : list tls_Certificate;
  NextProtos : list string;
  ClientAuth : ClientAuthType;
  InsecureSkipVerify : bool;
  VerifyPeerCertificate : list bytes → list (list x509_Certificate) → option gerror;
  ClientSessionCache : Z
}.

(** ** The libraries *)
Class X509 := {
  (* the first argument is what the call reads from [rand.Reader] *)
  x509_CreateCertificate :
    bytes → x509_Certificate → x509_Certificate → bytes → bytes → bytes + gerror;
  x509_ParseCertificate : bytes → (x509_Certificate * bytes) + gerror;   (* with its key *)
  x509_MarshalPKCS8PrivateKey : bytes → bytes + gerror;
  pem_EncodeToMemory : string → bytes → bytes;
  tls_X509KeyPair : bytes → bytes → tls_Certificate + gerror
}.

(** Documented: a certificate is parsed to the template and the public key it was
    made of; an Ed25519 key can be marshalled; [X509KeyPair] accepts the PEM form
    of a certificate and of the private key that belongs to it. *)
Class X509Laws `{X509} := {
  parse_create rnd template parent pub priv der :
    x509_CreateCertificate rnd template parent pub priv = inl der →
    x509_ParseCertificate der = inl (template, pub);
  marshal_ed25519 priv :
    length priv = PrivateKeySize → ∃ p8, x509_MarshalPKCS8PrivateKey priv = inl p8;
  keypair_of rnd template parent pub priv der p8 :
    Public priv = Ok pub →
    x509_CreateCertificate rnd template parent pub priv = inl der →
    x509_MarshalPKCS8PrivateKey priv = inl p8 →
    tls_X509KeyPair (pem_EncodeToMemory "CERTIFICATE" der) (pem_EncodeToMemory "PRIVATE KEY" p8)
    = inl (mkTlsCertificate [der] priv)
}.

(** ** The program *)

Definition time_Hour : Z := 3600000000000.

Section tls.
Context `{X509}.

(** The three calls of [time.Now()] may differ; [rnd] is what is read from
    [rand.Reader]. *)
Record CertRandom := mkCertRandom { now_serial : Z; now_before : Z; now_after : Z; cert_rnd : bytes }.

Definition cert_template (env : CertRandom) (pubHex : string) : x509_Certificate :=
  mkCertificate (i64 (now_serial env)) pubHex ["P2P-Gossip-Messenger"]
    (now_before env) (now_after env + i64 (time_Hour * 24 * 365 * 10))
    KeyUsageDigitalSignature [ExtKeyUsageServerAuth; ExtKeyUsageClientAuth] true.

(** [MarshalPKCS8PrivateKey]'s error is ignored; its result is nil then. *)
Definition GenerateTLSConfig (env : CertRandom) (priv : bytes) : res tls_Config :=
  pub ← Public priv;
  let pubHex := Hex.EncodeToString pub in
  let template := cert_template env pubHex in
  certDER ← of_lib (x509_CreateCertificate (cert_rnd env) template template pub priv);
  let privBytes := match x509_MarshalPKCS8PrivateKey priv with inl b => b | inr _ => [] end in
  let keyPEM := pem_EncodeToMemory "PRIVATE KEY" privBytes in
  let certPEM := pem_EncodeToMemory "CERTIFICATE" certDER in
  tlsCert ← of_lib (tls_X509KeyPair certPEM keyPEM);
  mret (mkTlsConfig [tlsCert] ["my-gossip-protocol"] RequestClientCert true
          (λ rawCerts verifiedChains, None) 100).
End tls.

(** crypto/tls accepts the certificate of the other side when verification is
    off - for a server, when it only requests one - and the hook does not
    object. *)
Definition tls_accepts (c : tls_Config) (raw : list bytes)
    (verified : list (list x509_Certificate)) : bool :=
  InsecureSkipVerify c
  && match ClientAuth c with NoClientCert | RequestClientCert | RequireAnyClientCert => true
     | _ => false end
  && match VerifyPeerCertificate c raw verified with None => true | Some _ => false end.

(** The configuration, once there is a certificate. *)
Lemma GenerateTLSConfig_run `{X509Laws} (env : CertRandom) (k : PeerPrivateKey) :
  let pub := arr (PeerPrivateKeyToPublic k) in
  let template := cert_template env (Hex.EncodeToString pub) in
  Public (arr k) = Ok pub
  ∧ match x509_CreateCertificate (cert_rnd env) template template pub (arr k) with
    | inr e => GenerateTLSConfig env (arr k) = Err e
    | inl der => GenerateTLSConfig env (arr k)
        = Ok (mkTlsConfig [mkTlsCertificate [der] (arr k)] ["my-gossip-protocol"] RequestClientCert
                true (λ rawCerts verifiedChains, None) 100)
    end.
Proof.
  intros pub template. unfold GenerateTLSConfig.
  assert (Public (arr k) = Ok pub) as Hp.
  { unfold Public. rewrite decide_False by len. done. }
  split; [exact Hp|]. rewrite Hp. cbn [mbind res_bind]. fold template.
  destruct (x509_CreateCertificate _ _ _ _ _) as [der|e] eqn:Ec; cbn [of_lib mbind res_bind];
    [|done].
  destruct (marshal_ed25519 (arr k)) as [p8 Hp8]; [apply length_arr|]. rewrite Hp8.
  by rewrite (keypair_of _ _ _ _ _ _ _ Hp Ec Hp8).
Qed.

Lemma GenerateTLSConfig_certificate `{X509Laws} (env : CertRandom) (k : PeerPrivateKey) c :
  GenerateTLSConfig env (arr k) = Ok c →
  ∃ der, Certificates c = [mkTlsCertificate [der] (arr k)].
Proof.
  destruct (GenerateTLSConfig_run env k) as [_ T]. destruct (x509_CreateCertificate _ _ _ _ _) as [der|e];
    rewrite T; [|done]. intros [= <-]. by exists der.
Qed.

(** The TLS identity: whenever the certificate can be made the configuration
    is, and it carries one certificate, self-made for the public half of the
    node's key and named after the node ([GetPeerID]), valid for ten years of 365
    days (the product of the durations fits 64 bits) - and it accepts every
    certificate of a peer, so TLS authenticates nobody. *)
Theorem GenerateTLSConfig_spec `{X509Laws} (env : CertRandom) (k : PeerPrivateKey) :
  match GenerateTLSConfig env (arr k) with
  | Ok c => ∃ der template name, Certificates c = [mkTlsCertificate [der] (arr k)]
      ∧ x509_ParseCertificate der = inl (template, arr (PeerPrivateKeyToPublic k))
      ∧ GetPeerID (arr k) = Ok name ∧ CommonName template = name
      ∧ (NotAfter template - now_after env = 10 * 365 * 24 * time_Hour)%Z
      ∧ ∀ raw verified, tls_accepts c raw verified = true
  | Err e => ∃ template, x509_CreateCertificate (cert_rnd env) template template
               (arr (PeerPrivateKeyToPublic k)) (arr k) = inr e
  | Panic _ => False
  end.
Proof.
  destruct (GenerateTLSConfig_run env k) as [Hp T].
  set (template := cert_template _ _) in T.
  destruct (x509_CreateCertificate _ _ _ _ _) as [der|e] eqn:Ec; rewrite T; [|by exists template].
  exists der, template, (Hex.EncodeToString (arr (PeerPrivateKeyToPublic k))).
  split_and!; [done|by eapply parse_create| |done| |done].
  - unfold GetPeerID. by rewrite Hp.
  - cbn [NotAfter template cert_template]. change (i64 _) with (10 * 365 * 24 * time_Hour)%Z. lia.
Qed.

(** ** A library for the witnesses *)
Module ToyX509.
#[export] Instance template_ser : Ser x509_Certificate.
Proof.
  ser_record (λ c, (SerialNumber c, CommonName c, Organization c, NotBefore c, NotAfter c,
                    KeyUsage c, ExtKeyUsage c, BasicConstraintsValid c))
    (λ '(a, b, c, d, e, f, g, h), mkCertificate a b c d e f g h).
Defined.
#[export] Instance lib : X509 := {
  x509_CreateCertificate _ t _ pub _ := inl (ser (t, pub));
  x509_ParseCertificate b := match de b with Some (x, _) => inl x | None => inr (ErrLib 30) end;
  x509_MarshalPKCS8PrivateKey k := inl k;
  pem_EncodeToMemory _ b := b;
  tls_X509KeyPair c k := inl (mkTlsCertificate [c] k)
}.
#[export] Instance laws : X509Laws.
Proof.
  split; cbn [x509_CreateCertificate x509_ParseCertificate x509_MarshalPKCS8PrivateKey
              pem_EncodeToMemory tls_X509KeyPair lib].
  - intros _ t _ pub _ der E. apply (inj inl) in E as <-.
    pose proof (de_ser (t, pub) []) as D. rewrite app_nil_r in D. by rewrite D.
  - intros priv _. by exists priv.
  - by intros ? ? ? ? ? ? ? _ [= <-] [= <-].
Qed.
End ToyX509.

Module TlsWitness.
Import ToyX509 ToySig.
Definition key : PeerPrivateKey := NewKeyFromSeed (pad_array 32 (str "seed")).
Definition env : CertRandom := mkCertRandom 1 2 3 [].

Lemma GenerateTLSConfig_spec_witness :
  ∃ c cert, GenerateTLSConfig env (arr key) = Ok c ∧ Certificates c = [cert]
    ∧ cert_key cert = arr key ∧ ∀ raw verified, tls_accepts c raw verified = true.
Proof.
  pose proof (GenerateTLSConfig_spec env key) as T.
  destruct (GenerateTLSConfig env (arr key)) as [c|e|q] eqn:E.
  - destruct T as (der & template & name & Hc & _ & _ & _ & _ & Ha).
    exists c, (mkTlsCertificate [der] (arr key)).
    split; [reflexivity|]. split; [exact Hc|]. split; [reflexivity|exact Ha].
  - discriminate E.
  - destruct T.
Defined.
End TlsWitness.
