(* ===== verification/Handshake.v ===== *)
(** * Authentication of a peer: internal/network/handshake.go, quic.go

    Both ends of a fresh QUIC connection run [authenticatePeer] on its first
    stream: each sends a random nonce, signs the other's nonce together with its
    own public key, and checks the signature it gets.  The dialling side then
    sends the ready frame, the accepting side waits for it, and both publish the
    connection on [connChan].

    A stream is a pair of a [Reader] (what the peer sends, in segments) and a
    writer; a blocking read is a read of the bytes that will arrive. *)

From Stdlib Require Import ZArith Lia.
From S2P Require Import Prelude Sha2 Types Proto ToyCodec Frame Signature Tls.

Definition payload_only (p : isMessageData_Payload) : MessageData :=
  mkMessageData [] [] [] (mk_uint 64 0) (mk_uint 32 0) (Some p).

Section handshake.
Context {W : Type} `{Writer W} `{Codec MessageData} `{Ed25519}.

(** A stream: incoming segments and the writer. *)
Abbreviation stream := (Reader * W)%type.

Definition sendHandshake (nonce : bytes) : M stream unit :=
  let hs := payload_only (MessageData_HandshakeInit (mkHandshakeInit nonce)) in
  data ← lift (of_lib (marshal hs));
  on_snd (writeFrame TypeHandshake data).

Definition checkHandshakeResponse (nonce : bytes) : M stream PeerPublicKey :=
  '(msgType, protoData) ← on_fst readFrame;
  if negb (msgType =? TypeHandshake)%Z
  then lift (Err (ErrorString "message type is not handshake"))
  else
    data ← lift (of_lib (unmarshal protoData));
    match MessageData_Payload data with
    | Some (MessageData_HandshakeResponse msg) =>
        let dataForVerify := nonce ++ HandshakeResponse_PubKey msg in
        pubKey ← lift (to_array 32 (HandshakeResponse_PubKey msg));
        if negb (VerifySignature pubKey dataForVerify (HandshakeResponse_Signature msg))
        then lift (Err (ErrorString "invalid signature"))
        else lift (to_array 32 (HandshakeResponse_PubKey msg))
    | _ => lift (Err (ErrorString "invalid proto type"))
    end.

Definition acceptHandshake (privKey : PeerPrivateKey) (version : uint 32) : M stream unit :=
  '(msgType, protoData) ← on_fst readFrame;
  if negb (msgType =? TypeHandshake)%Z
  then lift (Err (ErrorString "message type is not handshake"))
  else
    data ← lift (of_lib (unmarshal protoData));
    match MessageData_Payload data with
    | Some (MessageData_HandshakeInit hs) =>
        let myPubKey := PeerPrivateKeyToPublic privKey in
        let dataForSignature := HandshakeInit_Nonce hs ++ arr myPubKey in
        signature ← lift (CreateSignature dataForSignature (arr privKey));
        let hsResp := payload_only (MessageData_HandshakeResponse
                        (mkHandshakeResponse (arr myPubKey) signature version)) in
        bytes ← lift (of_lib (marshal hsResp));
        on_snd (writeFrame TypeHandshake bytes)
    | _ => lift (Err (ErrorString "invalid proto type"))
    end.

(** [myNonce] is what [rand.Read] gives. *)
Definition authenticatePeer (privKey : PeerPrivateKey) (protocolVersion : uint 32)
    (myNonce : array 32) : M stream PeerPublicKey :=
  _ ← sendHandshake (arr myNonce);
  _ ← acceptHandshake privKey protocolVersion;
  checkHandshakeResponse (arr myNonce).
End handshake.

(** ** Connections: types.go, quic.go *)
Definition QuicErrorCode : Type := Z.
Definition ErrCodeNoError : QuicErrorCode := 0%Z.
Definition ErrCodeProtocolViolation : QuicErrorCode := 1%Z.
Definition ErrCodeSpamDetected : QuicErrorCode := 2%Z.
Definition ErrCodeStreamError : QuicErrorCode := 3%Z.
Definition ErrCodeAuthFailed : QuicErrorCode := 4%Z.
Definition ErrCodeNormalClose : QuicErrorCode := 5%Z.

(** A connection by its number; [conn.RemoteAddr().String()] is a function of
    it. *)
Definition ConnID : Type := nat.

Record NewConnEvent := mkNewConnEvent {
  ev_Conn : ConnID;
  ev_IsOut : bool;
  ev_PeerID : PeerID;
  ev_PeerPubKey : PeerPublicKey;
  ev_Addr : string
}.

(** [quic.Config]; durations are nanoseconds. *)
Record quic_Config := mkQuicConfig {
  Allow0RTT : bool;
  KeepAlivePeriod : Z;
  MaxIdleTimeout : Z;
  MaxIncomingStreams : Z;
  MaxIncomingUniStreams : Z;
  EnableDatagrams : bool
}.

(** [q_tr] is the pointer to the [quic.Transport], by the number of its socket;
    the channel of new connections is in the state of what uses it ([Attempt],
    [Connections]). *)
Record QuicTransport := mkQuicTransport {
  q_tr : option nat;
  q_tlsCfg : option tls_Config;
  q_quicCfg : option quic_Config;
  q_privKey : PeerPrivateKey;
  q_protocolVersion : uint 32;
  q_addr : string
}.

(** The zero value: every pointer nil. *)
Definition zero_QuicTransport : QuicTransport :=
  mkQuicTransport None None None (zero_array 64) (mk_uint 32 0) "".

(** What a connection attempt works on: the first stream, whether it and the
    connection are closed, and the channel of new connections (a send to a full
    channel waits, it is never dropped). *)
Record Attempt (W : Type) := mkAttempt {
  at_stream : Reader * W;
  at_stream_closed : bool;
  at_conn_closed : option QuicErrorCode;
  connChan : list NewConnEvent
}.
Arguments mkAttempt {W} _ _ _ _.
Arguments at_stream {W} _.
Arguments at_stream_closed {W} _.
Arguments at_conn_closed {W} _.
Arguments connChan {W} _.

Section connections.
Context {W : Type} `{Writer W} `{Codec MessageData} `{Ed25519}.
Variable RemoteAddr : ConnID → string.

Definition on_stream {A} (m : M (Reader * W) A) : M (Attempt W) A :=
  zoom at_stream (λ st a, mkAttempt st (at_stream_closed a) (at_conn_closed a) (connChan a)) m.
Definition stream_Close : M (Attempt W) unit := λ a,
  (Ok (), mkAttempt (at_stream a) true (at_conn_closed a) (connChan a)).
(* only the first close counts *)
Definition CloseWithError (code : QuicErrorCode) : M (Attempt W) unit := λ a,
  (Ok (), mkAttempt (at_stream a) (at_stream_closed a)
            (match at_conn_closed a with Some c => Some c | None => Some code end)
            (connChan a)).
Definition newConn (ev : NewConnEvent) : M (Attempt W) unit := λ a,
  (Ok (), mkAttempt (at_stream a) (at_stream_closed a) (at_conn_closed a)
            (connChan a ++ [ev])).

(** [defer stream.Close()]: run when the body returns, error or not. *)
Definition defer_Close (m : M (Attempt W) unit) : M (Attempt W) unit := λ a,
  match m a with
  | (Panic p, a) => (Panic p, a)
  | (r, a) => (r, (stream_Close a).2)
  end.

(** The arguments [resolved], [dialled] and [opened] are the results of
    [net.ResolveUDPAddr], [tr.DialEarly] and [conn.OpenStream]; the methods of a
    nil [quic.Transport] dereference it. *)
Definition DialEarly (q : QuicTransport) (resolved : unit + gerror)
    (dialled : ConnID + gerror) (opened : unit + gerror) (myNonce : array 32) :
    M (Attempt W) unit :=
  _ ← lift (of_lib resolved);
  _ ← lift (match q_tr q with Some tr => Ok tr | None => Panic PanicNil end);
  conn ← lift (of_lib dialled);
  match opened with
  | inr err => _ ← CloseWithError ErrCodeStreamError; lift (Err err)
  | inl _ =>
      defer_Close (
        auth ← try (on_stream (authenticatePeer (q_privKey q) (q_protocolVersion q) myNonce));
        match auth with
        | inr err => _ ← CloseWithError ErrCodeAuthFailed; lift (Err err)
        | inl peerPubKey =>
            let peerID := PeerPubKeyToID peerPubKey in
            sent ← on_stream (on_snd sendReadyFrame);
            if negb sent
            then lift (Err (ErrorString "error to send ready frame to peer"))
            else newConn (mkNewConnEvent conn true peerID peerPubKey (RemoteAddr conn))
        end)
  end.

(** The goroutine that [AcceptConn] starts for each connection [c]; [accepted]
    is the result of [c.AcceptStream]. *)
Definition AcceptConn_handle (q : QuicTransport) (c : ConnID) (accepted : unit + gerror)
    (myNonce : array 32) : M (Attempt W) unit :=
  match accepted with
  | inr err => CloseWithError ErrCodeStreamError
  | inl _ =>
      defer_Close (
        auth ← try (on_stream (authenticatePeer (q_privKey q) (q_protocolVersion q) myNonce));
        match auth with
        | inr err => CloseWithError ErrCodeAuthFailed
        | inl peerPubKey =>
            let peerID := PeerPubKeyToID peerPubKey in
            ready ← on_stream (on_fst acceptReadyFrame);
            if negb ready then mret ()
            else newConn (mkNewConnEvent c false peerID peerPubKey (RemoteAddr c))
        end)
  end.
End connections.

(** ** Lemmas *)

(** A stream that is not reset accepts every write. *)
Class ReliableWriter (W : Type) `{Writer W} :=
  Write_reliable p w : ∃ w', Write p w = (Ok (length p), w').

(** The two messages of the handshake, and a message that fits a frame. *)
Definition init_msg (nonce : bytes) : MessageData :=
  payload_only (MessageData_HandshakeInit (mkHandshakeInit nonce)).
Definition resp_msg `{Ed25519} (k : PeerPrivateKey) (version : uint 32) (nonce : bytes) :
    MessageData :=
  let pub := arr (PeerPrivateKeyToPublic k) in
  payload_only (MessageData_HandshakeResponse
    (mkHandshakeResponse pub (arr (ed_sign k (nonce ++ pub))) version)).

Definition sendable `{Codec MessageData} (m : MessageData) (frame : bytes) : Prop :=
  ∃ bs, marshal m = inl bs ∧ (Z.of_nat (length bs) + 1 < 2 ^ 32)%Z
        ∧ frame = frame_bytes TypeHandshake bs.

Lemma readFrame_bytes (t : MessageType) d rest (r : Reader) :
  (0 <= t < 256)%Z → (Z.of_nat (length d) + 1 < 2 ^ 32)%Z →
  concat r = frame_bytes t d ++ rest →
  ∃ r', readFrame r = (Ok (t, d), r') ∧ concat r' = rest.
Proof.
  intros Ht Hd Hr. pose proof (readFrame_flat r) as E.
  rewrite Hr, frame_of_bytes, Z.mod_small in E by done.
  unfold flat in E. destruct (readFrame r) as [a r']. injection E as -> <-. eauto.
Qed.

Section runs.
Context {W : Type} `{WriterLaws W} `{!ReliableWriter W}
        `{CodecLaws MessageData} `{Ed25519Laws}.
Implicit Types (r : Reader) (w : W) (k : PeerPrivateKey) (v : uint 32).

Lemma writeFrame_reliable t d w :
  ∃ w', writeFrame t d w = (Ok (), w') ∧ written w' = written w ++ frame_bytes t d.
Proof.
  assert (∃ w', writeFrame t d w = (Ok (), w')) as [w' E].
  { unfold writeFrame, writeLengthPrefix, mbind, M_bind.
    set (p := be_put 4 _ ++ _). destruct (Write_reliable p w) as [w' ->]. by eexists. }
  exists w'. split; [done|]. by apply writeFrame_written.
Qed.

Lemma sendHandshake_run n r w f :
  sendable (init_msg n) f →
  ∃ w', sendHandshake n (r, w) = (Ok (), (r, w')) ∧ written w' = written w ++ f.
Proof.
  intros (bs & Hbs & _ & ->). unfold sendHandshake, mbind, M_bind, lift.
  fold (init_msg n). rewrite Hbs. cbn [of_lib].
  destruct (writeFrame_reliable TypeHandshake bs w) as (w' & E & Hw).
  exists w'. unfold on_snd, zoom. cbn [snd]. by rewrite E.
Qed.

Lemma acceptHandshake_run k v n r w f f' rest :
  sendable (init_msg n) f → sendable (resp_msg k v n) f' → concat r = f ++ rest →
  ∃ r' w', acceptHandshake k v (r, w) = (Ok (), (r', w'))
           ∧ concat r' = rest ∧ written w' = written w ++ f'.
Proof.
  intros (bs & Hbs & Hlen & ->) (bs' & Hbs' & Hlen' & ->) Hr.
  apply readFrame_bytes in Hr as (r' & E & Hr'); [|done..].
  destruct (writeFrame_reliable TypeHandshake bs' w) as (w' & Ew & Hw).
  exists r', w'. split; [|done].
  unfold acceptHandshake, mbind, M_bind, lift, on_fst, on_snd, zoom. cbn [fst snd].
  rewrite E. cbn [fst snd Z.eqb negb TypeHandshake Pos.eqb].
  rewrite (unmarshal_marshal _ _ Hbs). cbn [of_lib init_msg payload_only MessageData_Payload].
  rewrite CreateSignature_arr. cbn [HandshakeInit_Nonce].
  unfold resp_msg in Hbs'. rewrite Hbs'. cbn [of_lib snd]. by rewrite Ew.
Qed.

Lemma checkHandshakeResponse_run k v n r w f rest :
  key_pair k → sendable (resp_msg k v n) f → concat r = f ++ rest →
  ∃ r', checkHandshakeResponse n (r, w) = (Ok (PeerPrivateKeyToPublic k), (r', w))
        ∧ concat r' = rest.
Proof.
  intros Hk (bs & Hbs & Hlen & ->) Hr.
  apply readFrame_bytes in Hr as (r' & E & Hr'); [|done..].
  exists r'. split; [|done].
  unfold checkHandshakeResponse, mbind, M_bind, lift, on_fst, zoom. cbn [fst snd].
  rewrite E. cbn [fst snd Z.eqb negb TypeHandshake Pos.eqb].
  rewrite (unmarshal_marshal _ _ Hbs).
  cbn [of_lib resp_msg payload_only MessageData_Payload HandshakeResponse_PubKey
       HandshakeResponse_Signature].
  rewrite to_array_arr, VerifySignature_arr, ed_verify_sign by done. done.
Qed.

(** [checkHandshakeResponse] only reads. *)
Lemma checkHandshakeResponse_writes n r w : (checkHandshakeResponse n (r, w)).2.2 = w.
Proof.
  unfold checkHandshakeResponse, mbind, M_bind, lift, on_fst, zoom. cbn [fst snd].
  destruct (readFrame r) as [[[t d]|e|p] r']; [|done..].
  destruct (negb _); [done|]. destruct (unmarshal d) as [m|]; [|done]. cbn [of_lib].
  destruct (MessageData_Payload m) as [[]|]; try done.
  destruct (to_array 32 _); [|done..]. by destruct (VerifySignature _ _ _).
Qed.

(** Whatever the peer sends, the output starts with our own challenge. *)
Lemma authenticatePeer_extends k v n r w f :
  sendable (init_msg (arr n)) f →
  ∃ ext, written (authenticatePeer k v n (r, w)).2.2 = written w ++ f ++ ext.
Proof.
  intros Hf. unfold authenticatePeer, mbind, M_bind.
  destruct (sendHandshake_run (arr n) r w f Hf) as (w1 & -> & Hw1).
  assert (∃ ext, written (acceptHandshake k v (r, w1)).2.2 = written w1 ++ ext) as [ext Hext].
  { unfold acceptHandshake, mbind, M_bind, lift, on_fst, on_snd, zoom. cbn [fst snd].
    destruct (readFrame r) as [[[t d]|e|p] r']; try by exists []; rewrite app_nil_r.
    destruct (negb _); [by exists []; rewrite app_nil_r|].
    destruct (unmarshal d) as [m|]; [|by exists []; rewrite app_nil_r]. cbn [of_lib].
    destruct (MessageData_Payload m) as [[]|]; try by exists []; rewrite app_nil_r.
    rewrite CreateSignature_arr.
    destruct (marshal _) as [bs|]; [|by exists []; rewrite app_nil_r]. cbn [of_lib snd].
    destruct (writeFrame_reliable TypeHandshake bs w1) as (w' & -> & Hw). by eexists. }
  exists ext. rewrite Hw1, <- app_assoc in Hext. rewrite <- Hext.
  destruct (acceptHandshake k v (r, w1)) as [[[]|e|p] [r' w']]; try done.
  by rewrite checkHandshakeResponse_writes.
Qed.

(** Once the peer's challenge is there, the output is the challenge and the
    answer. *)
Lemma authenticatePeer_writes k v n n' r w f f' rest :
  sendable (init_msg (arr n)) f → sendable (init_msg n') f' → concat r = f' ++ rest →
  ∀ g, sendable (resp_msg k v n') g →
  written (authenticatePeer k v n (r, w)).2.2 = written w ++ f ++ g.
Proof.
  intros Hf Hf' Hr g Hg. unfold authenticatePeer, mbind, M_bind.
  destruct (sendHandshake_run (arr n) r w f Hf) as (w1 & -> & Hw1).
  destruct (acceptHandshake_run k v n' r w1 f' g rest Hf' Hg Hr) as (r2 & w2 & -> & _ & Hw2).
  by rewrite checkHandshakeResponse_writes, Hw2, Hw1, app_assoc.
Qed.

Lemma authenticatePeer_run k v n k' v' n' r w f f' g g' rest :
  key_pair k' →
  sendable (init_msg (arr n)) f → sendable (init_msg n') f' →
  sendable (resp_msg k v n') g → sendable (resp_msg k' v' (arr n)) g' →
  concat r = f' ++ g' ++ rest →
  ∃ r' w', authenticatePeer k v n (r, w) = (Ok (PeerPrivateKeyToPublic k'), (r', w'))
           ∧ concat r' = rest ∧ written w' = written w ++ f ++ g.
Proof.
  intros Hk' Hf Hf' Hg Hg' Hr. unfold authenticatePeer, mbind, M_bind.
  destruct (sendHandshake_run (arr n) r w f Hf) as (w1 & -> & Hw1).
  destruct (acceptHandshake_run k v n' r w1 f' g _ Hf' Hg Hr) as (r2 & w2 & -> & Hr2 & Hw2).
  destruct (checkHandshakeResponse_run k' v' (arr n) r2 w2 g' rest Hk' Hg' Hr2)
    as (r3 & -> & Hr3).
  exists r3, w2. by rewrite Hw2, Hw1, app_assoc.
Qed.
End runs.

(** ** Properties *)

Section properties.
Context {W : Type} `{WriterLaws W} `{!ReliableWriter W}
        `{CodecLaws MessageData} `{Ed25519Laws}.

(** When two nodes run the handshake and each reads what the other writes
    (followed by anything it writes later), both runs succeed. *)
Lemma handshake_agree (kA kB : PeerPrivateKey) (vA vB : uint 32) (nA nB : array 32)
    (rA rB : Reader) (wA wB : W) (fA fB gA gB tailA tailB : bytes)
    (HkA : key_pair kA) (HkB : key_pair kB)
    (HfA : sendable (init_msg (arr nA)) fA) (HfB : sendable (init_msg (arr nB)) fB)
    (HgA : sendable (resp_msg kA vA (arr nB)) gA) (HgB : sendable (resp_msg kB vB (arr nA)) gB)
    (HA : written wA ++ concat rB
          = written (authenticatePeer kA vA nA (rA, wA)).2.2 ++ tailA)
    (HB : written wB ++ concat rA
          = written (authenticatePeer kB vB nB (rB, wB)).2.2 ++ tailB) :
  ∃ rA' wA' rB' wB',
    authenticatePeer kA vA nA (rA, wA) = (Ok (PeerPrivateKeyToPublic kB), (rA', wA'))
    ∧ authenticatePeer kB vB nB (rB, wB) = (Ok (PeerPrivateKeyToPublic kA), (rB', wB'))
    ∧ concat rA' = tailB ∧ concat rB' = tailA.
Proof.
  destruct (authenticatePeer_extends kA vA nA rA wA fA HfA) as [xA EA].
  destruct (authenticatePeer_extends kB vB nB rB wB fB HfB) as [xB EB].
  pose proof HA as HA1. pose proof HB as HB1.
  rewrite EA, <- !app_assoc in HA1. apply app_inv_head in HA1.
  rewrite EB, <- !app_assoc in HB1. apply app_inv_head in HB1.
  rewrite (authenticatePeer_writes kA vA nA _ rA wA fA fB _ HfA HfB HB1 gA HgA) in HA.
  rewrite (authenticatePeer_writes kB vB nB _ rB wB fB fA _ HfB HfA HA1 gB HgB) in HB.
  rewrite <- !app_assoc in HA, HB. apply app_inv_head in HA, HB.
  destruct (authenticatePeer_run kA vA nA kB vB (arr nB) rA wA fA fB gA gB tailB)
    as (rA' & wA' & RA & CA & _); [done..|].
  destruct (authenticatePeer_run kB vB nB kA vA (arr nA) rB wB fB fA gB gA tailA)
    as (rB' & wB' & RB & CB & _); [done..|].
  by exists rA', wA', rB', wB'.
Qed.

Variable RemoteAddr : ConnID → string.
Implicit Types (q : QuicTransport) (a b : Attempt W).

Abbreviation output := (λ a : Attempt W, written (at_stream a).2).

(** The ready frame, when the handshake gave a key, is all that comes after. *)
Lemma DialEarly_run q c n r w sc cc ch : is_Some (q_tr q) →
  let auth := authenticatePeer (q_privKey q) (q_protocolVersion q) n (r, w) in
  let run := DialEarly RemoteAddr q (inl ()) (inl c) (inl ()) n (mkAttempt (r, w) sc cc ch) in
  (∃ tail, output run.2 = written auth.2.2 ++ tail)
  ∧ ∀ pk, auth.1 = Ok pk →
      run.1 = Ok () ∧ output run.2 = written auth.2.2 ++ [Zb TypeReady]
      ∧ at_stream_closed run.2 = true ∧ at_conn_closed run.2 = cc
      ∧ connChan run.2
        = ch ++ [mkNewConnEvent c true (PeerPubKeyToID pk) pk (RemoteAddr c)].
Proof.
  intros [tr Htr] auth run. subst run.
  unfold DialEarly. rewrite Htr. unfold defer_Close, try, on_stream, zoom, mbind, M_bind, lift. cbn [of_lib at_stream].
  fold auth. destruct auth as [[pk|e|p] [r' w']] eqn:E; cbn;
    [|split; [by exists []; rewrite app_nil_r|done]..].
  unfold on_snd, zoom, sendReadyFrame. cbn.
  destruct (Write_reliable [Zb TypeReady] w') as (w2 & Ew). rewrite Ew. cbn.
  apply Write_ok in Ew. split; [by eexists|]. intros ? [= <-]. done.
Qed.

Lemma AcceptConn_run q c n r w sc cc ch :
  let auth := authenticatePeer (q_privKey q) (q_protocolVersion q) n (r, w) in
  let run := AcceptConn_handle RemoteAddr q c (inl ()) n (mkAttempt (r, w) sc cc ch) in
  output run.2 = written auth.2.2
  ∧ ∀ pk, auth.1 = Ok pk → (acceptReadyFrame auth.2.1).1 = Ok true →
      run.1 = Ok () ∧ at_stream_closed run.2 = true ∧ at_conn_closed run.2 = cc
      ∧ connChan run.2
        = ch ++ [mkNewConnEvent c false (PeerPubKeyToID pk) pk (RemoteAddr c)].
Proof.
  intros auth run. subst run.
  unfold AcceptConn_handle, defer_Close, try, on_stream, zoom, mbind, M_bind, lift.
  cbn [of_lib at_stream].
  fold auth. destruct auth as [[pk|e|p] [r' w']] eqn:E; cbn; [|done..].
  unfold on_fst, zoom. cbn. pose proof (acceptReadyFrame_spec r') as Hs.
  destruct (acceptReadyFrame r') as [[b|e|p] r2]; cbn in Hs |- *; [|done..].
  split; [by destruct b|]. intros ? [= <-] [= ->]. done.
Qed.

(** C5. Mutual authentication: when one node dials another, each reads exactly
    what the other writes, in any segmentation, and the streams are not reset,
    both publish the connection with the other's public key and the
    identifier that is its hash, and neither closes it. *)
Theorem DialEarly_AcceptConn_agree (qA qB : QuicTransport) (cA cB : ConnID)
    (nA nB : array 32) (rA rB : Reader) (wA wB : W) (chA chB : list NewConnEvent)
    (fA fB gA gB : bytes) (a b : Attempt W) (oA oB : res unit)
    (HtA : is_Some (q_tr qA)) (HkA : key_pair (q_privKey qA)) (HkB : key_pair (q_privKey qB))
    (HfA : sendable (init_msg (arr nA)) fA) (HfB : sendable (init_msg (arr nB)) fB)
    (HgA : sendable (resp_msg (q_privKey qA) (q_protocolVersion qA) (arr nB)) gA)
    (HgB : sendable (resp_msg (q_privKey qB) (q_protocolVersion qB) (arr nA)) gB)
    (Hdial : DialEarly RemoteAddr qA (inl ()) (inl cA) (inl ()) nA
               (mkAttempt (rA, wA) false None chA) = (oA, a))
    (Haccept : AcceptConn_handle RemoteAddr qB cB (inl ()) nB
                 (mkAttempt (rB, wB) false None chB) = (oB, b))
    (HAB : written wA ++ concat rB = output a) (HBA : written wB ++ concat rA = output b) :
  let pubA := PeerPrivateKeyToPublic (q_privKey qA) in
  let pubB := PeerPrivateKeyToPublic (q_privKey qB) in
  oA = Ok () ∧ oB = Ok () ∧ at_conn_closed a = None ∧ at_conn_closed b = None
  ∧ connChan a = chA ++ [mkNewConnEvent cA true (PeerPubKeyToID pubB) pubB (RemoteAddr cA)]
  ∧ connChan b = chB ++ [mkNewConnEvent cB false (PeerPubKeyToID pubA) pubA (RemoteAddr cB)].
Proof.
  intros pubA pubB.
  destruct (DialEarly_run qA cA nA rA wA false None chA HtA) as [[tail Ht] HA].
  destruct (AcceptConn_run qB cB nB rB wB false None chB) as [Hout HB].
  rewrite Hdial in Ht, HA. rewrite Haccept in Hout, HB. cbn [fst snd] in *.
  rewrite Ht in HAB. rewrite Hout in HBA.
  destruct (handshake_agree (q_privKey qA) (q_privKey qB) (q_protocolVersion qA)
    (q_protocolVersion qB) nA nB rA rB wA wB fA fB gA gB tail [])
    as (rA' & wA' & rB' & wB' & RA & RB & _ & CB); [by rewrite ?app_nil_r..|].
  rewrite RA, RB in *. cbn [fst snd] in *.
  destruct (HA _ eq_refl) as (-> & Hr & _ & -> & ->).
  assert (tail = [Zb TypeReady]) as -> by (rewrite Hr in Ht; by apply app_inv_head in Ht).
  destruct (HB _ eq_refl) as (-> & _ & -> & ->); [|done].
  rewrite acceptReadyFrame_spec, CB. done.
Qed.

(** Reflection: a peer without any key, that only sends back what it
    receives, is authenticated - as the node itself. *)
Theorem handshake_reflection (k : PeerPrivateKey) (v : uint 32) (n : array 32)
    (r : Reader) (w : W) (f g tail : bytes) (Hk : key_pair k)
    (Hf : sendable (init_msg (arr n)) f) (Hg : sendable (resp_msg k v (arr n)) g)
    (Hecho : written w ++ concat r = written (authenticatePeer k v n (r, w)).2.2 ++ tail) :
  ∃ s, authenticatePeer k v n (r, w) = (Ok (PeerPrivateKeyToPublic k), s).
Proof.
  destruct (authenticatePeer_extends k v n r w f Hf) as [x E].
  pose proof Hecho as Hcut. rewrite E, <- !app_assoc in Hcut. apply app_inv_head in Hcut.
  rewrite (authenticatePeer_writes k v n _ r w f f _ Hf Hf Hcut g Hg), <- !app_assoc in Hecho.
  apply app_inv_head in Hecho.
  destruct (authenticatePeer_run k v n k v (arr n) r w f f g g tail)
    as (r' & w' & R & _); [done..|]. by eexists.
Qed.
End properties.

(** The peer sent a key that starts with [pk] and a signature that [pk] verifies
    over our nonce and the key it sent. *)
Definition authenticated `{Ed25519} (nonce : bytes) (pk : PeerPublicKey) : Prop :=
  ∃ pkb sig, 32 <= length pkb ∧ arr pk = take 32 pkb ∧ length sig = 64
             ∧ ed_verify pk (nonce ++ pkb) (pad_array 64 sig) = true.

(** What [checkHandshakeResponse] has seen when it returns; its only panics are
    the empty frame and a key shorter than 32 bytes. *)
Definition response_verdict `{Ed25519} (nonce : bytes) (res : res PeerPublicKey) : Prop :=
  match res with
  | Ok pk => authenticated nonce pk
  | Err _ => True
  | Panic p => p = PanicIndex 0 0 ∨ ∃ n, n < 32 ∧ p = PanicConvert n 32
  end.

Lemma readFrame_panic r p r' : readFrame r = (Panic p, r') → p = PanicIndex 0 0.
Proof.
  intros E. pose proof (readFrame_flat r) as F. rewrite E in F. unfold flat, frame_of, full in F.
  repeat case_match; simplify_eq/=; done.
Qed.

Lemma checkHandshakeResponse_sound {W : Type} `{Writer W, Codec MessageData, Ed25519}
    (nonce : bytes) (r : Reader) (w : W) :
  response_verdict nonce (checkHandshakeResponse nonce (r, w)).1.
Proof.
  unfold checkHandshakeResponse, mbind, M_bind, lift, on_fst, zoom. cbn [fst snd].
  destruct (readFrame r) as [[[t d]|e|p] r'] eqn:Er; [|done|left; by eapply readFrame_panic].
  destruct (negb _); [done|]. destruct (unmarshal d) as [m|]; [|done]. cbn [of_lib].
  destruct (MessageData_Payload m) as [[]|]; try done.
  destruct HandshakeResponse as [pkb sig ver]. cbn [HandshakeResponse_PubKey HandshakeResponse_Signature].
  destruct (decide (length pkb < 32)) as [Hs|Hs].
  { rewrite to_array_short by done. right. by exists (length pkb). }
  destruct (to_array_long 32 pkb) as (pk & -> & Hpk); [lia|].
  destruct (VerifySignature pk (nonce ++ pkb) sig) eqn:V; [|done]. cbn.
  unfold VerifySignature, SignatureSize in V.
  destruct (Nat.eqb_spec (length sig) 64) as [Hl|]; [|done].
  exists pkb, sig. split; [lia|]. by split.
Qed.

Lemma authenticatePeer_sound {W : Type} `{Writer W, Codec MessageData, Ed25519}
    k v (n : array 32) (r : Reader) (w : W) pk :
  (authenticatePeer k v n (r, w)).1 = Ok pk → authenticated (arr n) pk.
Proof.
  unfold authenticatePeer, mbind, M_bind.
  destruct (sendHandshake _ _) as [[[]|e|p] [r1 w1]]; [|done..].
  destruct (acceptHandshake _ _ _) as [[[]|e|p] [r2 w2]]; [|done..].
  pose proof (checkHandshakeResponse_sound (arr n) r2 w2) as Hs.
  intros E. by rewrite E in Hs.
Qed.

Definition published `{Ed25519} (out : bool) (n : array 32) (ch ch' : list NewConnEvent) : Prop :=
  ch' = ch ∨ ∃ ev, ch' = ch ++ [ev] ∧ ev_IsOut ev = out
    ∧ ev_PeerID ev = PeerPubKeyToID (ev_PeerPubKey ev)
    ∧ authenticated (arr n) (ev_PeerPubKey ev).

Lemma only_authenticated_published_both {W : Type} `{Writer W, Codec MessageData, Ed25519}
    (RemoteAddr : ConnID → string) (q : QuicTransport) (resolved opened : unit + gerror)
    (dialled : ConnID + gerror) (c : ConnID) (n : array 32) (a : Attempt W) :
  published true n (connChan a)
    (connChan (DialEarly RemoteAddr q resolved dialled opened n a).2)
  ∧ published false n (connChan a)
      (connChan (AcceptConn_handle RemoteAddr q c opened n a).2).
Proof.
  destruct a as [[r w] sc cc ch].
  pose proof (authenticatePeer_sound (q_privKey q) (q_protocolVersion q) n r w) as Hs.
  unfold DialEarly, AcceptConn_handle, defer_Close, try, on_stream, zoom, mbind, M_bind, lift.
  split; [destruct resolved, (q_tr q), dialled, opened|destruct opened];
    try (by left); cbn;
    destruct (authenticatePeer _ _ _ _) as [[pk|e|p] [r' w']]; try (by left); cbn in Hs |- *;
    specialize (Hs pk eq_refl); unfold on_snd, on_fst, zoom; cbn.
  - destruct (sendReadyFrame w') as [[[]|e|p] w2]; try (by left). right. eexists. by split_and!.
  - destruct (acceptReadyFrame r') as [[[]|e|p] r2]; try (by left). right. eexists. by split_and!.
Qed.

(** C28. Only authenticated connections are published: whatever the peer sends
    and whatever fails on the way, a dialled or an accepted connection adds at
    most one event to [connChan]; its key verified a signature over the fresh
    nonce of this connection, and its identifier is the hash of that key. *)
Theorem only_authenticated_published {W : Type} `{Writer W, Codec MessageData, Ed25519}
    (RemoteAddr : ConnID → string) (q : QuicTransport) (resolved opened : unit + gerror)
    (dialled : ConnID + gerror) (c : ConnID) (n : array 32) (a : Attempt W) :
  published true n (connChan a)
    (connChan (DialEarly RemoteAddr q resolved dialled opened n a).2)
  ∧ published false n (connChan a)
      (connChan (AcceptConn_handle RemoteAddr q c opened n a).2).
Proof. apply only_authenticated_published_both. Qed.

(** A response whose public key has fewer than 32 bytes ends the process:
    the conversion to an array panics before any check. *)
Theorem checkHandshakeResponse_short_key_panics {W : Type}
    `{Writer W, CodecLaws MessageData, Ed25519} (nonce pkb sig : bytes) (v : uint 32)
    (r : Reader) (w : W) (f rest : bytes)
    (Hf : sendable (payload_only (MessageData_HandshakeResponse
                      (mkHandshakeResponse pkb sig v))) f)
    (Hshort : length pkb < 32) (Hr : concat r = f ++ rest) :
  (checkHandshakeResponse nonce (r, w)).1 = Panic (PanicConvert (length pkb) 32).
Proof.
  destruct Hf as (bs & Hbs & Hlen & ->).
  apply readFrame_bytes in Hr as (r' & E & Hr'); [|done..].
  unfold checkHandshakeResponse, mbind, M_bind, lift, on_fst, zoom. cbn [fst snd].
  rewrite E. cbn [fst snd Z.eqb negb TypeHandshake Pos.eqb].
  rewrite (unmarshal_marshal _ _ Hbs).
  cbn [of_lib payload_only MessageData_Payload HandshakeResponse_PubKey].
  by rewrite to_array_short.
Qed.

(** ** Witnesses: two honest nodes over buffers *)
Module HandshakeWitness.
Import ToyWriter ToySig.

#[export] Instance reliable : ReliableWriter bytes.
Proof. intros p w. by eexists. Defined.

Definition q (seed : string) : QuicTransport :=
  mkQuicTransport (Some 0) None None (NewKeyFromSeed (pad_array 32 (str seed))) (mk_uint 32 1) "".
Definition alice : QuicTransport := q "alice".
Definition bob : QuicTransport := q "bob".
Definition nA : array 32 := pad_array 32 (str "nonce of alice").
Definition nB : array 32 := pad_array 32 (str "nonce of bob").
Definition addr (c : ConnID) : string := "203.0.113.1:4242".

Definition frame (m : MessageData) : bytes :=
  match marshal m with inl bs => frame_bytes TypeHandshake bs | inr _ => [] end.

Lemma sendable_frame m :
  (Z.of_nat (length (frame m)) <? 2 ^ 32)%Z = true → sendable m (frame m).
Proof.
  intros Hl. exists (ser m). split; [done|]. split; [|done].
  apply Z.ltb_lt in Hl. unfold frame in Hl. cbn [marshal codec_of_ser] in Hl.
  unfold frame_bytes in Hl. rewrite length_app, length_be_put in Hl. cbn [length] in Hl. lia.
Qed.

Definition fA : bytes := frame (init_msg (arr nA)).
Definition fB : bytes := frame (init_msg (arr nB)).
Definition gA : bytes := frame (resp_msg (q_privKey alice) (q_protocolVersion alice) (arr nB)).
Definition gB : bytes := frame (resp_msg (q_privKey bob) (q_protocolVersion bob) (arr nA)).

Lemma sendable_fA : sendable (init_msg (arr nA)) fA.
Proof. apply sendable_frame. reflexivity. Qed.
Lemma sendable_fB : sendable (init_msg (arr nB)) fB.
Proof. apply sendable_frame. reflexivity. Qed.
Lemma sendable_gA :
  sendable (resp_msg (q_privKey alice) (q_protocolVersion alice) (arr nB)) gA.
Proof. apply sendable_frame. vm_compute. reflexivity. Qed.
Lemma sendable_gB :
  sendable (resp_msg (q_privKey bob) (q_protocolVersion bob) (arr nA)) gB.
Proof. apply sendable_frame. vm_compute. reflexivity. Qed.

(** The frames arrive in odd segments. *)
Definition rA : Reader := [take 3 fB; drop 3 fB ++ gB].
Definition rB : Reader := [fA; take 70 gA; drop 70 gA ++ [Zb TypeReady]].
Definition dial : res unit * Attempt bytes :=
  DialEarly addr alice (inl ()) (inl 7) (inl ()) nA (mkAttempt (rA, []) false None []).
Definition accept : res unit * Attempt bytes :=
  AcceptConn_handle addr bob 9 (inl ()) nB (mkAttempt (rB, []) false None []).

Lemma dial_output : written (W:=bytes) (at_stream dial.2).2 = fA ++ gA ++ [Zb TypeReady].
Proof. vm_compute. reflexivity. Qed.
Lemma accept_output : written (W:=bytes) (at_stream accept.2).2 = fB ++ gB.
Proof. vm_compute. reflexivity. Qed.

Lemma DialEarly_AcceptConn_agree_witness :
  dial.1 = Ok () ∧ accept.1 = Ok () ∧ length (connChan dial.2) = 1.
Proof.
  assert (written (W:=bytes) [] ++ concat rB = written (W:=bytes) (at_stream dial.2).2) as HAB
    by (rewrite dial_output; vm_compute; reflexivity).
  assert (written (W:=bytes) [] ++ concat rA = written (W:=bytes) (at_stream accept.2).2) as HBA
    by (rewrite accept_output; vm_compute; reflexivity).
  destruct (DialEarly_AcceptConn_agree (W:=bytes) addr alice bob 7 9 nA nB rA rB [] [] [] []
              fA fB gA gB dial.2 accept.2 dial.1 accept.1
              (ltac:(by eexists)) (NewKeyFromSeed_pair _) (NewKeyFromSeed_pair _)
              sendable_fA sendable_fB sendable_gA sendable_gB
              (run_eq _ _ _ eq_refl) (run_eq _ _ _ eq_refl) HAB HBA)
    as (H1 & H2 & _ & _ & H3 & _).
  split; [exact H1|]. split; [exact H2|]. rewrite H3. reflexivity.
Defined.

Definition gAA : bytes := frame (resp_msg (q_privKey alice) (q_protocolVersion alice) (arr nA)).
Lemma echo_output :
  written (W:=bytes) (authenticatePeer (q_privKey alice) (q_protocolVersion alice) nA
                        ([fA ++ gAA], [])).2.2 = fA ++ gAA.
Proof. vm_compute. reflexivity. Qed.

Lemma handshake_reflection_witness :
  ∃ s, authenticatePeer (W:=bytes) (q_privKey alice) (q_protocolVersion alice) nA
         ([fA ++ gAA], [])
       = (Ok (PeerPrivateKeyToPublic (q_privKey alice)), s).
Proof.
  apply (handshake_reflection (W:=bytes) (q_privKey alice) (q_protocolVersion alice) nA
           [fA ++ gAA] [] fA gAA []).
  - apply NewKeyFromSeed_pair.
  - apply sendable_fA.
  - apply sendable_frame. vm_compute. reflexivity.
  - rewrite echo_output. vm_compute. reflexivity.
Defined.

Definition short_response : MessageData :=
  payload_only (MessageData_HandshakeResponse
                  (mkHandshakeResponse (str "short") [] (mk_uint 32 1))).
Lemma checkHandshakeResponse_short_key_panics_witness :
  (checkHandshakeResponse (W:=bytes) (arr nA) ([frame short_response], [])).1
  = Panic (PanicConvert 5 32).
Proof.
  apply (checkHandshakeResponse_short_key_panics (W:=bytes) (arr nA) (str "short") []
           (mk_uint 32 1) [frame short_response] [] (frame short_response) []).
  - apply sendable_frame. reflexivity.
  - vm_compute. lia.
  - reflexivity.
Defined.
End HandshakeWitness.
