(* ===== verification/Transport.v ===== *)
(** * The QUIC endpoint: the set-up in internal/network/quic.go

    [NewQUICTransport] opens the node's UDP socket and [ListenEarly] starts to
    accept on it.  Package net is the class [Net]; what quic-go returns is an
    argument. *)

From Stdlib Require Import ZArith Lia.
From S2P Require Import Prelude Sha2 Types Proto ToyCodec Frame Signature Tls Handshake.

Definition time_Second : Z := 1000000000.

Definition GetQuicConfig : quic_Config :=
  mkQuicConfig true (10 * time_Second) (30 * time_Second) 1000 1000 true.

(** [net.UDPAddr]; an empty IP is the unspecified address. *)
Record UDPAddr := mkUDPAddr { udp_IP : bytes; udp_Port : Z }.

Class Net := {
  ResolveUDPAddr : string → UDPAddr + gerror;
  (* nil is allowed; the socket and its local address *)
  ListenUDP : option UDPAddr → (nat * string) + gerror
}.

(** Documented: a nil address, like one without IP, is every address of the
    machine, and port 0 is any free port. *)
Class NetLaws `{Net} := {
  ListenUDP_nil : ListenUDP None = ListenUDP (Some (mkUDPAddr [] 0))
}.

Section transport.
Context `{Net}.

(** The error of [ResolveUDPAddr] is ignored: [udpAddr] is nil then. *)
Definition NewQUICTransport (addr : string) (tlsCfg : tls_Config) (quicCgf : quic_Config)
    (privKey : PeerPrivateKey) (protocolVersion : uint 32) : res QuicTransport :=
  let udpAddr := match ResolveUDPAddr addr with inl a => Some a | inr _ => None end in
  match ListenUDP udpAddr with
  | inr err => Panic (Exit 1)
  | inl (udpConn, local) =>
      mret (mkQuicTransport (Some udpConn) (Some tlsCfg) (Some quicCgf) privKey protocolVersion local)
  end.

Definition Addr (q : QuicTransport) : string := q_addr q.

(** The text of the error contains that of [listened]'s, which is not wrapped;
    otherwise [AcceptConn] is started. *)
Definition ListenEarly (q : QuicTransport) (listened : unit + gerror) : res unit :=
  match q_tr q with
  | None => Panic PanicNil
  | Some _ =>
      match listened with
      | inr err => Err (ErrorString "QuicTransport Listen error")
      | inl _ => mret ()
      end
  end.
End transport.

(** What a transport made by [NewQUICTransport] has. *)
Lemma NewQUICTransport_ok `{Net} addr tls quic k v q :
  NewQUICTransport addr tls quic k v = Ok q →
  is_Some (q_tr q) ∧ q_privKey q = k ∧ q_protocolVersion q = v ∧ q_tlsCfg q = Some tls
  ∧ q_quicCfg q = Some quic.
Proof.
  unfold NewQUICTransport. destruct (ListenUDP _) as [[c l]|e]; [|done].
  intros [= <-]. by split_and!.
Qed.

(** An address that cannot be parsed is not refused: the node listens on
    every address and a random port, exactly as for the address that means this;
    and when there is no socket the process exits. *)
Theorem NewQUICTransport_bad_address `{NetLaws} (bad any : string) (e : gerror)
    (tls : tls_Config) (quic : quic_Config) (k : PeerPrivateKey) (v : uint 32)
    (Hbad : ResolveUDPAddr bad = inr e) (Hany : ResolveUDPAddr any = inl (mkUDPAddr [] 0)) :
  NewQUICTransport bad tls quic k v = NewQUICTransport any tls quic k v
  ∧ (∀ q, NewQUICTransport bad tls quic k v = Ok q → ListenEarly q (inl ()) = Ok ())
  ∧ (∀ err, ListenUDP None = inr err → NewQUICTransport bad tls quic k v = Panic (Exit 1)).
Proof.
  split_and!.
  - unfold NewQUICTransport. by rewrite Hbad, Hany, ListenUDP_nil.
  - intros q ([tr Htr] & _)%NewQUICTransport_ok. unfold ListenEarly. by rewrite Htr.
  - intros err E. unfold NewQUICTransport. by rewrite Hbad, E.
Qed.

Module ToyNet.
(** Only [":0"] and [":4242"] are addresses. *)
#[export] Instance lib : Net := {
  ResolveUDPAddr a :=
    if bool_decide (a = ":0") then inl (mkUDPAddr [] 0)
    else if bool_decide (a = ":4242") then inl (mkUDPAddr [] 4242)
    else inr (ErrLib 40);
  ListenUDP a := inl (match a with Some a => Z.to_nat (udp_Port a) | None => 0 end, "[::]:1234")
}.
#[export] Instance laws : NetLaws.
Proof. split. reflexivity. Qed.

Definition tls0 : tls_Config := mkTlsConfig [] [] RequestClientCert true (λ _ _, None) 100.

Lemma NewQUICTransport_bad_address_witness :
  NewQUICTransport "no port" tls0 GetQuicConfig (zero_array 64) (mk_uint 32 100)
  = NewQUICTransport ":0" tls0 GetQuicConfig (zero_array 64) (mk_uint 32 100).
Proof.
  exact (proj1 (NewQUICTransport_bad_address "no port" ":0" (ErrLib 40) tls0 GetQuicConfig
           (zero_array 64) (mk_uint 32 100) eq_refl eq_refl)).
Defined.
End ToyNet.
