(* ===== verification/Dispatcher.v ===== *)
(** * The dispatcher: internal/dispatcher/dispatcher.go

    Peers push envelopes into a bounded queue; worker goroutines take packets
    from it, check the signature and route the message to the handler registered
    for the type of its payload.  [Handler] is the interface the services
    implement.  The goroutines are the step relation [step]: any interleaving of
    pushes, workers and cancellation.  No lock is held while a handler runs, so
    the accesses of handlers to the state they share interleave as well. *)

From Stdlib Require Import ZArith Lia.
From stdpp Require Import relations.
From S2P Require Import Prelude Sha2 Types Proto ToyCodec Signature Task.

(** ** Payload types: [reflect.TypeOf] of the oneof wrapper, [None] for nil *)
Inductive PayloadType :=
  | T_HandshakeInit | T_Ping | T_Ack | T_ChatMessage | T_PeerList | T_Transfer
  | T_HandshakeResponse | T_PeerReq | T_PeerRes.

#[export] Instance PayloadType_eq_dec : EqDecision PayloadType.
Proof. solve_decision. Defined.

Definition type_code (t : PayloadType) : nat :=
  match t with
  | T_HandshakeInit => 0 | T_Ping => 1 | T_Ack => 2 | T_ChatMessage => 3 | T_PeerList => 4
  | T_Transfer => 5 | T_HandshakeResponse => 6 | T_PeerReq => 7 | T_PeerRes => 8
  end.
Definition type_of_code (n : nat) : option PayloadType :=
  match n with
  | 0 => Some T_HandshakeInit | 1 => Some T_Ping | 2 => Some T_Ack | 3 => Some T_ChatMessage
  | 4 => Some T_PeerList | 5 => Some T_Transfer | 6 => Some T_HandshakeResponse
  | 7 => Some T_PeerReq | 8 => Some T_PeerRes | _ => None
  end.
#[export] Instance PayloadType_countable : Countable PayloadType.
Proof. apply (inj_countable type_code type_of_code). by intros []. Defined.

Definition payload_type (p : isMessageData_Payload) : PayloadType :=
  match p with
  | MessageData_HandshakeInit _ => T_HandshakeInit
  | MessageData_Ping _ => T_Ping
  | MessageData_Ack _ => T_Ack
  | MessageData_ChatMessage _ => T_ChatMessage
  | MessageData_PeerList _ => T_PeerList
  | MessageData_Transfer _ => T_Transfer
  | MessageData_HandshakeResponse _ => T_HandshakeResponse
  | MessageData_PeerReq _ => T_PeerReq
  | MessageData_PeerRes _ => T_PeerRes
  end.

Definition reflect_TypeOf (p : option isMessageData_Payload) : option PayloadType :=
  payload_type <$> p.

(** ** The interface of a message handler

    [Handle] is what a handler does when it runs alone, [Handle_task] the same
    work access by access. *)
Class Handler (H S : Type) := {
  Handle : H → MessageData → PeerID → M S unit;
  Handle_task : H → MessageData → PeerID → task S;
  run_Handle_task h msg id s : run_task (Handle_task h msg id) s = Handle h msg id s
}.

(** Handlers that touch the state they share once at most, as their last act. *)
Class SingleAccess (H S : Type) `{Handler H S} :=
  single_access h msg id : at_most_once (Handle_task h msg id).

Record IngressPacket := mkIngressPacket {
  ip_Envelope : Envelope;
  ip_PeerID : PeerID
}.

Record Dispatcher (H : Type) := mkDispatcher {
  ingressChan : list IngressPacket;
  handlers : gmap (option PayloadType) H;
  workersNum : Z;
  ctx_done : bool
}.
Arguments mkDispatcher {H} _ _ _ _.
Arguments ingressChan {H} _.
Arguments handlers {H} _.
Arguments workersNum {H} _.
Arguments ctx_done {H} _.

Definition ingress_cap : nat := 2000.

Section dispatcher.
Context {H S : Type} `{Handler H S} `{Codec MessageData} `{Ed25519}.

(** [NumCPU] is [runtime.NumCPU()]. *)
Definition NewDispatcher (NumCPU : Z) : Dispatcher H :=
  let workerNum := (NumCPU - 1)%Z in
  let workerNum := if decide (workerNum < 0)%Z then 1%Z else workerNum in
  mkDispatcher [] ∅ workerNum false.

Definition Registry (d : Dispatcher H) (t : option PayloadType) (handler : H) : Dispatcher H :=
  mkDispatcher (ingressChan d) (<[t := handler]> (handlers d)) (workersNum d) (ctx_done d).

(** A send with a [default] branch: a full queue drops the packet. *)
Definition PushMessage (env : Envelope) (peerID : PeerID) (d : Dispatcher H) : Dispatcher H :=
  if decide (length (ingressChan d) < ingress_cap) then
    mkDispatcher (ingressChan d ++ [mkIngressPacket env peerID]) (handlers d)
      (workersNum d) (ctx_done d)
  else d.

Definition Stop (d : Dispatcher H) : Dispatcher H :=
  mkDispatcher (ingressChan d) (handlers d) (workersNum d) true.

Definition route (d : Dispatcher H) (msg : MessageData) (fromPeer : PeerID) : M S unit :=
  let payloadType := reflect_TypeOf (MessageData_Payload msg) in
  match handlers d !! payloadType with
  | Some handler => Handle handler msg fromPeer
  | None => mret ()
  end.

Definition processPacket (d : Dispatcher H) (packet : IngressPacket) : M S unit :=
  let env := ip_Envelope packet in
  pubKey ← lift (to_array 32 (Envelope_PubKey env));
  if negb (length (arr pubKey) =? 32)
     || negb (VerifySignature pubKey (Envelope_Data env) (Envelope_Signature env))
  then mret ()
  else
    match unmarshal (Envelope_Data env) with
    | inr _ => mret ()
    | inl msgData => route d msgData (ip_PeerID packet)
    end.

(** The same access by access: the checks are private to the worker. *)
Definition route_task (d : Dispatcher H) (msg : MessageData) (fromPeer : PeerID) : task S :=
  match handlers d !! reflect_TypeOf (MessageData_Payload msg) with
  | Some handler => Handle_task handler msg fromPeer
  | None => Ends (Ok ())
  end.

Definition processPacket_task (d : Dispatcher H) (packet : IngressPacket) : task S :=
  let env := ip_Envelope packet in
  match to_array 32 (Envelope_PubKey env) with
  | Panic q => Ends (Panic q)
  | Err e => Ends (Err e)
  | Ok pubKey =>
      if negb (length (arr pubKey) =? 32)
         || negb (VerifySignature pubKey (Envelope_Data env) (Envelope_Signature env))
      then Ends (Ok ())
      else
        match unmarshal (Envelope_Data env) with
        | inr _ => Ends (Ok ())
        | inl msgData => route_task d msgData (ip_PeerID packet)
        end
  end.

(** ** The goroutines

    [workerLoop] is one [select] and no loop: a worker waits, takes one packet
    (or sees the cancellation), processes it and ends.  While it handles a packet
    it holds what is left of the task.  A task that panics ends the process and
    leaves its worker where it is. *)
Inductive worker :=
  | Waiting
  | Processing (packet : IngressPacket)
  | Handling (packet : IngressPacket) (t : task S)
  | Returned.

Record World := mkWorld {
  w_disp : Dispatcher H;
  w_workers : list worker;
  w_state : S;                         (* what the handlers work on *)
  w_accepted : list IngressPacket;     (* history of the queue *)
  w_taken : list IngressPacket;
  w_processed : list IngressPacket     (* history: the calls of processPacket *)
}.

Definition set_chan (d : Dispatcher H) (q : list IngressPacket) : Dispatcher H :=
  mkDispatcher q (handlers d) (workersNum d) (ctx_done d).

(** [Start] runs [workersNum] workers. *)
Definition Start (d : Dispatcher H) (s : S) : World :=
  mkWorld d (replicate (Z.to_nat (workersNum d)) Waiting) s (ingressChan d) [] [].

Inductive worker_step : World → World → Prop :=
| step_take i packet rest d ws s acc tk pr :
    ws !! i = Some Waiting → ingressChan d = packet :: rest →
    worker_step (mkWorld d ws s acc tk pr)
      (mkWorld (set_chan d rest) (<[i := Processing packet]> ws) s acc (tk ++ [packet]) pr)
| step_process i packet d ws s acc tk pr :
    ws !! i = Some (Processing packet) →
    worker_step (mkWorld d ws s acc tk pr)
      (mkWorld d (<[i := Handling packet (processPacket_task d packet)]> ws) s acc tk
         (pr ++ [packet]))
| step_access i packet f k d ws s acc tk pr :
    ws !! i = Some (Handling packet (Access f k)) →
    worker_step (mkWorld d ws s acc tk pr)
      (mkWorld d (<[i := Handling packet (k s)]> ws) (f s) acc tk pr)
| step_return i packet d ws s acc tk pr :
    ws !! i = Some (Handling packet (Ends (Ok ()))) →
    worker_step (mkWorld d ws s acc tk pr) (mkWorld d (<[i := Returned]> ws) s acc tk pr)
| step_exit i d ws s acc tk pr :
    ws !! i = Some Waiting → ctx_done d = true →
    worker_step (mkWorld d ws s acc tk pr) (mkWorld d (<[i := Returned]> ws) s acc tk pr).

Inductive step : World → World → Prop :=
| step_push env peerID d ws s acc tk pr :
    let d' := PushMessage env peerID d in
    let acc' := if decide (length (ingressChan d) < ingress_cap)
                then acc ++ [mkIngressPacket env peerID] else acc in
    step (mkWorld d ws s acc tk pr) (mkWorld d' ws s acc' tk pr)
| step_stop d ws s acc tk pr :
    step (mkWorld d ws s acc tk pr) (mkWorld (Stop d) ws s acc tk pr)
| step_worker w w' : worker_step w w' → step w w'.
End dispatcher.

Arguments World H S : clear implicits.
Arguments worker S : clear implicits.

(** ** Lemmas *)

(** A list that is spread over the elements of another. *)
Lemma omap_replace {A B} (f : A → option B) (l : list A) i x y :
  l !! i = Some x → omap f l ++ omap f [y] ≡ₚ omap f (<[i := y]> l) ++ omap f [x].
Proof.
  intros Hi. rewrite insert_take_drop by (by eapply lookup_lt_Some).
  rewrite <- (take_drop_middle l i x Hi) at 1.
  change (x :: drop (S i) l) with ([x] ++ drop (S i) l).
  change (y :: drop (S i) l) with ([y] ++ drop (S i) l). rewrite !omap_app.
  generalize (omap f [x]), (omap f [y]), (omap f (drop (S i) l)). intros hx hy post.
  rewrite <- !app_assoc. apply Permutation_app_head.
  rewrite (Permutation_app_comm hx (post ++ hy)), (Permutation_app_comm hy (post ++ hx)).
  rewrite <- !app_assoc. apply Permutation_app_head, Permutation_app_comm.
Qed.

Lemma omap_replicate_None {A B} (f : A → option B) n x :
  f x = None → omap f (replicate n x) = [].
Proof. intros E. induction n as [|n IH]; [done|]. cbn. by rewrite E. Qed.

Section workers.
Context {S : Type}.
Implicit Types (x : worker S) (ws : list (worker S)).

Definition is_waiting x : bool := match x with Waiting => true | _ => false end.
Definition waiting ws : nat := length (filter is_waiting ws).

(** It has no packet in hand. *)
Definition idle x : bool := match x with Waiting | Returned => true | _ => false end.

(** The packet that a worker has taken and not yet begun to process. *)
Definition unprocessed x : option IngressPacket :=
  match x with Processing p => Some p | _ => None end.
(** The packet in hand, until its task is done. *)
Definition in_hand x : option IngressPacket :=
  match x with
  | Processing p => Some p
  | Handling p (Ends (Ok _)) => None
  | Handling p _ => Some p
  | _ => None
  end.
Definition held_packets ws : list IngressPacket := omap in_hand ws.

Lemma waiting_insert ws i x : ws !! i = Some Waiting → is_waiting x = false →
  Datatypes.S (waiting (<[i := x]> ws)) = waiting ws.
Proof.
  intros Hi Hw. unfold waiting. rewrite insert_take_drop by (by eapply lookup_lt_Some).
  rewrite <- (take_drop_middle ws i Waiting Hi) at 3.
  rewrite !filter_app, !length_app, !filter_cons, Hw. simpl. lia.
Qed.

Lemma waiting_insert_other ws i x y :
  ws !! i = Some y → is_waiting y = false → is_waiting x = false →
  waiting (<[i := x]> ws) = waiting ws.
Proof.
  intros Hi Hy Hx. unfold waiting. rewrite insert_take_drop by (by eapply lookup_lt_Some).
  rewrite <- (take_drop_middle ws i y Hi) at 3.
  rewrite !filter_app, !length_app, !filter_cons, Hx, Hy. done.
Qed.

Lemma waiting_some ws : waiting ws ≠ 0 → ∃ i, ws !! i = Some Waiting.
Proof.
  induction ws as [|x ws IH]; [done|]. destruct x as [|q|q t|]; [intros _; by exists 0|..];
    (intros Hw; destruct IH as [i Hi]; [exact Hw|by exists (Datatypes.S i)]).
Qed.

Lemma find_busy ws : (∃ i x, ws !! i = Some x ∧ idle x = false) ∨ Forall (λ x, idle x = true) ws.
Proof.
  induction ws as [|x ws [(i & y & Hi & Hy)|IH]]; [by right|left; by exists (Datatypes.S i), y|].
  destruct (idle x) eqn:E; [right; by constructor|left; by exists 0, x].
Qed.

(** One worker changes. *)
Lemma held_same ws i x y :
  ws !! i = Some x → in_hand x = in_hand y → held_packets ws ≡ₚ held_packets (<[i := y]> ws).
Proof.
  intros Hi E. pose proof (omap_replace in_hand ws i x y Hi) as R.
  cbn [omap list_omap] in R. rewrite E in R. by apply Permutation_app_inv_r in R.
Qed.

Lemma held_gain ws i x y p :
  ws !! i = Some x → in_hand x = None → in_hand y = Some p →
  held_packets (<[i := y]> ws) ≡ₚ p :: held_packets ws.
Proof.
  intros Hi Ex Ey. pose proof (omap_replace in_hand ws i x y Hi) as R.
  cbn [omap list_omap] in R. rewrite Ex, Ey, app_nil_r in R. unfold held_packets.
  symmetry. etransitivity; [apply Permutation_cons_append|exact R].
Qed.

Lemma held_loss ws i x y p :
  ws !! i = Some x → in_hand x = Some p → in_hand y = None →
  held_packets ws ≡ₚ p :: held_packets (<[i := y]> ws).
Proof.
  intros Hi Ex Ey. pose proof (omap_replace in_hand ws i x y Hi) as R.
  cbn [omap list_omap] in R. rewrite Ex, Ey, app_nil_r in R. unfold held_packets.
  etransitivity; [exact R|symmetry; apply Permutation_cons_append].
Qed.

Lemma held_idle ws : Forall (λ x, idle x = true) ws → held_packets ws = [].
Proof. induction 1 as [|x ws Hx _ IH]; [done|]. unfold held_packets in *. cbn. by destruct x. Qed.

(** What a worker can still do, whatever the state is. *)
Inductive worker_next : worker S → worker S → Prop :=
| wn_take p : worker_next Waiting (Processing p)
| wn_process p t : worker_next (Processing p) (Handling p t)
| wn_access p t t' : next t t' → worker_next (Handling p t) (Handling p t')
| wn_return p t : worker_next (Handling p t) Returned
| wn_exit : worker_next Waiting Returned.

Lemma worker_next_sn x : sn worker_next x.
Proof.
  assert (sn worker_next Returned) as HR by (constructor; intros y Hy; inversion Hy).
  assert (∀ p t, sn worker_next (Handling p t)) as HH.
  { intros p t. induction (next_sn t) as [t _ IH]. constructor. intros y Hy.
    inversion Hy; subst; [by apply IH|exact HR]. }
  assert (∀ p, sn worker_next (Processing p)) as HP
    by (intros p; constructor; intros y Hy; inversion Hy; subst; apply HH).
  destruct x as [|p|p t|]; [|apply HP|apply HH|exact HR].
  constructor. intros y Hy. inversion Hy; subst; [apply HP|exact HR].
Qed.

Lemma workers_sn ws : sn (list_step worker_next) ws.
Proof. apply list_step_sn, Forall_forall. intros x _. apply worker_next_sn. Qed.
End workers.

Section dispatcher_properties.
Context {H S : Type} `{Handler H S} `{CodecLaws MessageData} `{Ed25519}.
Implicit Types (d : Dispatcher H) (w : World H S).

Lemma run_processPacket_task d p (s : S) :
  run_task (processPacket_task d p) s = processPacket d p s.
Proof.
  unfold processPacket_task, processPacket, mbind, M_bind, lift.
  destruct (to_array _ _) as [pk|e|q]; [|done..]. destruct (_ || _); [done|].
  destruct (unmarshal _) as [m|e]; [|done]. unfold route_task, route.
  destruct (handlers d !! _); [apply run_Handle_task|done].
Qed.

Lemma processPacket_task_handlers d d' p :
  handlers d' = handlers d → processPacket_task d' p = processPacket_task d p.
Proof. intros E. unfold processPacket_task, route_task. by rewrite E. Qed.

Lemma processPacket_once `{!SingleAccess H S} d p : at_most_once (processPacket_task d p).
Proof.
  unfold processPacket_task. destruct (to_array _ _) as [pk|e|q]; [|done..].
  destruct (_ || _); [done|]. destruct (unmarshal _) as [m|e]; [|done]. unfold route_task.
  destruct (handlers d !! _); [apply single_access|done].
Qed.

(** A worker that nobody interrupts. *)
Lemma task_alone i p t (s s' : S) d ws acc tk pr :
  ws !! i = Some (Handling p t) → run_task t s = (Ok (), s') →
  rtc worker_step (mkWorld d ws s acc tk pr) (mkWorld d (<[i := Returned]> ws) s' acc tk pr).
Proof.
  revert s ws. induction t as [res|f k IH]; intros s ws Hi; cbn.
  - intros [= -> <-]. apply rtc_once. by apply (step_return i p).
  - intros Hrun. eapply rtc_l; [by eapply (step_access i p)|].
    rewrite <- (list_insert_insert_eq ws i Returned (Handling p (k s))). apply (IH s); [|done].
    apply list_lookup_insert_eq. by eapply lookup_lt_Some.
Qed.

Lemma worker_alone i p rest (s s' : S) d ws acc tk pr :
  ws !! i = Some Waiting → ingressChan d = p :: rest →
  processPacket (set_chan d rest) p s = (Ok (), s') →
  rtc worker_step (mkWorld d ws s acc tk pr)
    (mkWorld (set_chan d rest) (<[i := Returned]> ws) s' acc (tk ++ [p]) (pr ++ [p])).
Proof.
  intros Hi Hq Hrun. assert (i < length ws) as Hl by by eapply lookup_lt_Some.
  eapply rtc_l; [by apply (step_take i p rest)|].
  eapply rtc_l; [apply (step_process i p); by apply list_lookup_insert_eq|].
  rewrite list_insert_insert_eq.
  rewrite <- (list_insert_insert_eq ws i Returned (Handling p (processPacket_task (set_chan d rest) p))).
  eapply (task_alone i p); [by apply list_lookup_insert_eq|]. by rewrite run_processPacket_task.
Qed.

Lemma worker_steps (w w' : World H S) : rtc worker_step w w' → rtc step w w'.
Proof. intros Hr. eapply rtc_subrel; [apply step_worker|exact Hr]. Qed.

(** What every interleaving keeps. *)
Record world_inv (n : Z) w : Prop := {
  inv_cap : length (ingressChan (w_disp w)) <= ingress_cap;
  inv_fifo : w_taken w ++ ingressChan (w_disp w) = w_accepted w;
  inv_workers : length (w_workers w) = Z.to_nat n;
  inv_once : length (w_taken w) + waiting (w_workers w) <= Z.to_nat n;
  inv_processed : w_processed w ++ omap unprocessed (w_workers w) ≡ₚ w_taken w
}.

Lemma Start_inv d (s : S) :
  length (ingressChan d) <= ingress_cap → world_inv (workersNum d) (Start d s).
Proof.
  intros Hd. split; simpl; [done|done|apply length_replicate| |].
  - unfold waiting. etransitivity; [apply length_filter|]. by rewrite length_replicate.
  - by rewrite omap_replicate_None.
Qed.

Lemma worker_step_inv n w w' : worker_step w w' → world_inv n w → world_inv n w'.
Proof.
  destruct 1 as [i p rest d ws s acc tk pr Hi Hq|i p d ws s acc tk pr Hi
                |i p f k d ws s acc tk pr Hi|i p d ws s acc tk pr Hi|i d ws s acc tk pr Hi _];
    intros [Hc Hf Hl Ho Hp]; simpl in *;
    match goal with |- world_inv _ (mkWorld _ (<[i := ?y]> _) _ _ _ _) =>
      pose proof (omap_replace unprocessed ws i _ y Hi) as R end;
    cbn [omap list_omap unprocessed] in R; rewrite ?app_nil_r in R;
    split; simpl; rewrite ?length_insert; try done.
  - rewrite Hq in Hc. simpl in Hc. lia.
  - by rewrite <- app_assoc, <- Hf, Hq.
  - pose proof (waiting_insert ws i (Processing p) Hi eq_refl). rewrite length_app. simpl. lia.
  - by rewrite <- R, app_assoc, Hp.
  - by rewrite (waiting_insert_other ws i _ (Processing p) Hi).
  - by rewrite <- app_assoc, (Permutation_app_comm [p]), <- R.
  - by rewrite (waiting_insert_other ws i _ (Handling p (Access f k)) Hi).
  - by rewrite <- R.
  - by rewrite (waiting_insert_other ws i _ (Handling p (Ends (Ok ()))) Hi).
  - by rewrite <- R.
  - pose proof (waiting_insert ws i Returned Hi eq_refl). lia.
  - by rewrite <- R.
Qed.

Lemma step_inv n w w' : step w w' → world_inv n w → world_inv n w'.
Proof.
  destruct 1 as [env id d ws s acc tk pr d' acc'|d ws s acc tk pr|w w' St];
    [|by intros [? ? ? ? ?]|by apply worker_step_inv].
  intros [Hc Hf Hl Ho Hp]; simpl in *; subst d' acc'; unfold PushMessage; split; simpl; try done.
  - case_decide; simpl; [|done]. rewrite length_app. simpl. lia.
  - case_decide; simpl; [|done]. by rewrite app_assoc, Hf.
Qed.

Lemma steps_inv n w w' : rtc step w w' → world_inv n w → world_inv n w'.
Proof. induction 1; eauto using step_inv. Qed.

(** *** Runs of the workers alone *)

Lemma worker_step_next w w' : worker_step w w' → list_step worker_next (w_workers w) (w_workers w').
Proof.
  destruct 1 as [i p| | | |]; cbn [w_workers]; eexists _, _, _; (split; [done|]);
    (split; [|done]); econstructor. by eexists _, _, _.
Qed.

Lemma worker_step_sn w : sn worker_step w.
Proof. apply (sn_map _ (list_step worker_next) w_workers); [apply worker_step_next|apply workers_sn]. Qed.

(** A worker pushes nothing and cancels nothing. *)
Lemma worker_step_keeps w w' :
  worker_step w w' → w_accepted w' = w_accepted w ∧ ctx_done (w_disp w') = ctx_done (w_disp w).
Proof. by destruct 1. Qed.

Lemma worker_step_chan w w' :
  worker_step w w' → length (ingressChan (w_disp w')) <= length (ingressChan (w_disp w)).
Proof. destruct 1 as [i p rest d ws s acc tk pr Hi Hq| | | |]; simpl; try done. rewrite Hq. simpl. lia. Qed.

(** While nothing is cancelled no worker ends without a packet, and the task that
    a worker has in hand began as that of its packet. *)
Definition came_from d (p : IngressPacket) (t : task S) : Prop :=
  never_fails (processPacket_task d p) → never_fails t.
Record busy_inv d w : Prop := {
  bi_handlers : handlers (w_disp w) = handlers d;
  bi_exact : ctx_done (w_disp w) = false →
             length (w_taken w) + waiting (w_workers w) = Z.to_nat (workersNum d);
  bi_held : Forall (λ x, match x with
                         | Processing p => p ∈ w_taken w
                         | Handling p t => p ∈ w_taken w ∧ came_from d p t
                         | _ => True
                         end) (w_workers w)
}.

Lemma Start_busy d (s : S) : busy_inv d (Start d s).
Proof.
  split; simpl; [done| |].
  - intros _. unfold waiting. induction (Z.to_nat (workersNum d)); [done|]. simpl. by f_equal.
  - by apply Forall_replicate.
Qed.

Lemma worker_step_busy d w w' : worker_step w w' → busy_inv d w → busy_inv d w'.
Proof.
  destruct 1 as [i p rest d0 ws s acc tk pr Hi Hq|i p d0 ws s acc tk pr Hi
                |i p f k d0 ws s acc tk pr Hi|i p d0 ws s acc tk pr Hi|i d0 ws s acc tk pr Hi Hc];
    intros [Hh He Hp]; simpl in *; pose proof (Forall_lookup_1 _ _ _ _ Hp Hi) as Hx; cbn in Hx;
    split; simpl; try done.
  - intros Hc. rewrite length_app. simpl.
    pose proof (waiting_insert ws i (Processing p) Hi eq_refl). specialize (He Hc). lia.
  - apply Forall_insert; [|apply elem_of_app; right; by left].
    eapply Forall_impl; [exact Hp|]. intros [|q|q t|]; cbn; try done; intros; rewrite elem_of_app; tauto.
  - intros Hc. rewrite (waiting_insert_other ws i _ (Processing p) Hi); auto.
  - apply Forall_insert; [done|]. split; [done|]. unfold came_from.
    by rewrite (processPacket_task_handlers d d0).
  - intros Hc. rewrite (waiting_insert_other ws i _ (Handling p (Access f k)) Hi); auto.
  - apply Forall_insert; [done|]. destruct Hx as [? Hx]. split; [done|]. intros Hn. by apply (Hx Hn).
  - intros Hc. rewrite (waiting_insert_other ws i _ (Handling p (Ends (Ok ()))) Hi); auto.
  - by apply Forall_insert.
  - by rewrite Hc.
  - by apply Forall_insert.
Qed.

Lemma step_busy d w w' : step w w' → busy_inv d w → busy_inv d w'.
Proof.
  destruct 1 as [env id d0 ws s acc tk pr d' acc'|d0 ws s acc tk pr|w w' St];
    [| |by apply worker_step_busy]; intros [Hh He Hp]; simpl in *; split; simpl; try done;
    subst d'; unfold PushMessage; by case_decide.
Qed.

(** A worker with a packet in hand whose handler does not fail can go on. *)
Lemma busy_progress d w i x :
  busy_inv d w → w_workers w !! i = Some x → idle x = false →
  (∀ p, p ∈ w_taken w → never_fails (processPacket_task d p)) → red worker_step w.
Proof.
  intros [_ _ Hp] Hi Hx Hok. pose proof (Forall_lookup_1 _ _ _ _ Hp Hi) as Ht.
  destruct w as [dw ws st acc tk pr]. simpl in *.
  destruct x as [|p|p [r|f k]|]; try done; eexists.
  - by apply (step_process i p).
  - destruct Ht as [Hin Hc]. specialize (Hc (Hok p Hin)). cbn in Hc. subst r. by apply (step_return i p).
  - by apply (step_access i p).
Qed.

(** While nothing is cancelled and handlers do not fail, a worker can go on, or
    all that the workers can take has been taken and processed. *)
Lemma workers_progress d (s : S) w :
  length (ingressChan d) <= ingress_cap → rtc step (Start d s) w →
  ctx_done (w_disp w) = false →
  (∀ p, p ∈ w_accepted w → never_fails (processPacket_task d p)) →
  red worker_step w
  ∨ w_taken w = take (Z.to_nat (workersNum d)) (w_accepted w)
    ∧ Forall (λ x, idle x = true) (w_workers w).
Proof.
  intros Hcap Hrun Hcd Hok.
  assert (busy_inv d w) as Hb
    by (eapply (rtc_ind_inv step (busy_inv d)); [apply step_busy|exact Hrun|apply (Start_busy d s)]).
  destruct (steps_inv _ _ _ Hrun (Start_inv d s Hcap)) as [_ Hf _ Ho _].
  pose proof (bi_exact _ _ Hb Hcd) as He.
  destruct (find_busy (w_workers w)) as [(i & x & Hi & Hx)|Hidle].
  - left. eapply busy_progress; [done..|]. intros p Hp. apply Hok. rewrite <- Hf.
    apply elem_of_app. by left.
  - destruct (decide (waiting (w_workers w) = 0)) as [Hz|Hz].
    + right. split; [|done]. rewrite <- Hf, <- He, Hz, Nat.add_0_r. by rewrite take_app_length.
    + destruct (waiting_some _ Hz) as [i Hi]. destruct w as [dw ws st acc tk pr]. simpl in *.
      destruct (ingressChan dw) as [|p rest] eqn:Eq; [|left; eexists; by apply (step_take i p rest)].
      right. split; [|done]. rewrite <- Hf, app_nil_r. rewrite take_ge by lia. done.
Qed.

(** *** Interleavings as sequences of packets *)

(** The specification: one packet after the other. *)
Fixpoint process_all d (ps : list IngressPacket) : M S unit :=
  match ps with
  | [] => mret ()
  | p :: ps => _ ← processPacket d p; process_all d ps
  end.

Lemma process_all_snoc d ps p (s s1 s2 : S) :
  process_all d ps s = (Ok (), s1) → processPacket d p s1 = (Ok (), s2) →
  process_all d (ps ++ [p]) s = (Ok (), s2).
Proof.
  revert s. induction ps as [|q ps IH]; intros s; cbn [app process_all]; unfold mbind, M_bind.
  - intros [= <-] ->. done.
  - destruct (processPacket d q s) as [[[]|e|x] s']; [|done..]. apply IH.
Qed.

Section single_access.
Context `{!SingleAccess H S}.

(** A task in hand has not begun, or it has ended. *)
Definition task_ok d (x : worker S) : Prop :=
  match x with Handling p t => t = processPacket_task d p ∨ ended t = true | _ => True end.

Lemma step_tasks d w w' :
  step w w' → handlers (w_disp w) = handlers d → Forall (task_ok d) (w_workers w) →
  handlers (w_disp w') = handlers d ∧ Forall (task_ok d) (w_workers w').
Proof.
  intros St Hh Ht. destruct St as [env id d0 ws s acc tk pr d' acc'|d0 ws s acc tk pr|w w' St];
    [subst d'; unfold PushMessage; by case_decide|done|].
  destruct St as [| |i p f k d0 ws s acc tk pr Hi| |]; cbn in *; (split; [done|]);
    apply Forall_insert; try done.
  - left. by rewrite (processPacket_task_handlers d d0).
  - right. destruct (Forall_lookup_1 _ _ _ _ Ht Hi) as [E|E]; [|done].
    pose proof (processPacket_once d p) as Ho. rewrite <- E in Ho. by rewrite Ho.
Qed.

(** An access is all that processing its packet does. *)
Lemma access_processes d p f k (s : S) :
  task_ok d (Handling p (Access f k)) → k s = Ends (Ok ()) ∧ processPacket d p s = (Ok (), f s).
Proof.
  intros [E|E]; [|done]. pose proof (processPacket_once d p) as Ho. rewrite <- E in Ho.
  split; [apply Ho|]. rewrite <- run_processPacket_task, <- E. by apply run_once.
Qed.

Record sequential d (s : S) w : Prop := {
  sq_handlers : handlers (w_disp w) = handlers d;
  sq_tasks : Forall (task_ok d) (w_workers w);
  sq_run : ∃ ps, ps ++ held_packets (w_workers w) ≡ₚ w_taken w
                 ∧ process_all d ps s = (Ok (), w_state w)
}.

Lemma held_step (ws : list (worker S)) ps tk i x y :
  ps ++ held_packets ws ≡ₚ tk → ws !! i = Some x → in_hand x = in_hand y →
  ps ++ held_packets (<[i := y]> ws) ≡ₚ tk.
Proof. intros <- Hi E. by rewrite <- (held_same ws i x y Hi E). Qed.

Lemma held_end (ws : list (worker S)) ps tk i x y p :
  ps ++ held_packets ws ≡ₚ tk → ws !! i = Some x → in_hand x = Some p → in_hand y = None →
  (ps ++ [p]) ++ held_packets (<[i := y]> ws) ≡ₚ tk.
Proof. intros <- Hi Ex Ey. by rewrite <- app_assoc, (held_loss ws i x y p Hi Ex Ey). Qed.

Lemma worker_step_sequential d s w w' : worker_step w w' → sequential d s w → sequential d s w'.
Proof.
  intros St [Hh Ht (ps & Hps & Hrun)].
  destruct (step_tasks d w w' (step_worker _ _ St) Hh Ht) as [Hh' Ht']. split; [done..|].
  clear Hh' Ht'. destruct St as [i p rest d0 ws st acc tk pr Hi Hq|i p d0 ws st acc tk pr Hi
    |i p f k d0 ws st acc tk pr Hi|i p d0 ws st acc tk pr Hi|i d0 ws st acc tk pr Hi _]; cbn in *.
  - exists ps. split; [|done]. rewrite (held_gain ws i Waiting (Processing p) p) by done.
    rewrite <- Permutation_middle, Hps. apply Permutation_cons_append.
  - set (t := processPacket_task d0 p).
    assert (t = Ends (Ok ()) ∨ in_hand (Handling p t) = Some p) as [E|E]
      by (destruct t as [[[]|e|q]|f k]; auto).
    + exists (ps ++ [p]). split; [eapply held_end; [done..|]; by rewrite E|].
      eapply process_all_snoc; [exact Hrun|]. rewrite <- run_processPacket_task.
      rewrite <- (processPacket_task_handlers d d0 p Hh). fold t. by rewrite E.
    + exists ps. split; [|done]. by eapply held_step.
  - destruct (access_processes d p f k st) as [Ek Ep]; [exact (Forall_lookup_1 _ _ _ _ Ht Hi)|].
    exists (ps ++ [p]). split; [eapply held_end; [done..|]; by rewrite Ek|].
    by eapply process_all_snoc.
  - exists ps. split; [|done]. by eapply held_step.
  - exists ps. split; [|done]. by eapply held_step.
Qed.

Lemma step_sequential d s w w' : step w w' → sequential d s w → sequential d s w'.
Proof.
  destruct 1 as [env id d0 ws st acc tk pr d' acc'|d0 ws st acc tk pr|w w' St];
    [|by intros [? ? ?]|by apply worker_step_sequential].
  intros [Hh Ht Hr]. split; [|done..]. subst d'. cbn. unfold PushMessage. by case_decide.
Qed.

Lemma steps_sequential d s w w' : rtc step w w' → sequential d s w → sequential d s w'.
Proof. induction 1; eauto using step_sequential. Qed.

Lemma Start_sequential d s : sequential d s (Start d s).
Proof.
  split; [done|by apply Forall_replicate|]. exists []. split; [|done].
  unfold Start, held_packets. cbn [w_workers w_taken]. by rewrite omap_replicate_None.
Qed.
End single_access.

Lemma foldl_Registry (hs : list (option PayloadType * H)) d :
  workersNum (foldl (λ d h, Registry d h.1 h.2) d hs) = workersNum d.
Proof. revert d. induction hs as [|h hs IH]; intros d; [done|]. simpl. by rewrite IH. Qed.

(** C35. The queue is bounded and first-in first-out, nothing is invented, and no
    packet is processed twice: the calls of [processPacket] are the packets taken
    from the queue, each once, but for those that a worker has just taken.  And in
    all its life a dispatcher takes at most [workersNum] packets: a worker ends
    after its first packet. *)
Theorem worker_quota d (s : S) w
    (Hd : length (ingressChan d) <= ingress_cap) (Hrun : rtc step (Start d s) w) :
  length (ingressChan (w_disp w)) <= ingress_cap
  ∧ w_taken w ++ ingressChan (w_disp w) = w_accepted w
  ∧ w_processed w ++ omap unprocessed (w_workers w) ≡ₚ w_taken w
  ∧ length (w_taken w) <= Z.to_nat (workersNum d).
Proof.
  destruct (steps_inv _ _ _ Hrun (Start_inv d s Hd)) as [Hc Hf _ Ho Hp].
  split_and!; [done|done|done|lia].
Qed.

(** C14. Handlers that touch the state they share once, as their last act, need no
    lock: whatever the interleaving of pushes, cancellation, the steps of the
    workers and the accesses of their handlers, the state is what processing a
    sequence of packets one after the other gives - those taken from the queue,
    each once, but for the ones whose handling is not over.  Without that
    condition handlers race ([handlers_can_race]). *)
Theorem dispatcher_sequential `{!SingleAccess H S} d (s : S) w
    (Hrun : rtc step (Start d s) w) :
  ∃ ps, ps ++ held_packets (w_workers w) ≡ₚ w_taken w
        ∧ process_all d ps s = (Ok (), w_state w).
Proof.
  apply (sq_run d s w). by eapply steps_sequential, Start_sequential.
Qed.

(** C15. The workers' part is live.  From any moment on, when nothing is pushed
    or cancelled any more and no packet that was accepted makes its handler
    fail, every run of the workers ends, whatever accesses their handlers make
    and however these interleave, and at the end exactly the first [workersNum]
    packets of all that were ever accepted have been taken, in their order, and
    each has been processed. *)
Theorem dispatcher_drains d (s : S) w0
    (Hcap : length (ingressChan d) <= ingress_cap)
    (Hrun : rtc step (Start d s) w0) (Hlive : ctx_done (w_disp w0) = false)
    (Hok : ∀ p, p ∈ w_accepted w0 → never_fails (processPacket_task d p)) :
  ends_in worker_step (λ w, w_taken w = take (Z.to_nat (workersNum d)) (w_accepted w0)
                            ∧ w_processed w ≡ₚ w_taken w
                            ∧ Forall (λ x, idle x = true) (w_workers w)) w0.
Proof.
  split; [apply worker_step_sn|].
  intros w Hw.
  assert (w_accepted w = w_accepted w0 ∧ ctx_done (w_disp w) = false) as [Hacc Hcd].
  { apply (rtc_ind_inv worker_step (λ x, w_accepted x = w_accepted w0 ∧ ctx_done (w_disp x) = false)
             w0 w); [|exact Hw|done].
    intros x y Hxy [HA HC]. destruct (worker_step_keeps _ _ Hxy) as [-> ->]; done. }
  assert (rtc step (Start d s) w) as Hreach.
  { etransitivity; [exact Hrun|]. eapply rtc_subrel; [|exact Hw]. apply step_worker. }
  rewrite <- Hacc in Hok |- *.
  destruct (workers_progress d s w Hcap Hreach Hcd Hok) as [?|[Ht Hi]]; [by left|right].
  split_and!; [done| |done].
  pose proof (inv_processed _ _ (steps_inv _ _ _ Hreach (Start_inv d s Hcap))) as Hp.
  assert (omap unprocessed (w_workers w) = []) as E; [|by rewrite E, app_nil_r in Hp].
  clear -Hi. induction Hi as [|x ws Hx _ IH]; [done|]. cbn. by destruct x.
Qed.

(** On a machine with one CPU the dispatcher has no worker at all, whatever
    is registered: no packet is ever taken and no handler runs. *)
Theorem single_cpu_no_worker (hs : list (option PayloadType * H)) (s : S) w
    (Hrun : rtc step (Start (foldl (λ d h, Registry d h.1 h.2) (NewDispatcher 1) hs) s) w) :
  w_taken w = [] ∧ w_state w = s.
Proof.
  set (d := foldl _ _ hs) in *.
  assert (workersNum d = 0%Z) as Hn.
  { subst d. by rewrite foldl_Registry. }
  assert (w_workers w = [] ∧ w_taken w = [] ∧ w_state w = s) as (_ & ? & ?); [|done].
  remember (Start d s) as w0 eqn:E0.
  assert (w_workers w0 = [] ∧ w_taken w0 = [] ∧ w_state w0 = s) as H0'
    by (rewrite E0; simpl; by rewrite Hn).
  clear E0. induction Hrun as [|x y z Hxy _ IH]; [done|]. apply IH.
  destruct Hxy as [| |x y Hxy]; [by simpl in *..|]. destruct H0' as (E & _).
  destruct Hxy; cbn in E; by subst.
Qed.

(** C9. Handlers see authentic messages only: when processing a packet has any
    effect or fails, then either its key is too short (and the process
    panics) or the first 32 bytes of the key verify the signature over the
    data, the data decodes to a message, and what happened is the run of the
    handler registered for the type of its payload. *)
Theorem processPacket_authentic (d : Dispatcher H) (p : IngressPacket) (s s' : S)
    (r : res unit) (Hrun : processPacket d p s = (r, s')) (Heff : r ≠ Ok () ∨ s' ≠ s) :
  let env := ip_Envelope p in
  (length (Envelope_PubKey env) < 32
   ∧ r = Panic (PanicConvert (length (Envelope_PubKey env)) 32) ∧ s' = s)
  ∨ ∃ pk m h, arr pk = take 32 (Envelope_PubKey env)
      ∧ VerifySignature pk (Envelope_Data env) (Envelope_Signature env) = true
      ∧ unmarshal (Envelope_Data env) = inl m
      ∧ handlers d !! reflect_TypeOf (MessageData_Payload m) = Some h
      ∧ Handle h m (ip_PeerID p) s = (r, s').
Proof.
  intros env. subst env. unfold processPacket, mbind, M_bind, lift in Hrun.
  destruct (decide (length (Envelope_PubKey (ip_Envelope p)) < 32)) as [Hs|Hs].
  { rewrite to_array_short in Hrun by done. injection Hrun as <- <-. by left. }
  right. destruct (to_array_long 32 (Envelope_PubKey (ip_Envelope p))) as (pk & E & Hpk); [lia|].
  rewrite E, length_arr in Hrun. cbn [Nat.eqb negb orb] in Hrun.
  assert (S → (r, s') ≠ (Ok (), s)) as Hne by (intros _ [= -> ->]; by destruct Heff).
  destruct (VerifySignature pk _ _) eqn:V; cbn in Hrun; [|by destruct (Hne s)].
  destruct (unmarshal _) as [m|] eqn:U; [|by destruct (Hne s)].
  unfold route in Hrun. destruct (handlers d !! _) as [h|] eqn:Hh; [|by destruct (Hne s)].
  by exists pk, m, h.
Qed.

(** An envelope whose public key has fewer than 32 bytes ends the process:
    the length is tested after the conversion that panics. *)
Theorem processPacket_short_key_panics (d : Dispatcher H) (data sig pk : bytes) (id : PeerID)
    (s : S) (Hpk : length pk < 32) :
  processPacket d (mkIngressPacket (mkEnvelope data sig pk) id) s
  = (Panic (PanicConvert (length pk) 32), s).
Proof. unfold processPacket, mbind, M_bind, lift. simpl. by rewrite to_array_short. Qed.

(** A correctly signed message is handed to its handler unchanged. *)
Lemma processPacket_signed (d : Dispatcher H) pk data sig m id s :
  VerifySignature pk data sig = true → unmarshal data = inl m →
  processPacket d (mkIngressPacket (mkEnvelope data sig (arr pk)) id) s = route d m id s.
Proof.
  intros V U. unfold processPacket, mbind, M_bind, lift. simpl.
  by rewrite to_array_arr, length_arr, V, U.
Qed.
End dispatcher_properties.

(** ** Witnesses: handlers that record what they get *)
Module DispatcherWitness.
Import ToySig.
#[export] Instance recorder : Handler nat (list (nat * MessageData)).
Proof.
  refine {| Handle h m _ s := (Ok (), s ++ [(h, m)]);
            Handle_task h m _ := Access (λ s, s ++ [(h, m)]) (λ _, Ends (Ok ())) |}.
  reflexivity.
Defined.
#[export] Instance recorder_once : SingleAccess nat (list (nat * MessageData)).
Proof. by intros h m id s. Qed.

Definition key : PeerPrivateKey := NewKeyFromSeed (pad_array 32 (str "seed")).
Definition me : PeerID := zero_array 32.
Definition msg : MessageData :=
  mkMessageData (str "id") [] [] (mk_uint 64 0) (mk_uint 32 20)
    (Some (MessageData_ChatMessage (mkChatMessage (str "secret")))).
Definition envelope : Envelope :=
  mkEnvelope (ser msg) (arr (ed_sign key (ser msg))) (arr (PeerPrivateKeyToPublic key)).
Definition disp (cpus : Z) : Dispatcher nat :=
  Registry (NewDispatcher cpus) (Some T_ChatMessage) 7.
Definition full_disp (cpus : Z) : Dispatcher nat := PushMessage envelope me (disp cpus).

Lemma processed :
  processPacket (disp 3) (mkIngressPacket envelope me) [] = (Ok (), [(7, msg)]).
Proof. vm_compute. reflexivity. Qed.

Lemma processPacket_authentic_witness :
  ∃ (pk : PeerPublicKey) (m : MessageData) (h : nat),
    arr pk = take 32 (arr (PeerPrivateKeyToPublic key)) ∧ unmarshal (ser msg) = inl m ∧ Handle h m me [] = (Ok (), [(7, msg)]).
Proof.
  pose proof (processPacket_authentic (H:=nat) (S:=list (nat * MessageData)) (disp 3)
                (mkIngressPacket envelope me) [] [(7, msg)] (Ok ()) processed) as T.
  destruct T as [(Hs & _)|(pk & m & h & Hpk & _ & U & _ & R)].
  - by right.
  - exfalso. apply Nat.ltb_lt in Hs. discriminate Hs.
  - exists pk, m, h. split; [exact Hpk|]. split; [exact U|exact R].
Defined.

(** The run of one worker with the packet. *)
Definition p : IngressPacket := mkIngressPacket envelope me.
Definition finished : World nat (list (nat * MessageData)) :=
  mkWorld (set_chan (full_disp 3) []) [Returned; Waiting] [(7, msg)] [p] [p] [p].
Lemma finished_reached : rtc step (Start (full_disp 3) []) finished.
Proof.
  apply worker_steps.
  apply (worker_alone 0 p [] [] [(7, msg)] (full_disp 3) [Waiting; Waiting]); reflexivity.
Qed.

Lemma worker_quota_witness :
  w_taken finished = [p] ∧ w_processed finished ≡ₚ [p] ∧ length (w_taken finished) <= 2.
Proof.
  destruct (worker_quota (full_disp 3) [] finished) as (_ & _ & Hp & Hl).
  - apply Nat.leb_le. reflexivity.
  - exact finished_reached.
  - split; [reflexivity|]. split; [exact Hp|exact Hl].
Defined.

Lemma dispatcher_sequential_witness :
  ∃ ps, ps ≡ₚ [p] ∧ process_all (full_disp 3) ps [] = (Ok (), [(7, msg)]).
Proof.
  destruct (dispatcher_sequential (full_disp 3) [] finished finished_reached) as (ps & H1 & H2).
  exists ps. cbn in H1. rewrite app_nil_r in H1. split; [exact H1|exact H2].
Defined.

Lemma dispatcher_drains_witness :
  ∃ w : World nat (list (nat * MessageData)),
    rtc worker_step (Start (full_disp 3) []) w ∧ w_taken w = [p] ∧ w_processed w ≡ₚ w_taken w.
Proof.
  destruct (ends_in_reached _ _ _ (dispatcher_drains (full_disp 3) [] _ ltac:(by apply Nat.leb_le)
              (rtc_refl _ _) eq_refl ltac:(intros q ->%list_elem_of_singleton; by vm_compute)))
    as (w & Hw & Ht & Hp & _).
  exists w. split; [exact Hw|split; [exact Ht|exact Hp]].
Defined.

Lemma single_cpu_no_worker_witness :
  ∃ w : World nat (list (nat * MessageData)),
    ingressChan (w_disp w) = [mkIngressPacket envelope me] ∧ w_taken w = [] ∧ w_state w = [].
Proof.
  exists (mkWorld (full_disp 1) [] [] [mkIngressPacket envelope me] [] []).
  split; [reflexivity|].
  apply (single_cpu_no_worker [(Some T_ChatMessage, 7)]).
  eapply rtc_l; [apply (step_push envelope me (disp 1) [] [] [] [] [])|apply rtc_refl].
Defined.

Lemma processPacket_short_key_panics_witness :
  processPacket (disp 3) (mkIngressPacket (mkEnvelope [] [] (str "short")) me) []
  = (Panic (PanicConvert 5 32), []).
Proof. apply processPacket_short_key_panics. apply Nat.ltb_lt. reflexivity. Defined.

(** Handlers that count packets without a lock: two workers read 0, and both
    write 1. *)
#[local] Instance counter : Handler unit nat.
Proof.
  refine {| Handle _ _ _ n := (Ok (), S n);
            Handle_task _ _ _ := Access id (λ n, Access (λ _, S n) (λ _, Ends (Ok ()))) |}.
  reflexivity.
Defined.
Definition counting : Dispatcher unit :=
  let d := Registry (NewDispatcher 3) (Some T_ChatMessage) () in
  PushMessage envelope me (PushMessage envelope me d).
Theorem handlers_can_race :
  process_all counting [p; p] 0 = (Ok (), 2)
  ∧ ∃ w : World unit nat, rtc step (Start counting 0) w ∧ w_state w = 1
      ∧ w_processed w = [p; p] ∧ w_workers w = [Returned; Returned].
Proof.
  split; [vm_compute; reflexivity|]. eexists. split.
  - eapply rtc_l; [apply step_worker, (step_take 0 p [p]); reflexivity|].
    eapply rtc_l; [apply step_worker, (step_take 1 p []); reflexivity|].
    cbn [set_chan].
    eapply rtc_l; [apply step_worker, (step_process 0 p); reflexivity|].
    eapply rtc_l; [apply step_worker, (step_process 1 p); reflexivity|].
    change (processPacket_task _ p) with (Access (S := nat) id (λ n, Access (λ _, S n) (λ _, Ends (Ok ())))).
    eapply rtc_l; [apply step_worker; by eapply (step_access 0 p)|].
    eapply rtc_l; [apply step_worker; by eapply (step_access 1 p)|].
    eapply rtc_l; [apply step_worker; by eapply (step_access 0 p)|].
    eapply rtc_l; [apply step_worker; by eapply (step_access 1 p)|].
    eapply rtc_l; [apply step_worker; by eapply (step_return 0 p)|].
    apply rtc_once, step_worker. by eapply (step_return 1 p).
  - split_and!; reflexivity.
Qed.
End DispatcherWitness.
