(* ===== verification/Stream.v ===== *)
(** * Streams of a connection: internal/network/stream.go, quic.go (PeerWrapper)

    A [PeerWrapper] owns the streams of one connection.  Each [Stream] has two
    goroutines, [readLoop] and [writeLoop], between the QUIC stream and two
    channels of 100 messages, and is closed once, by whoever comes first.

    Streams are shared by pointer (the table, the goroutines, the callbacks), so
    they live in a heap; the goroutines, the callers and the cancellation
    interleave as the relation [step].  A panic ends the process and has no
    successor state.

    A unidirectional stream is a [GossipStream]: what has arrived, and whether
    the peer has ended it.  Its handler blocks when the stream is open and holds
    no whole frame. *)

From Stdlib Require Import ZArith Lia.
From stdpp Require Import relations.
From S2P Require Import Prelude Sha2 Types Proto ToyCodec Frame Signature Handshake.

Record StreamMessage := mkStreamMessage { sm_Type : MessageType; sm_Payload : bytes }.

#[export] Instance StreamMessage_eq_dec : EqDecision StreamMessage.
Proof. solve_decision. Defined.

Definition stream_cap : nat := 100.

Record Stream (W : Type) := mkStream {
  RemoteID : PeerID;
  Incoming : list StreamMessage;
  Outgoing : list StreamMessage;
  st_in : Reader;                   (* the QUIC stream: what will arrive *)
  st_out : W;                       (* and what was written *)
  st_cancelled : bool;              (* s.cancel was called *)
  st_once : bool;                   (* the body of Close has run *)
  st_reader : option (option StreamMessage);  (* readLoop: running, the message it holds *)
  st_writer : bool;                 (* writeLoop: running *)
  (* history: the stream at its creation, what left Incoming, what entered Outgoing *)
  st_in0 : Reader;
  st_out0 : W;
  st_received : list StreamMessage;
  st_sent : list StreamMessage
}.
Arguments mkStream {W} _ _ _ _ _ _ _ _ _ _ _ _ _.
Arguments RemoteID {W} _.
Arguments Incoming {W} _.
Arguments Outgoing {W} _.
Arguments st_in {W} _.
Arguments st_out {W} _.
Arguments st_cancelled {W} _.
Arguments st_once {W} _.
Arguments st_reader {W} _.
Arguments st_writer {W} _.
Arguments st_in0 {W} _.
Arguments st_out0 {W} _.
Arguments st_received {W} _.
Arguments st_sent {W} _.

Definition StreamID : Type := Z.

(** A stream that the peer opens for gossip, as it will have been in the end: all
    the bytes that the peer ever sends on it, and whether it ever ends - is
    closed or reset, or goes down with its connection.  A read past the bytes of
    a stream that has not ended waits. *)
Record GossipStream := mkGossipStream { gs_data : Reader; gs_ends : bool }.

(** [streams] is the table [map[StreamID]*Stream]: a stream's pointer is its
    identifier, so the table is the set of its keys. *)
Record PeerWrapper (W : Type) := mkPeerWrapper {
  pw_conn : ConnID;
  pw_peerID : PeerID;
  pw_cancelled : bool;
  pw_closed : option QuicErrorCode;
  streams : gset StreamID;
  heap : gmap StreamID (Stream W);
  pending : gset StreamID           (* in wrapAndRegister, before the table is written *)
}.
Arguments mkPeerWrapper {W} _ _ _ _ _ _ _.
Arguments pw_conn {W} _.
Arguments pw_peerID {W} _.
Arguments pw_cancelled {W} _.
Arguments pw_closed {W} _.
Arguments streams {W} _.
Arguments heap {W} _.
Arguments pending {W} _.

(** The constructor leaves [peerID] at its zero value. *)
Definition NewPeerWrapper {W} (conn : ConnID) : PeerWrapper W :=
  mkPeerWrapper conn (zero_array 32) false None ∅ ∅ ∅.

Section stream.
Context {W : Type} `{Writer W}.
Implicit Types (p : PeerWrapper W) (s : Stream W).

(** [NewStream] makes the channels and starts both goroutines. *)
Definition NewStream (remoteID : PeerID) (r : Reader) (w : W) : Stream W :=
  mkStream remoteID [] [] r w false false (Some None) true r w [] [].

Definition set_heap p id s : PeerWrapper W :=
  mkPeerWrapper (pw_conn p) (pw_peerID p) (pw_cancelled p) (pw_closed p) (streams p)
    (<[id := s]> (heap p)) (pending p).
Definition set_streams p t : PeerWrapper W :=
  mkPeerWrapper (pw_conn p) (pw_peerID p) (pw_cancelled p) (pw_closed p) t (heap p) (pending p).
Definition set_pending p t : PeerWrapper W :=
  mkPeerWrapper (pw_conn p) (pw_peerID p) (pw_cancelled p) (pw_closed p) (streams p) (heap p) t.

Definition removeStream p id : PeerWrapper W := set_streams p (streams p ∖ {[id]}).

Definition closed s : Stream W :=
  mkStream (RemoteID s) (Incoming s) (Outgoing s) (st_in s) (st_out s) true true
    (st_reader s) (st_writer s) (st_in0 s) (st_out0 s) (st_received s) (st_sent s).

(** [Close]: cancel, close the QUIC stream, then [onClose], which is
    [removeStream]; all of it once. *)
Definition Stream_Close p id : PeerWrapper W :=
  match heap p !! id with
  | Some s => if st_once s then p else removeStream (set_heap p id (closed s)) id
  | None => p
  end.

Definition set_reader s (rd : option (option StreamMessage)) (inc : list StreamMessage)
    (r : Reader) (received : list StreamMessage) : Stream W :=
  mkStream (RemoteID s) inc (Outgoing s) r (st_out s) (st_cancelled s) (st_once s) rd
    (st_writer s) (st_in0 s) (st_out0 s) received (st_sent s).
Definition set_writer s (running : bool) (out : list StreamMessage) (w : W)
    (sent : list StreamMessage) : Stream W :=
  mkStream (RemoteID s) (Incoming s) out (st_in s) w (st_cancelled s) (st_once s)
    (st_reader s) running (st_in0 s) (st_out0 s) (st_received s) sent.

(** One step of a goroutine or a user of a stream; [parent] tells whether the
    context of the wrapper, the parent of the stream's, is done, and the last
    argument whether the step ends with [s.Close()]. *)
Inductive stream_step (parent : bool) : Stream W → Stream W → bool → Prop :=
(* readLoop: read a frame, then send it on Incoming or see the cancellation; Close
   has cancelled the reads *)
| ss_read s t d r' :
    st_reader s = Some None → st_once s = false → readFrame (st_in s) = (Ok (t, d), r') →
    stream_step parent s
      (set_reader s (Some (Some (mkStreamMessage t d))) (Incoming s) r' (st_received s)) false
| ss_read_error s e r' :
    st_reader s = Some None → st_once s = false → readFrame (st_in s) = (Err e, r') →
    stream_step parent s (set_reader s None (Incoming s) r' (st_received s)) true
| ss_read_closed s :
    st_reader s = Some None → st_once s = true →
    stream_step parent s (set_reader s None (Incoming s) (st_in s) (st_received s)) true
| ss_deliver s m :
    st_reader s = Some (Some m) → length (Incoming s) < stream_cap →
    stream_step parent s
      (set_reader s (Some None) (Incoming s ++ [m]) (st_in s) (st_received s)) false
| ss_read_cancel s m :
    st_reader s = Some (Some m) → parent || st_cancelled s = true →
    stream_step parent s (set_reader s None (Incoming s) (st_in s) (st_received s)) true
(* writeLoop: the result of writeFrame is ignored; it fails after Close *)
| ss_write s m out r w' :
    st_writer s = true → Outgoing s = m :: out → st_once s = false →
    writeFrame (sm_Type m) (sm_Payload m) (st_out s) = (r, w') → is_panic r = false →
    stream_step parent s (set_writer s true out w' (st_sent s)) false
| ss_write_closed s m out :
    st_writer s = true → Outgoing s = m :: out → st_once s = true →
    stream_step parent s (set_writer s true out (st_out s) (st_sent s)) false
| ss_write_cancel s :
    st_writer s = true → parent || st_cancelled s = true →
    stream_step parent s (set_writer s false (Outgoing s) (st_out s) (st_sent s)) true
(* Send, and a receive from ReadCh *)
| ss_send s m :
    length (Outgoing s) < stream_cap →
    stream_step parent s
      (set_writer s (st_writer s) (Outgoing s ++ [m]) (st_out s) (st_sent s ++ [m])) false
| ss_recv s m inc :
    Incoming s = m :: inc →
    stream_step parent s
      (set_reader s (st_reader s) inc (st_in s) (st_received s ++ [m])) false.

(** [wrapAndRegister] starts the goroutines before it writes the table. *)
Definition wrapAndRegister_new p id (r : Reader) (w : W) : PeerWrapper W :=
  set_pending (set_heap p id (NewStream (pw_peerID p) r w)) (pending p ∪ {[id]}).
Definition wrapAndRegister_table p id : PeerWrapper W :=
  set_pending (set_streams p (streams p ∪ {[id]})) (pending p ∖ {[id]}).

(** [PeerWrapper.Close]. *)
Definition PeerWrapper_Close p : PeerWrapper W :=
  mkPeerWrapper (pw_conn p) (pw_peerID p) true
    (match pw_closed p with Some c => Some c | None => Some ErrCodeNormalClose end)
    (streams p) (heap p) (pending p).

Inductive step : PeerWrapper W → PeerWrapper W → Prop :=
(* wrapAndRegister, on a stream the connection just opened or accepted *)
| step_new p id r w :
    heap p !! id = None → step p (wrapAndRegister_new p id r w)
| step_register p id :
    id ∈ pending p → step p (wrapAndRegister_table p id)
| step_stream p id s s' (close : bool) :
    heap p !! id = Some s → stream_step (pw_cancelled p) s s' close →
    let p' := set_heap p id s' in
    step p (if close then Stream_Close p' id else p')
| step_close p id :
    is_Some (heap p !! id) → step p (Stream_Close p id)
| step_cancel p : step p (PeerWrapper_Close p).

(** ** Gossip: one message per unidirectional stream *)

(** [opened] and [closed] are the results of [OpenUniStreamSync] and of the
    stream's [Close]. *)
Definition SendGossipMessage (opened closed : unit + gerror) (msgType : MessageType)
    (data : bytes) : M W unit :=
  _ ← lift (of_lib opened);
  _ ← writeFrame msgType data;
  lift (of_lib closed).

Definition SendGossipDatagram (SendDatagram : bytes → unit + gerror) (data : bytes) : res unit :=
  if decide (1200 < length data) then Err (ErrorString "message too big for datagram")
  else of_lib (SendDatagram data).

(** [readFrame] on such a stream: nothing while it waits for more. *)
Definition readFrame_stream (stream : GossipStream) : option (res (MessageType * bytes)) :=
  match (readFrame (gs_data stream)).1 with
  | Err e => if gs_ends stream then Some (Err e) else None
  | r => Some r
  end.

(** [onData] is the callback, if one is set.  The read has no deadline and does
    not look at a context: [None] is a goroutine that
    waits in [readFrame] for ever. *)
Definition handleGossipStream {D} (onData : option (MessageType → bytes → PeerID → M D unit))
    p (stream : GossipStream) (d : D) : option (res unit * D) :=
  match readFrame_stream stream with
  | None => None
  | Some (Ok (msgType, msg)) =>
      match onData with
      | Some f => Some (f msgType msg (pw_peerID p) d)
      | None => Some (Ok (), d)
      end
  | Some (Err _) => Some (Ok (), d)
  | Some (Panic q) => Some (Panic q, d)
  end.
End stream.

(** A stream that is silent: it neither ends nor holds a whole frame. *)
Definition silent (stream : GossipStream) : bool :=
  match readFrame_stream stream with None => true | Some _ => false end.

Lemma readFrame_stream_ok (r : Reader) e x :
  (readFrame r).1 = Ok x → readFrame_stream (mkGossipStream r e) = Some (Ok x).
Proof. unfold readFrame_stream. cbn. by intros ->. Qed.

Lemma handle_silent {W D} (f : option (MessageType → bytes → PeerID → M D unit))
    (p : PeerWrapper W) stream d :
  silent stream = true → handleGossipStream f p stream d = None.
Proof. unfold silent, handleGossipStream. by destruct (readFrame_stream stream). Qed.

(** ** Lemmas *)

Section stream_lemmas.
Context {W : Type} `{Writer W}.
Implicit Types (p : PeerWrapper W) (s : Stream W).

(** A property of streams that the steps of a stream and [Close] keep, and that
    a new stream has, holds of every stream at all times. *)
Definition each_stream (P : Stream W → Prop) p : Prop :=
  ∀ id s, heap p !! id = Some s → P s.

Lemma each_insert P p id s : each_stream P p → P s → each_stream P (set_heap p id s).
Proof.
  intros Hp Hs i t. simpl. destruct (decide (id = i)) as [->|Hne].
  - rewrite lookup_insert_eq. by intros [= <-].
  - rewrite lookup_insert_ne by done. apply Hp.
Qed.

Lemma each_Close P p id :
  (∀ s, P s → P (closed s)) → each_stream P p → each_stream P (Stream_Close p id).
Proof.
  intros Hc Hp. unfold Stream_Close. destruct (heap p !! id) as [s|] eqn:E; [|done].
  destruct (st_once s); [done|]. apply (each_insert P p id (closed s)); eauto.
Qed.

Lemma step_each P p p' :
  (∀ s, P s → P (closed s)) →
  (∀ r w, P (NewStream (pw_peerID p) r w)) →
  (∀ b s s' c, stream_step b s s' c → P s → P s') →
  step p p' → each_stream P p → each_stream P p'.
Proof.
  intros Hc Hn Hs. destruct 1 as [p id r w E|p id E|p id s s' c E St p1|p id E|p]; intros Hp.
  - apply (each_insert P p id); auto.
  - exact Hp.
  - assert (each_stream P p1) as H1 by (apply each_insert; eauto).
    destruct c; [by apply each_Close|done].
  - by apply each_Close.
  - exact Hp.
Qed.

Lemma step_peerID p p' : step p p' → pw_peerID p' = pw_peerID p.
Proof.
  assert (∀ (q : PeerWrapper W) i, pw_peerID (Stream_Close q i) = pw_peerID q) as Hc.
  { intros q i. unfold Stream_Close. destruct (heap q !! i); [|done]. by destruct st_once. }
  destruct 1; try destruct close; by rewrite ?Hc.
Qed.

Lemma step_conn p p' : step p p' →
  pw_conn p' = pw_conn p ∧ (pw_cancelled p = true → pw_cancelled p' = true).
Proof.
  assert (∀ (q : PeerWrapper W) i, pw_conn (Stream_Close q i) = pw_conn q
            ∧ pw_cancelled (Stream_Close q i) = pw_cancelled q) as Hc.
  { intros q i. unfold Stream_Close. destruct (heap q !! i); [|done]. by destruct st_once. }
  destruct 1 as [| |p id s s' [] E St p1|p id E|]; try done.
  - subst p1. by destruct (Hc (set_heap p id s') id) as [-> ->].
  - by destruct (Hc p id) as [-> ->].
Qed.

Lemma steps_each (P : Stream W → Prop) conn p :
  (∀ s, P s → P (closed s)) →
  (∀ r w, P (NewStream (zero_array 32) r w)) →
  (∀ b s s' c, stream_step b s s' c → P s → P s') →
  rtc step (NewPeerWrapper conn) p → each_stream P p ∧ pw_peerID p = zero_array 32.
Proof.
  intros Hc Hn Hs Hrun.
  assert (each_stream P (NewPeerWrapper conn) ∧ pw_peerID (NewPeerWrapper (W:=W) conn) = zero_array 32)
    as Hi by (split; [intros id s E; unfold NewPeerWrapper in E; cbn [heap] in E;
                    by rewrite lookup_empty in E|done]).
  induction Hrun as [|x y z Hxy _ IH]; [done|]. destruct Hi as [Hx Hid]. apply IH.
  rewrite (step_peerID _ _ Hxy). split; [|done].
  eapply step_each; [done| |done..]. by rewrite Hid.
Qed.
End stream_lemmas.

(** ** Sequences of frames *)

Definition valid_message (m : StreamMessage) : Prop :=
  (0 <= sm_Type m < 256)%Z ∧ (Z.of_nat (length (sm_Payload m)) + 1 < 2 ^ 32)%Z.

Definition frames (ms : list StreamMessage) : bytes :=
  concat ((λ m, frame_bytes (sm_Type m) (sm_Payload m)) <$> ms).

Inductive readFrames (r : Reader) : list StreamMessage → Reader → Prop :=
  | rf_nil : readFrames r [] r
  | rf_snoc ms r1 t d r2 :
      readFrames r ms r1 → readFrame r1 = (Ok (t, d), r2) →
      readFrames r (ms ++ [mkStreamMessage t d]) r2.

Lemma readFrames_init r ms m r2 :
  readFrames r (ms ++ [m]) r2 → ∃ r1, readFrames r ms r1.
Proof.
  inversion 1 as [E|ms' r1 t d r2' Hms Hr E]; [by destruct ms|].
  apply app_inj_tail in E as [-> _]. eauto.
Qed.

(** More bytes do not change a read that succeeds. *)
Lemma full_more n s a s1 t : full n s = (Ok a, s1) → full n (s ++ t) = (Ok a, s1 ++ t).
Proof.
  unfold full. destruct (Z.leb_spec n (Z.of_nat (length s))); [|done]. intros [= <- <-].
  destruct (Z.leb_spec n (Z.of_nat (length (s ++ t)))) as [_|Hlt];
    [|rewrite length_app in Hlt; lia].
  rewrite take_app_le, drop_app_le by lia. done.
Qed.

Lemma frame_of_more s x s1 t : frame_of s = (Ok x, s1) → frame_of (s ++ t) = (Ok x, s1 ++ t).
Proof.
  unfold frame_of. destruct (full 4 s) as [[h|e|p] s2] eqn:E1; try done.
  rewrite (full_more _ _ _ _ t E1).
  destruct (full (be_get h) s2) as [[d|e|p] s3] eqn:E2; try done.
  rewrite (full_more _ _ _ _ t E2). by destruct d; intros [= <- <-].
Qed.

(** What is read from a part of a sequence of frames is a prefix of it. *)
Lemma readFrames_prefix r ms ms' r' tail :
  Forall valid_message ms → concat r ++ tail = frames ms → readFrames r ms' r' →
  ∃ rest, ms = ms' ++ rest ∧ concat r' ++ tail = frames rest.
Proof.
  intros Hv Hr. induction 1 as [|ms1 r1 t d r2 Hms IH Hrd]; [by exists ms|].
  destruct IH as (rest & -> & Hrest).
  pose proof (readFrame_flat r1) as F. rewrite Hrd in F. unfold flat in F. cbn [fst snd] in F.
  symmetry in F. apply (frame_of_more _ _ _ tail) in F. rewrite Hrest in F.
  destruct rest as [|m rest]; [done|].
  apply Forall_app in Hv as [_ Hv]. apply Forall_cons in Hv as [[Ht Hd] _].
  unfold frames in F. cbn [fmap list_fmap concat] in F.
  rewrite frame_of_bytes, Z.mod_small in F by done. injection F as <- <- Hr2.
  exists rest. rewrite <- app_assoc. split; [by destruct m|done].
Qed.

(** ** What the goroutines keep *)
Section stream_invariant.
Context {W : Type} `{WriterLaws W} `{!ReliableWriter W}.
Implicit Types (s : Stream W).

Definition held s : list StreamMessage :=
  match st_reader s with Some (Some m) => [m] | _ => [] end.

Record stream_ok s : Prop := {
  ok_incoming : length (Incoming s) <= stream_cap;
  ok_outgoing : length (Outgoing s) <= stream_cap;
  ok_read : ∃ r1, readFrames (st_in0 s) (st_received s ++ Incoming s ++ held s) r1
            ∧ (st_reader s ≠ None → r1 = st_in s);
  ok_write : ∃ done lost, st_sent s = done ++ lost ++ Outgoing s
             ∧ written (st_out s) = written (st_out0 s) ++ frames done
             ∧ (st_once s = false → lost = [])
}.

Lemma stream_ok_new id r w : stream_ok (NewStream id r w).
Proof.
  split; simpl; [apply le_0_n|apply le_0_n| |].
  - exists r. split; [apply rf_nil|done].
  - exists [], []. split; [done|]. by rewrite app_nil_r.
Qed.

Lemma stream_ok_closed s : stream_ok s → stream_ok (closed s).
Proof. intros [Hi Ho Hr (dn & lost & Hs & Hw & _)]. split; try done. by exists dn, lost. Qed.

Lemma stream_ok_step b s s' c : stream_step b s s' c → stream_ok s → stream_ok s'.
Proof.
  intros St [Hi Ho (r1 & Hr & Hst) Hw].
  destruct St as [s t d r' Er _ Ef|s e r' Er _ Ef|s Er _|s m Er Hl|s m Er _
                 |s m out r w' Ew Eo Hopen Ewf Hp|s m out Ew Eo Honce
                 |s _ _|s m Hl|s m inc Ei]; split; simpl; try done;
    unfold held in *; simpl; try (by exists r1).
  - rewrite Er in Hr, Hst. rewrite <- (Hst ltac:(done)) in Ef.
    exists r'. split; [|done]. rewrite app_nil_r in Hr. rewrite app_assoc. by eapply rf_snoc.
  - rewrite Er in Hr. exists r1. by split.
  - rewrite Er in Hr. exists r1. by split.
  - rewrite length_app. simpl. lia.
  - rewrite Er in Hr, Hst. exists r1. rewrite app_nil_r. split; [done|].
    intros _. by apply Hst.
  - rewrite Er in Hr. rewrite app_assoc in Hr. apply readFrames_init in Hr as [r2 Hr].
    exists r2. rewrite app_nil_r. by split.
  - rewrite Eo in Ho. simpl in Ho. lia.
  - destruct Hw as (dn & lost & Hs & Hw & Hl). rewrite (Hl Hopen), Eo in Hs. exists (dn ++ [m]), [].
    split; [by rewrite <- app_assoc|]. split; [|done].
    destruct (writeFrame_reliable (sm_Type m) (sm_Payload m) (st_out s)) as (w2 & E2 & Hw2).
    rewrite Ewf in E2. injection E2 as -> ->. rewrite Hw2, Hw. unfold frames.
    rewrite fmap_app, concat_app. simpl. by rewrite app_nil_r, app_assoc.
  - rewrite Eo in Ho. simpl in Ho. lia.
  - destruct Hw as (dn & lost & Hs & Hw & Hl). exists dn, (lost ++ [m]). rewrite Eo in Hs.
    split; [by rewrite <- app_assoc|]. split; [done|congruence].
  - rewrite length_app. simpl. lia.
  - destruct Hw as (dn & lost & -> & Hw & Hlost). exists dn, lost. by rewrite <- !app_assoc.
  - rewrite Ei in Hi. simpl in Hi. lia.
  - exists r1. rewrite Ei in Hr. rewrite <- app_assoc. by split.
Qed.

Lemma reachable_ok conn (p : PeerWrapper W) id s :
  rtc step (NewPeerWrapper conn) p → heap p !! id = Some s → stream_ok s.
Proof.
  intros Hrun. apply (steps_each stream_ok conn p); auto using stream_ok_closed, stream_ok_new.
  intros b s1 s2 c. apply stream_ok_step.
Qed.
End stream_invariant.

(** ** Properties *)

(** C12. A stream delivers in order: whatever the interleaving of readers,
    writers, users and cancellations on both sides, for messages of fewer than
    2^32 - 1 bytes, when the receiving side gets
    a part of the bytes the sending side wrote, what its user has received or
    finds in [Incoming] is a prefix of the messages handed to [Send]; both
    channels stay within their capacity. *)
Theorem stream_fifo {W : Type} `{WriterLaws W} `{!ReliableWriter W} (cA cB : ConnID)
    (pA pB : PeerWrapper W) (idA idB : StreamID) (a b : Stream W) (lost : bytes)
    (HA : rtc step (NewPeerWrapper cA) pA) (Ha : heap pA !! idA = Some a)
    (HB : rtc step (NewPeerWrapper cB) pB) (Hb : heap pB !! idB = Some b)
    (Hvalid : Forall valid_message (st_sent a))
    (Hnet : written (st_out0 a) ++ concat (st_in0 b) ++ lost = written (st_out a)) :
  (st_received b ++ Incoming b) `prefix_of` st_sent a
  ∧ length (Incoming b) <= stream_cap ∧ length (Outgoing a) <= stream_cap.
Proof.
  destruct (reachable_ok cA pA idA a HA Ha) as [_ Ho _ (dn & dropped & Hs & Hw & _)].
  destruct (reachable_ok cB pB idB b HB Hb) as [Hi _ (r1 & Hr & _) _].
  split; [|done]. rewrite Hw in Hnet. apply app_inv_head in Hnet.
  rewrite Hs in Hvalid |- *. apply Forall_app in Hvalid as [Hvalid _].
  destruct (readFrames_prefix _ _ _ _ _ Hvalid Hnet Hr) as (rest & -> & _).
  rewrite <- !app_assoc, app_assoc. apply prefix_app_r. done.
Qed.

(** [Close] does its work once: a second call changes nothing. *)
Lemma Stream_Close_once {W : Type} (p : PeerWrapper W) id :
  Stream_Close (Stream_Close p id) id = Stream_Close p id.
Proof.
  unfold Stream_Close. destruct (heap p !! id) as [s|] eqn:E; [|by rewrite E].
  destruct (st_once s) eqn:Eo; [by rewrite E, Eo|].
  cbn [heap removeStream set_streams set_heap]. by rewrite lookup_insert_eq.
Qed.

Definition leaked {W} (id : StreamID) (p : PeerWrapper W) : Prop :=
  id ∈ streams p ∧ ∃ s, heap p !! id = Some s ∧ st_once s = true.

Lemma leaked_step {W : Type} `{Writer W} id (p p' : PeerWrapper W) :
  step p p' → leaked id p → leaked id p'.
Proof.
  assert (∀ (q : PeerWrapper W) i, leaked id q → leaked id (Stream_Close q i)) as Hc.
  { intros q i [Hin (s & E & Eo)]. unfold Stream_Close.
    destruct (heap q !! i) as [t|] eqn:Ei; [|by split; [|exists s]].
    destruct (st_once t) eqn:Et; [by split; [|exists s]|].
    assert (i ≠ id) as Hne by congruence. split; simpl.
    - apply elem_of_difference. split; [done|]. intros Hid%elem_of_singleton. congruence.
    - exists s. by rewrite lookup_insert_ne. }
  destruct 1 as [p i r w E|p i E|p i t t' c E St p1|p i E|p]; intros Hl.
  - destruct Hl as [Hin (s & Es & Eo)]. split; [done|]. exists s. simpl.
    by rewrite lookup_insert_ne by congruence.
  - destruct Hl as [Hin Hs]. split; [|done]. simpl. apply elem_of_union. by left.
  - assert (st_once t' = st_once t) as Ho by by destruct St.
    assert (leaked id p1) as H1.
    { destruct Hl as [Hin (s & Es & Eo)]. split; [done|]. simpl.
      destruct (decide (i = id)) as [->|Hne].
      - exists t'. rewrite lookup_insert_eq. split; [done|]. congruence.
      - exists s. by rewrite lookup_insert_ne. }
    destruct c; auto.
  - auto.
  - done.
Qed.

(** A closed stream can stay in the table for good: when the peer ends a new
    stream before [wrapAndRegister] writes the table, [readLoop] closes it and
    removes it first, it is registered afterwards, and no later step removes
    it. *)
Theorem closed_stream_leak {W : Type} `{Writer W} (conn : ConnID) (id : StreamID)
    (r r' : Reader) (w : W) (e : gerror) (Hr : readFrame r = (Err e, r')) :
  ∃ p, rtc step (NewPeerWrapper conn) p
       ∧ ∀ p', rtc step p p' → id ∈ streams p' ∧ ∃ s, heap p' !! id = Some s ∧ st_once s = true.
Proof.
  set (p0 := NewPeerWrapper (W:=W) conn).
  set (s0 := NewStream (pw_peerID p0) r w).
  set (s1 := set_reader s0 None [] r' []).
  set (p1 := wrapAndRegister_new p0 id r w).
  set (p2 := Stream_Close (set_heap p1 id s1) id).
  assert (p2 = removeStream (set_heap (set_heap p1 id s1) id (closed s1)) id) as E2.
  { subst p2. unfold Stream_Close. cbn [heap set_heap]. by rewrite lookup_insert_eq. }
  exists (wrapAndRegister_table p2 id). split.
  - eapply rtc_l; [apply (step_new p0 id r w); apply lookup_empty|].
    eapply rtc_l; [apply (step_stream p1 id s0 s1 true)|].
    + apply lookup_insert_eq.
    + by apply (ss_read_error _ s0 e r').
    + apply rtc_once. apply step_register. fold p2. rewrite E2. simpl.
      apply elem_of_union. right. by apply elem_of_singleton.
  - intros p' Hrun.
    assert (leaked id (wrapAndRegister_table p2 id)) as Hl.
    { split; [simpl; apply elem_of_union; right; by apply elem_of_singleton|].
      exists (closed s1). rewrite E2. simpl. by rewrite lookup_insert_eq. }
    change (leaked id p'). induction Hrun; eauto using leaked_step.
Qed.

(** Gossip: the message that one node sends on a stream of its own reaches
    the callback of the other with its type and payload - and with the zero
    identifier for every peer, on gossip and on bidirectional streams alike:
    [peerID] is never set. *)
Theorem gossip_delivers_anonymous {W D : Type} `{WriterLaws W} `{!ReliableWriter W}
    (conn : ConnID) (p : PeerWrapper W) (t : MessageType) (data : bytes)
    (w w' : W) (r : Reader) (ends : bool) (f : MessageType → bytes → PeerID → M D unit) (d : D)
    (Hp : rtc step (NewPeerWrapper conn) p) (Hvalid : valid_message (mkStreamMessage t data))
    (Hsend : SendGossipMessage (inl ()) (inl ()) t data w = (Ok (), w'))
    (Hnet : written w ++ concat r = written w') :
  handleGossipStream (Some f) p (mkGossipStream r ends) d = Some (f t data (zero_array 32) d)
  ∧ ∀ id s, heap p !! id = Some s → RemoteID s = zero_array 32.
Proof.
  destruct (steps_each (λ s : Stream W, RemoteID s = zero_array 32) conn p) as [Hall Hid];
    [done|done| |done|].
  { intros b s s' c St. by destruct St. }
  split; [|exact Hall].
  destruct Hvalid as [Ht Hd]. simpl in Ht, Hd.
  unfold SendGossipMessage, mbind, M_bind, lift in Hsend. cbn [of_lib] in Hsend.
  destruct (writeFrame t data w) as [[[]|e|q] w1] eqn:Ew; try done.
  injection Hsend as <-. apply writeFrame_written in Ew. rewrite Ew in Hnet.
  apply app_inv_head in Hnet.
  destruct (readFrame_bytes t data [] r) as (r' & E & _); [done|done|by rewrite app_nil_r|].
  unfold handleGossipStream. rewrite (readFrame_stream_ok r ends (t, data)) by by rewrite E.
  by rewrite Hid.
Qed.

(** A datagram of more than 1200 bytes is refused before it is sent. *)
Lemma SendGossipDatagram_bound f data :
  SendGossipDatagram f data
  = if 1200 <? length data then Err (ErrorString "message too big for datagram")
    else of_lib (f data).
Proof.
  unfold SendGossipDatagram. case_decide as Hd.
  - by rewrite (proj2 (Nat.ltb_lt _ _) Hd).
  - by rewrite (proj2 (Nat.ltb_ge _ _)) by lia.
Qed.

Module StreamWitness.
Import ToyWriter HandshakeWitness.

Definition sA : StreamID := 4%Z.
Definition sB : StreamID := 8%Z.
Definition m : StreamMessage := mkStreamMessage TypeChatMessage (str "hello").

(** The sender: a new stream, one message sent and written. *)
Definition a0 : Stream bytes := NewStream (zero_array 32) [] [].
Definition a1 : Stream bytes := set_writer a0 true [m] [] [m].
Definition a2 : Stream bytes := set_writer a1 true [] (frames [m]) [m].
Definition pA : PeerWrapper bytes :=
  set_heap (set_heap (wrapAndRegister_new (NewPeerWrapper 1) sA [] []) sA a1) sA a2.

Lemma pA_reached : rtc step (NewPeerWrapper 1) pA.
Proof.
  eapply rtc_l; [apply (step_new _ sA [] []); apply lookup_empty|].
  eapply rtc_l; [apply (step_stream _ sA a0 a1 false); [apply lookup_insert_eq|]|].
  { apply (ss_send _ a0 m). apply Nat.ltb_lt. reflexivity. }
  apply rtc_once. apply (step_stream _ sA a1 a2 false); [apply lookup_insert_eq|].
  by apply (ss_write _ a1 m [] (Ok ())).
Qed.

(** The receiver: the message read, put on [Incoming] and taken. *)
Definition net : Reader := [take 3 (frames [m]); drop 3 (frames [m])].
Definition b0 : Stream bytes := NewStream (zero_array 32) net [].
Definition b1 : Stream bytes := set_reader b0 (Some (Some m)) [] [] [].
Definition b2 : Stream bytes := set_reader b1 (Some None) [m] [] [].
Definition b3 : Stream bytes := set_reader b2 (Some None) [] [] [m].
Definition pB : PeerWrapper bytes :=
  set_heap (set_heap (set_heap (wrapAndRegister_new (NewPeerWrapper 2) sB net []) sB b1) sB b2) sB b3.

Lemma pB_reached : rtc step (NewPeerWrapper 2) pB.
Proof.
  eapply rtc_l; [apply (step_new _ sB net []); apply lookup_empty|].
  eapply rtc_l; [apply (step_stream _ sB b0 b1 false); [apply lookup_insert_eq|]|].
  { by apply (ss_read _ b0 TypeChatMessage (str "hello") []). }
  eapply rtc_l; [apply (step_stream _ sB b1 b2 false); [apply lookup_insert_eq|]|].
  { apply (ss_deliver _ b1 m); [done|]. apply Nat.ltb_lt. reflexivity. }
  apply rtc_once. apply (step_stream _ sB b2 b3 false); [apply lookup_insert_eq|].
  by apply (ss_recv _ b2 m []).
Qed.

Lemma stream_fifo_witness : [m] `prefix_of` [m].
Proof.
  refine (proj1 (stream_fifo 1 2 pA pB sA sB a2 b3 [] pA_reached _ pB_reached _ _ _)).
  - apply lookup_insert_eq.
  - apply lookup_insert_eq.
  - apply Forall_singleton. split; split; vm_compute; congruence.
  - reflexivity.
Defined.

Lemma closed_stream_leak_witness :
  ∃ p : PeerWrapper bytes, rtc step (NewPeerWrapper 1) p
    ∧ ∀ p', rtc step p p' → sA ∈ streams p'
            ∧ ∃ s, heap p' !! sA = Some s ∧ st_once s = true.
Proof. apply (closed_stream_leak 1 sA [] [] [] EOF). reflexivity. Defined.

Lemma gossip_delivers_anonymous_witness :
  handleGossipStream (Some (λ t d id (l : list (MessageType * bytes * PeerID)),
                              (Ok (), l ++ [(t, d, id)]))) pA (mkGossipStream net false) []
  = Some (Ok (), [(TypeChatMessage, str "hello", zero_array 32)]).
Proof.
  refine (proj1 (gossip_delivers_anonymous 1 pA TypeChatMessage (str "hello") [] (frames [m])
                   net false _ [] pA_reached _ _ _)).
  - split; split; vm_compute; congruence.
  - reflexivity.
  - reflexivity.
Defined.
End StreamWitness.
