(* ===== verification/Delivery.v ===== *)
(** * Delivery on a stream: liveness of internal/network/stream.go

    [Stream] gives the safety of a stream under every interleaving.  This file
    shows that its receiving half makes progress: nobody else has to act for the
    messages of the peer to reach the user of [ReadCh], the end of the stream to
    be seen and both goroutines to end. *)

From Stdlib Require Import ZArith Lia.
From stdpp Require Import relations.
From S2P Require Import Prelude Sha2 Types Proto ToyCodec Frame Signature Handshake Stream.

Section delivery.
Context {W : Type} `{Writer W}.
Implicit Types (s : Stream W).

(** A step of [readLoop], [writeLoop] or the receiver on [ReadCh], with the
    [Close] it ends with; a [Send] is not one ([st_sent] grows with it), and the
    context of the connection stays alive. *)
Definition receiver_step s s' : Prop :=
  ∃ s1 c, stream_step false s s1 c ∧ st_sent s1 = st_sent s
    ∧ s' = if c then (if st_once s1 then s1 else closed s1) else s1.

(** It is a step of the connection, on one stream of its heap. *)
Lemma receiver_step_step (p : PeerWrapper W) id s s' :
  heap p !! id = Some s → pw_cancelled p = false → receiver_step s s' →
  ∃ p', Stream.step p p' ∧ heap p' !! id = Some s' ∧ pw_cancelled p' = false.
Proof.
  intros Hs Hc (s1 & c & St & _ & ->). rewrite <- Hc in St.
  eexists. split; [by apply (step_stream p id s s1 c)|].
  destruct c; [|split; [apply lookup_insert_eq|done]].
  unfold Stream_Close. cbn [heap set_heap]. rewrite lookup_insert_eq.
  destruct (st_once s1); split; try done; apply lookup_insert_eq.
Qed.

(** ** A measure that every step lowers *)

Definition reader_left s : nat :=
  match st_reader s with Some (Some _) => 3 | Some None => 1 | None => 0 end.
Definition steps_left s : nat :=
  3 * length (concat (st_in s)) + reader_left s + length (Incoming s)
  + (if st_writer s then 1 else 0) + length (Outgoing s).

Lemma steps_left_closed s : steps_left (closed s) = steps_left s.
Proof. done. Qed.

Lemma readFrame_Ok_shorter r t d r' :
  readFrame r = (Ok (t, d), r') → length (concat r') < length (concat r).
Proof.
  intros Hr. pose proof (readFrame_flat r) as F. rewrite Hr in F. unfold flat in F. simpl in F.
  unfold frame_of, full in F.
  destruct (Z.leb_spec 4 (Z.of_nat (length (concat r)))); [|done].
  set (h := be_get _) in F. destruct (h <=? _)%Z; [|done].
  destruct (take (Z.to_nat h) _); [done|]. injection F as _ _ ->. rewrite !length_drop. lia.
Qed.

Lemma readFrame_Err_shorter r e r' :
  readFrame r = (Err e, r') → length (concat r') <= length (concat r).
Proof.
  intros Hr. pose proof (readFrame_flat r) as F. rewrite Hr in F. unfold flat in F. simpl in F.
  unfold frame_of, full in F.
  destruct (Z.leb_spec 4 (Z.of_nat (length (concat r)))).
  - set (h := be_get _) in F. destruct (h <=? _)%Z; [by destruct (take (Z.to_nat h) _)|].
    injection F as _ ->. simpl. lia.
  - injection F as _ ->. simpl. lia.
Qed.

Lemma receiver_step_left s s' : receiver_step s s' → steps_left s' < steps_left s.
Proof.
  intros (s1 & c & St & Hsend & ->).
  assert (steps_left s1 < steps_left s) as Hlt.
  { destruct St as [s t d r' Er _ Ef|s e r' Er _ Ef|s Er _|s m Er _|s m Er _
                   |s m out r w' Ew Eo _ _ _|s m out Ew Eo _|s Ew _|s m _|s m inc Ei]; unfold steps_left, reader_left; cbn.
    - apply readFrame_Ok_shorter in Ef. rewrite Er. lia.
    - apply readFrame_Err_shorter in Ef. rewrite Er. lia.
    - rewrite Er. lia.
    - rewrite Er, length_app. simpl. lia.
    - rewrite Er. lia.
    - rewrite Eo, Ew. simpl. lia.
    - rewrite Eo, Ew. simpl. lia.
    - rewrite Ew. lia.
    - cbn in Hsend. apply (f_equal length) in Hsend. rewrite length_app in Hsend. simpl in Hsend. lia.
    - rewrite Ei. simpl. lia. }
  destruct c; [destruct (st_once s1)|]; by rewrite ?steps_left_closed.
Qed.

(** ** What the receiving half has when the peer sends the frames of [ms] *)
Variable ms : list StreamMessage.
Hypothesis Hvalid : Forall valid_message ms.

Record receiving s : Prop := {
  rc_outgoing : Outgoing s = [];
  rc_open : st_reader s ≠ None → st_cancelled s = false ∧ st_once s = false
            ∧ ∃ rest, ms = st_received s ++ Incoming s ++ held s ++ rest
                      ∧ concat (st_in s) = frames rest;
  rc_ended : st_reader s = None → st_cancelled s = true ∧ st_once s = true
             ∧ ms = st_received s ++ Incoming s
}.

(** [readFrame] on the rest of such a stream. *)
Lemma readFrame_rest r rest :
  concat r = frames rest → Forall valid_message rest →
  match rest with
  | [] => ∃ r', readFrame r = (Err EOF, r')
  | m :: rest' => ∃ r', readFrame r = (Ok (sm_Type m, sm_Payload m), r') ∧ concat r' = frames rest'
  end.
Proof.
  intros Hr Hv. pose proof (readFrame_flat r) as F. rewrite Hr in F.
  destruct (readFrame r) as [a r'] eqn:E. unfold flat in F. cbn [fst snd] in F.
  destruct rest as [|m rest].
  - injection F as -> _. by exists r'.
  - apply Forall_cons in Hv as [[Ht Hd] _].
    unfold frames in F. cbn [fmap list_fmap concat] in F.
    rewrite frame_of_bytes, Z.mod_small in F by done. injection F as -> Hr2. by exists r'.
Qed.

Lemma receiving_new id r w : concat r = frames ms → receiving (NewStream id r w).
Proof. intros Hr. split; [done| |done]. intros _. split_and!; [done..|]. by exists ms. Qed.

Lemma valid_rest s rest :
  ms = st_received s ++ Incoming s ++ held s ++ rest → Forall valid_message rest.
Proof. intros E. rewrite E, !Forall_app in Hvalid. by destruct Hvalid as (_ & _ & _ & ?). Qed.

Lemma receiving_step s s' : receiver_step s s' → receiving s → receiving s'.
Proof.
  intros (s1 & c & St & Hsend & ->) [Ho Hop He].
  destruct St as [s t d r' Er _ Ef|s e r' Er _ Ef|s Er Hn|s m Er _|s m Er Hc
                 |s m out r w' _ Eo _ _ _|s m out _ Eo _|s _ Hc|s m _|s m inc Ei].
  - destruct (Hop ltac:(congruence)) as (Hc & Hn & rest & Hms & Hin).
    pose proof (readFrame_rest _ _ Hin (valid_rest _ _ Hms)) as Hr.
    unfold held in Hms. rewrite Er in Hms.
    destruct rest as [|m rest]; destruct Hr as [r2 Hr]; [congruence|].
    destruct Hr as [Hr Hr2]. rewrite Hr in Ef. injection Ef as <- <- <-.
    split; [done| |done]. intros _. split_and!; [done..|]. exists rest.
    split; [|done]. rewrite Hms. by destruct m.
  - destruct (Hop ltac:(congruence)) as (Hc & Hn & rest & Hms & Hin).
    pose proof (readFrame_rest _ _ Hin (valid_rest _ _ Hms)) as Hr.
    unfold held in Hms. rewrite Er in Hms.
    destruct rest as [|m rest]; destruct Hr as [r2 Hr]; [|destruct Hr; congruence].
    cbn [st_once set_reader]. rewrite Hn. split; [done|done|]. intros _.
    split_and!; [done..|]. by rewrite Hms, app_nil_r.
  - destruct (Hop ltac:(congruence)) as (_ & Hf & _). congruence.
  - destruct (Hop ltac:(congruence)) as (Hc & Hn & rest & Hms & Hin).
    split; [done| |done]. intros _. split_and!; [done..|]. exists rest.
    split; [|done]. rewrite Hms. unfold held. rewrite Er. simpl. by rewrite <- app_assoc.
  - destruct (Hop ltac:(congruence)) as (Hcf & _). simpl in Hc. congruence.
  - congruence.
  - congruence.
  - simpl in Hc. destruct (st_reader s) eqn:Er.
    { destruct (Hop ltac:(congruence)) as (Hcf & _). congruence. }
    destruct (He eq_refl) as (_ & Hn & Hms). cbn [st_once set_writer]. rewrite Hn.
    split; [done| |done]. cbn. congruence.
  - cbn in Hsend. apply (f_equal length) in Hsend. rewrite length_app in Hsend. simpl in Hsend. lia.
  - split; [done| |]; cbn.
    + intros Hrd. destruct (Hop Hrd) as (Hc & Hn & rest & Hms & Hin).
      split_and!; [done..|]. exists rest. split; [|done].
      rewrite Hms, Ei, <- app_assoc. done.
    + intros Hrd. destruct (He Hrd) as (Hc & Hn & Hms). split_and!; [done..|].
      by rewrite Hms, Ei, <- app_assoc.
Qed.

(** The whole of it: the last message received, both goroutines ended and the
    stream closed. *)
Definition delivered s : Prop :=
  st_received s = ms ∧ Incoming s = [] ∧ st_once s = true
  ∧ st_reader s = None ∧ st_writer s = false.

Lemma receiving_progress s : receiving s → red receiver_step s ∨ delivered s.
Proof.
  intros [Ho Hop He]. destruct (Incoming s) as [|m inc] eqn:Ei.
  2: { left. eexists. eexists _, false. split_and!; [by apply (ss_recv false s m inc)|done..]. }
  destruct (st_reader s) as [[m|]|] eqn:Er.
  - left. eexists. eexists _, false.
    split_and!; [apply (ss_deliver false s m); [done|rewrite Ei; apply Nat.ltb_lt; reflexivity]|done..].
  - left. destruct (Hop ltac:(congruence)) as (Hc & Hn & rest & Hms & Hin).
    rewrite <- Ei in Hms. pose proof (readFrame_rest _ _ Hin (valid_rest _ _ Hms)) as Hr.
    destruct rest as [|x rest]; [destruct Hr as [r' Hr]|destruct Hr as (r' & Hr & _)].
    + eexists. eexists _, true. split_and!; [by apply (ss_read_error false s EOF r')|done..].
    + eexists. eexists _, false. split_and!; [by eapply (ss_read false s)|done..].
  - destruct (He eq_refl) as (Hc & Hn & Hms). destruct (st_writer s) eqn:Ew.
    + left. eexists. eexists _, true. split_and!; [by apply (ss_write_cancel false s)|done..].
    + right. rewrite app_nil_r in Hms. by split_and!.
Qed.

(** C13. Everything that was sent is received: on a new stream that carries the
    frames of [ms], every run of its goroutines and its receiver ends, however
    they are scheduled, and can only end when exactly [ms] has been received, in
    order, the stream is closed and both goroutines have returned. *)
Theorem stream_delivers (id : PeerID) (r : Reader) (w : W) (Hnet : concat r = frames ms) :
  ends_in receiver_step delivered (NewStream id r w).
Proof.
  split; [apply (sn_measure _ steps_left); intros; by apply receiver_step_left|].
  intros s Hs. apply receiving_progress.
  eapply (rtc_ind_inv receiver_step receiving); [apply receiving_step|exact Hs|].
  by apply receiving_new.
Qed.
End delivery.

Module DeliveryWitness.
Import ToyWriter StreamWitness.

Lemma stream_delivers_witness :
  ∃ s : Stream bytes, rtc receiver_step (NewStream (zero_array 32) net []) s
    ∧ st_received s = [m] ∧ st_once s = true.
Proof.
  assert (Forall valid_message [m]) as Hv
    by (apply Forall_singleton; split; split; vm_compute; congruence).
  assert (concat net = frames [m]) as Hn by reflexivity.
  destruct (ends_in_reached _ _ _ (stream_delivers [m] Hv (zero_array 32) net ([] : bytes) Hn))
    as (s & Hs & Hr & _ & Ho & _).
  exists s. split; [exact Hs|]. split; [exact Hr|exact Ho].
Defined.
End DeliveryWitness.
