(* ===== verification/Loops.v ===== *)
(** * The accept loops of a connection: StartLoops and its goroutines in quic.go

    A registered peer has three loops, one for the unidirectional streams that
    carry gossip, one for datagrams and one for bidirectional streams.  The
    streams and datagrams that the peer has opened and sent, and QUIC has not yet
    given to a loop, are the queues of the state.  The handler of a gossip stream
    is a goroutine of its own, which nothing but its stream can end. *)

From Stdlib Require Import ZArith Lia.
From stdpp Require Import relations.
From S2P Require Import Prelude Sha2 Types Proto ToyCodec Frame Signature Handshake Stream.

(** The callbacks of a [PeerWrapper]: [onData], and whether [onNewStream] is
    set. *)
Record Callbacks (D : Type) := mkCallbacks {
  cb_onData : option (MessageType → bytes → PeerID → M D unit);
  cb_onNewStream : bool
}.
Arguments mkCallbacks {D} _ _.
Arguments cb_onData {D} _.
Arguments cb_onNewStream {D} _.

Definition OnData {D} (f : MessageType → bytes → PeerID → M D unit) (c : Callbacks D) : Callbacks D :=
  mkCallbacks (Some f) (cb_onNewStream c).
Definition OnNewStream {D} (c : Callbacks D) : Callbacks D := mkCallbacks (cb_onData c) true.

(** A loop: not started, running, or returned; the one for streams may be inside
    [wrapAndRegister]. *)
Inductive loop := Idle | Running | Registering (id : StreamID) | Done.

Record Conn (W D : Type) := mkConn {
  cn_wrapper : PeerWrapper W;
  cn_callbacks : Callbacks D;
  cn_uni : loop;                             (* AcceptUniLoop *)
  cn_dgram : loop;                           (* AcceptDatagramLoop *)
  cn_bidi : loop;                            (* AcceptStreamLoop *)
  cn_uni_queue : list GossipStream;
  cn_dgram_queue : list bytes;
  cn_bidi_queue : list (StreamID * Reader * W);
  cn_gossip : list GossipStream;             (* goroutines [handleGossipStream] *)
  cn_data : D;                               (* what onData works on *)
  cn_new_streams : list StreamID;            (* goroutines [onNewStream] *)
  cn_printed : list bytes                    (* datagrams, which are only printed *)
}.
Arguments mkConn {W D} _ _ _ _ _ _ _ _ _ _ _ _.
Arguments cn_wrapper {W D} _.
Arguments cn_callbacks {W D} _.
Arguments cn_uni {W D} _.
Arguments cn_dgram {W D} _.
Arguments cn_bidi {W D} _.
Arguments cn_uni_queue {W D} _.
Arguments cn_dgram_queue {W D} _.
Arguments cn_bidi_queue {W D} _.
Arguments cn_gossip {W D} _.
Arguments cn_data {W D} _.
Arguments cn_new_streams {W D} _.
Arguments cn_printed {W D} _.

Definition GetConn {W D} (c : Conn W D) : ConnID := pw_conn (cn_wrapper c).
Definition Wrapper_RemoteAddr {W D} (RemoteAddr : ConnID → string) (c : Conn W D) : string :=
  RemoteAddr (GetConn c).

Section loops.
Context {W D : Type} `{Writer W}.
Implicit Types (p : PeerWrapper W) (cb : Callbacks D).

(** [StartLoops]. *)
Definition StartLoops (c : Conn W D) : Conn W D :=
  mkConn (cn_wrapper c) (cn_callbacks c) Running Running Running (cn_uni_queue c)
    (cn_dgram_queue c) (cn_bidi_queue c) (cn_gossip c) (cn_data c) (cn_new_streams c)
    (cn_printed c).

(** A loop returns when its accept call reports an error, which it does when the
    context is done, and may do when the connection fails ([failed]); the two
    loops that test the context first return then as well.  The goroutine of a
    gossip stream takes its step when [readFrame] returns; that of a silent stream
    has none, whatever happens to the context. *)
Inductive loop_step (failed : Prop) : Conn W D → Conn W D → Prop :=
| ls_uni p cb dg bi r uq dq bq go d ns pr :
    loop_step failed (mkConn p cb Running dg bi (r :: uq) dq bq go d ns pr)
      (mkConn p cb Running dg bi uq dq bq (go ++ [r]) d ns pr)
| ls_uni_return p cb dg bi uq dq bq go d ns pr :
    failed ∨ pw_cancelled p = true →
    loop_step failed (mkConn p cb Running dg bi uq dq bq go d ns pr)
      (mkConn p cb Done dg bi uq dq bq go d ns pr)
| ls_gossip p cb un dg bi uq dq bq go go' r d d' ns pr :
    go ≡ₚ r :: go' → handleGossipStream (cb_onData cb) p r d = Some (Ok (), d') →
    loop_step failed (mkConn p cb un dg bi uq dq bq go d ns pr)
      (mkConn p cb un dg bi uq dq bq go' d' ns pr)
| ls_dgram p cb un bi m uq dq bq go d ns pr :
    loop_step failed (mkConn p cb un Running bi uq (m :: dq) bq go d ns pr)
      (mkConn p cb un Running bi uq dq bq go d ns (pr ++ [m]))
| ls_dgram_return p cb un bi uq dq bq go d ns pr :
    failed ∨ pw_cancelled p = true →
    loop_step failed (mkConn p cb un Running bi uq dq bq go d ns pr)
      (mkConn p cb un Done bi uq dq bq go d ns pr)
(* AcceptStreamLoop, the same as AcceptStream in a loop *)
| ls_bidi p cb un dg id r w uq dq bq go d ns pr :
    heap p !! id = None →
    loop_step failed (mkConn p cb un dg Running uq dq ((id, r, w) :: bq) go d ns pr)
      (mkConn (wrapAndRegister_new p id r w) cb un dg (Registering id) uq dq bq go d ns pr)
| ls_bidi_register p cb un dg id uq dq bq go d ns pr :
    loop_step failed (mkConn p cb un dg (Registering id) uq dq bq go d ns pr)
      (mkConn (wrapAndRegister_table p id) cb un dg Running uq dq bq go d
         (if cb_onNewStream cb then ns ++ [id] else ns) pr)
| ls_bidi_return p cb un dg uq dq bq go d ns pr :
    failed ∨ pw_cancelled p = true →
    loop_step failed (mkConn p cb un dg Running uq dq bq go d ns pr)
      (mkConn p cb un dg Done uq dq bq go d ns pr).

(** Steps of the streams of the wrapper and its [Close]. *)
Inductive wrapper_step : Conn W D → Conn W D → Prop :=
| ws_step p p' cb un dg bi uq dq bq go d ns pr :
    Stream.step p p' →
    wrapper_step (mkConn p cb un dg bi uq dq bq go d ns pr)
      (mkConn p' cb un dg bi uq dq bq go d ns pr).

Definition conn_step (failed : Prop) (c c' : Conn W D) : Prop :=
  loop_step failed c c' ∨ wrapper_step c c'.

(** ** The loops end *)

Definition loop_left (l : loop) : nat :=
  match l with Running => 1 | Registering _ => 2 | _ => 0 end.
Definition conn_left (c : Conn W D) : nat :=
  loop_left (cn_uni c) + loop_left (cn_dgram c) + loop_left (cn_bidi c)
  + 2 * length (cn_uni_queue c) + length (cn_gossip c)
  + length (cn_dgram_queue c) + 2 * length (cn_bidi_queue c).

Lemma loop_step_left failed c c' : loop_step failed c c' → conn_left c' < conn_left c.
Proof.
  destruct 1 as [| |p cb un dg bi uq dq bq go go' r d d' ns pr Hp _| | | | |];
    unfold conn_left; cbn [cn_uni cn_dgram cn_bidi cn_uni_queue cn_gossip cn_dgram_queue
      cn_bidi_queue loop_left length]; rewrite ?length_app; cbn [length]; try lia.
  apply Permutation_length in Hp. cbn [length] in Hp. lia.
Qed.

(** What the peer has sent can be handled: the frames of the gossip streams that
    are not silent are not empty, and the identifiers of the new streams are
    new. *)
Definition readable (f : option (MessageType → bytes → PeerID → M D unit)) p (r : GossipStream) : Prop :=
  ∀ d, ∃ d', handleGossipStream f p r d = Some (Ok (), d').
Definition harmless (f : option (MessageType → bytes → PeerID → M D unit)) p (r : GossipStream) : Prop :=
  silent r = true ∨ readable f p r.

Record healthy (c : Conn W D) : Prop := {
  hl_gossip : Forall (harmless (cb_onData (cn_callbacks c)) (cn_wrapper c))
                (cn_uni_queue c ++ cn_gossip c);
  hl_new : Forall (λ x, heap (cn_wrapper c) !! x.1.1 = None) (cn_bidi_queue c);
  hl_nodup : NoDup ((λ x, x.1.1) <$> cn_bidi_queue c);
  hl_started : cn_uni c ∈ [Running; Done] ∧ cn_dgram c ∈ [Running; Done] ∧ cn_bidi c ≠ Idle
}.

Lemma loop_step_healthy failed c c' : loop_step failed c c' → healthy c → healthy c'.
Proof.
  destruct 1 as [| |p cb un dg bi uq dq bq go go' r d d' ns pr Hp _| | |
                 p cb un dg id r w uq dq bq go d ns pr Hid| |];
    intros [Hg Hn Hd (Hu & Hdg & Hb)]; split; cbn in *; try done.
  - assert (uq ++ go ++ [r] ≡ₚ (r :: uq) ++ go) as E
      by by rewrite app_assoc, <- Permutation_cons_append.
    by rewrite E.
  - split_and!; [by right; left|done..].
  - rewrite Hp in Hg. apply Forall_app in Hg as [Hg1 Hg2]. apply Forall_cons in Hg2 as [_ Hg2].
    by apply Forall_app.
  - split_and!; [done|by right; left|done].
  - apply Forall_cons in Hn as [_ Hn]. apply NoDup_cons in Hd as [Hd _].
    apply Forall_forall. intros x Hx. rewrite lookup_insert_ne.
    + by eapply Forall_forall in Hn.
    + intros ->. apply Hd. apply list_elem_of_fmap. by exists x.
  - by apply NoDup_cons in Hd as [_ ?].
Qed.

(** The loops have returned, and of the goroutines of gossip streams only those
    are left that wait on a silent one. *)
Definition all_returned (c : Conn W D) : Prop :=
  cn_uni c = Done ∧ cn_dgram c = Done ∧ cn_bidi c = Done
  ∧ Forall (λ r, silent r = true) (cn_gossip c).

Lemma find_harmless f p (go : list GossipStream) :
  Forall (harmless f p) go →
  Forall (λ r, silent r = true) go ∨ ∃ r go', go ≡ₚ r :: go' ∧ readable f p r.
Proof.
  induction 1 as [|r go Hr _ [IH|(x & go' & E & Hx)]]; [by left|destruct Hr as [Hr|Hr]|].
  - left. by constructor.
  - right. by exists r, go.
  - right. exists x, (r :: go'). split; [|done]. rewrite E. apply Permutation_swap.
Qed.

Lemma started_cases (l : loop) : l ∈ [Running; Done] → l = Running ∨ l = Done.
Proof. intros [?|?%list_elem_of_singleton]%elem_of_cons; auto. Qed.

Lemma loop_progress failed c :
  pw_cancelled (cn_wrapper c) = true → healthy c → red (loop_step failed) c ∨ all_returned c.
Proof.
  destruct c as [p cb un dg bi uq dq bq go d ns pr].
  intros Hc [Hg Hn Hd (Hu & Hdg & Hb)]. cbn in *.
  apply Forall_app in Hg as [_ Hg].
  destruct (find_harmless _ _ _ Hg) as [Hs|(r & go' & Hp & Hr)].
  2: { left. destruct (Hr d) as [d' Hd']. eexists. by eapply ls_gossip. }
  destruct (started_cases un Hu) as [->| ->].
  { left. eexists. by apply ls_uni_return; right. }
  destruct (started_cases dg Hdg) as [->| ->].
  { left. eexists. by apply ls_dgram_return; right. }
  destruct bi as [| |id|]; [done| | |by right].
  - left. eexists. by apply ls_bidi_return; right.
  - left. eexists. by apply ls_bidi_register.
Qed.

Lemma loop_step_cancelled failed c c' :
  loop_step failed c c' → pw_cancelled (cn_wrapper c') = pw_cancelled (cn_wrapper c).
Proof. by destruct 1. Qed.

Lemma loop_steps_healthy failed c c' :
  rtc (loop_step failed) c c' → healthy c ∧ pw_cancelled (cn_wrapper c) = true →
  healthy c' ∧ pw_cancelled (cn_wrapper c') = true.
Proof.
  apply (rtc_ind_inv (loop_step failed) (λ c, healthy c ∧ pw_cancelled (cn_wrapper c) = true)).
  intros x y Hxy [Hx Hc]. split; [by eapply loop_step_healthy|].
  by rewrite (loop_step_cancelled _ _ _ Hxy).
Qed.

(** The goroutines that wait on a silent stream. *)
Definition waiting_for_ever (c : Conn W D) : list GossipStream :=
  filter (λ r, silent r = true) (cn_gossip c).

Lemma loop_step_streams failed c c' :
  loop_step failed c c' →
  waiting_for_ever c ⊆+ waiting_for_ever c'
  ∧ cn_uni_queue c' ++ cn_gossip c' ⊆+ cn_uni_queue c ++ cn_gossip c.
Proof.
  destruct 1 as [p cb dg bi r uq dq bq go d ns pr| |p cb un dg bi uq dq bq go go' r d d' ns pr Hp Hg
                | | | | |]; unfold waiting_for_ever; cbn [cn_gossip cn_uni_queue]; try (by split).
  - split; [rewrite filter_app; by apply submseteq_inserts_r|].
    by rewrite app_assoc, <- Permutation_cons_append.
  - assert (silent r = false) as Hs.
    { destruct (silent r) eqn:E; [|done]. by rewrite (handle_silent _ _ _ _ E) in Hg. }
    rewrite Hp. split; [|by apply submseteq_app; [|apply submseteq_cons]].
    rewrite filter_cons_False; [done|]. by rewrite Hs.
Qed.

(** Nothing ends a goroutine that waits on a silent stream: cancelling the context
    does not reach it. *)
Theorem silent_streams_leak (failed : Prop) c c' (Hrun : rtc (conn_step failed) c c') :
  waiting_for_ever c ⊆+ waiting_for_ever c'.
Proof.
  induction Hrun as [c|c c1 c2 St _ IH]; [done|]. etransitivity; [|exact IH].
  destruct St as [St|St]; [by apply (loop_step_streams failed)|by destruct St].
Qed.

Lemma closed_loops_end (failed : Prop) (c : Conn W D)
    (Hclosed : pw_cancelled (cn_wrapper c) = true) (Hok : healthy c) :
  ends_in (loop_step failed)
    (λ c', all_returned c' ∧ waiting_for_ever c ⊆+ cn_gossip c'
           ∧ (Forall (λ r, silent r = false) (cn_uni_queue c ++ cn_gossip c) → cn_gossip c' = [])) c.
Proof.
  split; [apply (sn_measure _ conn_left); intros; by eapply loop_step_left|].
  intros c' Hrun. destruct (loop_steps_healthy _ _ _ Hrun) as [Hh Hc]; [done|].
  destruct (loop_progress failed c' Hc Hh) as [?|Hr]; [by left|right; split; [done|]].
  assert (waiting_for_ever c ⊆+ waiting_for_ever c'
          ∧ cn_uni_queue c' ++ cn_gossip c' ⊆+ cn_uni_queue c ++ cn_gossip c) as [Hw Hu].
  { clear -Hrun. induction Hrun as [c|c c1 c2 St _ [IH1 IH2]]; [done|].
    destruct (loop_step_streams _ _ _ St). split; by etransitivity. }
  split.
  - etransitivity; [exact Hw|]. apply sublist_submseteq, sublist_filter.
  - intros Hn. destruct Hr as (_ & _ & _ & Hs). destruct (cn_gossip c') as [|r go] eqn:E; [done|].
    apply Forall_cons in Hs as [Hr _]. rewrite Forall_forall in Hn.
    rewrite Hn in Hr; [done|]. eapply elem_of_submseteq; [|exact Hu].
    apply elem_of_app. right. by left.
Qed.

(** C30. [Close] stops a connection's loops: once the context of a started
    connection is done and the peer opens nothing more, every run of the three
    loops and of the gossip handlers ends, and can only end when the loops have
    returned and no gossip handler is left but those that wait on a silent stream,
    which neither ends nor brings a whole frame - these stay; if no stream is
    silent, all have returned.  Provided no frame that waits is empty, which ends
    the process, and the identifiers of the new streams are new. *)
Theorem loops_end (failed : Prop) (c : Conn W D)
    (Hclosed : pw_cancelled (cn_wrapper c) = true) (Hok : healthy c) :
  ends_in (loop_step failed)
    (λ c', all_returned c' ∧ waiting_for_ever c ⊆+ cn_gossip c'
           ∧ (Forall (λ r, silent r = false) (cn_uni_queue c ++ cn_gossip c) → cn_gossip c' = [])) c.
Proof. by apply closed_loops_end. Qed.
End loops.

(** ** What the gossip loop delivers *)
Section gossip_delivery.
Context {W : Type} `{Writer W}.

(** A callback that records what it gets. *)
Definition delivery : Type := MessageType * bytes * PeerID.
Definition record : MessageType → bytes → PeerID → M (list delivery) unit :=
  λ t m id l, (Ok (), l ++ [(t, m, id)]).

(** What the handler of a gossip stream gives to it. *)
Definition gossip_of (id : PeerID) (r : GossipStream) : option delivery :=
  match readFrame_stream r with Some (Ok (t, m)) => Some (t, m, id) | _ => None end.

Definition undelivered (c : Conn W (list delivery)) : list delivery :=
  omap (gossip_of (pw_peerID (cn_wrapper c))) (cn_uni_queue c ++ cn_gossip c).

Lemma handle_record p (r : GossipStream) d d' :
  handleGossipStream (W:=W) (Some record) p r d = Some (Ok (), d') →
  d' = d ++ match gossip_of (pw_peerID p) r with Some x => [x] | None => [] end.
Proof.
  unfold handleGossipStream, gossip_of, record.
  destruct (readFrame_stream r) as [[[t m]|e|q]|]; try done; intros [= <-]; [done|].
  by rewrite app_nil_r.
Qed.

Lemma conn_step_gossip failed (c c' : Conn W (list delivery)) :
  conn_step failed c c' → cb_onData (cn_callbacks c) = Some record →
  cb_onData (cn_callbacks c') = Some record
  ∧ pw_peerID (cn_wrapper c') = pw_peerID (cn_wrapper c)
  ∧ cn_data c' ++ undelivered c' ≡ₚ cn_data c ++ undelivered c.
Proof.
  intros [St|[p p' cb un dg bi uq dq bq go d ns pr St]] Hcb.
  - destruct St as [p cb dg bi r uq dq bq go d ns pr| |
                    p cb un dg bi uq dq bq go go' r d d' ns pr Hp Hg| | | | |]; try done.
    + split_and!; [done..|]. unfold undelivered. cbn.
      assert (uq ++ go ++ [r] ≡ₚ r :: uq ++ go) as E
        by by rewrite app_assoc, <- Permutation_cons_append.
      by rewrite E.
    + split_and!; [done..|]. unfold undelivered. cbn in *. rewrite Hcb in Hg.
      apply handle_record in Hg as ->. rewrite <- app_assoc, Hp.
      apply Permutation_app_head. rewrite <- Permutation_middle. cbn [omap list_omap].
      by destruct (gossip_of (pw_peerID p) r).
  - split_and!; [done|by apply step_peerID|]. unfold undelivered. cbn.
    by rewrite (step_peerID _ _ St).
Qed.

(** The loop can accept everything that waits, and then the handlers can run in
    any order. *)
Lemma accept_all failed p cb dg bi uq dq bq go (d : list delivery) ns pr :
  rtc (conn_step failed) (mkConn p cb Running dg bi uq dq bq go d ns pr)
    (mkConn p cb Running dg bi [] dq bq (go ++ uq) d ns pr).
Proof.
  revert go. induction uq as [|r uq IH]; intros go; [by rewrite app_nil_r|].
  eapply rtc_l; [left; apply ls_uni|]. 
  replace (go ++ r :: uq) with ((go ++ [r]) ++ uq) by by rewrite <- app_assoc. apply IH.
Qed.

Lemma handlers_run failed p cb dg bi dq bq ns pr go0 order :
  cb_onData cb = Some record → Forall (readable (Some record) p) order →
  ∀ go (d : list delivery), go ≡ₚ go0 ++ order → ∃ go1, go1 ≡ₚ go0 ∧
    rtc (conn_step failed) (mkConn p cb Running dg bi [] dq bq go d ns pr)
      (mkConn p cb Running dg bi [] dq bq go1 (d ++ omap (gossip_of (pw_peerID p)) order) ns pr).
Proof.
  intros Hcb. induction 1 as [|r order Hr _ IH]; intros go d Hp.
  - exists go. cbn. rewrite app_nil_r in Hp |- *. split; [done|apply rtc_refl].
  - destruct (Hr d) as [d' Hd']. rewrite <- Permutation_middle in Hp.
    destruct (IH (go0 ++ order) d' ltac:(done)) as (go1 & Hgo & Hsteps).
    exists go1. split; [done|].
    eapply rtc_l; [left; by eapply (ls_gossip failed _ _ _ _ _ _ _ _ _ _ r); [|rewrite Hcb]|].
    apply handle_record in Hd' as ->. rewrite <- app_assoc in Hsteps. cbn [omap list_omap].
    by destruct (gossip_of (pw_peerID p) r).
Qed.

(** C31. Gossip is delivered exactly once and in no order: on every run of a
    connection's loops and streams, what the callback has got together with what
    the accepted and waiting streams still carry is always the same multiset,
    with the identifier of the wrapper on every message; and a run can deliver
    waiting streams in any order whatever. *)
Theorem gossip_exactly_once (failed : Prop) (c c' : Conn W (list delivery))
    (Hcb : cb_onData (cn_callbacks c) = Some record) (Hrun : rtc (conn_step failed) c c') :
  cn_data c' ++ undelivered c' ≡ₚ cn_data c ++ undelivered c
  ∧ ∀ order, cn_uni c' = Running → cn_uni_queue c' ≡ₚ order →
      Forall (readable (cb_onData (cn_callbacks c')) (cn_wrapper c')) order →
      ∃ c2, rtc (conn_step failed) c' c2
        ∧ cn_data c2 = cn_data c' ++ omap (gossip_of (pw_peerID (cn_wrapper c'))) order.
Proof.
  assert (cb_onData (cn_callbacks c') = Some record
          ∧ cn_data c' ++ undelivered c' ≡ₚ cn_data c ++ undelivered c) as [Hcb' Hperm].
  { apply (rtc_ind_inv (conn_step failed)
             (λ x, cb_onData (cn_callbacks x) = Some record
                   ∧ cn_data x ++ undelivered x ≡ₚ cn_data c ++ undelivered c) c c');
      [|exact Hrun|done].
    intros x y Hxy [Hx Hp]. destruct (conn_step_gossip _ _ _ Hxy Hx) as (? & _ & E).
    split; [done|]. by rewrite E. }
  split; [done|]. clear Hperm Hrun Hcb c.
  destruct c' as [p cb un dg bi uq dq bq go d ns pr]. cbn in *. intros order -> Hp Hr.
  rewrite Hcb' in Hr.
  destruct (handlers_run failed p cb dg bi dq bq ns pr go order Hcb' Hr (go ++ uq) d)
    as (go1 & _ & Hsteps); [by rewrite Hp|].
  eexists. split; [etransitivity; [apply accept_all|exact Hsteps]|done].
Qed.
End gossip_delivery.

Module LoopsWitness.
Import ToyWriter HandshakeWitness StreamWitness.

Definition m1 : StreamMessage := mkStreamMessage TypeGossip (str "one").
Definition m2 : StreamMessage := mkStreamMessage TypeGossip (str "two").
Definition g1 : GossipStream := mkGossipStream [frames [m1]] true.
Definition g2 : GossipStream := mkGossipStream [frames [m2]] false.
(** Two bytes of a header, and then nothing. *)
Definition g3 : GossipStream := mkGossipStream [be_put 2 0] false.
Definition conn : Conn bytes (list delivery) :=
  StartLoops (mkConn (NewPeerWrapper 1) (OnData record (mkCallbacks None false)) Idle Idle Idle
                [g1; g2] [str "datagram"] [(sA, [], [])] [] [] [] []).
Definition closed_conn : Conn bytes (list delivery) :=
  StartLoops (mkConn (PeerWrapper_Close (NewPeerWrapper 1)) (OnData record (mkCallbacks None false))
                Idle Idle Idle [g1; g2] [str "datagram"] [(sA, [], [])] [g3] [] [] []).

Lemma readable_g (p : PeerWrapper bytes) r x :
  gossip_of (pw_peerID p) r = Some x → readable (Some record) p r.
Proof.
  unfold gossip_of, readable, handleGossipStream.
  destruct (readFrame_stream r) as [[[t m]|e|q]|]; cbn; try done. intros _ d. by eexists.
Qed.

Lemma loops_end_witness :
  ∃ c, rtc (loop_step False) closed_conn c ∧ all_returned c ∧ [g3] ⊆+ cn_gossip c.
Proof.
  destruct (ends_in_reached _ _ _ (loops_end False closed_conn eq_refl ltac:(split;
    [apply Forall_cons; split; [right; by eapply readable_g|];
     apply Forall_cons; split; [right; by eapply readable_g|]; apply Forall_singleton; by left
    |apply Forall_singleton; reflexivity|apply NoDup_singleton
    |split_and!; [by left|by left|done]]))) as (c & Hc & Hr & Hw & _).
  exists c. split; [exact Hc|split; [exact Hr|exact Hw]].
Defined.

Lemma gossip_exactly_once_witness :
  ∃ c, rtc (conn_step False) conn c
    ∧ cn_data c = [(TypeGossip, str "two", zero_array 32); (TypeGossip, str "one", zero_array 32)].
Proof.
  destruct (proj2 (gossip_exactly_once False conn conn eq_refl (rtc_refl _ _)) [g2; g1])
    as (c & Hc & Hd).
  - reflexivity.
  - apply Permutation_swap.
  - apply Forall_cons. split; [by eapply readable_g|]. apply Forall_singleton. by eapply readable_g.
  - exists c. split; [exact Hc|]. rewrite Hd. vm_compute. reflexivity.
Defined.
End LoopsWitness.
