(* ===== verification/Sessions.v ===== *)
(** * Transfer sessions: internal/p2p/sessions.go, peer.go

    The session table of the swarm and the hand-over of streams to a session.
    Sessions are shared by pointer (the table, the goroutines that add streams,
    the user of a session), so they live in a heap.  [AddStream] ends with a
    [select]: [choice] stands for the runtime's choice when both branches are
    ready, and [None] for a call that blocks. *)

From Stdlib Require Import ZArith Lia.
From S2P Require Import Prelude Sha2 Types Frame Stream.

Definition ptr : Type := nat.

Record TransferSession := mkTransferSession {
  ts_SessionID : SessionID;
  ts_RootHash : ContentHash;
  ts_PeerID : PeerID;
  ts_IsOutgoing : bool;
  ts_Streams : list StreamID;
  ts_NewStreams : list StreamID;   (* chan, capacity 10 *)
  ts_Done : bool                   (* Ctx is cancelled *)
}.

Definition newStreams_cap : nat := 10.

Record SessionManager := mkSessionManager {
  sessions : gmap SessionID ptr;
  sess_heap : gmap ptr TransferSession;
  sess_next : ptr                  (* fresh pointers *)
}.

Definition NewSessionManager : SessionManager := mkSessionManager ∅ ∅ 0.

Definition NewTransferSession (id : SessionID) (rootHash : ContentHash) (peerID : PeerID)
    (isOutgoing : bool) : TransferSession :=
  mkTransferSession id rootHash peerID isOutgoing [] [] false.

(** [&TransferSession{...}] *)
Definition alloc (sm : SessionManager) (t : TransferSession) : SessionManager * ptr :=
  (mkSessionManager (sessions sm) (<[sess_next sm := t]> (sess_heap sm)) (S (sess_next sm)),
   sess_next sm).

Definition Register (sm : SessionManager) (id : SessionID) (sess : ptr) : SessionManager :=
  mkSessionManager (<[id := sess]> (sessions sm)) (sess_heap sm) (sess_next sm).

(** [sessionID] is what [uuid.New] gives; a parent context that is done makes the
    session's done. *)
Definition CreateNewSession (sm : SessionManager) (sessionID : SessionID)
    (rootHash : ContentHash) (peerID : PeerID) : SessionManager * SessionID :=
  let '(sm, transfer) := alloc sm (NewTransferSession sessionID rootHash peerID true) in
  (Register sm sessionID transfer, sessionID).

Definition Get (sm : SessionManager) (id : SessionID) : option ptr := sessions sm !! id.

Definition set_session (sm : SessionManager) (p : ptr) (t : TransferSession) : SessionManager :=
  mkSessionManager (sessions sm) (<[p := t]> (sess_heap sm)) (sess_next sm).

Definition set_streams (t : TransferSession) (all new : list StreamID) : TransferSession :=
  mkTransferSession (ts_SessionID t) (ts_RootHash t) (ts_PeerID t) (ts_IsOutgoing t) all new
    (ts_Done t).

Definition addStream (t : TransferSession) (stream : StreamID) : TransferSession :=
  set_streams t (ts_Streams t ++ [stream]) (ts_NewStreams t).

Definition Session_Close (sm : SessionManager) (p : ptr) : SessionManager :=
  match sess_heap sm !! p with
  | Some t => set_session sm p (mkTransferSession (ts_SessionID t) (ts_RootHash t) (ts_PeerID t)
                (ts_IsOutgoing t) (ts_Streams t) (ts_NewStreams t) true)
  | None => sm
  end.

(** [select { case transfer.NewStreams <- stream: true; case <-Ctx.Done(): false }] *)
Definition select_send (choice : bool) (t : TransferSession) : option bool :=
  let room := bool_decide (length (ts_NewStreams t) < newStreams_cap) in
  match room, ts_Done t with
  | true, true => Some choice
  | true, false => Some true
  | false, true => Some false
  | false, false => None
  end.

Definition AddStream (choice : bool) (sm : SessionManager) (id : SessionID) (stream : StreamID) :
    option (bool * SessionManager) :=
  match sessions sm !! id with
  | None => Some (false, sm)
  | Some p =>
      match sess_heap sm !! p with
      | None => Some (false, sm)
      | Some t =>
          let t := addStream t stream in
          match select_send choice t with
          | None => None
          | Some true =>
              Some (true, set_session sm p (set_streams t (ts_Streams t)
                                              (ts_NewStreams t ++ [stream])))
          | Some false => Some (false, set_session sm p t)
          end
      end
  end.

(** The user of a session takes the next stream. *)
Definition take_stream (sm : SessionManager) (p : ptr) : option (StreamID * SessionManager) :=
  t ← sess_heap sm !! p;
  match ts_NewStreams t with
  | [] => None
  | s :: rest => Some (s, set_session sm p (set_streams t (ts_Streams t) rest))
  end.

(** ** Lemmas *)

(** The table points to sessions of the heap, pointers are fresh, and the channel
    of a session holds at most ten streams, each one recorded in [Streams]. *)
Record sessions_inv (sm : SessionManager) : Prop := {
  si_table : ∀ id p, sessions sm !! id = Some p → is_Some (sess_heap sm !! p);
  si_fresh : ∀ p, sess_next sm <= p → sess_heap sm !! p = None;
  si_chan : ∀ p t, sess_heap sm !! p = Some t →
    length (ts_NewStreams t) <= newStreams_cap ∧ ts_NewStreams t ⊆ ts_Streams t
}.

Lemma NewSessionManager_inv : sessions_inv NewSessionManager.
Proof. split; intros *; cbn; by rewrite ?lookup_empty. Qed.

Lemma set_session_inv sm p t t' :
  sessions_inv sm → sess_heap sm !! p = Some t →
  length (ts_NewStreams t') <= newStreams_cap → ts_NewStreams t' ⊆ ts_Streams t' →
  sessions_inv (set_session sm p t').
Proof.
  intros [Ht Hf Hc] E Hl Hs. split; simpl.
  - intros id q Hq. destruct (decide (p = q)) as [->|]; [by rewrite lookup_insert_eq|].
    rewrite lookup_insert_ne by done. by eapply Ht.
  - intros q Hq. rewrite lookup_insert_ne; [by apply Hf|]. intros ->. by rewrite Hf in E.
  - intros q u. destruct (decide (p = q)) as [->|].
    + rewrite lookup_insert_eq. by intros [= <-].
    + rewrite lookup_insert_ne by done. apply Hc.
Qed.

Lemma CreateNewSession_inv sm id h peer :
  sessions_inv sm → sessions_inv (CreateNewSession sm id h peer).1.
Proof.
  intros [Ht Hf Hc]. split; simpl.
  - intros i q. destruct (decide (id = i)) as [->|].
    + rewrite lookup_insert_eq. intros [= <-]. by rewrite lookup_insert_eq.
    + rewrite lookup_insert_ne by done. intros Hq%Ht.
      destruct (decide (sess_next sm = q)) as [->|]; [by rewrite lookup_insert_eq|].
      by rewrite lookup_insert_ne.
  - intros q Hq. rewrite lookup_insert_ne by lia. apply Hf. lia.
  - intros q u. destruct (decide (sess_next sm = q)) as [->|].
    + rewrite lookup_insert_eq. intros [= <-]. split; [apply le_0_n|done].
    + rewrite lookup_insert_ne by done. apply Hc.
Qed.

Lemma elem_subseteq_app {A} (l l' : list A) k : l ⊆ l' → l ⊆ l' ++ k.
Proof. intros H x Hx. apply elem_of_app. left. by apply H. Qed.

Lemma AddStream_inv choice sm id s r sm' :
  sessions_inv sm → AddStream choice sm id s = Some (r, sm') → sessions_inv sm'.
Proof.
  intros Hinv. unfold AddStream. destruct (sessions sm !! id) as [p|]; [|by intros [= <- <-]].
  destruct (sess_heap sm !! p) as [t|] eqn:E; [|by intros [= <- <-]].
  pose proof (si_chan _ Hinv p t E) as [Hl Hs].
  unfold select_send. case_bool_decide as Hroom; simpl in Hroom.
  - assert (sessions_inv (set_session sm p (addStream t s))
            ∧ sessions_inv (set_session sm p (set_streams (addStream t s)
                (ts_Streams (addStream t s)) (ts_NewStreams (addStream t s) ++ [s]))))
      as [H1 H2].
    { split; eapply set_session_inv; try done; simpl.
      - by apply elem_subseteq_app.
      - rewrite length_app. simpl. lia.
      - intros x [Hx|Hx]%elem_of_app; apply elem_of_app; [left; by apply Hs|by right]. }
    destruct (ts_Done _); [destruct choice|]; by intros [= <- <-].
  - destruct (ts_Done _); [|done]. intros [= <- <-].
    eapply set_session_inv; try done. simpl. by apply elem_subseteq_app.
Qed.

(** ** Properties *)

(** The session [id] is at [p], with the value [t]. *)
Definition session_at (sm : SessionManager) (id : SessionID) (p : ptr) (t : TransferSession) : Prop :=
  sessions sm !! id = Some p ∧ sess_heap sm !! p = Some t.

(** [AddStream]: a stream is accepted exactly when the session is known and
    its channel has room (or, once the session is done, as the runtime picks);
    then it is the last of the channel and recorded, and no other session
    changes.  A refused stream is refused because the session is unknown, and
    nothing changes, or because it is done - and then the stream is recorded in
    [Streams] all the same.  The call blocks only on ten streams that nobody
    took. *)
Theorem AddStream_spec (choice : bool) (sm : SessionManager) (id : SessionID) (s : StreamID)
    (Hinv : sessions_inv sm) :
  match AddStream choice sm id s with
  | Some (true, sm') =>
      sessions_inv sm' ∧ ∃ p t, session_at sm id p t
      ∧ session_at sm' id p (set_streams t (ts_Streams t ++ [s]) (ts_NewStreams t ++ [s]))
      ∧ ∀ q, q ≠ p → sess_heap sm' !! q = sess_heap sm !! q
  | Some (false, sm') =>
      sessions_inv sm'
      ∧ ((sessions sm !! id = None ∧ sm' = sm)
         ∨ ∃ p t, session_at sm id p t ∧ ts_Done t = true
             ∧ session_at sm' id p (set_streams t (ts_Streams t ++ [s]) (ts_NewStreams t)))
  | None => ∃ p t, session_at sm id p t ∧ length (ts_NewStreams t) = newStreams_cap
                   ∧ ts_Done t = false
  end.
Proof.
  destruct (AddStream choice sm id s) as [[r sm']|] eqn:E.
  - pose proof (AddStream_inv _ _ _ _ _ _ Hinv E) as Hinv'. revert E. unfold AddStream.
    destruct (sessions sm !! id) as [p|] eqn:Ep; [|intros [= <- <-]; auto].
    destruct (si_table _ Hinv id p Ep) as [t Et]. rewrite Et.
    destruct (select_send choice (addStream t s)) as [[]|] eqn:Es; intros [= <- <-];
      (split; [done|]).
    + exists p, t. split; [done|]. split; [split; [done|apply lookup_insert_eq]|].
      intros q Hq. by apply lookup_insert_ne.
    + right. exists p, t. split; [done|]. split; [|split; [done|apply lookup_insert_eq]].
      unfold select_send in Es. simpl in Es. case_bool_decide; by destruct (ts_Done t).
  - revert E. unfold AddStream. destruct (sessions sm !! id) as [p|] eqn:Ep; [|done].
    destruct (si_table _ Hinv id p Ep) as [t Et]. rewrite Et.
    destruct (select_send choice (addStream t s)) as [[]|] eqn:Es; try done. intros _.
    exists p, t. split; [done|]. unfold select_send in Es. simpl in Es.
    pose proof (proj1 (si_chan _ Hinv p t Et)).
    case_bool_decide; destruct (ts_Done t); try done. split; [lia|done].
Qed.

Module SessionsWitness.
Definition id : SessionID := pad_array 16 (str "session").
Definition sm : SessionManager :=
  (CreateNewSession NewSessionManager id (zero_array 32) (zero_array 32)).1.

(** Ten streams fit, the eleventh blocks. *)
Definition add_all (ss : list StreamID) (sm : SessionManager) : option SessionManager :=
  foldl (λ acc s, sm ← acc; '(_, sm) ← AddStream true sm id s; Some sm) (Some sm) ss.
Example ten_streams :
  (∃ sm', add_all (Z.of_nat <$> seq 0 10) sm = Some sm')
  ∧ add_all (Z.of_nat <$> seq 0 11) sm = None.
Proof. split; [eexists|]; vm_compute; reflexivity. Qed.

Lemma AddStream_spec_witness :
  match AddStream true sm id 4%Z with
  | Some (true, sm') => sessions_inv sm'
  | _ => False
  end.
Proof.
  pose proof (AddStream_spec true sm id 4%Z
                (CreateNewSession_inv _ _ _ _ NewSessionManager_inv)) as Hs.
  exact (proj1 Hs).
Defined.
End SessionsWitness.
