(* ===== verification/SessionRuns.v ===== *)
(** * Concurrent use of a transfer session: internal/p2p/sessions.go

    [AddStream] is called by a goroutine per incoming stream.  It looks the
    session up, records the stream in [Streams] and then waits in a [select]
    until the channel has room or the session is done: three separate critical
    sections, which [sess_step] interleaves with those of the other calls, the
    user of the session and [Close].  A call that waits has no step, and is in
    the state all the same. *)

From Stdlib Require Import ZArith Lia.
From stdpp Require Import relations.
From S2P Require Import Prelude Sha2 Types Frame Stream Sessions.

(** A call of [AddStream] that found its session: before [addStream], and in the
    [select]. *)
Inductive call := Looked (p : ptr) (s : StreamID) | Recorded (p : ptr) (s : StreamID).

Record Sess := mkSess {
  se_sm : SessionManager;
  se_calls : list call;
  (* history: what was sent to a channel, what left it, what was refused *)
  se_sent : list (ptr * StreamID);
  se_taken : list (ptr * StreamID);
  se_refused : list (ptr * StreamID)
}.

Definition sess_start : Sess := mkSess NewSessionManager [] [] [] [].

(** The steps of the calls that are under way. *)
Inductive call_step : Sess → Sess → Prop :=
| cl_record sm cl cl' st tk rf p s t :
    cl ≡ₚ Looked p s :: cl' → sess_heap sm !! p = Some t →
    call_step (mkSess sm cl st tk rf)
      (mkSess (set_session sm p (addStream t s)) (Recorded p s :: cl') st tk rf)
(* case transfer.NewStreams <- stream *)
| cl_send sm cl cl' st tk rf p s t :
    cl ≡ₚ Recorded p s :: cl' → sess_heap sm !! p = Some t →
    length (ts_NewStreams t) < newStreams_cap →
    call_step (mkSess sm cl st tk rf)
      (mkSess (set_session sm p (set_streams t (ts_Streams t) (ts_NewStreams t ++ [s]))) cl'
         (st ++ [(p, s)]) tk rf)
(* case <-transfer.Ctx.Done() *)
| cl_refuse sm cl cl' st tk rf p s t :
    cl ≡ₚ Recorded p s :: cl' → sess_heap sm !! p = Some t → ts_Done t = true →
    call_step (mkSess sm cl st tk rf) (mkSess sm cl' st tk (rf ++ [(p, s)])).

Inductive sess_step : Sess → Sess → Prop :=
| se_call x y : call_step x y → sess_step x y
| se_create sm cl st tk rf id h peer :
    sess_step (mkSess sm cl st tk rf)
      (mkSess (CreateNewSession sm id h peer).1 cl st tk rf)
| se_register sm cl st tk rf id p :
    is_Some (sess_heap sm !! p) →
    sess_step (mkSess sm cl st tk rf) (mkSess (Register sm id p) cl st tk rf)
(* AddStream: a session that is not in the table ends the call at once *)
| se_lookup sm cl st tk rf id s p :
    Get sm id = Some p →
    sess_step (mkSess sm cl st tk rf) (mkSess sm (cl ++ [Looked p s]) st tk rf)
(* the user of a session *)
| se_take sm sm' cl st tk rf p s :
    take_stream sm p = Some (s, sm') →
    sess_step (mkSess sm cl st tk rf) (mkSess sm' cl st (tk ++ [(p, s)]) rf)
| se_close sm cl st tk rf p :
    sess_step (mkSess sm cl st tk rf) (mkSess (Session_Close sm p) cl st tk rf).

(** ** Invariants *)

(** The streams of a history that belong to the session at [p]. *)
Definition streams_of (p : ptr) (l : list (ptr * StreamID)) : list StreamID :=
  (filter (λ x, x.1 = p) l).*2.

Definition recorded_call (c : call) : option (ptr * StreamID) :=
  match c with Recorded p s => Some (p, s) | Looked _ _ => None end.
Definition recorded (calls : list call) : list (ptr * StreamID) := omap recorded_call calls.
Definition call_ptr (c : call) : ptr := match c with Looked p _ | Recorded p _ => p end.

Lemma streams_of_app p l k : streams_of p (l ++ k) = streams_of p l ++ streams_of p k.
Proof. unfold streams_of. by rewrite filter_app, fmap_app. Qed.
Lemma streams_of_cons_eq p s l : streams_of p ((p, s) :: l) = s :: streams_of p l.
Proof. unfold streams_of. by rewrite filter_cons_True. Qed.
Lemma streams_of_cons_ne p q s l : q ≠ p → streams_of p ((q, s) :: l) = streams_of p l.
Proof. intros Hne. unfold streams_of. by rewrite filter_cons_False. Qed.
Lemma streams_of_Permutation p l k : l ≡ₚ k → streams_of p l ≡ₚ streams_of p k.
Proof. unfold streams_of. by intros ->. Qed.

Record session_ok (x : Sess) (p : ptr) (t : TransferSession) : Prop := {
  so_cap : length (ts_NewStreams t) <= newStreams_cap;
  so_fifo : streams_of p (se_taken x) ++ ts_NewStreams t = streams_of p (se_sent x);
  so_streams : ts_Streams t ≡ₚ streams_of p (se_sent x) ++ streams_of p (se_refused x)
                                ++ streams_of p (recorded (se_calls x))
}.

(** A pointer that is not allocated occurs nowhere. *)
Definition ok_at (x : Sess) (p : ptr) : Prop :=
  match sess_heap (se_sm x) !! p with
  | Some t => session_ok x p t
  | None => streams_of p (se_taken x) = [] ∧ streams_of p (se_sent x) = []
            ∧ streams_of p (se_refused x) = [] ∧ streams_of p (recorded (se_calls x)) ≡ₚ []
  end.

Record sess_inv (x : Sess) : Prop := {
  sn_fresh : ∀ p, sess_next (se_sm x) <= p → sess_heap (se_sm x) !! p = None;
  sn_table : ∀ id p, sessions (se_sm x) !! id = Some p → is_Some (sess_heap (se_sm x) !! p);
  sn_calls : Forall (λ c, is_Some (sess_heap (se_sm x) !! call_ptr c)) (se_calls x);
  sn_ok : ∀ p, ok_at x p
}.

(** A step that leaves the session at [p] and its histories alone. *)
Definition same_at (x x' : Sess) (p : ptr) : Prop :=
  sess_heap (se_sm x') !! p = sess_heap (se_sm x) !! p
  ∧ streams_of p (se_taken x') = streams_of p (se_taken x)
  ∧ streams_of p (se_sent x') = streams_of p (se_sent x)
  ∧ streams_of p (se_refused x') = streams_of p (se_refused x)
  ∧ streams_of p (recorded (se_calls x')) ≡ₚ streams_of p (recorded (se_calls x)).

Lemma same_ok x x' p : same_at x x' p → ok_at x p → ok_at x' p.
Proof.
  unfold ok_at. intros (E & Et & Es & Er & Ec). rewrite E.
  destruct (sess_heap (se_sm x) !! p) as [t|].
  - intros [Hc Hf Hs]. split; [done|congruence|by rewrite Es, Er, Ec].
  - by rewrite Et, Es, Er, Ec.
Qed.

Lemma recorded_perm p cl cl' : cl ≡ₚ cl' → streams_of p (recorded cl) ≡ₚ streams_of p (recorded cl').
Proof. intros E. apply streams_of_Permutation. unfold recorded. by rewrite E. Qed.

Lemma streams_of_snoc_ne p q s l : q ≠ p → streams_of p (l ++ [(q, s)]) = streams_of p l.
Proof. intros Hne. by rewrite streams_of_app, streams_of_cons_ne, app_nil_r. Qed.
Lemma streams_of_snoc_eq p s l : streams_of p (l ++ [(p, s)]) = streams_of p l ++ [s].
Proof. by rewrite streams_of_app, streams_of_cons_eq. Qed.

(** The calls that are left, and the session that has changed, are in the heap. *)
Lemma calls_kept (sm : SessionManager) p t cl :
  Forall (λ c, is_Some (sess_heap sm !! call_ptr c)) cl →
  Forall (λ c, is_Some (sess_heap (set_session sm p t) !! call_ptr c)) cl.
Proof.
  intros Hcl. eapply Forall_impl; [exact Hcl|]. intros c Hc. cbn.
  destruct (decide (p = call_ptr c)) as [->|]; [by rewrite lookup_insert_eq|by rewrite lookup_insert_ne].
Qed.

(** A step that gives the session at [p] the value [t'] keeps the invariant when
    it does so at [p] and leaves every other session alone. *)
Lemma update_inv x p t t' cl st tk rf :
  sess_inv x → sess_heap (se_sm x) !! p = Some t →
  Forall (λ c, is_Some (sess_heap (se_sm x) !! call_ptr c)) cl →
  session_ok (mkSess (set_session (se_sm x) p t') cl st tk rf) p t' →
  (∀ q, q ≠ p → same_at x (mkSess (set_session (se_sm x) p t') cl st tk rf) q) →
  sess_inv (mkSess (set_session (se_sm x) p t') cl st tk rf).
Proof.
  intros [Hf Ht _ Hok] Hp Hcl Hpok Hsame. split; cbn [se_sm se_calls].
  - intros q Hq. cbn. rewrite lookup_insert_ne; [by apply Hf|]. intros <-. by rewrite Hf in Hp.
  - intros id q Hq%Ht. cbn. destruct (decide (p = q)) as [->|]; [by rewrite lookup_insert_eq|].
    by rewrite lookup_insert_ne.
  - by apply calls_kept.
  - intros q. destruct (decide (q = p)) as [->|Hne].
    + unfold ok_at. cbn [se_sm set_session sess_heap]. by rewrite lookup_insert_eq.
    + by eapply same_ok; [apply Hsame|].
Qed.

Lemma call_step_inv x x' : call_step x x' → sess_inv x → sess_inv x'.
Proof.
  destruct 1 as [sm cl cl' st tk rf p s t Hcl Hp|sm cl cl' st tk rf p s t Hcl Hp Hroom
                |sm cl cl' st tk rf p s t Hcl Hp Hd];
    intros Hinv; pose proof (sn_calls _ Hinv) as Hc; cbn [se_sm se_calls] in *;
    rewrite Hcl in Hc; apply Forall_cons in Hc as [Hc1 Hc];
    pose proof (sn_ok _ Hinv p) as Hok; unfold ok_at in Hok; cbn [se_sm] in Hok; rewrite Hp in Hok;
    destruct Hok as [H1 H2 H3]; cbn [se_taken se_sent se_refused se_calls] in H1, H2, H3;
    rewrite (recorded_perm p _ _ Hcl) in H3; cbn [recorded omap list_omap recorded_call] in H3.
  - apply (update_inv (mkSess sm cl st tk rf) p t); try done.
    + apply Forall_cons. by split.
    + split; cbn [se_taken se_sent se_refused se_calls addStream set_streams ts_NewStreams ts_Streams]; try done.
      cbn [recorded omap list_omap recorded_call]. rewrite streams_of_cons_eq, H3.
      rewrite <- !app_assoc. do 2 apply Permutation_app_head. symmetry. apply Permutation_cons_append.
    + intros q Hne. split_and!; try done; cbn [se_sm set_session sess_heap se_calls].
      * by rewrite lookup_insert_ne.
      * rewrite (recorded_perm q _ _ Hcl). cbn [recorded omap list_omap recorded_call].
        by rewrite streams_of_cons_ne.
  - rewrite streams_of_cons_eq in H3.
    apply (update_inv (mkSess sm cl st tk rf) p t); try done.
    + split; cbn [se_taken se_sent se_refused se_calls set_streams ts_NewStreams ts_Streams].
      * rewrite length_app. cbn. lia.
      * by rewrite app_assoc, H2, streams_of_snoc_eq.
      * rewrite streams_of_snoc_eq, H3, <- app_assoc. apply Permutation_app_head.
        cbn [app]. by rewrite <- Permutation_middle.
    + intros q Hne. split_and!; try done; cbn [se_sm set_session sess_heap se_calls se_sent].
      * by rewrite lookup_insert_ne.
      * by rewrite streams_of_snoc_ne.
      * rewrite (recorded_perm q _ _ Hcl). cbn [recorded omap list_omap recorded_call].
        by rewrite streams_of_cons_ne.
  - rewrite streams_of_cons_eq in H3.
    destruct Hinv as [Hf Ht _ Hok]. split; try done. intros q.
    destruct (decide (q = p)) as [->|Hne].
    + unfold ok_at. cbn [se_sm]. rewrite Hp.
      split; cbn [se_taken se_sent se_refused se_calls]; try done.
      rewrite streams_of_snoc_eq, H3, <- (app_assoc (streams_of p rf)). done.
    + eapply same_ok; [|apply Hok].
      split_and!; try done; cbn [se_sm se_calls se_refused].
      * by rewrite streams_of_snoc_ne.
      * rewrite (recorded_perm q _ _ Hcl). cbn [recorded omap list_omap recorded_call].
        by rewrite streams_of_cons_ne.
Qed.

Lemma create_inv sm cl st tk rf id h peer :
  sess_inv (mkSess sm cl st tk rf) →
  sess_inv (mkSess (CreateNewSession sm id h peer).1 cl st tk rf).
Proof.
  intros [Hf Ht Hc Hok]. cbn [se_sm se_calls] in *.
  assert (∀ q, is_Some (sess_heap sm !! q) →
            sess_heap (CreateNewSession sm id h peer).1 !! q = sess_heap sm !! q) as Hsame.
  { intros q [t Hq]. cbn. rewrite lookup_insert_ne; [done|]. intros <-. by rewrite Hf in Hq. }
  split; cbn [se_sm se_calls].
  - intros q Hq. cbn in *. rewrite lookup_insert_ne by lia. apply Hf. lia.
  - intros i q. cbn. destruct (decide (id = i)) as [->|Hne].
    + rewrite lookup_insert_eq. intros [= <-]. by rewrite lookup_insert_eq.
    + rewrite lookup_insert_ne by done. intros Hq%Ht. specialize (Hsame q Hq). cbn in Hsame.
      by rewrite Hsame.
  - eapply Forall_impl; [exact Hc|]. intros c Hcc. by rewrite Hsame.
  - intros q. destruct (decide (q = sess_next sm)) as [->|Hne].
    + specialize (Hok (sess_next sm)). unfold ok_at in *. cbn [se_sm] in *.
      rewrite Hf in Hok by done. destruct Hok as (E1 & E2 & E3 & E4).
      cbn [se_taken se_sent se_refused se_calls] in E1, E2, E3, E4.
      cbn [CreateNewSession alloc Register fst sess_heap]. rewrite lookup_insert_eq.
      split; cbn [NewTransferSession ts_NewStreams ts_Streams se_taken se_sent se_refused se_calls];
        [apply le_0_n|by rewrite E1, E2|].
      by rewrite E2, E3, E4.
    + eapply same_ok; [|apply Hok]. split_and!; try done. cbn. by apply lookup_insert_ne.
Qed.

Lemma take_inv sm sm' cl st tk rf p s :
  take_stream sm p = Some (s, sm') → sess_inv (mkSess sm cl st tk rf) →
  sess_inv (mkSess sm' cl st (tk ++ [(p, s)]) rf).
Proof.
  unfold take_stream. destruct (sess_heap sm !! p) as [t|] eqn:Hp; [|done]. cbn.
  destruct (ts_NewStreams t) as [|s0 rest] eqn:En; [done|]. intros [= -> <-] Hinv.
  pose proof (sn_ok _ Hinv p) as Hok. unfold ok_at in Hok. cbn [se_sm] in Hok. rewrite Hp in Hok.
  destruct Hok as [H1 H2 H3]. rewrite En in H1, H2. cbn in H1.
  apply (update_inv (mkSess sm cl st tk rf) p t); try done; [apply Hinv| |].
  - split; cbn [se_taken se_sent set_streams ts_NewStreams ts_Streams]; [lia| |done].
    by rewrite streams_of_snoc_eq, <- app_assoc.
  - intros q Hne. split_and!; try done; [by apply lookup_insert_ne|].
    cbn [se_taken]. by rewrite streams_of_snoc_ne.
Qed.

Lemma Close_inv sm cl st tk rf p :
  sess_inv (mkSess sm cl st tk rf) → sess_inv (mkSess (Session_Close sm p) cl st tk rf).
Proof.
  intros Hinv. unfold Session_Close. destruct (sess_heap sm !! p) as [t|] eqn:Hp; [|done].
  pose proof (sn_ok _ Hinv p) as Hok. unfold ok_at in Hok. cbn [se_sm] in Hok. rewrite Hp in Hok.
  apply (update_inv (mkSess sm cl st tk rf) p t); try done; [apply Hinv|by destruct Hok|].
  intros q Hne. split_and!; try done. cbn. by apply lookup_insert_ne.
Qed.

Lemma sess_step_inv x x' : sess_step x x' → sess_inv x → sess_inv x'.
Proof.
  destruct 1 as [x x' St|sm cl st tk rf id h peer|sm cl st tk rf id p Hp|sm cl st tk rf id s p Hp
                |sm sm' cl st tk rf p s E|sm cl st tk rf p].
  - by apply call_step_inv.
  - apply create_inv.
  - intros [Hf Ht Hc Hok]. split; [done| |done|intros q; by eapply same_ok; [|apply Hok]].
    intros i q. cbn.
    destruct (decide (id = i)) as [->|]; [rewrite lookup_insert_eq; by intros [= <-]|].
    rewrite lookup_insert_ne by done. apply Ht.
  - intros [Hf Ht Hc Hok]. split; try done; cbn [se_sm se_calls] in *.
    + apply Forall_app. split; [done|]. apply Forall_singleton. by eapply Ht.
    + intros q. eapply same_ok; [|apply Hok]. split_and!; try done. cbn.
      unfold recorded. by rewrite omap_app, app_nil_r.
  - by apply take_inv.
  - apply Close_inv.
Qed.

Lemma sess_reached x : rtc sess_step sess_start x → sess_inv x.
Proof.
  intros Hrun. apply (rtc_ind_inv sess_step sess_inv sess_start x); [apply sess_step_inv|exact Hrun|].
  by split.
Qed.

(** ** The calls that are under way *)

Definition call_left (c : call) : nat := match c with Looked _ _ => 2 | Recorded _ _ => 1 end.
Definition calls_left (x : Sess) : nat := sum_list (call_left <$> se_calls x).

Lemma call_step_left x x' : call_step x x' → calls_left x' < calls_left x.
Proof.
  destruct 1 as [sm cl cl' st tk rf p s t Hcl|sm cl cl' st tk rf p s t Hcl|sm cl cl' st tk rf p s t Hcl];
    unfold calls_left; cbn [se_calls]; rewrite Hcl; cbn; lia.
Qed.

(** The sessions of all calls are done. *)
Definition calls_done (x : Sess) : Prop :=
  Forall (λ c, ∃ t, sess_heap (se_sm x) !! call_ptr c = Some t ∧ ts_Done t = true) (se_calls x).

Lemma done_kept (sm : SessionManager) p t t' cl :
  sess_heap sm !! p = Some t → ts_Done t' = ts_Done t →
  Forall (λ c, ∃ t, sess_heap sm !! call_ptr c = Some t ∧ ts_Done t = true) cl →
  Forall (λ c, ∃ u, sess_heap (set_session sm p t') !! call_ptr c = Some u ∧ ts_Done u = true) cl.
Proof.
  intros Hp Hd Hcl. eapply Forall_impl; [exact Hcl|]. intros c (u & Hu & Hdu). cbn.
  destruct (decide (p = call_ptr c)) as [E|]; [|rewrite lookup_insert_ne by done; eauto].
  subst p. rewrite lookup_insert_eq. exists t'. split; [done|]. congruence.
Qed.

Lemma call_step_done x x' : call_step x x' → calls_done x → calls_done x'.
Proof.
  destruct 1 as [sm cl cl' st tk rf p s t Hcl Hp|sm cl cl' st tk rf p s t Hcl Hp
                |sm cl cl' st tk rf p s t Hcl Hp]; unfold calls_done; cbn [se_sm se_calls];
    rewrite Hcl; intros [H1 H2]%Forall_cons; [| |done].
  - apply Forall_cons; split; [|by apply (done_kept _ p t)].
    destruct H1 as (u & Hu & Hd). cbn in Hu |- *. rewrite lookup_insert_eq.
    exists (addStream t s). split; [done|]. cbn. congruence.
  - by apply (done_kept _ p t).
Qed.

Lemma calls_progress x : calls_done x → red call_step x ∨ se_calls x = [].
Proof.
  destruct x as [sm [|[p s|p s] cl] st tk rf]; unfold calls_done; cbn [se_calls]; [auto|..];
    intros [(t & Hp & Hd) _]%Forall_cons; left.
  - eexists. by eapply cl_record.
  - eexists. by eapply cl_refuse.
Qed.

(** ** Properties *)

(** [AddStream] run alone is a lookup followed by the steps of its call. *)
Lemma AddStream_steps choice sm id s r sm' st tk rf :
  AddStream choice sm id s = Some (r, sm') → is_Some (Get sm id) → sessions_inv sm →
  ∃ st' rf', rtc sess_step (mkSess sm [] st tk rf) (mkSess sm' [] st' tk rf')
             ∧ ∃ p, Get sm id = Some p ∧ if r then st' = st ++ [(p, s)] ∧ rf' = rf
                                          else st' = st ∧ rf' = rf ++ [(p, s)].
Proof.
  unfold AddStream, Get. intros E [p Hp] Hinv. rewrite Hp in E.
  destruct (si_table _ Hinv id p Hp) as [t Ht]. rewrite Ht in E.
  assert (rtc sess_step (mkSess sm [] st tk rf)
            (mkSess (set_session sm p (addStream t s)) [Recorded p s] st tk rf)) as Hrun.
  { eapply rtc_l; [by apply (se_lookup sm [] st tk rf id s p)|]. apply rtc_once, se_call.
    by apply (cl_record sm [Looked p s] []). }
  assert (sess_heap (set_session sm p (addStream t s)) !! p = Some (addStream t s)) as Hl
    by apply lookup_insert_eq.
  assert (∀ u, set_session (set_session sm p (addStream t s)) p u = set_session sm p u) as Hset.
  { intros u. unfold set_session. cbn. by rewrite insert_insert_eq. }
  destruct (select_send choice (addStream t s)) as [[]|] eqn:Es; [| |done]; injection E as <- <-.
  - exists (st ++ [(p, s)]), rf. split; [|by exists p]. eapply rtc_r; [exact Hrun|]. apply se_call.
    rewrite <- (Hset (set_streams _ _ _)). eapply (cl_send _ _ _ _ _ _ p s (addStream t s));
      [reflexivity|exact Hl|].
    unfold select_send in Es. case_bool_decide; [done|]. by destruct (ts_Done (addStream t s)).
  - exists st, (rf ++ [(p, s)]). split; [|by exists p]. eapply rtc_r; [exact Hrun|]. apply se_call.
    eapply cl_refuse; [reflexivity|exact Hl|].
    unfold select_send in Es. by case_bool_decide; destruct (ts_Done (addStream t s)).
Qed.

(** C24. Hand-over of streams: under every interleaving of [AddStream] calls, of
    the users of the sessions and of [Close], the user of a session has got the
    streams that were sent to it, each once and in their order, but for the at
    most ten that wait; and [Streams] lists every stream exactly once whose
    call was accepted, was refused because the session was done, or still
    waits. *)
Theorem session_hand_over (x : Sess) (p : ptr) (t : TransferSession)
    (Hrun : rtc sess_step sess_start x) (Hp : sess_heap (se_sm x) !! p = Some t) :
  streams_of p (se_taken x) ++ ts_NewStreams t = streams_of p (se_sent x)
  ∧ length (ts_NewStreams t) <= newStreams_cap
  ∧ ts_Streams t ≡ₚ streams_of p (se_sent x) ++ streams_of p (se_refused x)
                    ++ streams_of p (recorded (se_calls x)).
Proof.
  pose proof (sn_ok _ (sess_reached x Hrun) p) as Hok. unfold ok_at in Hok. rewrite Hp in Hok.
  by destruct Hok.
Qed.

(** C32. [AddStream] returns when its session is closed: from any state in which
    the sessions of all calls under way are done, every run of those calls ends,
    with room in the channels or without, and can only end when all have
    returned. *)
Theorem AddStream_returns (x : Sess) (Hdone : calls_done x) :
  ends_in call_step (λ x', se_calls x' = []) x.
Proof.
  split; [apply (sn_measure _ calls_left); intros; by eapply call_step_left|].
  intros x' Hrun. apply calls_progress.
  by apply (rtc_ind_inv call_step calls_done x x' call_step_done).
Qed.

(** Two calls for one session, with room for one; the session is closed and the
    other call is refused. *)
Module SessionRunsWitness.
Import SessionsWitness.

Definition t0 : TransferSession := NewTransferSession id (zero_array 32) (zero_array 32) true.
Definition sm1 (t : TransferSession) : SessionManager := set_session sm 0 t.
Definition x1 : Sess := mkSess (sm1 (set_streams t0 [4%Z] [])) [] [(0, 4%Z)] [(0, 4%Z)] [].

Lemma x1_reached : rtc sess_step sess_start x1.
Proof.
  eapply rtc_l; [apply (se_create NewSessionManager [] [] [] [] id (zero_array 32) (zero_array 32))|].
  fold sm.
  eapply rtc_l; [by apply (se_lookup sm [] [] [] [] id 4%Z 0)|].
  eapply rtc_l; [by eapply se_call, (cl_record sm [Looked 0 4%Z] [] [] [] [] 0 4%Z t0)|].
  eapply rtc_l.
  { eapply se_call, (cl_send _ [Recorded 0 4%Z] [] [] [] [] 0 4%Z (addStream t0 4%Z));
      [reflexivity|reflexivity|apply Nat.ltb_lt; reflexivity]. }
  apply rtc_once.
  apply (se_take _ (sm1 (set_streams t0 [4%Z] [])) [] [(0, 4%Z)] [] [] 0 4%Z).
  vm_compute. reflexivity.
Qed.

Lemma session_hand_over_witness :
  ∃ t, sess_heap (se_sm x1) !! 0 = Some t ∧ ts_Streams t ≡ₚ [4%Z].
Proof.
  exists (set_streams t0 [4%Z] []). split; [reflexivity|].
  exact (proj2 (proj2 (session_hand_over x1 0 _ x1_reached eq_refl))).
Defined.

Definition full_closed : TransferSession :=
  mkTransferSession id (zero_array 32) (zero_array 32) true [] (Z.of_nat <$> seq 0 10) true.
Definition x2 : Sess := mkSess (sm1 full_closed) [Looked 0 4%Z; Recorded 0 5%Z] [] [] [].

Lemma AddStream_returns_witness : ∃ x, rtc call_step x2 x ∧ se_calls x = [].
Proof.
  apply ends_in_reached, AddStream_returns.
  apply Forall_cons. split; [exists full_closed; by split|].
  apply Forall_singleton. exists full_closed. by split.
Defined.
End SessionRunsWitness.
