(* ===== verification/Swarm.v ===== *)
(** * The swarm: internal/p2p/swarm.go, peer.go

    The table of connected peers, their registration, bans and history in the
    storage, and the sending of signed messages.  Peers are shared by pointer
    (the table, the gossip manager, the callbacks of a connection), so they live
    in a heap.  [AddPeer] takes the lock twice: its two critical sections are
    separate definitions, and [swarm_step] interleaves them with everything the
    other goroutines do. *)

From Stdlib Require Import ZArith Lia.
From stdpp Require Import relations.
From S2P Require Import Prelude Sha2 Types Proto ToyCodec Storage Frame Signature Handshake.
From S2P Require Import Dispatcher Stream Sessions.

(** ** peer.go *)
Record Peer := mkPeer {
  peer_id : PeerID;
  peer_pubKey : PeerPublicKey;
  peer_addr : string;
  peer_isOut : bool;
  peer_cancelled : bool;
  peer_transport : option ConnID      (* nil until SetTransport *)
}.

Definition NewPeer (peerPubKey : PeerPublicKey) (addr : string) (isOut : bool) : Peer :=
  let hashID := sha256 (arr peerPubKey) in
  mkPeer hashID peerPubKey addr isOut false None.

Definition Peer_Close (p : Peer) : Peer :=
  mkPeer (peer_id p) (peer_pubKey p) (peer_addr p) (peer_isOut p) true (peer_transport p).

Definition SetTransport (RemoteAddr : ConnID → string) (p : Peer) (transport : ConnID) : Peer :=
  mkPeer (peer_id p) (peer_pubKey p) (RemoteAddr transport) (peer_isOut p) (peer_cancelled p)
    (Some transport).

Definition Peer_ID (p : Peer) : PeerID := peer_id p.
Definition Peer_PubKey (p : Peer) : PeerPublicKey := peer_pubKey p.
Definition Peer_Addr (p : Peer) : string := peer_addr p.

(** [opened] and [closed] are the results of the QUIC calls (see
    [SendGossipMessage]); the stream is new. *)
Definition Send {W} `{Writer W} `{Codec Envelope} (p : Peer) (opened closed : unit + gerror)
    (msgType : MessageType) (msgData : Envelope) : M W unit :=
  data ← lift (of_lib (marshal msgData));
  match peer_transport p with
  | None => lift (Panic PanicNil)
  | Some _ => SendGossipMessage opened closed msgType data
  end.

(** ** swarm.go *)
Record Swarm (S : Type) := mkSwarm {
  activePeers : gmap PeerID ptr;
  peer_heap : gmap ptr Peer;
  peer_next : ptr;                     (* fresh pointers *)
  swarm_storage : S;
  selfID : PeerID;
  myPrivKey : PeerPrivateKey;
  MaxConnections : Z;                  (* cfg.Network.MaxConnections *)
  netTransport : QuicTransport;        (* a value, not a pointer *)
  sessionManager : SessionManager
}.
Arguments mkSwarm {S} _ _ _ _ _ _ _ _ _.
Arguments activePeers {S} _.
Arguments peer_heap {S} _.
Arguments peer_next {S} _.
Arguments swarm_storage {S} _.
Arguments selfID {S} _.
Arguments myPrivKey {S} _.
Arguments MaxConnections {S} _.
Arguments netTransport {S} _.
Arguments sessionManager {S} _.

(** [netTransport] is not among the fields that the constructor sets. *)
Definition NewSwarm {S} (selfID : PeerID) (privKey : PeerPrivateKey) (storage : S)
    (maxConnections : Z) : Swarm S :=
  mkSwarm ∅ ∅ 0 storage selfID privKey maxConnections zero_QuicTransport NewSessionManager.

Section swarm.
Context {S : Type} `{Storage S} `{Codec Store.PeerStoreEntry} `{Codec MessageData}
        `{Codec Envelope} `{Ed25519}.
Variable RemoteAddr : ConnID → string.
Implicit Types (s : Swarm S).

Definition set_table s (t : gmap PeerID ptr) (h : gmap ptr Peer) (n : ptr) : Swarm S :=
  mkSwarm t h n (swarm_storage s) (selfID s) (myPrivKey s) (MaxConnections s) (netTransport s)
    (sessionManager s).
Definition on_storage {A} (m : M S A) : M (Swarm S) A :=
  zoom swarm_storage (λ st s, mkSwarm (activePeers s) (peer_heap s) (peer_next s) st
                                (selfID s) (myPrivKey s) (MaxConnections s) (netTransport s)
                                (sessionManager s)) m.

(** [p.Close()] through a pointer. *)
Definition close_ptr s (p : ptr) : Swarm S :=
  set_table s (activePeers s) (alter Peer_Close p (peer_heap s)) (peer_next s).

(** *** AddPeer *)

(** The first critical section. *)
Definition AddPeer_close (peerID : PeerID) s : Swarm S :=
  match activePeers s !! peerID with
  | Some old => close_ptr s old
  | None => s
  end.

(** Between them: [NewPeer], [NewPeerWrapper], [SetTransport]. *)
Definition AddPeer_new (peerPubKey : PeerPublicKey) (conn : ConnID) (addr : string)
    (isOut : bool) s : Swarm S * ptr :=
  let p := SetTransport RemoteAddr (NewPeer peerPubKey addr isOut) conn in
  (set_table s (activePeers s) (<[peer_next s := p]> (peer_heap s))
     (Datatypes.S (peer_next s)), peer_next s).

(** The second critical section. *)
Definition AddPeer_table (peerID : PeerID) (p : ptr) s : Swarm S :=
  set_table s (<[peerID := p]> (activePeers s)) (peer_heap s) (peer_next s).

(** [now] is [uint64(time.Now().UnixNano())]; the result of [Set] is ignored. *)
Definition savedPeers : bytes := str "saved:peers:".
Definition SavePeer (peerPubKey : PeerPublicKey) (addr : string) (trustScore : uint 32)
    (now : uint 64) : M (Swarm S) unit :=
  let data := Store.mkPeerStoreEntry (arr peerPubKey) addr now trustScore in
  match marshal data with
  | inr _ => mret ()
  | inl protoData =>
      let key := savedPeers ++ arr (sha256 (arr peerPubKey)) in
      _ ← try (on_storage (storage_Set key protoData));
      mret ()
  end.

(** All of [AddPeer], the goroutine that runs [SavePeer] included. *)
Definition AddPeer (peerPubKey : PeerPublicKey) (peerID : PeerID) (conn : ConnID)
    (addr : string) (isOut : bool) (now : uint 64) : M (Swarm S) ptr :=
  s ← get_state;
  let '(s, p) := AddPeer_new peerPubKey conn addr isOut (AddPeer_close peerID s) in
  _ ← put_state s;
  _ ← SavePeer peerPubKey addr (mk_uint 32 100) now;
  s ← get_state;
  _ ← put_state (AddPeer_table peerID p s);
  mret p.

(** One event of [registrationLoop]. *)
Definition registrationLoop_event (event : NewConnEvent) (now : uint 64) : M (Swarm S) ptr :=
  AddPeer (ev_PeerPubKey event) (ev_PeerID event) (ev_Conn event) (ev_Addr event)
    (ev_IsOut event) now.

(** *** The table *)

Definition RemovePeer (peerID : PeerID) s : Swarm S :=
  match activePeers s !! peerID with
  | Some p =>
      let s := close_ptr s p in
      set_table s (delete peerID (activePeers s)) (peer_heap s) (peer_next s)
  | None => s
  end.

Definition GetPeer (peerID : PeerID) s : option ptr := activePeers s !! peerID.

Definition ThisIsActivePeer (peerID : PeerID) s : bool :=
  bool_decide (is_Some (activePeers s !! peerID)).

(** A [range] over a map visits its entries in any order: [order] is the one of
    this call. *)
Definition GetAllPeers (order : list (PeerID * ptr)) : list ptr := order.*2.

Fixpoint GetMyRandomPeers_loop (count mapCount : N) (order : list (PeerID * ptr))
    (res : list ptr) : list ptr :=
  match order with
  | [] => res
  | (_, p) :: order =>
      if (count <=? mapCount)%N then res
      else GetMyRandomPeers_loop count (mapCount + 1) order (res ++ [p])
  end.
Definition GetMyRandomPeers (count : N) (order : list (PeerID * ptr)) : list ptr :=
  GetMyRandomPeers_loop count 0 order [].

(** *** Bans *)

Definition banKey (peerID : PeerID) : bytes := str "bans:peer:" ++ arr peerID.

Definition BanPeer (peerID : PeerID) : M (Swarm S) unit :=
  _ ← try (on_storage (storage_Set (banKey peerID) (str "true")));
  s ← get_state;
  match activePeers s !! peerID with
  | None => mret ()
  | Some peer => put_state (close_ptr s peer)
  end.

Definition UnBanPeer (peerID : PeerID) : M (Swarm S) unit :=
  _ ← try (on_storage (storage_Delete (banKey peerID)));
  mret ().

Definition CheckOnBan (peerID : PeerID) : M (Swarm S) bool :=
  r ← try (on_storage (storage_Get (banKey peerID)));
  match r with
  | inr _ => mret true
  | inl _ => mret false
  end.

(** *** Sending *)

Definition signMessageData (k : PeerPrivateKey) (mesData : MessageData) : res Envelope :=
  Data ← of_lib (marshal mesData);
  let pubKey := PeerPrivateKeyToPublic k in
  signature ← CreateSignature Data (arr k);
  mret (mkEnvelope Data signature (arr pubKey)).

Definition SendDataForPeer {W} `{Writer W} s (peerID : PeerID) (opened closed : unit + gerror)
    (msgType : MessageType) (data : MessageData) : M W unit :=
  match p ← GetPeer peerID s; peer_heap s !! p with
  | None => lift (Err (ErrorString "this peer is not connected"))
  | Some peer =>
      env ← lift (signMessageData (myPrivKey s) data);
      Send peer opened closed msgType env
  end.

(** *** History *)

Fixpoint GetHistoryConnected_loop (count peerCount : N) (vs : list any)
    (peers : list Store.PeerStoreEntry) : res (list Store.PeerStoreEntry) :=
  match vs with
  | [] => Ok peers
  | v :: vs =>
      if negb (count =? 0)%N && (count <=? peerCount)%N then Ok peers
      else
        match v with
        | ABytes b =>
            match unmarshal b with
            | inr _ => GetHistoryConnected_loop count peerCount vs peers
            | inl peer =>
                GetHistoryConnected_loop count
                  (if (count =? 0)%N then peerCount else (peerCount + 1)%N) vs (peers ++ [peer])
            end
        | _ => Panic PanicType
        end
  end.

Definition GetHistoryConnected (count : N) s : res (list Store.PeerStoreEntry) :=
  match storage_FindValues savedPeers (swarm_storage s) with
  | (_, Some _) => Ok []
  | (findValues, None) => GetHistoryConnected_loop count 0 findValues []
  end.

(** [findAndConnectToPeers] on a swarm that does not change meanwhile:
    [readers] counts the read locks held on [s.mu], [dials] the addresses it
    dials. *)
Fixpoint findAndConnectToPeers_loop s (peers : list Store.PeerStoreEntry) (readers : nat)
    (dials : list string) : nat * list string :=
  match peers with
  | [] => (readers, dials)
  | peer :: peers =>
      let readers := Datatypes.S readers in
      if decide (Z.of_nat (size (activePeers s)) > MaxConnections s)%Z then (readers, dials)
      else
        let ok := bool_decide (is_Some (activePeers s !! sha256 (Store.PubKey peer))) in
        let readers := pred readers in
        if ok then findAndConnectToPeers_loop s peers readers dials
        else findAndConnectToPeers_loop s peers readers (dials ++ [Store.LastKnownAddr peer])
  end.
Definition findAndConnectToPeers s (readers : nat) : res (nat * list string) :=
  peers ← GetHistoryConnected 0 s;
  let '(readers, dials) := findAndConnectToPeers_loop s peers readers [] in
  let readers := Datatypes.S readers in
  if decide (Z.of_nat (size (activePeers s)) > MaxConnections s)%Z then mret (readers, dials)
  else mret (pred readers, dials).

(** *** Dialling

    The arguments are the results of the calls that [DialEarly] makes. *)

Definition connect {W} `{Writer W} s (resolved : unit + gerror) (dialled : ConnID + gerror)
    (opened : unit + gerror) (myNonce : array 32) : M (Attempt W) unit :=
  _ ← try (DialEarly RemoteAddr (netTransport s) resolved dialled opened myNonce);
  mret ().

(** The goroutine of [AddPotentialPeer]; its result is the error it logs. *)
Definition AddPotentialPeer_dial {W} `{Writer W} s (resolved : unit + gerror)
    (dialled : ConnID + gerror) (opened : unit + gerror) (myNonce : array 32) :
    M (Attempt W) (option gerror) :=
  r ← try (DialEarly RemoteAddr (netTransport s) resolved dialled opened myNonce);
  mret (match r with inl _ => None | inr err => Some err end).

Definition GetSessionManager s : SessionManager := sessionManager s.

(** The address that the goroutine dials, if the peer is not connected. *)
Definition AddPotentialPeer (id : PeerID) (addr : string) s : option string :=
  if bool_decide (is_Some (activePeers s !! id)) then None else Some addr.

(** *** Streams of a transfer *)

(** [results] are the results of the [count] goroutines that open a stream, in
    the order in which they end. *)
Definition OpenNewStreams s (peerID : PeerID) (results : list (StreamID + gerror)) :
    res (list StreamID) :=
  match activePeers s !! peerID with
  | None => Err (ErrorString "this peer is inactive")
  | Some _ =>
      let streams := omap (λ r, match r with inl st => Some st | inr _ => None end) results in
      if length streams =? 0 then Err (ErrorString "failed to open any streams")
      else Ok streams
  end.
End swarm.

(** *** The callbacks that AddPeer installs *)

Definition onData {H} `{Codec Envelope} (msgType : MessageType) (payload : bytes)
    (peerID : PeerID) : M (Dispatcher H) unit := λ d,
  match unmarshal payload with
  | inr _ => (Ok (), d)
  | inl data => (Ok (), PushMessage data peerID d)
  end.

(** The first message of a new stream, [None] after five seconds without one;
    the result is the session table and whether the stream is closed at the
    end, [None] when [AddStream] blocks. *)
Definition onNewStream `{Uuid} `{Codec ContentMessage} (choice : bool) (sm : SessionManager)
    (stream : StreamID) (first : option StreamMessage) : option (SessionManager * bool) :=
  match first with
  | None => Some (sm, true)
  | Some ch =>
      if bool_decide (sm_Type ch = TypeStreamInitRequest) then
        match unmarshal (sm_Payload ch) with
        | inr _ => Some (sm, true)
        | inl msg =>
            match ContentMessage_Payload msg with
            | Some (ContentMessage_ChunkReq req) =>
                match uuid_ParseBytes (ChunkRequest_SessionId req) with
                | inr _ => Some (sm, false)
                | inl sessionID =>
                    match AddStream choice sm sessionID stream with
                    | None => None
                    | Some (false, sm) => Some (sm, false)
                    | Some (true, sm) => Some (sm, true)
                    end
                end
            | _ => Some (sm, false)
            end
        end
      else Some (sm, true)
  end.

(** ** The swarm as a transition system *)
Section registration.
Context {S : Type} `{Storage S}.
Variable RemoteAddr : ConnID → string.

(** [adding] is the peer that [registrationLoop], the only caller of [AddPeer],
    has made and not yet put into the table. *)
Record SwarmState := mkSwarmState { ss_swarm : Swarm S; ss_adding : option (PeerID * ptr) }.

Inductive swarm_step : SwarmState → SwarmState → Prop :=
| sw_add_new s event :
    (* [only_authenticated_published]: the identifier is the hash of the key *)
    ev_PeerID event = PeerPubKeyToID (ev_PeerPubKey event) →
    let '(s', p) := AddPeer_new RemoteAddr (ev_PeerPubKey event) (ev_Conn event)
                      (ev_Addr event) (ev_IsOut event) (AddPeer_close (ev_PeerID event) s) in
    swarm_step (mkSwarmState s None) (mkSwarmState s' (Some (ev_PeerID event, p)))
| sw_add_table s id p :
    swarm_step (mkSwarmState s (Some (id, p))) (mkSwarmState (AddPeer_table id p s) None)
| sw_remove s a id : swarm_step (mkSwarmState s a) (mkSwarmState (RemovePeer id s) a)
| sw_ban s s' a id r :
    BanPeer id s = (r, s') → swarm_step (mkSwarmState s a) (mkSwarmState s' a)
(* any other use of the storage *)
| sw_storage s a (m : M S unit) r s' :
    on_storage m s = (r, s') → swarm_step (mkSwarmState s a) (mkSwarmState s' a).

(** The peer at a pointer, while it is not closed. *)
Definition live (s : Swarm S) (p : ptr) (peer : Peer) : Prop :=
  peer_heap s !! p = Some peer ∧ peer_cancelled peer = false.

Record swarm_inv (st : SwarmState) : Prop := {
  sv_id : ∀ p peer, peer_heap (ss_swarm st) !! p = Some peer →
    peer_id peer = PeerPubKeyToID (peer_pubKey peer);
  sv_table : ∀ id p, activePeers (ss_swarm st) !! id = Some p →
    ∃ peer, peer_heap (ss_swarm st) !! p = Some peer ∧ peer_id peer = id;
  sv_live : ∀ p peer, live (ss_swarm st) p peer →
    activePeers (ss_swarm st) !! peer_id peer = Some p
    ∨ ss_adding st = Some (peer_id peer, p);
  sv_adding : ∀ id p, ss_adding st = Some (id, p) →
    (∃ peer, peer_heap (ss_swarm st) !! p = Some peer ∧ peer_id peer = id)
    ∧ ∀ q peer, activePeers (ss_swarm st) !! id = Some q →
        peer_heap (ss_swarm st) !! q = Some peer → peer_cancelled peer = true;
  sv_fresh : ∀ p, peer_next (ss_swarm st) <= p → peer_heap (ss_swarm st) !! p = None
}.

Lemma NewSwarm_inv id k st n : swarm_inv (mkSwarmState (NewSwarm id k st n) None).
Proof.
  split; unfold NewSwarm, live; simpl; try done; intros *; rewrite ?lookup_empty; try done.
  by intros [? _].
Qed.

Lemma close_lookup (s : Swarm S) q p peer :
  peer_heap (close_ptr s q) !! p = Some peer →
  ∃ old, peer_heap s !! p = Some old ∧ peer_id peer = peer_id old
    ∧ peer_pubKey peer = peer_pubKey old
    ∧ (peer_cancelled old = true → peer_cancelled peer = true)
    ∧ (p = q → peer_cancelled peer = true) ∧ (peer_cancelled peer = false → peer = old).
Proof.
  simpl. destruct (decide (q = p)) as [->|Hne].
  - rewrite lookup_alter_eq. destruct (peer_heap s !! p) as [old|]; [|done].
    intros [= <-]. exists old. by split_and!.
  - rewrite lookup_alter_ne by done. intros ->. exists peer. by split_and!.
Qed.

Lemma close_forward (s : Swarm S) q p old :
  peer_heap s !! p = Some old →
  ∃ peer, peer_heap (close_ptr s q) !! p = Some peer ∧ peer_id peer = peer_id old.
Proof.
  simpl. intros E. destruct (decide (q = p)) as [->|Hne].
  - rewrite lookup_alter_eq, E. by eexists.
  - rewrite lookup_alter_ne by done. eauto.
Qed.

(** Closing a peer keeps the invariant. *)
Lemma close_inv (s : Swarm S) a q : swarm_inv (mkSwarmState s a) →
  swarm_inv (mkSwarmState (close_ptr s q) a).
Proof.
  intros [Hid Ht Hl Ha Hf]. simpl in *. split; cbn [ss_swarm ss_adding].
  - intros p peer (old & E & Hi & Hk & _)%close_lookup. rewrite Hi, Hk. eauto.
  - intros id p Hp. destruct (Ht id p Hp) as (old & E & <-). by apply close_forward.
  - intros p peer [(old & E & Hi & _ & _ & _ & Hsame)%close_lookup Hc].
    assert (peer = old) as -> by auto.
    destruct (Hl p old) as [?|?]; [by split|by left|by right].
  - intros id p Hp. destruct (Ha id p Hp) as [(old & E & <-) Hall]. split.
    + by apply close_forward.
    + intros r peer Hr (old' & E' & _ & _ & Hc & _)%close_lookup. eauto.
  - intros p Hp. simpl in *. apply lookup_alter_None. by apply Hf.
Qed.

Lemma AddPeer_new_inv (s s' : Swarm S) ev p :
  ev_PeerID ev = PeerPubKeyToID (ev_PeerPubKey ev) →
  AddPeer_new RemoteAddr (ev_PeerPubKey ev) (ev_Conn ev) (ev_Addr ev) (ev_IsOut ev)
    (AddPeer_close (ev_PeerID ev) s) = (s', p) →
  swarm_inv (mkSwarmState s None) → swarm_inv (mkSwarmState s' (Some (ev_PeerID ev, p))).
Proof.
  intros Hev E Hinv.
  assert (swarm_inv (mkSwarmState (AddPeer_close (ev_PeerID ev) s) None)
          ∧ ∀ q peer, activePeers (AddPeer_close (ev_PeerID ev) s) !! ev_PeerID ev = Some q →
              peer_heap (AddPeer_close (ev_PeerID ev) s) !! q = Some peer →
              peer_cancelled peer = true) as [[Hid Ht Hl _ Hf] Hold].
  { unfold AddPeer_close. destruct (activePeers s !! ev_PeerID ev) as [old|] eqn:Eo.
    - split; [by apply close_inv|]. intros q peer Hq. simpl in Hq.
      assert (q = old) as -> by congruence.
      intros (o & _ & _ & _ & _ & Hc & _)%close_lookup. by apply Hc.
    - split; [done|]. by intros q peer ?; simplify_eq. }
  set (s1 := AddPeer_close (ev_PeerID ev) s) in *. unfold AddPeer_new in E.
  injection E as <- <-. split; simpl in *.
  - intros q peer. destruct (decide (peer_next s1 = q)) as [<-|Hne].
    + rewrite lookup_insert_eq. by intros [= <-].
    + rewrite lookup_insert_ne by done. apply Hid.
  - intros id q Hq. destruct (Ht id q Hq) as (peer & Ep & <-). exists peer.
    rewrite lookup_insert_ne; [done|]. intros <-. by rewrite Hf in Ep.
  - intros q peer [Hq Hc]. destruct (decide (peer_next s1 = q)) as [<-|Hne].
    + right. simpl in Hq. rewrite lookup_insert_eq in Hq. injection Hq as <-.
      simpl. by rewrite Hev.
    + left. simpl in Hq. rewrite lookup_insert_ne in Hq by done.
      destruct (Hl q peer) as [?|?]; [by split|done|done].
  - intros id q [= <- <-]. split.
    + eexists. rewrite lookup_insert_eq. split; [done|]. simpl. by rewrite Hev.
    + intros r peer Hr. rewrite lookup_insert_ne; [by apply Hold|].
      intros <-. destruct (Ht _ _ Hr) as (? & Ep & _). by rewrite Hf in Ep.
  - intros q Hq. rewrite lookup_insert_ne by lia. apply Hf. lia.
Qed.

Lemma AddPeer_table_inv (s : Swarm S) id p :
  swarm_inv (mkSwarmState s (Some (id, p))) → swarm_inv (mkSwarmState (AddPeer_table id p s) None).
Proof.
  intros [Hid Ht Hl Ha Hf]. simpl in *. destruct (Ha id p eq_refl) as [Hp Hold].
  split; simpl; try done.
  - intros i q. destruct (decide (id = i)) as [->|Hne].
    + rewrite lookup_insert_eq. by intros [= <-].
    + rewrite lookup_insert_ne by done. apply Ht.
  - intros q peer [Hq Hc]. left. destruct (Hl q peer) as [Hin|Had]; [by split| |].
    + destruct (decide (id = peer_id peer)) as [->|Hne]; [|by rewrite lookup_insert_ne].
      rewrite (Hold q peer) in Hc; done.
    + injection Had as -> ->. apply lookup_insert_eq.
Qed.

Lemma RemovePeer_inv (s : Swarm S) a id :
  swarm_inv (mkSwarmState s a) → swarm_inv (mkSwarmState (RemovePeer id s) a).
Proof.
  intros Hinv. unfold RemovePeer. destruct (activePeers s !! id) as [p|] eqn:Ep; [|done].
  pose proof (close_inv s a p Hinv) as [Hid Ht Hl Ha Hf].
  split; cbn [ss_swarm ss_adding set_table activePeers peer_heap peer_next] in *; try done.
  - intros i q. destruct (decide (id = i)) as [->|Hne]; [by rewrite lookup_delete_eq|].
    rewrite lookup_delete_ne by done. apply Ht.
  - intros q peer Hq. destruct (Hl q peer Hq) as [Hin|Had]; [left|by right].
    destruct (decide (id = peer_id peer)) as [->|Hne]; [|by rewrite lookup_delete_ne].
    exfalso. simpl in Hin. assert (q = p) as -> by congruence.
    destruct Hq as [(o & _ & _ & _ & _ & Hc & _)%close_lookup Hc'].
    by rewrite Hc in Hc'.
  - intros i q Hi. destruct (Ha i q Hi) as [Hex Hold]. split; [done|].
    intros r peer Hr. apply Hold. rewrite lookup_delete_Some in Hr. tauto.
Qed.

(** The table, the heap and the counter do not depend on the storage. *)
Lemma on_storage_table {A} (m : M S A) (s s' : Swarm S) r :
  on_storage m s = (r, s') →
  activePeers s' = activePeers s ∧ peer_heap s' = peer_heap s ∧ peer_next s' = peer_next s
  ∧ myPrivKey s' = myPrivKey s.
Proof.
  unfold on_storage, zoom. destruct (m _) as [a st]. by intros [= <- <-].
Qed.

Lemma table_inv_eq (s s' : Swarm S) a :
  activePeers s' = activePeers s → peer_heap s' = peer_heap s → peer_next s' = peer_next s →
  swarm_inv (mkSwarmState s a) → swarm_inv (mkSwarmState s' a).
Proof.
  intros E1 E2 E3 [Hid Ht Hl Ha Hf]. unfold live in *. simpl in *.
  split; simpl; unfold live; rewrite ?E1, ?E2, ?E3; done.
Qed.

(** [BanPeer] ignores what the storage answers and closes the peer of the
    table, if there is one; only a panic of the storage stops it before. *)
Lemma BanPeer_closes (s s' : Swarm S) id r :
  BanPeer id s = (r, s') →
  ∃ s1, activePeers s1 = activePeers s ∧ peer_heap s1 = peer_heap s
        ∧ peer_next s1 = peer_next s
        ∧ ((∃ q s2, on_storage (storage_Set (banKey id) (str "true")) s = (Panic q, s2)) ∧ s' = s1
           ∨ s' = match activePeers s !! id with Some p => close_ptr s1 p | None => s1 end).
Proof.
  unfold BanPeer, mbind, M_bind, try.
  destruct (on_storage _ s) as [[[]|e|q] s1] eqn:E;
    destruct (on_storage_table _ _ _ _ E) as (E1 & E2 & E3 & _); simpl; intros H1;
    exists s1; split_and!; try done.
  - right. rewrite E1 in H1. by destruct (activePeers s !! id); injection H1 as <- <-.
  - right. rewrite E1 in H1. by destruct (activePeers s !! id); injection H1 as <- <-.
  - left. injection H1 as <- <-. eauto.
Qed.

Lemma BanPeer_state (s s' : Swarm S) id r :
  BanPeer id s = (r, s') →
  ∃ s1, activePeers s1 = activePeers s ∧ peer_heap s1 = peer_heap s
        ∧ peer_next s1 = peer_next s
        ∧ (s' = s1 ∨ ∃ p, activePeers s !! id = Some p ∧ s' = close_ptr s1 p).
Proof.
  intros (s1 & E1 & E2 & E3 & [[_ E]|E])%BanPeer_closes; exists s1; split_and!; try done; [by left|].
  destruct (activePeers s !! id) as [p|]; [right; eauto|by left].
Qed.

Lemma swarm_step_inv st st' : swarm_step st st' → swarm_inv st → swarm_inv st'.
Proof.
  destruct 1 as [s ev Hev|s id p|s a id|s s' a id r E|s a m r s' E].
  - by apply AddPeer_new_inv.
  - apply AddPeer_table_inv.
  - apply RemovePeer_inv.
  - intros Hinv. destruct (BanPeer_state _ _ _ _ E) as (s1 & E1 & E2 & E3 & [->|(p & _ & ->)]).
    + by eapply table_inv_eq.
    + apply close_inv. by eapply table_inv_eq.
  - intros Hinv. destruct (on_storage_table _ _ _ _ E) as (E1 & E2 & E3 & _).
    by eapply table_inv_eq.
Qed.

(** Nothing sets the transport. *)
Lemma swarm_step_transport st st' :
  swarm_step st st' → netTransport (ss_swarm st') = netTransport (ss_swarm st).
Proof.
  assert (∀ {A} (m : M S A) (s s' : Swarm S) r,
            on_storage m s = (r, s') → netTransport s' = netTransport s) as Hst.
  { intros A m s s' r. unfold on_storage, zoom. destruct (m _). by intros [= <- <-]. }
  destruct 1 as [s ev Hev|s id p|s a id|s s' a id r E|s a m r s' E]; cbn [ss_swarm]; try done.
  - unfold AddPeer_new, AddPeer_close. by destruct (activePeers s !! _).
  - unfold RemovePeer. by destruct (activePeers s !! _).
  - unfold BanPeer, mbind, M_bind, try, get_state, put_state in E.
    destruct (on_storage _ s) as [[[]|e|q] s1] eqn:E1; pose proof (Hst _ _ _ _ _ E1) as Ht;
      try (destruct (activePeers s1 !! id)); injection E as <- <-; done.
  - by eapply Hst.
Qed.

Lemma swarm_steps_inv st st' : rtc swarm_step st st' → swarm_inv st → swarm_inv st'.
Proof. induction 1; eauto using swarm_step_inv. Qed.

Lemma live_unique st p q a b :
  swarm_inv st → live (ss_swarm st) p a → live (ss_swarm st) q b → peer_id a = peer_id b → p = q.
Proof.
  intros [_ _ Hl Had _] Ha Hb Hid.
  destruct (Hl p a Ha) as [Ea|Ea], (Hl q b Hb) as [Eb|Eb]; rewrite Hid in Ea; try congruence.
  - destruct (Had _ _ Eb) as [_ Hold]. destruct Ha as [Hpa Hca]. by rewrite (Hold p a Ea Hpa) in Hca.
  - destruct (Had _ _ Ea) as [_ Hold]. destruct Hb as [Hqb Hcb]. by rewrite (Hold q b Eb Hqb) in Hcb.
Qed.

(** What a peer can become: it keeps its identity, its connection and its end. *)
Definition peer_ext (peer peer' : Peer) : Prop :=
  peer_id peer' = peer_id peer ∧ peer_pubKey peer' = peer_pubKey peer
  ∧ peer_transport peer' = peer_transport peer
  ∧ (peer_cancelled peer = true → peer_cancelled peer' = true).
Definition heap_ext (h h' : gmap ptr Peer) : Prop :=
  ∀ p peer, h !! p = Some peer → ∃ peer', h' !! p = Some peer' ∧ peer_ext peer peer'.

#[export] Instance peer_ext_preorder : PreOrder peer_ext.
Proof.
  split; [by intros ?|]. intros a b c (E1 & E2 & E3 & E4) (F1 & F2 & F3 & F4).
  split_and!; [congruence..|auto].
Qed.
#[export] Instance heap_ext_preorder : PreOrder heap_ext.
Proof.
  split; [intros h p peer E; by exists peer|].
  intros h1 h2 h3 H1 H2 p peer (peer2 & E2 & X2)%H1. destruct (H2 _ _ E2) as (peer3 & E3 & X3).
  exists peer3. split; [done|by etransitivity].
Qed.

Lemma close_heap_ext (s : Swarm S) q : heap_ext (peer_heap s) (peer_heap (close_ptr s q)).
Proof.
  intros p peer E. simpl. destruct (decide (q = p)) as [->|Hne].
  - rewrite lookup_alter_eq, E. by eexists.
  - rewrite lookup_alter_ne by done. by exists peer.
Qed.

(** Peers never disappear from the heap. *)
Lemma AddPeer_new_heap (s s' : Swarm S) ev p :
  AddPeer_new RemoteAddr (ev_PeerPubKey ev) (ev_Conn ev) (ev_Addr ev) (ev_IsOut ev)
    (AddPeer_close (ev_PeerID ev) s) = (s', p) →
  swarm_inv (mkSwarmState s None) → heap_ext (peer_heap s) (peer_heap s').
Proof.
  intros E Hinv. transitivity (peer_heap (AddPeer_close (ev_PeerID ev) s)).
  { unfold AddPeer_close. destruct (activePeers s !! _); [apply close_heap_ext|done]. }
  assert (peer_heap (AddPeer_close (ev_PeerID ev) s)
            !! peer_next (AddPeer_close (ev_PeerID ev) s) = None) as Hf.
  { unfold AddPeer_close. destruct (activePeers s !! _) as [old|]; [|by apply (sv_fresh _ Hinv)].
    apply (sv_fresh _ (close_inv s None old Hinv)). done. }
  unfold AddPeer_new in E. injection E as <- _. cbn [set_table peer_heap].
  intros q peer Hq. exists peer. rewrite lookup_insert_ne; [done|]. intros <-. by rewrite Hf in Hq.
Qed.

Lemma swarm_step_heap st st' :
  swarm_step st st' → swarm_inv st →
  heap_ext (peer_heap (ss_swarm st)) (peer_heap (ss_swarm st')).
Proof.
  destruct 1 as [s ev Hev|s id p|s a id|s s' a id r E|s a m r s' E]; intros Hinv;
    cbn [ss_swarm] in *.
  - by eapply AddPeer_new_heap.
  - done.
  - unfold RemovePeer. destruct (activePeers s !! id); [apply close_heap_ext|done].
  - destruct (BanPeer_state _ _ _ _ E) as (s1 & _ & E2 & _ & [->|(p & _ & ->)]); rewrite <- E2;
      [done|apply close_heap_ext].
  - by destruct (on_storage_table _ _ _ _ E) as (_ & -> & _).
Qed.
End registration.

(** ** Properties *)

Section swarm_properties.
Context {S : Type} `{StorageLaws S} `{CodecLaws Store.PeerStoreEntry}
        `{CodecLaws MessageData} `{CodecLaws Envelope} `{Ed25519Laws}.
Variable RemoteAddr : ConnID → string.
Implicit Types (s : Swarm S) (st : SwarmState (S:=S)).

(** C21. One live peer per identity: from an empty swarm, whatever the
    interleaving of registrations, removals, bans and storage operations, two
    peers that are not closed and have the same identifier are the same, and
    that identifier is the hash of its key.  [GetPeer] finds this peer, unless
    the peer is just between the two critical sections of its own registration;
    what [GetPeer] then finds under the identifier, if anything, is a closed
    peer. *)
Theorem one_live_peer (self : PeerID) (k : PeerPrivateKey) (store : S) (n : Z) st
    (p q : ptr) (a b : Peer)
    (Hrun : rtc (swarm_step RemoteAddr) (mkSwarmState (NewSwarm self k store n) None) st)
    (Ha : live (ss_swarm st) p a) (Hb : live (ss_swarm st) q b)
    (Hid : peer_id a = peer_id b) :
  p = q ∧ peer_id a = PeerPubKeyToID (peer_pubKey a)
  ∧ (ss_adding st ≠ Some (peer_id a, p) → GetPeer (peer_id a) (ss_swarm st) = Some p)
  ∧ (ss_adding st = Some (peer_id a, p) →
       ∀ r, GetPeer (peer_id a) (ss_swarm st) = Some r →
            ∃ old, peer_heap (ss_swarm st) !! r = Some old ∧ peer_id old = peer_id a
                   ∧ peer_cancelled old = true).
Proof.
  pose proof (swarm_steps_inv _ _ _ Hrun (NewSwarm_inv self k store n)) as Hinv.
  split; [by apply (live_unique st p q a b)|split; [apply (sv_id _ Hinv p a), Ha|]]. split.
  - intros Hn. by destruct (sv_live _ Hinv p a Ha).
  - intros Hn r Hr. destruct (sv_table _ Hinv _ _ Hr) as (old & Hold & Ho). exists old.
    split_and!; [done..|]. by apply (proj2 (sv_adding _ Hinv _ _ Hn) r old).
Qed.

(** C40. Dialling from the swarm ends the process: its transport is the zero value
    for ever, so for every address that resolves the dial of [connect], and that
    of the goroutine which a newly discovered peer starts, dereferences nil. *)
Theorem swarm_dial_panics {W : Type} `{Writer W} (self : PeerID) (k : PeerPrivateKey)
    (store : S) (n : Z) st (dialled : ConnID + gerror) (opened : unit + gerror)
    (nonce : array 32) (a : Attempt W)
    (Hrun : rtc (swarm_step RemoteAddr) (mkSwarmState (NewSwarm self k store n) None) st) :
  connect RemoteAddr (ss_swarm st) (inl ()) dialled opened nonce a = (Panic PanicNil, a)
  ∧ ∀ id addr, GetPeer id (ss_swarm st) = None →
      AddPotentialPeer id addr (ss_swarm st) = Some addr
      ∧ AddPotentialPeer_dial RemoteAddr (ss_swarm st) (inl ()) dialled opened nonce a
        = (Panic PanicNil, a).
Proof.
  assert (netTransport (ss_swarm st) = zero_QuicTransport) as Hz.
  { apply (rtc_ind_inv (swarm_step RemoteAddr) (λ st, netTransport (ss_swarm st) = zero_QuicTransport)
             (mkSwarmState (NewSwarm self k store n) None) st); [|exact Hrun|done].
    intros x y Hxy <-. by eapply swarm_step_transport. }
  unfold connect, AddPotentialPeer_dial. rewrite Hz. split; [done|].
  intros id addr Hid. split; [|done].
  unfold AddPotentialPeer. rewrite bool_decide_eq_false_2; [done|].
  unfold GetPeer in Hid. rewrite Hid. by intros [].
Qed.

(** [SavePeer] writes at most its own key. *)
Lemma SavePeer_kv pk addr trust now s :
  ∃ s', SavePeer pk addr trust now s = (Ok (), s')
    ∧ activePeers s' = activePeers s ∧ peer_heap s' = peer_heap s
    ∧ peer_next s' = peer_next s
    ∧ ∀ k, k ≠ savedPeers ++ arr (sha256 (arr pk)) →
        kv (swarm_storage s') !! k = kv (swarm_storage s) !! k.
Proof.
  unfold SavePeer. destruct (marshal _) as [data|e]; [|by exists s].
  set (key := savedPeers ++ arr (sha256 (arr pk))).
  unfold mbind, M_bind, try, on_storage, zoom.
  destruct (Set_spec key data (swarm_storage s)) as [(st & -> & Hk)|(e & ->)].
  - eexists. split; [done|]. simpl. split_and!; try done. intros k' Hne.
    by rewrite Hk, lookup_insert_ne.
  - eexists. split; [done|]. by split_and!.
Qed.

Lemma registrationLoop_event_spec event now s :
  ∃ p s', registrationLoop_event RemoteAddr event now s = (Ok p, s')
    ∧ GetPeer (ev_PeerID event) s' = Some p
    ∧ (∃ peer, live s' p peer ∧ peer_id peer = PeerPubKeyToID (ev_PeerPubKey event))
    ∧ ∀ k, k ≠ savedPeers ++ arr (sha256 (arr (ev_PeerPubKey event))) →
        kv (swarm_storage s') !! k = kv (swarm_storage s) !! k.
Proof.
  unfold registrationLoop_event, AddPeer, mbind, M_bind, get_state, put_state.
  destruct (AddPeer_new _ _ _ _ _ _) as [s1 p] eqn:E1.
  assert (swarm_storage s1 = swarm_storage s) as Est.
  { unfold AddPeer_new in E1. injection E1 as <- _. simpl. unfold AddPeer_close.
    by destruct (activePeers s !! _). }
  destruct (SavePeer_kv (ev_PeerPubKey event) (ev_Addr event) (mk_uint 32 100) now s1)
    as (s2 & -> & Ha & Hh & Hn & Hk).
  eexists p, _. split; [reflexivity|]. rewrite <- Est.
  split; [apply lookup_insert_eq|]. split; [|exact Hk].
  unfold live. cbn [AddPeer_table set_table peer_heap]. rewrite Hh.
  unfold AddPeer_new in E1. injection E1 as <- <-. cbn [set_table peer_heap].
  eexists. rewrite lookup_insert_eq. by split_and!.
Qed.

Lemma banKey_not_saved id h : banKey id ≠ savedPeers ++ h.
Proof. done. Qed.

Lemma BanPeer_connected id s s1 p :
  BanPeer id s = (Ok (), s1) → GetPeer id s = Some p →
  GetPeer id s1 = Some p ∧ ∀ peer, ¬ live s1 p peer.
Proof.
  unfold BanPeer, mbind, M_bind, try, GetPeer. intros Hban Hp.
  assert (∃ s2, activePeers s2 = activePeers s ∧ s1 = close_ptr s2 p)
    as (s2 & E2 & ->).
  { destruct (on_storage _ s) as [[[]|e|q] s2] eqn:E;
      destruct (on_storage_table _ _ _ _ E) as (E1 & _); simpl in Hban; try done;
      rewrite E1, Hp in Hban; injection Hban as <-; eauto. }
  split; [by simpl; rewrite E2|].
  intros peer [(old & _ & _ & _ & _ & Hc & _)%close_lookup Hl]. by rewrite Hc in Hl.
Qed.

(** Bans are not enforced: after a ban was recorded, a new connection of
    the banned peer is registered and live like any other, while the record
    of the ban is still there; and a banned peer that was connected stays in
    the table, closed. *)
Theorem ban_not_enforced (id : PeerID) (event : NewConnEvent) (now : uint 64) s s1 (p0 : ptr)
    (Hban : BanPeer id s = (Ok (), s1))
    (Hrec : kv (swarm_storage s1) !! banKey id = Some (str "true"))
    (Hold : GetPeer id s = Some p0)
    (Hid : ev_PeerID event = id) (Hkey : PeerPubKeyToID (ev_PeerPubKey event) = id) :
  (GetPeer id s1 = Some p0 ∧ ∀ peer, ¬ live s1 p0 peer)
  ∧ ∃ p s2 peer, registrationLoop_event RemoteAddr event now s1 = (Ok p, s2)
      ∧ GetPeer id s2 = Some p ∧ live s2 p peer ∧ peer_id peer = id
      ∧ CheckOnBan id s2 = (Ok false, s2).
Proof.
  split; [by apply (BanPeer_connected id s)|].
  destruct (registrationLoop_event_spec event now s1)
    as (p & s2 & E & Hg & (peer & Hlive & Hpid) & Hkv).
  exists p, s2, peer. split_and!; [done|by rewrite <- Hid|done|congruence|].
  unfold CheckOnBan, mbind, M_bind, try, on_storage, zoom.
  assert (kv (swarm_storage s2) !! banKey id = Some (str "true")) as Hk
    by (rewrite Hkv; [done|apply banKey_not_saved]).
  rewrite (Get_found _ _ _ Hk). by destruct s2.
Qed.

(** The envelope of a message is one that its receiver accepts. *)
Lemma signMessageData_verifies (k : PeerPrivateKey) m env :
  key_pair k → signMessageData k m = Ok env →
  Envelope_PubKey env = arr (PeerPrivateKeyToPublic k)
  ∧ VerifySignature (PeerPrivateKeyToPublic k) (Envelope_Data env) (Envelope_Signature env) = true
  ∧ unmarshal (Envelope_Data env) = inl m.
Proof.
  intros Hk. unfold signMessageData. destruct (marshal m) as [bs|e] eqn:Em; cbn; [|done].
  rewrite CreateSignature_arr. cbn. intros [= <-]. cbn. split; [done|].
  rewrite VerifySignature_arr, ed_verify_sign by done. split; [done|].
  by apply unmarshal_marshal.
Qed.

(** The history is never usable: the values [FindValues] returns are not
    byte slices, so [GetHistoryConnected] either returns no peer, when the
    storage reports an error or has no entry, or panics on the first one. *)
Theorem GetHistoryConnected_no_peers `{!StorageValues S} (count : N) s :
  GetHistoryConnected count s = Ok [] ∨ GetHistoryConnected count s = Panic PanicType.
Proof.
  unfold GetHistoryConnected.
  pose proof (FindValues_decoded savedPeers (swarm_storage s)) as Hb.
  destruct (storage_FindValues _ _) as [[|v vs] [e|]]; [by left..|].
  right. simpl. replace (_ && _) with false by by destruct count.
  destruct v; try done. exfalso. apply (Hb b). by left.
Qed.

(** [findAndConnectToPeers] keeps a read lock - so that no peer can be added any
    more - exactly when there are more peers than [MaxConnections]. *)
Theorem findAndConnectToPeers_lock s (n n' : nat) dials
    (Hrun : findAndConnectToPeers s n = Ok (n', dials)) :
  if decide (Z.of_nat (size (activePeers s)) > MaxConnections s)%Z
  then n < n' else n' = n.
Proof.
  unfold findAndConnectToPeers in Hrun.
  destruct (GetHistoryConnected 0 s) as [peers| |]; simpl in Hrun; try done.
  assert (∀ ps n ds, if decide (Z.of_nat (size (activePeers s)) > MaxConnections s)%Z
            then n <= (findAndConnectToPeers_loop s ps n ds).1
            else (findAndConnectToPeers_loop s ps n ds).1 = n) as Hloop.
  { induction ps as [|peer ps IH]; intros m ds; simpl; destruct (decide _);
      simpl; try lia; try done.
    case_bool_decide; apply IH. }
  specialize (Hloop peers n []).
  destruct (findAndConnectToPeers_loop s peers n []) as [m ds]. simpl in Hloop.
  destruct (decide _); simpl in Hrun; injection Hrun as <- <-; lia.
Qed.
End swarm_properties.

(** [GetMyRandomPeers] gives the first [count] peers of the iteration. *)
Lemma GetMyRandomPeers_take count order :
  GetMyRandomPeers count order = take (N.to_nat count) order.*2.
Proof.
  unfold GetMyRandomPeers.
  assert (∀ mc res, (mc <= count)%N → GetMyRandomPeers_loop count mc order res
            = res ++ take (N.to_nat (count - mc)) order.*2) as Hl.
  { induction order as [|[id p] order IH]; intros mc res Hmc; simpl.
    - by rewrite take_nil, app_nil_r.
    - destruct (N.leb_spec count mc).
      + replace (N.to_nat (count - mc)) with 0 by lia. by rewrite take_0, app_nil_r.
      + rewrite IH by lia. replace (N.to_nat (count - mc)) with (S (N.to_nat (count - (mc + 1)))) by lia.
        simpl. by rewrite <- app_assoc. }
  rewrite Hl by lia. by replace (count - 0)%N with count by lia.
Qed.

(** [GetMyRandomPeers] returns distinct peers of the table, as many as asked
    for or all of them. *)
Theorem GetMyRandomPeers_spec {S : Type} (s : Swarm S) (count : N)
    (order : list (PeerID * ptr)) (Horder : order ≡ₚ map_to_list (activePeers s))
    (Hinj : ∀ i j p, activePeers s !! i = Some p → activePeers s !! j = Some p → i = j) :
  let res := GetMyRandomPeers count order in
  length res = N.to_nat count `min` size (activePeers s)
  ∧ NoDup res ∧ ∀ p, p ∈ res → ∃ id, GetPeer id s = Some p.
Proof.
  intros res. subst res. rewrite GetMyRandomPeers_take.
  assert (∀ id p, (id, p) ∈ order ↔ activePeers s !! id = Some p) as Hin
    by (intros id p; by rewrite Horder, elem_of_map_to_list).
  split; [|split].
  - rewrite length_take, length_fmap, Horder. by rewrite length_map_to_list.
  - eapply sublist_NoDup; [|apply sublist_take].
    apply NoDup_fmap_2_strong.
    + intros [i p] [j q] Hi Hj. simpl. intros ->. f_equal. apply (Hinj i j q); by apply Hin.
    + rewrite Horder. apply NoDup_map_to_list.
  - intros p Hp. assert (p ∈ order.*2) as ([id q] & -> & Hq)%list_elem_of_fmap
      by (eapply elem_of_submseteq; [exact Hp|apply sublist_submseteq, sublist_take]).
    exists id. by apply Hin.
Qed.

(** A stream that the callback hands over to a session is closed by it, and a
    session identifier sent as its 16 bytes is never found: no transfer gets a
    usable stream. *)
Theorem onNewStream_unusable `{UuidLaws, Codec ContentMessage} choice sm st first sm' closed
    (Hrun : onNewStream choice sm st first = Some (sm', closed)) :
  sm' = sm
  ∨ ∃ ch msg req sid accepted, first = Some ch ∧ unmarshal (sm_Payload ch) = inl msg
      ∧ ContentMessage_Payload msg = Some (ContentMessage_ChunkReq req)
      ∧ length (ChunkRequest_SessionId req) ≠ 16
      ∧ AddStream choice sm sid st = Some (accepted, sm') ∧ closed = accepted.
Proof.
  unfold onNewStream in Hrun. destruct first as [ch|]; [|injection Hrun as <- <-; auto].
  case_bool_decide; [|injection Hrun as <- <-; auto].
  destruct (unmarshal (sm_Payload ch)) as [msg|] eqn:U; [|injection Hrun as <- <-; auto].
  destruct (ContentMessage_Payload msg) as [[]|] eqn:P; try (injection Hrun as <- <-; auto).
  destruct (uuid_ParseBytes _) as [sid|] eqn:Eu; [|injection Hrun as <- <-; auto].
  right. exists ch, msg, ChunkReq, sid, closed. split_and!; try done.
  - apply ParseBytes_length in Eu. intros E. rewrite E in Eu.
    by apply (bool_decide_eq_true_2 (16 ∈ [32; 36; 38; 45])) in Eu.
  - by destruct (AddStream choice sm sid st) as [[[] sm1]|]; simplify_eq.
Qed.

Module SwarmWitness.
Import ToyWriter ToyBadger BadgerStorage ToySig.
Definition addr (c : ConnID) : string := "203.0.113.1:4242".
Definition key : PeerPublicKey := pad_array 32 (str "public key").
Definition id : PeerID := PeerPubKeyToID key.
Definition event (c : ConnID) : NewConnEvent := mkNewConnEvent c false id key "".
Definition s0 : Swarm store :=
  NewSwarm (zero_array 32) (NewKeyFromSeed (zero_array 32)) ∅ 100.

(** The peer connects twice. *)
Definition new (c : ConnID) (s : Swarm store) : Swarm store * ptr :=
  AddPeer_new addr key c "" false (AddPeer_close id s).
Definition s1 : Swarm store := AddPeer_table id 0 (new 1 s0).1.
Definition s2 : Swarm store := AddPeer_table id 1 (new 2 s1).1.
Definition second : Peer := SetTransport addr (NewPeer key "" false) 2.

Lemma s2_reached : rtc (swarm_step addr) (mkSwarmState s0 None) (mkSwarmState s2 None).
Proof.
  eapply rtc_l; [apply (sw_add_new addr s0 (event 1)); reflexivity|].
  eapply rtc_l; [apply (sw_add_table addr (new 1 s0).1 id 0)|].
  eapply rtc_l; [apply (sw_add_new addr s1 (event 2)); reflexivity|].
  apply rtc_once. apply (sw_add_table addr (new 2 s1).1 id 1).
Qed.

Lemma second_live : live s2 1 second.
Proof. split; reflexivity. Qed.

Lemma one_live_peer_witness : GetPeer id s2 = Some 1.
Proof.
  destruct (one_live_peer addr (zero_array 32) (NewKeyFromSeed (zero_array 32)) ∅ 100
              (mkSwarmState s2 None) 1 1 second second s2_reached second_live second_live
              eq_refl) as (_ & _ & Hg & _).
  apply Hg. discriminate.
Defined.

Lemma swarm_dial_panics_witness :
  connect addr s2 (inl ()) (inl 3) (inl ()) (zero_array 32) (mkAttempt ([], [] : bytes) false None [])
  = (Panic PanicNil, mkAttempt ([], [] : bytes) false None []).
Proof.
  exact (proj1 (swarm_dial_panics addr (zero_array 32) (NewKeyFromSeed (zero_array 32)) ∅ 100
           (mkSwarmState s2 None) (inl 3) (inl ()) (zero_array 32)
           (mkAttempt ([], [] : bytes) false None []) s2_reached)).
Defined.

Definition banned : res unit * Swarm store := BanPeer id s1.
Lemma ban_not_enforced_witness :
  ∃ p s' peer, registrationLoop_event addr (event 3) (mk_uint 64 0) banned.2 = (Ok p, s')
    ∧ live s' p peer ∧ CheckOnBan id s' = (Ok false, s').
Proof.
  destruct (ban_not_enforced addr id (event 3) (mk_uint 64 0) s1 banned.2 0) as (_ & p & s' & peer & T).
  - apply run_eq. reflexivity.
  - reflexivity.
  - reflexivity.
  - reflexivity.
  - reflexivity.
  - exists p, s', peer. destruct T as (T1 & _ & T2 & _ & T3). by split_and!.
Defined.

Lemma GetMyRandomPeers_spec_witness :
  length (GetMyRandomPeers 5 (map_to_list (activePeers s1))) = 1.
Proof.
  destruct (GetMyRandomPeers_spec s1 5 (map_to_list (activePeers s1))) as (T & _).
  - reflexivity.
  - intros i j p. unfold s1, AddPeer_table, set_table. cbn [activePeers].
    assert (∀ k, (<[id := 0]> (activePeers (new 1 s0).1) : gmap PeerID ptr) !! k = Some p → k = id)
      as Hk.
    { intros k. destruct (decide (k = id)) as [->|Hne]; [done|].
      rewrite lookup_insert_ne by done. unfold new, AddPeer_new, AddPeer_close, s0, NewSwarm.
      cbn [activePeers]. rewrite lookup_empty. cbn [fst set_table activePeers].
      by rewrite lookup_empty. }
    intros Hi%Hk Hj%Hk. congruence.
  - rewrite T. reflexivity.
Defined.

Lemma GetHistoryConnected_no_peers_witness :
  GetHistoryConnected 0 s1 = Ok [] ∨ GetHistoryConnected 0 s1 = Panic PanicType.
Proof. exact (GetHistoryConnected_no_peers 0 s1). Defined.

(** A stream whose first message names a session in the text form of a uuid. *)
Definition anyid : Uuid := {|
  uuid_FromBytes b := if length b =? 16 then inl (pad_array 16 b) else inr (ErrLib 1);
  uuid_ParseBytes b := if length b =? 36 then inl SessionsWitness.id else inr (ErrLib 2) |}.
#[local] Existing Instance anyid.
Lemma anyid_laws : UuidLaws.
Proof.
  split; simpl; intros b.
  - intros ->. done.
  - intros Hb%Nat.eqb_neq. rewrite Hb. eauto.
  - intros u. destruct (Nat.eqb_spec (length b) 36) as [->|]; [|done]. intros _.
    apply elem_of_cons. right. by left.
Qed.
Definition first : StreamMessage :=
  mkStreamMessage TypeStreamInitRequest (ser (mkContentMessage (Some (ContentMessage_ChunkReq
    (mkChunkRequest (replicate 36 Byte.x61) []))))).
Definition handed : option (SessionManager * bool) :=
  onNewStream true SessionsWitness.sm 4%Z (Some first).

Lemma onNewStream_unusable_witness :
  match handed with
  | Some (sm', closed) =>
      sm' = SessionsWitness.sm
      ∨ ∃ sid r, AddStream true SessionsWitness.sm sid 4%Z = Some (r, sm') ∧ closed = r
  | None => True
  end.
Proof.
  destruct handed as [[sm' closed]|] eqn:E; [|exact I].
  destruct (@onNewStream_unusable anyid anyid_laws _ true SessionsWitness.sm 4%Z (Some first)
              sm' closed E) as [T|(_ & _ & _ & sid & r & _ & _ & _ & _ & T1 & T2)].
  - by left.
  - right. by exists sid, r.
Defined.
End SwarmWitness.
