(* ===== verification/SwarmSpec.v ===== *)
(** * What the swarm promises: a registry of peers

    The specification of the table of swarm.go, without pointers: a registry
    maps an identifier to the key and the connection of its peer and tells
    whether the peer is open.  Every operation of the swarm has its name
    ([swarm_op]) and one effect on the registry ([registry_do]); the labelled
    relation [swarm_does] says which operation a step of the swarm is, and
    [swarm_refines] that a run of the swarm leads to the registry that the
    same operations, one after the other, make. *)

From Stdlib Require Import ZArith Lia.
From stdpp Require Import relations.
From S2P Require Import Prelude Sha2 Types Proto ToyCodec Storage Frame Signature Tls Handshake.
From S2P Require Import Dispatcher Stream Sessions Swarm.

(** ** The registry *)

Record entry := mkEntry { en_key : PeerPublicKey; en_conn : option ConnID; en_open : bool }.

Definition close_entry (e : entry) : entry := mkEntry (en_key e) (en_conn e) false.

(** [rg_new] is a peer whose registration has begun: its predecessor is closed,
    and it is not in the table. *)
Record Registry := mkRegistry {
  rg_table : gmap PeerID entry;
  rg_new : option (PeerID * entry)
}.

(** The operations, by name. *)
Inductive swarm_op :=
| BeginAdd (k : PeerPublicKey) (c : ConnID)   (* the first critical section of AddPeer *)
| EndAdd                                      (* the second one *)
| Remove (id : PeerID)                        (* RemovePeer *)
| Ban (id : PeerID)                           (* BanPeer *)
| UseStorage.                                 (* anything else that uses the storage *)

(** What each of them does to the registry; [None] when it cannot happen. *)
Definition registry_do (op : swarm_op) (r : Registry) : option Registry :=
  match op, rg_new r with
  | BeginAdd k c, None =>
      let id := PeerPubKeyToID k in
      Some (mkRegistry (alter close_entry id (rg_table r)) (Some (id, mkEntry k (Some c) true)))
  | BeginAdd _ _, Some _ => None
  | EndAdd, Some (id, e) => Some (mkRegistry (<[id := e]> (rg_table r)) None)
  | EndAdd, None => None
  | Remove id, n => Some (mkRegistry (delete id (rg_table r)) n)
  | Ban id, n => Some (mkRegistry (alter close_entry id (rg_table r)) n)
  | UseStorage, _ => Some r
  end.

Fixpoint registry_run (ops : list swarm_op) (r : Registry) : option Registry :=
  match ops with
  | [] => Some r
  | op :: ops => r ← registry_do op r; registry_run ops r
  end.

Definition no_registry : Registry := mkRegistry ∅ None.

Lemma registry_run_app ops1 ops2 r :
  registry_run (ops1 ++ ops2) r = r' ← registry_run ops1 r; registry_run ops2 r'.
Proof.
  revert r. induction ops1 as [|op ops1 IH]; intros r; cbn; [done|].
  destruct (registry_do op r); [apply IH|done].
Qed.

(** ** The swarm as a registry *)
Section swarm_spec.
Context {S : Type} `{StorageLaws S}.
Variable RemoteAddr : ConnID → string.
Implicit Types (s : Swarm S) (st : SwarmState (S:=S)).

Definition peer_entry (p : Peer) : entry :=
  mkEntry (peer_pubKey p) (peer_transport p) (negb (peer_cancelled p)).

Definition deref s (p : ptr) : option entry := peer_entry <$> peer_heap s !! p.
Definition table_of s : gmap PeerID entry := omap (deref s) (activePeers s).
Definition registry_of st : Registry :=
  mkRegistry (table_of (ss_swarm st))
    ('(id, p) ← ss_adding st; pair id <$> deref (ss_swarm st) p).

(** No two entries share a peer, and the peer that [AddPeer] has just made is in
    no entry. *)
Record unshared st : Prop := {
  un_inv : swarm_inv st;
  un_new : ∀ id p i, ss_adding st = Some (id, p) → activePeers (ss_swarm st) !! i ≠ Some p
}.

Lemma table_inj s a i j p :
  swarm_inv (mkSwarmState s a) →
  activePeers s !! i = Some p → activePeers s !! j = Some p → i = j.
Proof.
  intros Hinv Hi Hj. destruct (sv_table _ Hinv i p Hi) as (x & Ex & <-).
  destruct (sv_table _ Hinv j p Hj) as (y & Ey & <-). cbn in *. congruence.
Qed.

Lemma deref_close_eq s p : deref (close_ptr s p) p = close_entry <$> deref s p.
Proof. unfold deref. cbn. rewrite lookup_alter_eq. by destruct (peer_heap s !! p). Qed.
Lemma deref_close_ne s p q : p ≠ q → deref (close_ptr s p) q = deref s q.
Proof. intros Hne. unfold deref. cbn. by rewrite lookup_alter_ne. Qed.

(** Closing a peer through its pointer closes one entry. *)
Lemma table_close s a id p :
  swarm_inv (mkSwarmState s a) → activePeers s !! id = Some p →
  table_of (close_ptr s p) = alter close_entry id (table_of s).
Proof.
  intros Hinv Hid. apply map_eq. intros i. unfold table_of. cbn [close_ptr set_table activePeers].
  rewrite lookup_omap. destruct (decide (id = i)) as [<-|Hne].
  - rewrite lookup_alter_eq, lookup_omap, Hid. cbn. apply deref_close_eq.
  - rewrite lookup_alter_ne, lookup_omap by done.
    destruct (activePeers s !! i) as [q|] eqn:Eq; [|done]. cbn. apply deref_close_ne.
    intros <-. apply Hne. by eapply table_inj.
Qed.

Lemma table_alter_none s id : activePeers s !! id = None → alter close_entry id (table_of s) = table_of s.
Proof.
  intros Hid. apply map_eq. intros i. destruct (decide (id = i)) as [<-|Hne].
  - rewrite lookup_alter_eq. unfold table_of. by rewrite lookup_omap, Hid.
  - by rewrite lookup_alter_ne.
Qed.

Lemma AddPeer_close_table s a id :
  swarm_inv (mkSwarmState s a) → table_of (AddPeer_close id s) = alter close_entry id (table_of s).
Proof.
  intros Hinv. unfold AddPeer_close. destruct (activePeers s !! id) as [p|] eqn:E.
  - by eapply table_close.
  - by rewrite table_alter_none.
Qed.

(** A peer at a fresh pointer changes no entry. *)
Lemma table_new s a peer n :
  swarm_inv (mkSwarmState s a) →
  table_of (set_table s (activePeers s) (<[peer_next s := peer]> (peer_heap s)) n) = table_of s.
Proof.
  intros Hinv. apply map_eq. intros i. unfold table_of. cbn [set_table activePeers].
  rewrite !lookup_omap. destruct (activePeers s !! i) as [p|] eqn:E; [|done]. cbn.
  unfold deref. cbn. rewrite lookup_insert_ne; [done|]. intros <-.
  destruct (sv_table _ Hinv i _ E) as (x & Ex & _). cbn in Ex.
  by rewrite (sv_fresh _ Hinv) in Ex.
Qed.

Lemma table_eq s s' :
  activePeers s' = activePeers s → peer_heap s' = peer_heap s → table_of s' = table_of s
  ∧ ∀ p, deref s' p = deref s p.
Proof.
  intros E1 E2. assert (∀ p, deref s' p = deref s p) as Hd by (intros p; unfold deref; by rewrite E2).
  split; [|done]. apply map_eq. intros i. unfold table_of. rewrite !lookup_omap, E1.
  destruct (activePeers s !! i); [apply Hd|done].
Qed.

Lemma registry_mk s a t n :
  table_of s = t → ('(id, p) ← a; pair id <$> deref s p) = n →
  registry_of (mkSwarmState s a) = mkRegistry t n.
Proof. by intros <- <-. Qed.

(** The peer that is being added is not the one that a table entry closes. *)
Lemma new_close s a id p :
  unshared (mkSwarmState s a) → activePeers s !! id = Some p →
  ('(i, q) ← a; pair i <$> deref (close_ptr s p) q) = ('(i, q) ← a; pair i <$> deref s q).
Proof.
  intros [_ Hn] Hid. destruct a as [[i q]|]; [|done]. cbn. rewrite deref_close_ne; [done|].
  intros ->. by apply (Hn i q id).
Qed.

Lemma swarm_step_unshared st st' : swarm_step RemoteAddr st st' → unshared st → unshared st'.
Proof.
  intros St [Hinv Hn]. split; [by eapply swarm_step_inv|]. revert Hinv Hn.
  destruct St as [s ev Hev|s id p|s a id|s s' a id r E|s a m r s' E]; cbn [ss_swarm ss_adding];
    intros Hinv Hn i q j; [| done |..].
  - unfold AddPeer_new. cbn [ss_swarm ss_adding set_table activePeers]. intros [= <- <-] Hj.
    assert (activePeers s !! j = Some (peer_next s)) as Hs.
    { revert Hj. unfold AddPeer_close. by destruct (activePeers s !! ev_PeerID ev). }
    destruct (sv_table _ Hinv j _ Hs) as (x & Ex & _). by rewrite (sv_fresh _ Hinv) in Ex.
  - intros Ha Hj. apply (Hn i q j Ha). revert Hj. unfold RemovePeer.
    destruct (activePeers s !! id); [|done]. cbn. by intros [_ ?]%lookup_delete_Some.
  - intros Ha. destruct (BanPeer_state _ _ _ _ E) as (s1 & E1 & _ & _ & [->|(p & _ & ->)]);
      cbn; rewrite E1; by apply Hn with (id := i).
  - intros Ha. destruct (on_storage_table _ _ _ _ E) as (-> & _). by apply Hn with (id := i).
Qed.

(** *** The steps of the swarm, by name *)
Inductive swarm_does : swarm_op → SwarmState (S:=S) → SwarmState (S:=S) → Prop :=
| sd_begin s event :
    ev_PeerID event = PeerPubKeyToID (ev_PeerPubKey event) →
    let '(s', p) := AddPeer_new RemoteAddr (ev_PeerPubKey event) (ev_Conn event)
                      (ev_Addr event) (ev_IsOut event) (AddPeer_close (ev_PeerID event) s) in
    swarm_does (BeginAdd (ev_PeerPubKey event) (ev_Conn event))
      (mkSwarmState s None) (mkSwarmState s' (Some (ev_PeerID event, p)))
| sd_end s id p :
    swarm_does EndAdd (mkSwarmState s (Some (id, p))) (mkSwarmState (AddPeer_table id p s) None)
| sd_remove s a id :
    swarm_does (Remove id) (mkSwarmState s a) (mkSwarmState (RemovePeer id s) a)
| sd_ban s s' a id r :
    BanPeer id s = (r, s') → swarm_does (Ban id) (mkSwarmState s a) (mkSwarmState s' a)
| sd_storage s a (m : M S unit) r s' :
    on_storage m s = (r, s') → swarm_does UseStorage (mkSwarmState s a) (mkSwarmState s' a).

Inductive swarm_run : list swarm_op → SwarmState (S:=S) → SwarmState (S:=S) → Prop :=
| run_nil st : swarm_run [] st st
| run_snoc ops op st st' st'' :
    swarm_run ops st st' → swarm_does op st' st'' → swarm_run (ops ++ [op]) st st''.

(** The names leave nothing out and add nothing. *)
Lemma swarm_step_does st st' : swarm_step RemoteAddr st st' ↔ ∃ op, swarm_does op st st'.
Proof.
  split.
  - destruct 1 as [s ev Hev|s id p|s a id|s s' a id r E|s a m r s' E]; eexists.
    + exact (sd_begin s ev Hev).
    + apply sd_end.
    + apply sd_remove.
    + by eapply sd_ban.
    + by eapply sd_storage.
  - intros [op [s ev Hev|s id p|s a id|s s' a id r E|s a m r s' E]].
    + exact (sw_add_new RemoteAddr s ev Hev).
    + apply sw_add_table.
    + apply sw_remove.
    + by eapply sw_ban.
    + by eapply sw_storage.
Qed.

Lemma swarm_runs st st' : rtc (swarm_step RemoteAddr) st st' → ∃ ops, swarm_run ops st st'.
Proof.
  apply (rtc_ind_r (λ st', ∃ ops, swarm_run ops st st')); [by exists []; apply run_nil|].
  intros x y _ [op Hop]%swarm_step_does [ops IH]. exists (ops ++ [op]). by eapply run_snoc.
Qed.

Lemma swarm_does_unshared op st st' : swarm_does op st st' → unshared st → unshared st'.
Proof. intros Hop. apply swarm_step_unshared, swarm_step_does. by exists op. Qed.

(** A ban closes the entry: the storage does not panic. *)
Lemma BanPeer_spec s s' id r :
  BanPeer id s = (r, s') →
  ∃ s1, activePeers s1 = activePeers s ∧ peer_heap s1 = peer_heap s
        ∧ peer_next s1 = peer_next s
        ∧ s' = match activePeers s !! id with Some p => close_ptr s1 p | None => s1 end.
Proof.
  intros (s1 & E1 & E2 & E3 & [[(q & s2 & E) _]|E])%BanPeer_closes; [|by exists s1].
  exfalso. revert E. unfold on_storage, zoom.
  destruct (Set_spec (banKey id) (str "true") (swarm_storage s)) as [(t & -> & _)|(e & ->)]; done.
Qed.

(** Every step of the swarm does to the registry what its name says. *)
Lemma swarm_simulation op st st' :
  swarm_does op st st' → unshared st →
  registry_do op (registry_of st) = Some (registry_of st').
Proof.
  destruct 1 as [s ev Hev|s id p|s a id|s s' a id r E|s a m r s' E]; intros Hun;
    pose proof (un_inv _ Hun) as Hinv.
  - unfold AddPeer_new.
    assert (swarm_inv (mkSwarmState (AddPeer_close (ev_PeerID ev) s) None)) as Hinv1.
    { unfold AddPeer_close. destruct (activePeers s !! _); [by apply close_inv|done]. }
    rewrite (registry_mk _ None (table_of s) None), (registry_mk _ (Some _)
      (alter close_entry (ev_PeerID ev) (table_of s))
      (Some (ev_PeerID ev, mkEntry (ev_PeerPubKey ev) (Some (ev_Conn ev)) true))); try done.
    + by rewrite Hev.
    + rewrite (table_new _ None) by done. by eapply AddPeer_close_table.
    + cbn. unfold deref. cbn [set_table peer_heap]. by rewrite lookup_insert_eq.
  - destruct (sv_adding _ Hinv id p eq_refl) as [(peer & Hp & _) _]. cbn [ss_swarm] in Hp.
    rewrite (registry_mk _ (Some _) (table_of s) (Some (id, peer_entry peer)));
      [|done|by cbn; unfold deref; rewrite Hp].
    rewrite (registry_mk _ None (<[id := peer_entry peer]> (table_of s)) None); [done| |done].
    apply map_eq. intros i. unfold table_of. rewrite lookup_omap. cbn [AddPeer_table set_table activePeers].
    destruct (decide (id = i)) as [<-|Hne].
    + rewrite !lookup_insert_eq. cbn. unfold deref. cbn. by rewrite Hp.
    + by rewrite !lookup_insert_ne, lookup_omap by done.
  - unfold RemovePeer. cbn [registry_do registry_of rg_table].
    destruct (activePeers s !! id) as [p|] eqn:Ep.
    2: { f_equal. symmetry. apply registry_mk; [|done]. symmetry. apply delete_id.
         unfold table_of. by rewrite lookup_omap, Ep. }
    rewrite (registry_mk (set_table _ _ _ _) a (delete id (table_of s))
               ('(i, q) ← a; pair i <$> deref s q)); [done| |by eapply (new_close s a id)].
    apply map_eq. intros i. unfold table_of. rewrite lookup_omap. cbn [set_table activePeers].
    destruct (decide (id = i)) as [<-|Hne]; [by rewrite !lookup_delete_eq|].
    rewrite !lookup_delete_ne, lookup_omap by done. cbn [close_ptr set_table activePeers].
    destruct (activePeers s !! i) as [q|] eqn:Eq; [|done]. cbn. apply (deref_close_ne s p q).
    intros <-. apply Hne. by eapply table_inj.
  - destruct (BanPeer_spec _ _ _ _ E) as (s1 & E1 & E2 & E3 & ->).
    destruct (table_eq _ _ E1 E2) as [Et Hd]. cbn [registry_do registry_of rg_table rg_new ss_adding].
    replace ('(i, q) ← a; pair i <$> deref s q) with ('(i, q) ← a; pair i <$> deref s1 q)
      by (destruct a as [[i q]|]; [cbn; by rewrite Hd|done]).
    cbn [ss_swarm]. rewrite <- Et. f_equal. symmetry.
    assert (unshared (mkSwarmState s1 a)) as Hun1.
    { split; [by eapply table_inv_eq|]. cbn. rewrite E1. by apply (un_new _ Hun). }
    destruct (activePeers s !! id) as [p|] eqn:Hp; rewrite <- E1 in Hp.
    + apply registry_mk; [by eapply table_close, Hp; apply (un_inv _ Hun1)|by eapply new_close].
    + apply registry_mk; [by rewrite table_alter_none|done].
  - destruct (on_storage_table _ _ _ _ E) as (E1 & E2 & _).
    destruct (table_eq _ _ E1 E2) as [Et Hd]. cbn [registry_do]. f_equal. symmetry.
    apply registry_mk; [done|]. destruct a as [[i q]|]; [|done]. cbn. by rewrite Hd.
Qed.

Lemma swarm_run_registry ops self k (store : S) n st :
  swarm_run ops (mkSwarmState (NewSwarm self k store n) None) st →
  registry_run ops no_registry = Some (registry_of st) ∧ unshared st.
Proof.
  remember (mkSwarmState (NewSwarm self k store n) None) as start eqn:Estart.
  induction 1 as [st|ops op st st' st'' _ IH Hop]; subst.
  - split; [|split; [apply NewSwarm_inv|done]].
    unfold registry_of, no_registry. cbn. do 2 f_equal.
  - destruct (IH eq_refl) as [Hr Hun]. split; [|by eapply swarm_does_unshared].
    rewrite registry_run_app, Hr. cbn. by rewrite (swarm_simulation _ _ _ Hop Hun).
Qed.

Lemma table_lookup s a id :
  swarm_inv (mkSwarmState s a) →
  table_of s !! id = None ∧ GetPeer id s = None
  ∨ ∃ p peer, GetPeer id s = Some p ∧ peer_heap s !! p = Some peer
              ∧ table_of s !! id = Some (peer_entry peer).
Proof.
  intros Hinv. unfold table_of, GetPeer. rewrite lookup_omap.
  destruct (activePeers s !! id) as [p|] eqn:Ep; [right|by left].
  destruct (sv_table _ Hinv id p Ep) as (peer & Hp & _). exists p, peer. cbn in *.
  unfold deref. by rewrite Hp.
Qed.

(** C22. The swarm implements the registry: a run of the swarm from an empty one,
    whatever its operations (the two halves of registrations, removals, bans and
    other uses of the storage) and their order, leads to the table of shared
    peers which the same operations, in the same order, make of the pointer-free
    registry: a registration closes the predecessor and enters the new peer
    afterwards, a removal deletes the entry, a ban closes it, the rest leaves the
    registry alone.  The queries answer from that registry: a peer is found
    exactly when its identifier is registered, with the key, the connection and
    the openness of its entry; and a peer that has left the registry is closed. *)
Theorem swarm_refines (self : PeerID) (k : PeerPrivateKey) (store : S) (n : Z)
    (ops : list swarm_op) st
    (Hrun : swarm_run ops (mkSwarmState (NewSwarm self k store n) None) st) :
  registry_run ops no_registry = Some (registry_of st)
  ∧ (∀ id, ThisIsActivePeer id (ss_swarm st)
           = bool_decide (is_Some (rg_table (registry_of st) !! id)))
  ∧ (∀ id p, GetPeer id (ss_swarm st) = Some p →
       ∃ peer, peer_heap (ss_swarm st) !! p = Some peer
         ∧ rg_table (registry_of st) !! id
           = Some (mkEntry (peer_pubKey peer) (peer_transport peer) (negb (peer_cancelled peer))))
  ∧ dom (rg_table (registry_of st)) = dom (activePeers (ss_swarm st))
  ∧ (∀ p peer, peer_heap (ss_swarm st) !! p = Some peer →
       GetPeer (peer_id peer) (ss_swarm st) ≠ Some p →
       ss_adding st ≠ Some (peer_id peer, p) → peer_cancelled peer = true).
Proof.
  destruct (swarm_run_registry _ _ _ _ _ _ Hrun) as [Hr [Hinv _]]. destruct st as [s a].
  split; [done|]. cbn [registry_of rg_table ss_swarm ss_adding] in *.
  pose proof (λ id, table_lookup s a id Hinv) as Hl. split_and!.
  - intros id. unfold ThisIsActivePeer. apply bool_decide_ext.
    destruct (Hl id) as [[-> Hn]|(p & peer & Hp & _ & ->)]; unfold GetPeer in *;
      rewrite ?Hn, ?Hp; by rewrite ?is_Some_alt.
  - intros id p Hp. destruct (Hl id) as [[_ Hn]|(p' & peer & Hp' & He & Ht)]; [congruence|].
    exists peer. split; [congruence|done].
  - apply set_eq. intros id. rewrite !elem_of_dom.
    destruct (Hl id) as [[-> Hn]|(p & peer & Hp & _ & ->)]; unfold GetPeer in *;
      rewrite ?Hn, ?Hp; by rewrite ?is_Some_alt.
  - intros p peer Hp Hg Ha. destruct (peer_cancelled peer) eqn:Ec; [done|exfalso].
    by destruct (sv_live _ Hinv p peer (conj Hp Ec)).
Qed.
End swarm_spec.

(** Alice is registered, banned and removed. *)
Module SwarmSpecWitness.
Import ToyBadger BadgerStorage.

Definition addr (c : ConnID) : string := "addr".
Definition key : PeerPublicKey := zero_array 32.
Definition alice : PeerID := PeerPubKeyToID key.
Definition event : NewConnEvent := mkNewConnEvent 4 true alice key "addr".
Definition start : SwarmState (S:=store) := mkSwarmState (NewSwarm alice (zero_array 64) ∅ 10) None.

(** She is registered; then she is banned and removed. *)
Definition registered : list swarm_op := [BeginAdd key 4; EndAdd].

Lemma event_registered : ∃ s, swarm_run addr registered start (mkSwarmState s None)
                              ∧ GetPeer alice s = Some 0.
Proof.
  eexists. split.
  - change registered with (([] ++ [BeginAdd key 4]) ++ [EndAdd]). eapply run_snoc; [|apply sd_end].
    eapply run_snoc; [apply run_nil|]. apply (sd_begin addr (ss_swarm start) event); reflexivity.
  - vm_compute. reflexivity.
Qed.

Lemma event_removed : ∃ s, swarm_run addr ((registered ++ [Ban alice]) ++ [Remove alice]) start
                             (mkSwarmState s None).
Proof.
  destruct event_registered as (s & Hrun & _). destruct (BanPeer alice s) as [r s'] eqn:E.
  eexists. eapply run_snoc; [eapply run_snoc; [exact Hrun|by eapply sd_ban]|apply sd_remove].
Qed.

Lemma swarm_refines_witness :
  (∃ st, registry_run registered no_registry = Some (registry_of (S:=store) st)
         ∧ ∃ e, rg_table (registry_of st) !! alice = Some e)
  ∧ ∃ st, registry_run ((registered ++ [Ban alice]) ++ [Remove alice]) no_registry
          = Some (registry_of (S:=store) st) ∧ ThisIsActivePeer alice (ss_swarm st) = false.
Proof.
  split.
  - destruct event_registered as (s & Hrun & Hg).
    destruct (swarm_refines addr _ _ _ _ _ _ Hrun) as (H1 & _ & H2 & _).
    eexists. split; [exact H1|]. destruct (H2 alice 0 Hg) as (peer & _ & He). by eexists.
  - destruct event_removed as (s & Hrun).
    destruct (swarm_refines addr _ _ _ _ _ _ Hrun) as (H1 & H2 & _).
    eexists. split; [exact H1|]. rewrite H2. apply bool_decide_eq_false.
    assert (rg_table <$> registry_run ((registered ++ [Ban alice]) ++ [Remove alice]) no_registry
            = Some (delete alice (alter close_entry alice
                (<[alice := mkEntry key (Some 4) true]> (alter close_entry alice ∅))))) as E
      by reflexivity.
    rewrite H1 in E. apply (inj Some) in E. rewrite E, lookup_delete_eq. by intros [? ?].
Defined.
End SwarmSpecWitness.
