(* ===== verification/NodeStore.v ===== *)
(** * What the components leave to each other in the shared storage

    The key store, the swarm (history and bans), the routing table and the
    Merkle store write the same Badger database, each under its own prefix.
    [node_op] is any one of their writing operations, [node_run] a sequence of
    them; the theorems say what survives it.  Operations run one after the other
    here; [StoreRuns] interleaves their calls, where two saves into one bucket
    can lose a contact ([saveInKBucket_lost_update] in [RoutingTable]). *)

From Stdlib Require Import ZArith Lia.
From S2P Require Import Prelude Sha2 Types Proto ToyCodec Storage Signature KeyStore Kademlia.
From S2P Require Import RoutingTable MerkleDag Dht Frame Handshake Dispatcher Stream Sessions Swarm.

Section node_store.
Context {S : Type} `{Storage S} `{Codec KBucket} `{Codec MerkleNode} `{CodecLeft MerkleNode}
        `{Codec EncryptedPrivateKey} `{KeyLib} `{Ed25519} `{Codec Store.PeerStoreEntry}.

(** The label is the file that the operation saves. *)
Inductive node_op : option bytes → S → S → Prop :=
| no_file file r s s' : SaveFile file s = (r, s') → node_op (Some file) s s'
| no_contact d id pk addr seen trust r s s' :
    Dht.SavePeer d id pk addr seen trust s = (r, s') → node_op None s s'
| no_keys ks rnd r s s' : GetOrGenerateKeys ks rnd s = (r, s') → node_op None s s'
| no_history pk addr trust now r (w w' : Swarm S) :
    Swarm.SavePeer pk addr trust now w = (r, w') → node_op None (swarm_storage w) (swarm_storage w')
| no_ban id r (w w' : Swarm S) :
    BanPeer id w = (r, w') → node_op None (swarm_storage w) (swarm_storage w')
| no_unban id r (w w' : Swarm S) :
    UnBanPeer id w = (r, w') → node_op None (swarm_storage w) (swarm_storage w').

Inductive node_run : list bytes → S → S → Prop :=
| nr_done s : node_run [] s s
| nr_step file files s s1 s2 :
    node_op file s s1 → node_run files s1 s2 → node_run (option_list file ++ files) s s2.
End node_store.

(** ** Key spaces *)

Definition area (prefix k : bytes) : Prop := ∃ h, k = prefix ++ h.
Definition routingTable : bytes := str "routing_table:".
Definition bansPeer : bytes := str "bans:peer:".

Lemma area_app prefix h : area prefix (prefix ++ h).
Proof. by exists h. Qed.
Lemma area_bucket i : area routingTable (intToKey "routing_table:" i).
Proof. by eexists. Qed.
Lemma area_ban id : area bansPeer (banKey id).
Proof. by eexists. Qed.
Lemma area_secret : area secretKeys secretKeys.
Proof. exists []. by rewrite app_nil_r. Qed.

(** Two prefixes that differ at some place have no key in common. *)
Lemma areas_disjoint p q k :
  area p k → area q k → take (length q) p ≠ take (length p) q → False.
Proof.
  intros [h ->] [h' E] Hne. apply Hne.
  apply (f_equal (take (length p `min` length q))) in E.
  rewrite !take_app_le in E by lia.
  rewrite <- (firstn_all p) at 1. rewrite <- (firstn_all q) at 2.
  rewrite !take_take. by rewrite (Nat.min_comm (length q)).
Qed.

(** ** What each operation writes *)
Section writes.
Context {S : Type} `{StorageLaws S} `{CodecLaws KBucket} `{CodecLaws MerkleNode}
        `{CodecLeft MerkleNode} `{CodecLaws EncryptedPrivateKey} `{KeyLibLaws} `{Ed25519}
        `{Codec Store.PeerStoreEntry}.
Implicit Types (s : S) (w : Swarm S).

Definition writes_only (prefix : bytes) (s s' : S) : Prop :=
  ∀ k, ¬ area prefix k → kv s' !! k = kv s !! k.

Lemma writes_nothing prefix s : writes_only prefix s s.
Proof. by intros k _. Qed.

Lemma writes_insert prefix k v s s' :
  area prefix k → kv s' = <[k := v]> (kv s) → writes_only prefix s s'.
Proof. intros Hk E j Hj. rewrite E, lookup_insert_ne; [done|]. by intros ->. Qed.

Lemma SaveFile_writes file s r s' : SaveFile file s = (r, s') →
  ∃ nodes, nodes ⊆ file_encodings file ∧ kv s' = store_nodes nodes (kv s).
Proof.
  unfold SaveFile. destruct (hashExists _ s); [|apply calculateFileChunk_stores].
  intros [= _ <-]. exists []. split; [apply list_subseteq_nil|done].
Qed.

Lemma store_nodes_writes nodes s s' :
  kv s' = store_nodes nodes (kv s) → writes_only dagStorageKey s s'.
Proof. intros E k Hk. rewrite E. apply store_nodes_other. intros h ->. by apply Hk, area_app. Qed.

Lemma saveInKBucket_writes index peer s r s' :
  saveInKBucket index peer s = (r, s') → writes_only routingTable s s'.
Proof.
  assert (∀ data s r s', setInStorage index data s = (r, s') → writes_only routingTable s s') as Hset.
  { intros data s0 r0 s0' [[_ E]|(e & _ & -> & _)]%setInStorage_spec; [|apply writes_nothing].
    eapply writes_insert; [apply area_bucket|exact E]. }
  unfold saveInKBucket, mbind, M_bind, try. pose proof (getFromStorage_spec s index) as Hget.
  destruct (raw_bucket s index) as [v|]; rewrite Hget; unfold saveInKBucket_write;
    [destruct (unmarshal v) as [b|e]; [case_decide|]|cbn [errors_Is]];
    repeat case_match; eauto; intros [= _ <-]; apply writes_nothing.
Qed.

Lemma GetOrGenerateKeys_writes ks rnd s r s' :
  GetOrGenerateKeys ks rnd s = (r, s') →
  writes_only secretKeys s s' ∧ ∀ v, kv s !! secretKeys = Some v → kv s' !! secretKeys = Some v.
Proof.
  intros E. destruct (GetOrGenerateKeys_cases ks rnd s) as
    [(v & Hv & E')|[Hn [(r' & E' & _)|(k & v & d & E' & Hkv & _)]]];
    rewrite E in E'; injection E' as -> ->; try by split; [apply writes_nothing|].
  split; [by eapply writes_insert; [apply area_secret|]|]. intros w Hw. congruence.
Qed.

(** A write or a deletion through the swarm. *)
Lemma on_storage_writes (prefix k : bytes) (m : M S unit) (w w1 : Swarm S) r :
  area prefix k →
  (∀ s, (∃ s', m s = (Ok (), s') ∧ ∀ j, j ≠ k → kv s' !! j = kv s !! j) ∨ (∃ e, m s = (Err e, s))) →
  on_storage m w = (r, w1) → writes_only prefix (swarm_storage w) (swarm_storage w1).
Proof.
  intros Hk Hm. unfold on_storage, zoom.
  destruct (Hm (swarm_storage w)) as [(s' & -> & Ho)|(e & ->)]; intros [= _ <-]; intros j Hj; [|done].
  apply Ho. by intros ->.
Qed.

Lemma BanPeer_writes id (w w' : Swarm S) r :
  BanPeer id w = (r, w') → writes_only bansPeer (swarm_storage w) (swarm_storage w').
Proof.
  unfold BanPeer, mbind, M_bind, try.
  destruct (on_storage _ w) as [r1 w1] eqn:E.
  apply (on_storage_writes bansPeer (banKey id)) in E; [|apply area_ban|].
  - destruct r1 as [[]|e|q]; cbn; [| |by intros [= _ <-]];
      destruct (activePeers w1 !! id); by intros [= _ <-].
  - intros s. destruct (Set_spec (banKey id) (str "true") s) as [(s' & -> & Hk)|(e & ->)]; [left|right];
      eauto. eexists. split; [done|]. intros j Hj. by rewrite Hk, lookup_insert_ne.
Qed.

Lemma UnBanPeer_writes id (w w' : Swarm S) r :
  UnBanPeer id w = (r, w') → writes_only bansPeer (swarm_storage w) (swarm_storage w').
Proof.
  unfold UnBanPeer, mbind, M_bind, try.
  destruct (on_storage _ w) as [r1 w1] eqn:E.
  apply (on_storage_writes bansPeer (banKey id)) in E; [|apply area_ban|].
  - destruct r1 as [[]|e|q]; by intros [= _ <-].
  - intros s. destruct (Delete_spec (banKey id) s) as [(s' & -> & Hk)|(e & ->)]; [left|right];
      eauto. eexists. split; [done|]. intros j Hj. by rewrite Hk, lookup_delete_ne.
Qed.

Lemma history_writes pk addr trust now r (w w' : Swarm S) :
  Swarm.SavePeer pk addr trust now w = (r, w') →
  writes_only savedPeers (swarm_storage w) (swarm_storage w').
Proof.
  destruct (SavePeer_kv pk addr trust now w) as (w1 & -> & _ & _ & _ & Hk). intros [= _ <-] k Hn.
  apply Hk. intros ->. by apply Hn, area_app.
Qed.

(** ** One operation *)

(** The nodes that an operation may store. *)
Definition op_nodes (file : option bytes) : list bytes :=
  match file with Some f => file_encodings f | None => [] end.

(** The effect of an operation on each of the areas that the theorems are about. *)
Record op_effect (file : option bytes) s s' : Prop := {
  oe_dag : ∃ nodes, nodes ⊆ op_nodes file
           ∧ ∀ k, area dagStorageKey k → kv s' !! k = store_nodes nodes (kv s) !! k;
  oe_keys : ∀ v, kv s !! secretKeys = Some v → kv s' !! secretKeys = Some v;
  oe_table : (∀ i, raw_bucket s' i = raw_bucket s i)
             ∨ ∃ i peer r, is_index i ∧ saveInKBucket i peer s = (r, s')
}.

Lemma effect_of_area prefix s s' :
  writes_only prefix s s' → take (length dagStorageKey) prefix ≠ take (length prefix) dagStorageKey →
  take (length secretKeys) prefix ≠ take (length prefix) secretKeys →
  take (length routingTable) prefix ≠ take (length prefix) routingTable →
  op_effect None s s'.
Proof.
  intros Hw D1 D2 D3. split.
  - exists []. split; [done|]. intros k Hk. apply Hw. intros Hp. eapply areas_disjoint; [exact Hp|exact Hk|exact D1].
  - intros v Hv. rewrite Hw; [done|]. intros Hp. eapply areas_disjoint; [exact Hp|apply area_secret|exact D2].
  - left. intros i. apply Hw. intros Hp. eapply areas_disjoint; [exact Hp|apply area_bucket|exact D3].
Qed.

Lemma node_op_effect file s s' : node_op file s s' → op_effect file s s'.
Proof.
  destruct 1 as [file r s s' E|d id pk addr seen trust r s s' E|ks rnd r s s' E
                |pk addr trust now r w w' E|id r w w' E|id r w w' E].
  - apply SaveFile_writes in E as (nodes & Hn & Hk). pose proof (store_nodes_writes _ _ _ Hk) as Hw.
    split.
    + exists nodes. split; [done|]. intros k _. by rewrite Hk.
    + intros v Hv. rewrite Hw; [done|]. intros Hp.
      eapply areas_disjoint; [exact Hp|apply area_secret|discriminate].
    + left. intros i. apply Hw. intros Hp.
      eapply areas_disjoint; [exact Hp|apply area_bucket|discriminate].
  - pose proof (saveInKBucket_writes _ _ _ _ _ E) as Hw. split.
    + exists []. split; [done|]. intros k Hk. apply Hw. intros Hp.
      eapply areas_disjoint; [exact Hp|exact Hk|discriminate].
    + intros v Hv. rewrite Hw; [done|]. intros Hp.
      eapply areas_disjoint; [exact Hp|apply area_secret|discriminate].
    + right. do 3 eexists. split; [apply bucket_is_index|exact E].
  - destruct (GetOrGenerateKeys_writes _ _ _ _ _ E) as [Hw Hkeep]. split; [|done|].
    + exists []. split; [done|]. intros k Hk. apply Hw. intros Hp.
      eapply areas_disjoint; [exact Hp|exact Hk|discriminate].
    + left. intros i. apply Hw. intros Hp.
      eapply areas_disjoint; [exact Hp|apply area_bucket|discriminate].
  - eapply effect_of_area; [by eapply history_writes|discriminate..].
  - eapply effect_of_area; [by eapply BanPeer_writes|discriminate..].
  - eapply effect_of_area; [by eapply UnBanPeer_writes|discriminate..].
Qed.
End writes.

(** ** Properties *)
Section properties.
Context {S : Type} `{StorageLaws S} `{CodecLaws KBucket} `{CodecLaws MerkleNode}
        `{CodecLeft MerkleNode} `{CodecLaws EncryptedPrivateKey} `{KeyLibLaws} `{Ed25519}
        `{Codec Store.PeerStoreEntry}.
Implicit Types (s : S).

Lemma keys_stored ks rnd s0 s priv :
  GetOrGenerateKeys ks rnd s0 = (Ok priv, s) →
  ∃ v, kv s !! secretKeys = Some v ∧ decryptPrivateKey ks v = Ok priv.
Proof.
  intros E. destruct (GetOrGenerateKeys_cases ks rnd s0) as
    [(v & Hv & E')|[Hn [(r' & E' & Hr)|(k & v & d & E' & Hkv & He & _)]]];
    rewrite E in E'.
  - injection E' as -> ->. eauto.
  - injection E' as <- _. by destruct (Hr priv).
  - injection E' as -> ->. exists v. rewrite Hkv, lookup_insert_eq. split; [done|]. by eapply decryptPrivateKey_encrypt.
Qed.

Lemma keys_read ks rnd s v priv :
  kv s !! secretKeys = Some v → decryptPrivateKey ks v = Ok priv →
  GetOrGenerateKeys ks rnd s = (Ok priv, s).
Proof.
  intros Hv Hd. destruct (GetOrGenerateKeys_cases ks rnd s) as [(w & Hw & ->)|[Hn _]]; congruence.
Qed.

Lemma store_nodes_inv (nodes : list bytes) (m : gmap bytes bytes) :
  (∀ h (v : bytes), m !! (dagStorageKey ++ h) = Some v → arr (sha256 v) = h) →
  ∀ h v, store_nodes nodes m !! (dagStorageKey ++ h) = Some v → arr (sha256 v) = h.
Proof.
  intros Hm. unfold store_nodes. induction nodes as [|a nodes IH] using rev_ind; [done|].
  intros h v. rewrite foldl_snoc, lookup_insert. case_decide as E; [|apply IH].
  intros [= ->]. by apply dag_key_inj in E.
Qed.

(** A save of a contact extends its bucket. *)
Lemma table_grows i peer s s' r :
  is_index i → table_inv s → saveInKBucket i peer s = (r, s') →
  ∀ j, is_index j → table s j `prefix_of` table s' j.
Proof.
  intros Hi Hinv E j Hj. destruct (Hinv i Hi) as [Hread _].
  destruct (saveInKBucket_post _ _ _ _ _ Hi Hread E) as [Hpost _].
  destruct r as [[]|e|p]; [|by destruct Hpost as [-> _]|done].
  destruct Hpost as (_ & Hnew & Ho). destruct (decide (j = i)) as [->|Hne].
  - rewrite Hnew. by apply prefix_app_r.
  - by rewrite (proj1 (raw_bucket_table s s' j (Ho j Hj Hne))).
Qed.

(** What an operation keeps. *)
Record kept s s' : Prop := {
  kp_keys : ∀ v, kv s !! secretKeys = Some v → kv s' !! secretKeys = Some v;
  kp_table : table_inv s → table_inv s' ∧ ∀ i, is_index i → table s i `prefix_of` table s' i;
  kp_dag : dag_inv s → dag_inv s'
}.

#[export] Instance kept_preorder : PreOrder kept.
Proof.
  split; [by intros s; split|]. intros s1 s2 s3 [K1 T1 D1] [K2 T2 D2].
  split; [auto| |auto]. intros Hinv. destruct (T1 Hinv) as [Hinv2 P1].
  destruct (T2 Hinv2) as [Hinv3 P2]. split; [done|]. intros i Hi. etransitivity; auto.
Qed.

Lemma node_op_kept file s s' : node_op file s s' → kept s s'.
Proof.
  intros [(nodes & _ & Hdag) Hkeys Ht]%node_op_effect. split; [done| |].
  - intros Hinv. destruct Ht as [Ht|(i & peer & r & Hi & E)].
    + assert (∀ i, table s' i = table s i ∧ (bucket_readable s i → bucket_readable s' i)) as Hr
        by (intros i; by apply raw_bucket_table).
      split; [|intros i _; by rewrite (proj1 (Hr i))].
      intros i Hi. destruct (Hinv i Hi), (Hr i) as [-> ?]. auto.
    + split; [by eapply table_inv_save|by eapply table_grows].
  - intros Hinv h v. rewrite Hdag by apply area_app. by apply store_nodes_inv.
Qed.

Lemma node_run_kept files s s' : node_run files s s' → kept s s'.
Proof. induction 1; [done|]. etransitivity; [by eapply node_op_kept|done]. Qed.

(** Nodes with unique hashes stay in the store. *)
Lemma node_run_dag files s s' c :
  node_run files s s' → kv s !! node_key c = Some c →
  (∀ a, a ∈ concat (file_encodings <$> files) → sha256 a = sha256 c → a = c) →
  kv s' !! node_key c = Some c.
Proof.
  induction 1 as [|file files s s1 s2 Hop _ IH]; intros Hc Hcf; [done|]. apply IH.
  - destruct (oe_dag _ _ _ (node_op_effect _ _ _ Hop)) as (nodes & Hn & Hdag).
    rewrite Hdag by apply area_app. apply store_nodes_keep; [done|].
    intros a Ha%Hn. apply Hcf. rewrite fmap_app, concat_app. apply elem_of_app. left.
    destruct file; [|by apply elem_of_nil in Ha]. cbn. by rewrite app_nil_r.
  - intros a Ha. apply Hcf. rewrite fmap_app, concat_app. apply elem_of_app. by right.
Qed.

(** A stored file survives: after [SaveFile] returned an identifier, any
    sequence of operations of the whole node on the shared storage, more files
    (saved or failed), contacts, keys, history, bans and their removal, leaves
    the file readable under it, bytes unchanged, as long as no two different
    nodes of the files concerned have the same hash. *)
Theorem stored_file_survives (file id : bytes) (files : list bytes) s s1 s2
    (Hlen : (Z.of_nat (length file) < 2 ^ 63)%Z)
    (Hnew : hashExists (arr (sha256 file)) s = false)
    (Hsave : SaveFile file s = (Ok id, s1))
    (Hrun : node_run files s1 s2)
    (Hcf : collision_free (concat (file_encodings <$> file :: files))) :
  GetFileChunk id s2 = (Ok file, s2).
Proof.
  unfold SaveFile in Hsave. rewrite Hnew in Hsave.
  destruct (calculateFileChunk_ok _ _ _ _ Hsave) as (nodes & root & Hnodes & -> & Hkv).
  pose proof (file_nodes_encodings _ _ Hnodes) as Henc.
  cbn [fmap list_fmap concat] in Hcf. rewrite Henc in Hcf.
  unfold GetFileChunk. apply (findFileByID_nodes file s2 nodes); [done..|].
  intros c Hc. eapply node_run_dag; [exact Hrun| |].
  - rewrite Hkv. apply store_nodes_lookup; [|done].
    intros a b Ha Hb. apply Hcf; apply elem_of_app; by left.
  - intros a Ha. apply Hcf; apply elem_of_app; [by right|by left].
Qed.

(** The components respect each other's data: whatever sequence of
    operations the node runs on the shared storage, an identity that was
    generated or read is what every later call returns; the routing table stays
    well formed and no contact in it is lost or reordered; and every entry of
    the file store stays under the hash of its contents. *)
Theorem node_store_durable (files : list bytes) s s' (Hrun : node_run files s s') :
  (∀ ks rnd rnd' priv s0, GetOrGenerateKeys ks rnd s0 = (Ok priv, s) →
     GetOrGenerateKeys ks rnd' s' = (Ok priv, s'))
  ∧ (table_inv s → table_inv s' ∧ ∀ i, is_index i → table s i `prefix_of` table s' i)
  ∧ (dag_inv s → dag_inv s').
Proof.
  destruct (node_run_kept _ _ _ Hrun) as [Hk Ht Hd]. split_and!; [|done..].
  intros ks rnd rnd' priv s0 E. destruct (keys_stored _ _ _ _ _ E) as (v & Hv & Hdec).
  by eapply keys_read; [apply Hk|].
Qed.
End properties.

(** A file is saved; then another file, a contact and a ban. *)
Module NodeStoreWitness.
Import ToyBadger BadgerStorage ToyKeys ToySig MerkleDagWitness DhtWitness KeyStoreWitness.

Definition file2 : bytes := str "world".
Definition swarm_on (s : store) : Swarm store :=
  mkSwarm ∅ ∅ 0 s (zero_array 32) (zero_array 64) 10 zero_QuicTransport NewSessionManager.
Definition after (s : store) : store :=
  swarm_storage (BanPeer id (swarm_on (save (SaveFile file2 s).2).2)).2.

Lemma run_after s : node_run [file2] s (after s).
Proof.
  apply (nr_step (Some file2) [] s (SaveFile file2 s).2).
  { apply (no_file file2 (SaveFile file2 s).1). apply surjective_pairing. }
  apply (nr_step None [] _ (save (SaveFile file2 s).2).2).
  { apply (no_contact dht id [Byte.x07] "addr" (mk_uint 64 1) (mk_uint 32 100)
             (save (SaveFile file2 s).2).1). apply surjective_pairing. }
  apply (nr_step None [] _ (after s)); [|apply nr_done].
  apply (no_ban id (BanPeer id (swarm_on (save (SaveFile file2 s).2).2)).1
           (swarm_on (save (SaveFile file2 s).2).2)). apply surjective_pairing.
Qed.

Definition node_of (f : bytes) : bytes := ser (mkMerkleNode MerkleNode_META_LINK f [] (len64 f)).

Lemma encodings_small (f : bytes) :
  (Z.of_nat (length f) <=? ChunkSize)%Z = true → file_encodings f = [node_of f].
Proof. intros Hle. unfold file_encodings. by rewrite Hle. Qed.

Lemma hashes_differ : sha256 (node_of file) ≠ sha256 (node_of file2).
Proof. intros E%(f_equal arr). revert E. vm_compute. discriminate. Qed.

Lemma no_collision : collision_free (concat (file_encodings <$> [file; file2])).
Proof.
  cbn [fmap list_fmap concat].
  rewrite (encodings_small file), (encodings_small file2) by (vm_compute; reflexivity).
  pose proof hashes_differ as Hne. revert Hne.
  generalize (node_of file) as x, (node_of file2) as y. intros x y Hne a b.
  cbn [app]. rewrite !elem_of_cons. intros [->|[->|[]%elem_of_nil]] [->|[->|[]%elem_of_nil]]; congruence.
Qed.

Lemma stored_file_survives_witness :
  GetFileChunk (arr (sha256 (node_of file))) (after (SaveFile file (∅ : store)).2)
  = (Ok file, after (SaveFile file (∅ : store)).2).
Proof.
  apply (stored_file_survives file _ [file2] (∅ : store) (SaveFile file (∅ : store)).2).
  - apply Z.ltb_lt. vm_compute. reflexivity.
  - reflexivity.
  - exact (run_eq (SaveFile file) (∅ : store) _ SaveFile_ok).
  - apply run_after.
  - exact no_collision.
Defined.

Lemma node_store_durable_witness :
  GetOrGenerateKeys ks (rnd "two") (after first.2)
  = (Ok (arr (NewKeyFromSeed (pad_array 32 (str "one")))), after first.2).
Proof.
  apply (proj1 (node_store_durable [file2] first.2 (after first.2) (run_after first.2))
           ks (rnd "one") (rnd "two") _ (∅ : store)).
  exact (run_eq (GetOrGenerateKeys ks (rnd "one")) (∅ : store) _ first_ok).
Defined.
End NodeStoreWitness.
