(* ===== verification/StoreRuns.v ===== *)
(** * The operations of the node on the storage, call by call

    The operations of [NodeStore] and the readers as programs of storage calls
    ([Calls]), and what holds when any number of them run in different
    goroutines, their calls interleaved in any order. *)

From Stdlib Require Import ZArith Lia.
From stdpp Require Import relations well_founded.
From S2P Require Import Prelude Sha2 Types Proto ToyCodec Storage Calls Signature KeyStore Kademlia.
From S2P Require Import RoutingTable MerkleDag Dht Frame Handshake Dispatcher Stream Sessions Swarm.
From S2P Require Import NodeStore.

Section programs.
Context `{Codec KBucket} `{Codec MerkleNode} `{CodecLeft MerkleNode} `{Codec EncryptedPrivateKey}
        `{KeyLib} `{Ed25519} `{Codec Store.PeerStoreEntry}.

(** ** merkle_dag.go *)
Definition saveAndHashData_calls (data : bytes) : prog bytes :=
  _ ← set_call (dagStorageKey ++ arr (sha256 data)) data;
  mret (arr (sha256 data)).
Definition getDataByHash_calls (hashedID : bytes) : prog bytes :=
  get_call (dagStorageKey ++ hashedID).

(** The loop over the chunks of a file. *)
Fixpoint save_all_calls (cs : list (bytes + gerror)) (keys : list bytes) : prog (list bytes) :=
  match cs with
  | [] => mret keys
  | inr err :: _ => Done (Err err)
  | inl c :: cs => key ← saveAndHashData_calls c; save_all_calls cs (keys ++ [key])
  end.

Definition save_meta (meta : bytes + gerror) : prog bytes :=
  match meta with
  | inr err => Done (Err err)
  | inl metaLink => saveAndHashData_calls metaLink
  end.

Definition calculateFileChunk_calls (file : bytes) : prog bytes :=
  if (Z.of_nat (length file) <=? ChunkSize)%Z then save_meta (createMetaLink file [] (len64 file))
  else
    keys ← save_all_calls (chunk_node <$> file_chunks file) [];
    save_meta (createMetaLink [] keys (len64 file)).

Fixpoint findFileByID_loop_calls (links : list bytes) (fullFile : bytes) : prog bytes :=
  match links with
  | [] => mret fullFile
  | childKey :: links =>
      childBytes ← getDataByHash_calls childKey;
      let childNode := match unmarshal childBytes with
                       | inl node => node
                       | inr _ => unmarshal_left childBytes
                       end in
      findFileByID_loop_calls links (fullFile ++ MerkleNode_Data childNode)
  end.

Definition findFileByID_calls (id : bytes) : prog bytes :=
  nodeBytes ← getDataByHash_calls id;
  match unmarshal nodeBytes with
  | inr err => Done (Err err)
  | inl node =>
      match MerkleNode_type node with
      | MerkleNode_META_LINK =>
          if Nat.ltb 0 (length (MerkleNode_Data node)) then mret (MerkleNode_Data node)
          else if (2 ^ 63 <=? uv (MerkleNode_Size node))%Z
          then Done (Panic (PanicText "makeslice: cap out of range"))
          else findFileByID_loop_calls (MerkleNode_Links node) []
      | MerkleNode_FILE_CHUNK => mret (MerkleNode_Data node)
      end
  end.

(** ** dht.go and routing_table.go *)
Definition SaveFile_calls (file : bytes) : prog bytes :=
  ExistsThen (dagStorageKey ++ arr (sha256 file)) (λ known : bool,
    if known then Done (Ok []) else calculateFileChunk_calls file).
Definition GetFileChunk_calls (chunkHash : bytes) : prog bytes := findFileByID_calls chunkHash.

Definition bucketKey (index : Z) : bytes := intToKey "routing_table:" index.

Definition GetPeers_calls (index : Z) : prog (list Dht.PeerStoreEntry) :=
  fromStorage ← get_call (bucketKey index);
  Done (match unmarshal fromStorage with
        | inr err => Err err
        | inl bucket => Ok (KBucket_Peers bucket)
        end).
Definition GetNearPeers_calls (d : DHT) (peerID : PeerID) : prog (list Dht.PeerStoreEntry) :=
  GetPeers_calls (getBucketIndex (dht_myID d) peerID).

Definition set_bucket (index : Z) (data : bytes + gerror) : prog unit :=
  match data with inr err => Done (Err err) | inl data => set_call (bucketKey index) data end.

Definition saveInKBucket_calls (index : Z) (peer : Dht.PeerStoreEntry) : prog unit :=
  GetThen (bucketKey index) (λ r,
    match r with
    | inr err =>
        if errors_Is err ErrKeyNotFound
        then set_bucket index (marshal (mkKBucket (mk_sint 32 index) [peer]))
        else Done (Err err)
    | inl bucket =>
        match unmarshal bucket with
        | inr err => Done (Err err)
        | inl b =>
            if decide (MaxBucketSize <= length (KBucket_Peers b))
            then Done (Err (ErrorString "bucket cap"))
            else set_bucket index (marshal (mkKBucket (KBucket_Index b) (KBucket_Peers b ++ [peer])))
        end
    end).
Definition SavePeer_calls (d : DHT) (peerID : PeerID) (PubKey : bytes) (addr : string)
    (lastSeen : uint 64) (trustScore : uint 32) : prog unit :=
  saveInKBucket_calls (getBucketIndex (dht_myID d) peerID)
    (Dht.mkPeerStoreEntry PubKey (arr peerID) addr lastSeen trustScore).

(** ** security_keys.go *)
Definition GetOrGenerateKeys_calls (ks : SecureKeyStore) (rnd : KeyRandom) : prog bytes :=
  GetThen secretKeys (λ r,
    match r with
    | inr err =>
        if errors_Is err ErrKeyNotFound then
          seed ← Done (of_lib (rnd_seed rnd));
          let priv := arr (NewKeyFromSeed seed) in
          keyData ← Done (encryptPrivateKey ks rnd priv);
          _ ← set_call secretKeys keyData;
          mret priv
        else Done (Err err)
    | inl keysBytes => Done (decryptPrivateKey ks keysBytes)
    end).

(** ** swarm.go: the errors of the storage are ignored *)
Definition history_calls (pk : PeerPublicKey) (addr : string) (trust : uint 32) (now : uint 64) :
    prog unit :=
  match marshal (Store.mkPeerStoreEntry (arr pk) addr now trust) with
  | inr _ => mret ()
  | inl protoData => SetThen (savedPeers ++ arr (sha256 (arr pk))) protoData (λ _, mret ())
  end.
Definition BanPeer_calls (id : PeerID) : prog unit :=
  SetThen (banKey id) (str "true") (λ _, mret ()).
Definition UnBanPeer_calls (id : PeerID) : prog unit := DeleteThen (banKey id) (λ _, mret ()).
Definition CheckOnBan_calls (id : PeerID) : prog bool :=
  GetThen (banKey id) (λ r, mret match r with inr _ => true | inl _ => false end).

(** ** Any of them *)
Inductive operation :=
  | Op_SaveFile (file : bytes)
  | Op_GetFileChunk (id : bytes)
  | Op_SavePeer (d : DHT) (id : PeerID) (pk : bytes) (addr : string) (seen : uint 64) (trust : uint 32)
  | Op_GetNearPeers (d : DHT) (id : PeerID)
  | Op_Keys (ks : SecureKeyStore) (rnd : KeyRandom)
  | Op_History (pk : PeerPublicKey) (addr : string) (trust : uint 32) (now : uint 64)
  | Op_Ban (id : PeerID)
  | Op_UnBan (id : PeerID)
  | Op_CheckOnBan (id : PeerID).

Inductive reply :=
  | R_unit | R_bytes (b : bytes) | R_peers (l : list Dht.PeerStoreEntry) | R_bool (b : bool).

Definition reply_with {A} (f : A → reply) (p : prog A) : prog reply := a ← p; mret (f a).

Definition operation_calls (o : operation) : prog reply :=
  match o with
  | Op_SaveFile file => reply_with R_bytes (SaveFile_calls file)
  | Op_GetFileChunk id => reply_with R_bytes (GetFileChunk_calls id)
  | Op_SavePeer d id pk addr seen trust =>
      reply_with (λ _, R_unit) (SavePeer_calls d id pk addr seen trust)
  | Op_GetNearPeers d id => reply_with R_peers (GetNearPeers_calls d id)
  | Op_Keys ks rnd => reply_with R_bytes (GetOrGenerateKeys_calls ks rnd)
  | Op_History pk addr trust now => reply_with (λ _, R_unit) (history_calls pk addr trust now)
  | Op_Ban id => reply_with (λ _, R_unit) (BanPeer_calls id)
  | Op_UnBan id => reply_with (λ _, R_unit) (UnBanPeer_calls id)
  | Op_CheckOnBan id => reply_with R_bool (CheckOnBan_calls id)
  end.
End programs.

(** ** Alone, a program is its operation *)
Section alone.
Context {S : Type} `{StorageLaws S} `{CodecLaws KBucket} `{CodecLaws MerkleNode}
        `{CodecLeft MerkleNode} `{CodecLaws EncryptedPrivateKey} `{KeyLibLaws} `{Ed25519}
        `{Codec Store.PeerStoreEntry}.
Implicit Types (s : S) (w : Swarm S).

Lemma try_call {A} (m : M S A) s : (∃ r s', try m s = (Ok r, s')) →
  (r ← try m; exec (Done (res_of r))) s = m s.
Proof.
  intros (r & s' & E). unfold mbind, M_bind. rewrite E. revert E. unfold try.
  destruct (m s) as [[a|e|q] s1]; by intros [= <- <-].
Qed.

Lemma exec_get k s : exec (get_call k) s = storage_Get k s.
Proof. apply try_call. destruct (try_Get k s) as (r & E & _). eauto. Qed.
Lemma exec_set k v s : exec (set_call k v) s = storage_Set k v s.
Proof. apply try_call. destruct (try_Set k v s) as (r & s' & E & _). eauto. Qed.

Lemma exec_saveAndHashData data s : exec (saveAndHashData_calls data) s = saveAndHashData data s.
Proof.
  unfold saveAndHashData_calls, saveAndHashData. rewrite exec_bind. unfold mbind, M_bind.
  by rewrite exec_set.
Qed.

Lemma exec_save_all cs keys s : exec (save_all_calls cs keys) s = save_all cs keys s.
Proof.
  revert keys s. induction cs as [|[c|e] cs IH]; intros keys s; cbn [save_all_calls save_all]; [done| |done].
  rewrite exec_bind. unfold mbind, M_bind. rewrite exec_saveAndHashData.
  destruct (saveAndHashData c s) as [[k|e|q] s1]; [apply IH|done..].
Qed.

Lemma exec_save_meta meta s :
  exec (save_meta meta) s
  = match meta with inr err => lift (Err err) s | inl m => saveAndHashData m s end.
Proof. destruct meta; [apply exec_saveAndHashData|done]. Qed.

Lemma exec_calculateFileChunk file s :
  exec (calculateFileChunk_calls file) s = calculateFileChunk file s.
Proof.
  unfold calculateFileChunk_calls, calculateFileChunk. destruct (_ <=? _)%Z.
  - rewrite exec_save_meta. by destruct (createMetaLink _ _ _).
  - rewrite exec_bind. unfold mbind, M_bind. rewrite exec_save_all.
    rewrite (calculateFileChunk_loop_save_all _ _ 0) by (change (drop 0 file) with file; lia).
    change (drop 0 file) with file. fold (file_chunks file).
    destruct (save_all _ _ s) as [[ks|e|q] s1]; [|done..]. rewrite exec_save_meta.
    by destruct (createMetaLink _ _ _).
Qed.

Lemma exec_findFileByID_loop links acc s :
  exec (findFileByID_loop_calls links acc) s = findFileByID_loop links acc s.
Proof.
  revert acc s. induction links as [|l links IH]; intros acc s; [done|].
  cbn [findFileByID_loop_calls findFileByID_loop]. rewrite exec_bind. unfold mbind, M_bind.
  unfold getDataByHash_calls, getDataByHash. rewrite exec_get.
  destruct (storage_Get _ s) as [[v|e|q] s1]; [apply IH|done..].
Qed.

Lemma exec_findFileByID id s : exec (findFileByID_calls id) s = findFileByID id s.
Proof.
  unfold findFileByID_calls, findFileByID. rewrite exec_bind. unfold mbind, M_bind.
  unfold getDataByHash_calls, getDataByHash. rewrite exec_get.
  destruct (storage_Get _ s) as [[v|e|q] s1]; [|done..].
  destruct (unmarshal v) as [node|e]; [|done]. destruct (MerkleNode_type node); try done.
  destruct (Nat.ltb _ _); [done|]. destruct (_ <=? _)%Z; [done|]. apply exec_findFileByID_loop.
Qed.

Lemma exec_set_bucket i data s :
  exec (set_bucket i data) s
  = match data with inr err => lift (Err err) s | inl d => setInStorage i d s end.
Proof. destruct data; [apply exec_set|done]. Qed.

Lemma exec_saveInKBucket i peer s : exec (saveInKBucket_calls i peer) s = saveInKBucket i peer s.
Proof.
  unfold saveInKBucket_calls, saveInKBucket, getFromStorage. cbn [exec].
  unfold mbind at 1, M_bind at 1, mbind at 1, M_bind at 1. fold (bucketKey i).
  destruct (try (storage_Get (bucketKey i)) s) as [[[v|e]|e|q] s1]; [| |done..];
    cbn [saveInKBucket_write].
  - destruct (unmarshal v) as [b|e]; [|done]. case_decide; [done|]. rewrite exec_set_bucket.
    by destruct (marshal _).
  - destruct (errors_Is _ _); [|done]. rewrite exec_set_bucket. by destruct (marshal _).
Qed.

Lemma exec_GetPeers i s : exec (GetPeers_calls i) s = GetPeers i s.
Proof.
  unfold GetPeers_calls, GetPeers, getFromStorage. rewrite exec_bind. unfold mbind, M_bind.
  rewrite exec_get. fold (bucketKey i). destruct (storage_Get _ s) as [[v|e|q] s1]; [|done..].
  by destruct (unmarshal v).
Qed.

Lemma bind_ok {T A B} (m : M T A) (f : A → M T B) (t : T) a (t' : T) : m t = (Ok a, t') → (m ≫= f) t = f a t'.
Proof. intros E. unfold mbind, M_bind. by rewrite E. Qed.

Lemma exec_GetOrGenerateKeys ks rnd s :
  exec (GetOrGenerateKeys_calls ks rnd) s = GetOrGenerateKeys ks rnd s.
Proof.
  unfold GetOrGenerateKeys_calls, GetOrGenerateKeys. cbn [exec].
  destruct (try_Get secretKeys s) as (r & E & _). rewrite !(bind_ok _ _ _ _ _ E).
  destruct r as [v|e]; [done|]. destruct (errors_Is _ _); [|done].
  rewrite exec_bind. cbn [exec]. destruct (of_lib (rnd_seed rnd)) as [seed|e'|q]; [|done..].
  rewrite !(bind_ok (lift (Ok seed)) _ s seed s eq_refl), exec_bind. cbn [exec].
  destruct (encryptPrivateKey _ _ _) as [data|e'|q]; [|done..].
  rewrite !(bind_ok (lift (Ok data)) _ s data s eq_refl), exec_bind.
  unfold mbind, M_bind. by rewrite exec_set.
Qed.

(** The operations on a swarm, as far as its storage goes. *)
Lemma on_storage_try {A} (m : M S A) w r s' :
  try m (swarm_storage w) = (Ok r, s') →
  ∃ w', try (on_storage m) w = (Ok r, w') ∧ swarm_storage w' = s'.
Proof.
  unfold try, on_storage, zoom. destruct (m (swarm_storage w)) as [[a|e|q] s1]; intros [= <- <-];
    by eexists.
Qed.

Lemma exec_history pk addr trust now w :
  swarm_storage (Swarm.SavePeer pk addr trust now w).2
  = (exec (history_calls pk addr trust now) (swarm_storage w)).2.
Proof.
  unfold history_calls, Swarm.SavePeer. destruct (marshal _) as [data|e]; [|done]. cbn [exec].
  destruct (try_Set (savedPeers ++ arr (sha256 (arr pk))) data (swarm_storage w)) as (r & s' & E & _).
  destruct (on_storage_try _ _ _ _ E) as (w' & E' & <-).
  by rewrite (bind_ok _ _ _ _ _ E), (bind_ok _ _ _ _ _ E').
Qed.

Lemma exec_BanPeer id w :
  swarm_storage (BanPeer id w).2 = (exec (BanPeer_calls id) (swarm_storage w)).2.
Proof.
  unfold BanPeer_calls, BanPeer. cbn [exec].
  destruct (try_Set (banKey id) (str "true") (swarm_storage w)) as (r & s' & E & _).
  destruct (on_storage_try _ _ _ _ E) as (w' & E' & <-).
  rewrite (bind_ok _ _ _ _ _ E), (bind_ok _ _ _ _ _ E'), (bind_ok get_state _ w' w' w' eq_refl).
  by destruct (activePeers w' !! id).
Qed.

Lemma exec_UnBanPeer id w :
  swarm_storage (UnBanPeer id w).2 = (exec (UnBanPeer_calls id) (swarm_storage w)).2.
Proof.
  unfold UnBanPeer_calls, UnBanPeer. cbn [exec].
  destruct (try_Delete (banKey id) (swarm_storage w)) as (r & s' & E & _).
  destruct (on_storage_try _ _ _ _ E) as (w' & E' & <-).
  by rewrite (bind_ok _ _ _ _ _ E), (bind_ok _ _ _ _ _ E').
Qed.

Lemma exec_CheckOnBan id w :
  (exec (CheckOnBan_calls id) (swarm_storage w)).1 = (CheckOnBan id w).1
  ∧ swarm_storage (CheckOnBan id w).2 = (exec (CheckOnBan_calls id) (swarm_storage w)).2.
Proof.
  unfold CheckOnBan_calls, CheckOnBan. cbn [exec].
  destruct (try_Get (banKey id) (swarm_storage w)) as (r & E & _).
  destruct (on_storage_try _ _ _ _ E) as (w' & E' & Es).
  rewrite (bind_ok _ _ _ _ _ E), (bind_ok _ _ _ _ _ E'). by destruct r.
Qed.

(** The programs are the operations: each of them, run without
    interruption, returns what the operation returns and leaves the storage as
    the operation leaves it; and the goroutine that runs it makes these calls
    and no others. *)
Theorem calls_sequential s :
  (∀ file, exec (SaveFile_calls file) s = SaveFile file s)
  ∧ (∀ id, exec (GetFileChunk_calls id) s = GetFileChunk id s)
  ∧ (∀ d id pk addr seen trust, exec (SavePeer_calls d id pk addr seen trust) s
                                = Dht.SavePeer d id pk addr seen trust s)
  ∧ (∀ d id, exec (GetNearPeers_calls d id) s = GetNearPeers d id s)
  ∧ (∀ ks rnd, exec (GetOrGenerateKeys_calls ks rnd) s = GetOrGenerateKeys ks rnd s)
  ∧ (∀ w, swarm_storage w = s →
       (∀ pk addr trust now, swarm_storage (Swarm.SavePeer pk addr trust now w).2
                             = (exec (history_calls pk addr trust now) s).2)
       ∧ (∀ id, swarm_storage (BanPeer id w).2 = (exec (BanPeer_calls id) s).2)
       ∧ (∀ id, swarm_storage (UnBanPeer id w).2 = (exec (UnBanPeer_calls id) s).2)
       ∧ ∀ id, (CheckOnBan id w).1 = (exec (CheckOnBan_calls id) s).1)
  ∧ ∀ (p : prog reply), rtc call (p, s) (Done (exec p s).1, (exec p s).2).
Proof.
  split_and!.
  - intros file. unfold SaveFile_calls, SaveFile, hashExists. cbn [exec].
    destruct (storage_Exists _ s); [done|]. apply exec_calculateFileChunk.
  - intros id. apply exec_findFileByID.
  - intros d id pk addr seen trust. apply exec_saveInKBucket.
  - intros d id. apply exec_GetPeers.
  - intros ks rnd. apply exec_GetOrGenerateKeys.
  - intros w <-. split_and!; intros;
      [apply exec_history|apply exec_BanPeer|apply exec_UnBanPeer|].
    by destruct (exec_CheckOnBan id w) as [-> _].
  - intros p. apply exec_alone.
Qed.
End alone.

(** ** What the operations promise *)
Section promises.
Context {S : Type} `{StorageLaws S} `{CodecLaws KBucket} `{CodecLaws MerkleNode}
        `{CodecLeft MerkleNode} `{CodecLaws EncryptedPrivateKey} `{KeyLibLaws} `{Ed25519}
        `{Codec Store.PeerStoreEntry}.
Variables (s0 : S) (ops : list operation).

Definition held (k v : bytes) : Prop := kv s0 !! k = Some v.

(** The contacts that the operations save into a bucket. *)
Definition saves_contact (i : Z) (p : Dht.PeerStoreEntry) : Prop :=
  ∃ d id pk addr seen trust, Op_SavePeer d id pk addr seen trust ∈ ops
    ∧ i = getBucketIndex (dht_myID d) id
    ∧ p = Dht.mkPeerStoreEntry pk (arr id) addr seen trust.

(** What was there, and contacts that are saved, up to the capacity. *)
Definition bucket_ok (i : Z) (l : list Dht.PeerStoreEntry) : Prop :=
  ∃ new, l = table s0 i ++ new ∧ length l <= MaxBucketSize ∧ Forall (saves_contact i) new.

Inductive writes (k v : bytes) : Prop :=
| w_node file : Op_SaveFile file ∈ ops → v ∈ file_encodings file → k = node_key v → writes k v
| w_bucket i b : k = bucketKey i → is_index i → unmarshal v = inl b →
    bucket_ok i (KBucket_Peers b) → writes k v
| w_keys : k = secretKeys → kv s0 !! secretKeys = None → writes k v
| w_history : area savedPeers k → writes k v
| w_ban : area bansPeer k → writes k v.

Definition deletes (k : bytes) : Prop := area bansPeer k.

Ltac other_area :=
  match goal with
  | H1 : area ?p ?k, H2 : area ?q ?k |- _ =>
      exfalso; apply (areas_disjoint p q k H1 H2); discriminate
  end.

Lemma writes_area k v : writes k v →
  (area dagStorageKey k ∧ ∃ file, Op_SaveFile file ∈ ops ∧ v ∈ file_encodings file ∧ k = node_key v)
  ∨ (area routingTable k ∧ ∃ i b, k = bucketKey i ∧ is_index i ∧ unmarshal v = inl b
                                  ∧ bucket_ok i (KBucket_Peers b))
  ∨ (area secretKeys k ∧ kv s0 !! secretKeys = None)
  ∨ area savedPeers k ∨ area bansPeer k.
Proof.
  intros [file Hf Hc -> |i b -> Hi Hu Hb| -> Hn|Hk|Hk].
  - left. split; [apply area_app|]. by exists file.
  - right. left. split; [apply area_bucket|]. by exists i, b.
  - right. right. left. split; [apply area_secret|done].
  - auto 6.
  - auto 6.
Qed.

(** What may be written to a key of each area. *)
Lemma writes_dag k v : area dagStorageKey k → writes k v →
  ∃ file, Op_SaveFile file ∈ ops ∧ v ∈ file_encodings file ∧ k = node_key v.
Proof. intros Ha [[_ ?]|[[? _]|[[? _]|[?|?]]]]%writes_area; [done|other_area..]. Qed.

Lemma writes_bucket j v : is_index j → writes (bucketKey j) v →
  ∃ b, unmarshal v = inl b ∧ bucket_ok j (KBucket_Peers b).
Proof.
  intros Hj. pose proof (area_bucket j : area routingTable (bucketKey j)) as Ha.
  intros [[? _]|[[_ (i & b & Ek & Hi & Hu & Hb)]|[[? _]|[?|?]]]]%writes_area; try other_area.
  apply intToKey_inj in Ek as ->; [|done..]. eauto.
Qed.

Lemma writes_secret v : writes secretKeys v → kv s0 !! secretKeys = None.
Proof.
  pose proof area_secret as Ha.
  intros [[? _]|[[? _]|[[_ ?]|[?|?]]]]%writes_area; done || other_area.
Qed.

Lemma not_deleted prefix k :
  area prefix k → take (length bansPeer) prefix ≠ take (length prefix) bansPeer → ¬ deletes k.
Proof. intros Ha Hne Hd. exact (areas_disjoint prefix bansPeer k Ha Hd Hne). Qed.

(** ** The operations keep them *)
Hypothesis Htable : table_inv s0.

Abbreviation promise p K Q := (wp held writes deletes p K Q).
Implicit Types K : bytes → bytes → Prop.

Lemma promise_reply {A} (f : A → reply) (p : prog A) K Q :
  promise p K (λ K' r, match r with
                       | Ok a => Q K' (Ok (f a))
                       | Err e => Q K' (Err e)
                       | Panic q => Q K' (Panic q)
                       end) →
  promise (reply_with f p) K Q.
Proof. intros Hp. by apply wp_bind. Qed.

Lemma bucket_read i v : is_index i → held (bucketKey i) v ∨ writes (bucketKey i) v →
  ∃ b, unmarshal v = inl b ∧ bucket_ok i (KBucket_Peers b).
Proof.
  intros Hi [Hv|Hv]; [|by apply writes_bucket]. destruct (Htable i Hi) as [Hread Hlen].
  destruct (Hread v Hv) as [b Hb]. exists b. split; [done|].
  assert (table s0 i = KBucket_Peers b) as E.
  { unfold table, bucket_at, raw_bucket. unfold held, bucketKey in Hv. rewrite Hv. cbn. by rewrite Hb. }
  rewrite <- E. exists []. by rewrite app_nil_r.
Qed.

Lemma promise_set_bucket i b K Q :
  is_index i → bucket_ok i (KBucket_Peers b) → (∀ K r, Q K r) →
  promise (set_bucket i (marshal b)) K Q.
Proof.
  intros Hi Hb HQ. destruct (marshal b) as [v|e] eqn:Em; [|apply HQ]. cbn.
  split; [|by split; intros; apply HQ]. eapply w_bucket; [done|done| |exact Hb].
  by apply unmarshal_marshal.
Qed.

Lemma promise_saveInKBucket i peer K :
  is_index i → saves_contact i peer → promise (saveInKBucket_calls i peer) K (λ _ _, True).
Proof.
  intros Hi Hs. cbn. split.
  - intros v Hv _. destruct (bucket_read i v Hi Hv) as (b & -> & new & E & Hlen & Hnew).
    case_decide; [done|]. apply promise_set_bucket; [done| |done]. exists (new ++ [peer]).
    cbn [KBucket_Peers]. rewrite E, app_assoc in *. split; [done|].
    split; [rewrite length_app; cbn; lia|]. apply Forall_app. split; [done|by constructor].
  - intros e _ Hn. destruct (errors_Is _ _); [|done].
    apply promise_set_bucket; [done| |done]. exists [peer]. cbn [KBucket_Peers].
    assert (table s0 i = []) as ->.
    { unfold table, bucket_at, raw_bucket. destruct (kv s0 !! _) as [v|] eqn:E; [|done].
      exfalso. eapply (Hn (not_deleted routingTable _ (area_bucket i) ltac:(discriminate)) v). exact E. }
    split; [done|]. split; [vm_compute; lia|by constructor].
Qed.

Lemma promise_keys ks rnd K : promise (GetOrGenerateKeys_calls ks rnd) K (λ _ _, True).
Proof.
  cbn. split; [done|]. intros e _ Hn. destruct (errors_Is _ _); [|done].
  assert (kv s0 !! secretKeys = None) as Hnone.
  { destruct (kv s0 !! secretKeys) as [v|] eqn:E; [|done].
    exfalso. exact (Hn (not_deleted secretKeys _ area_secret ltac:(discriminate)) v E). }
  destruct (of_lib _); [|done..]. cbn. destruct (encryptPrivateKey _ _ _); [|done..].
  cbn. split; [by apply w_keys|done].
Qed.

(** Readers promise nothing. *)
Lemma promise_findFileByID_loop links acc K :
  promise (findFileByID_loop_calls links acc) K (λ _ _, True).
Proof. revert acc. induction links as [|l links IH]; intros acc; cbn; [done|]. split; [|done]. intros. apply IH. Qed.

Lemma promise_findFileByID id K : promise (findFileByID_calls id) K (λ _ _, True).
Proof.
  cbn. split; [|done]. intros v _ _. destruct (unmarshal v) as [node|e]; [|done].
  repeat (case_match; try done). apply promise_findFileByID_loop.
Qed.

(** A file is saved with all its nodes. *)
Definition saved (file id : bytes) K : Prop :=
  ∃ nodes root, file_nodes file = Some (nodes ++ [root]) ∧ id = arr (sha256 root)
    ∧ ∀ c, c ∈ nodes ++ [root] → stable writes deletes (node_key c) c → K (node_key c) c.

Lemma promise_node c K (Q : (bytes → bytes → Prop) → res bytes → Prop) :
  writes (node_key c) c →
  (∀ K', more K K' → (stable writes deletes (node_key c) c → K' (node_key c) c) →
     Q K' (Ok (arr (sha256 c)))) →
  (∀ K' e, Q K' (Err e)) →
  promise (saveAndHashData_calls c) K Q.
Proof.
  intros Hw Hok Herr. cbn. split; [done|]. split; [|by intros].
  apply Hok; [apply learn_more|]. intros Hs. right. done.
Qed.

Lemma promise_save_all cs keys K (Q : (bytes → bytes → Prop) → res (list bytes) → Prop) :
  (∀ c, c ∈ oks cs → writes (node_key c) c) →
  (∀ K' nodes, more K K' → all_ok cs = Some nodes →
     (∀ c, c ∈ nodes → stable writes deletes (node_key c) c → K' (node_key c) c) →
     Q K' (Ok (keys ++ ((λ c, arr (sha256 c)) <$> nodes)))) →
  (∀ K' e, Q K' (Err e)) →
  promise (save_all_calls cs keys) K Q.
Proof.
  revert keys K. induction cs as [|[c|e] cs IH]; intros keys K Hw Hok Herr; cbn [save_all_calls].
  - cbn. specialize (Hok K [] ltac:(by intros ??) eq_refl). rewrite app_nil_r in Hok. apply Hok.
    by intros c Hc%elem_of_nil.
  - apply wp_bind, promise_node; [apply Hw, list_elem_of_here| |done]. intros K1 Hm1 Hk1.
    apply IH; [intros c' Hc'; by apply Hw, list_elem_of_further| |done].
    intros K2 nodes Hm2 Hn Hk2. rewrite <- app_assoc. apply (Hok K2 (c :: nodes)).
    + intros k v Hkv. by apply Hm2, Hm1.
    + cbn. by rewrite Hn.
    + intros c' [->|Hc']%elem_of_cons Hst; [by apply Hm2, Hk1|by apply Hk2].
  - apply Herr.
Qed.

Lemma promise_SaveFile file K :
  Op_SaveFile file ∈ ops →
  promise (SaveFile_calls file) K (λ K' r, ∀ id, r = Ok id → id ≠ [] → saved file id K').
Proof.
  intros Hf. cbn [SaveFile_calls wp]. split; [by intros id [= <-]|].
  assert (∀ c, c ∈ file_encodings file → writes (node_key c) c) as Hw by (intros c Hc; by eapply w_node).
  unfold calculateFileChunk_calls, file_encodings, saved, file_nodes in *.
  destruct (_ <=? ChunkSize)%Z eqn:El.
  - destruct (createMetaLink _ _ _) as [root|e] eqn:Em; [|done]. cbn [save_meta].
    apply promise_node; [apply Hw, list_elem_of_here| |done]. intros K' _ Hk id [= <-] _.
    exists [], root. split; [done|]. split; [done|].
    by intros c ->%list_elem_of_singleton.
  - apply wp_bind, promise_save_all; [| |done].
    { intros c Hc. apply Hw, elem_of_app. by left. }
    intros K1 cs _ Hcs Hk1. cbn [app]. rewrite (all_ok_oks _ _ Hcs) in Hw.
    destruct (createMetaLink _ _ _) as [root|e] eqn:Em; [|done]. cbn [save_meta].
    apply promise_node; [apply Hw, elem_of_app; right; apply list_elem_of_here| |done].
    intros K2 Hm2 Hk2 id [= <-] _. exists cs, root. rewrite Hcs. cbn. rewrite Em.
    split; [done|]. split; [done|].
    intros c [Hc| ->%list_elem_of_singleton]%elem_of_app Hst; [by apply Hm2, Hk1|by apply Hk2].
Qed.

(** Who knows the nodes of a file reads it, whatever the others do. *)
Lemma promise_get_node c K (f : bytes → prog bytes) Q :
  K (node_key c) c → promise (f c) K Q → promise (getDataByHash_calls (arr (sha256 c)) ≫= f) K Q.
Proof.
  intros Hk Hf. cbn. fold (node_key c). split; [|intros e Hn; by destruct (Hn _ Hk)].
  intros v _ Hv. rewrite (Hv _ Hk). exact Hf.
Qed.

Lemma promise_read_chunks chunks cs acc K :
  all_ok (chunk_node <$> chunks) = Some cs → (∀ c, c ∈ cs → K (node_key c) c) →
  promise (findFileByID_loop_calls ((λ c, arr (sha256 c)) <$> cs) acc) K
    (λ _ r, r = Ok (acc ++ concat chunks)).
Proof.
  revert cs acc. induction chunks as [|ch chunks IH]; intros cs acc Hok Hst.
  { injection Hok as <-. cbn. by rewrite app_nil_r. }
  rewrite fmap_cons in Hok. cbn [all_ok] in Hok.
  destruct (chunk_node ch) as [c|e] eqn:Ec; [|done].
  destruct (all_ok (chunk_node <$> chunks)) as [cs'|] eqn:Eok; [|done].
  injection Hok as <-. rewrite fmap_cons. cbn [findFileByID_loop_calls].
  apply promise_get_node; [apply Hst, list_elem_of_here|].
  apply unmarshal_marshal in Ec. rewrite Ec. cbn [MerkleNode_Data].
  eapply wp_mono; [apply (IH cs'); [done|intros c' Hc'; by apply Hst, list_elem_of_further]|].
  intros K' r _ ->. cbn [concat]. by rewrite <- app_assoc.
Qed.

Lemma promise_read_file file nodes root K :
  (Z.of_nat (length file) < 2 ^ 63)%Z → file_nodes file = Some (nodes ++ [root]) →
  (∀ c, c ∈ nodes ++ [root] → K (node_key c) c) →
  promise (GetFileChunk_calls (arr (sha256 root))) K (λ _ r, r = Ok file).
Proof.
  intros Hlen Hnodes Hst. unfold GetFileChunk_calls, findFileByID_calls.
  apply promise_get_node; [apply Hst, elem_of_app; right; apply list_elem_of_here|].
  unfold file_nodes in Hnodes.
  destruct (Z.leb_spec (Z.of_nat (length file)) ChunkSize) as [Hle|Hgt].
  - cbn in Hnodes. destruct (createMetaLink _ _ _) as [root'|e] eqn:Em; [|done].
    injection Hnodes as Hn. destruct nodes as [|? [|]]; try done. injection Hn as ->.
    apply unmarshal_marshal in Em. rewrite Em.
    cbn [MerkleNode_type MerkleNode_Data MerkleNode_Size MerkleNode_Links].
    destruct file; [by rewrite len64_small|done].
  - destruct (all_ok (chunk_node <$> file_chunks file)) as [cs|] eqn:Ecs; [|done].
    cbn in Hnodes. destruct (createMetaLink _ _ _) as [root'|e] eqn:Em; [|done].
    injection Hnodes as [-> [= ->]]%app_inj_2; [|done].
    apply unmarshal_marshal in Em. rewrite Em.
    cbn [MerkleNode_type MerkleNode_Data MerkleNode_Size MerkleNode_Links length Nat.ltb Nat.leb].
    rewrite len64_small by done.
    eapply wp_mono; [apply (promise_read_chunks (file_chunks file)); [done|]|].
    + intros c Hc. apply Hst, elem_of_app. by left.
    + intros K' r _ ->. unfold file_chunks. by rewrite concat_chunks by apply ChunkSize_pos.
Qed.

(** *** Every operation *)
Definition outcome (o : operation) K (r : res reply) : Prop :=
  match o with
  | Op_SaveFile file => ∀ id, r = Ok (R_bytes id) → id ≠ [] → saved file id K
  | _ => True
  end.

Lemma promise_operation o K : o ∈ ops → promise (operation_calls o) K (outcome o).
Proof.
  intros Ho. destruct o as [file|id|d id pk addr seen trust|d id|ks rnd|pk addr trust now|id|id|id];
    cbn [operation_calls outcome]; apply promise_reply.
  - eapply wp_mono; [by apply promise_SaveFile|]. intros K' [b|e|q] _ Hr id; [|done..].
    intros [= ->]. by apply Hr.
  - eapply wp_mono; [apply promise_findFileByID|]. by intros K' [].
  - eapply wp_mono; [apply promise_saveInKBucket; [apply bucket_is_index|]|by intros K' []].
    by exists d, id, pk, addr, seen, trust.
  - cbn. split; [|done]. intros v _ _. by destruct (unmarshal v).
  - eapply wp_mono; [apply promise_keys|by intros K' []].
  - unfold history_calls. destruct (marshal _) as [data|e]; [|done]. cbn -[savedPeers].
    split; [|done]. apply w_history, area_app.
  - cbn -[banKey]. split; [|done]. apply w_ban, area_ban.
  - cbn -[banKey]. split; [|done]. apply area_ban.
  - cbn. split; [by intros v|done].
Qed.

(** The goroutines before their first calls. *)
Definition pool_start : list (prog reply) * S := (operation_calls <$> ops, s0).

Definition outcomes (i : nat) : (bytes → bytes → Prop) → res reply → Prop :=
  match ops !! i with Some o => outcome o | None => λ _ _, True end.

Abbreviation pool_ok Q c := (pool_inv held writes deletes Q c).

Lemma start_ok : pool_ok outcomes pool_start.
Proof.
  split; [split|]; unfold pool_start; cbn [fst snd].
  - intros k v Hv. by left.
  - intros k v Hv _. by exists v.
  - by intros k v Hv _.
  - intros i p Hi. apply list_lookup_fmap_Some in Hi as (o & -> & Ho). unfold outcomes. rewrite Ho.
    exists (λ _ _, False). split; [done|]. apply promise_operation. by eapply list_elem_of_lookup_2.
Qed.

Lemma reached_ok c : rtc pool_step pool_start c → pool_ok outcomes c.
Proof. intros Hrun. eapply pool_steps_inv; [exact Hrun|apply start_ok]. Qed.

(** The nodes of all files that are saved. *)
Definition encodings_of : list bytes :=
  ops ≫= λ o, match o with Op_SaveFile file => file_encodings file | _ => [] end.

Lemma encodings_of_file file c : Op_SaveFile file ∈ ops → c ∈ file_encodings file → c ∈ encodings_of.
Proof. intros Hf Hc. apply list_elem_of_bind. by exists (Op_SaveFile file). Qed.

Lemma node_stable c :
  (∀ a, a ∈ encodings_of → sha256 a = sha256 c → a = c) → stable writes deletes (node_key c) c.
Proof.
  intros Hcf. split.
  - eapply not_deleted; [apply area_app|discriminate].
  - intros v (file & Hf & Hv & E)%writes_dag; [|apply area_app].
    apply dag_key_inj, array_eq in E. apply Hcf; [by eapply encodings_of_file|done].
Qed.
End promises.

(** ** Properties *)
Section properties.
Context {S : Type} `{StorageLaws S} `{CodecLaws KBucket} `{CodecLaws MerkleNode}
        `{CodecLeft MerkleNode} `{CodecLaws EncryptedPrivateKey} `{KeyLibLaws} `{Ed25519}
        `{Codec Store.PeerStoreEntry}.
Implicit Types (s : S) (c : list (prog reply) * S).

(** C18. Files survive concurrency: goroutines run any number of operations on
    the shared storage, their calls interleaved in any order, files saved or
    failed, contacts, keys, history, bans and readers.  From the moment one that
    saves a file has returned an identifier, every run ends, and a reader of the
    identifier that starts then returns exactly the file, unless a panic
    elsewhere ended the process - as long as no two different nodes of the files
    that are saved have the same hash. *)
Theorem interleavings_keep_files (ops : list operation) s c (i j : nat) (file id : bytes)
    (Htable : table_inv s) (Hlen : (Z.of_nat (length file) < 2 ^ 63)%Z)
    (Hcf : collision_free (encodings_of ops))
    (Hsave : ops !! i = Some (Op_SaveFile file))
    (Hread : ops !! j = Some (Op_GetFileChunk id))
    (Hrun : rtc pool_step (pool_start s ops) c)
    (Hsaved : c.1 !! i = Some (Done (Ok (R_bytes id)))) (Hid : id ≠ [])
    (Hstart : c.1 !! j = Some (operation_calls (Op_GetFileChunk id))) :
  ends_in pool_step (λ c', c'.1 !! j = Some (Done (Ok (R_bytes file))) ∨ Exists panicked c'.1) c.
Proof.
  destruct (reached_ok s ops Htable c Hrun) as [Hst Hp].
  destruct (Hp _ _ Hsaved) as (K & HK & Hw). unfold outcomes in Hw. rewrite Hsave in Hw.
  destruct (Hw id eq_refl Hid) as (nodes & root & Hn & -> & Hnodes).
  assert (∀ x, x ∈ nodes ++ [root] → K (node_key x) x) as HK'.
  { intros x Hx. apply Hnodes; [done|]. apply node_stable. intros a Ha. apply Hcf; [done|].
    eapply encodings_of_file; [by eapply list_elem_of_lookup_2|]. by rewrite (file_nodes_encodings _ _ Hn). }
  set (Q := λ k, if decide (k = j) then λ (_ : bytes → bytes → Prop) r, r = Ok (R_bytes file)
                 else outcomes s ops k).
  assert (pool_inv (held s) (writes s ops) deletes Q c) as HQ.
  { split; [done|]. intros k p Hk. unfold Q. case_decide as Ek; [|by apply Hp]. subst k.
    rewrite Hstart in Hk. injection Hk as <-. exists K. split; [done|].
    apply promise_reply. eapply wp_mono; [by eapply promise_read_file|]. by intros K2 r _ ->. }
  destruct c as [ps s1]. destruct (pool_ends ps s1) as [Hsn Hend]. split; [exact Hsn|].
  intros c' Hrun'. destruct (Hend c' Hrun') as [Hred|[Hret|Hpan]]; [by left|right; left|by right; right].
  pose proof (pool_steps_inv _ _ _ _ _ _ Hrun' HQ) as [_ Hp'].
  assert (is_Some (c'.1 !! j)) as [p Hpj].
  { apply lookup_lt_is_Some. rewrite <- (pool_steps_length _ _ Hrun'). by eapply lookup_lt_Some. }
  rewrite Hpj. destruct (Forall_lookup_1 _ _ _ _ Hret Hpj) as [r ->].
  destruct (Hp' j _ Hpj) as (K2 & _ & Hr). unfold Q in Hr. rewrite decide_True in Hr by done.
  cbn in Hr. by rewrite Hr.
Qed.

(** C19. Concurrency does no damage: at every moment of every interleaving of such
    operations, the identity key is the one that was there, every bucket of the
    routing table decodes to its former contacts followed by contacts that are
    being saved, at most 20 together - concurrent saves can lose contacts to each
    other, but never an earlier one -, every entry of the file store stands under
    the hash of its contents, and none is lost, unless a file with a colliding
    node is saved. *)
Theorem interleavings_safe (ops : list operation) s c
    (Htable : table_inv s) (Hrun : rtc pool_step (pool_start s ops) c) :
  (∀ v, kv s !! secretKeys = Some v → kv c.2 !! secretKeys = Some v)
  ∧ (∀ i, is_index i → bucket_readable c.2 i ∧ bucket_ok s ops i (table c.2 i))
  ∧ (dag_inv s → dag_inv c.2)
  ∧ ∀ v, kv s !! node_key v = Some v →
      (∀ a, a ∈ encodings_of ops → sha256 a = sha256 v → a = v) → kv c.2 !! node_key v = Some v.
Proof.
  destruct (reached_ok s ops Htable c Hrun) as [[Hv Hs Hst] _]. split_and!.
  - intros v Hk. apply Hst; [done|]. split.
    + eapply not_deleted; [apply area_secret|discriminate].
    + intros v' Hw%writes_secret. congruence.
  - intros i Hi. unfold bucket_readable, table, bucket_at, raw_bucket. fold (bucketKey i).
    destruct (kv c.2 !! bucketKey i) as [v|] eqn:E; cbn.
    + destruct (bucket_read s ops Htable i v Hi (Hv _ _ E)) as (b & Hb & Hok). rewrite Hb.
      split; [|done]. intros v' [= <-]. eauto.
    + split; [done|]. exists []. rewrite app_nil_r. split; [|split; [apply le_0_n|done]].
      unfold table, bucket_at, raw_bucket. fold (bucketKey i).
      destruct (kv s !! bucketKey i) as [v|] eqn:E'; [|done].
      destruct (Hs _ _ E') as [x Hx]; [|congruence].
      eapply not_deleted; [apply area_bucket|discriminate].
  - intros Hdag h v Hk. destruct (Hv _ _ Hk) as [Hk'|(file & _ & _ & E)%writes_dag];
      [by apply Hdag| |apply area_app]. by apply dag_key_inj in E.
  - intros v Hk Hcf. apply Hst; [done|]. by apply node_stable.
Qed.
End properties.

(** A file is saved while a peer is banned and a contact saved; then it is read. *)
Module StoreRunsWitness.
Import ToyBadger BadgerStorage ToyKeys ToySig MerkleDagWitness DhtWitness KeyStoreWitness.
Import NodeStoreWitness.

Definition fileID : bytes := arr (sha256 (node_of file)).
Definition ops : list operation :=
  [Op_SaveFile file; Op_Ban id; Op_GetFileChunk fileID;
   Op_SavePeer dht id [Byte.x07] "addr" (mk_uint 64 1) (mk_uint 32 100)].

(** The save has looked for the file and stored nothing yet. *)
Definition save_rest : prog reply := reply_with R_bytes (calculateFileChunk_calls file).
Definition c1 : list (prog reply) * store :=
  (<[0 := save_rest]> (operation_calls <$> ops), ∅).
Definition run_one (i : nat) (p : prog reply) (c : list (prog reply) * store) :
    list (prog reply) * store :=
  (<[i := Done (exec p c.2).1]> c.1, (exec p c.2).2).
Definition c2 := run_one 1 (operation_calls (Op_Ban id)) c1.
Definition c3 := run_one 0 save_rest c2.

Lemma no_panic_1 : Forall (λ p, ¬ panicked p) c1.1.
Proof. repeat constructor; by intros [q E]. Qed.
Lemma ban_result : (exec (operation_calls (Op_Ban id)) (∅ : store)).1 = Ok R_unit.
Proof. vm_compute. reflexivity. Qed.
Lemma no_panic_2 : Forall (λ p, ¬ panicked p) c2.1.
Proof.
  unfold c2, run_one. cbn [fst snd c1]. rewrite ban_result.
  apply Forall_insert; [apply no_panic_1|]. by intros [q E].
Qed.

Lemma save_begins : call (operation_calls (Op_SaveFile file), (∅ : store)) (save_rest, ∅).
Proof.
  pose proof (call_exists (dagStorageKey ++ arr (sha256 file))
    (λ known : bool, reply_with R_bytes (if known then Done (Ok []) else calculateFileChunk_calls file))
    (∅ : store)) as C.
  change (storage_Exists _ _) with false in C. exact C.
Qed.

Lemma run_c3 : rtc pool_step (pool_start (∅ : store) ops) c3.
Proof.
  apply (rtc_l _ _ c1); [|etransitivity].
  - exists 0, (operation_calls (Op_SaveFile file)), save_rest.
    split; [reflexivity|]. split; [exact save_begins|]. split; [reflexivity|].
    repeat constructor; by intros [q E].
  - exact (pool_alone 1 _ c1.1 ∅ eq_refl no_panic_1).
  - exact (pool_alone 0 _ c2.1 c2.2 eq_refl no_panic_2).
Qed.

Lemma c3_saved : c3.1 !! 0 = Some (Done (Ok (R_bytes fileID))).
Proof.
  change (c3.1 !! 0) with (Some (Done (exec save_rest c2.2).1)).
  assert ((exec save_rest c2.2).1 = Ok (R_bytes fileID)) as -> by (vm_compute; reflexivity).
  reflexivity.
Qed.

Lemma table_empty : table_inv (∅ : store).
Proof. exact RoutingTableWitness.empty_inv. Qed.

Lemma encodings_free : collision_free (encodings_of ops).
Proof.
  change (encodings_of ops) with (file_encodings file ++ []).
  rewrite (encodings_small file) by (vm_compute; reflexivity).
  by intros a b ->%list_elem_of_singleton ->%list_elem_of_singleton.
Qed.

Lemma interleavings_keep_files_witness :
  ∃ c, rtc pool_step (pool_start (∅ : store) ops) c
       ∧ (c.1 !! 2 = Some (Done (Ok (R_bytes file))) ∨ List.Exists panicked c.1).
Proof.
  assert (ends_in pool_step (λ c, c.1 !! 2 = Some (Done (Ok (R_bytes file))) ∨ List.Exists panicked c.1) c3)
    as He.
  { apply (interleavings_keep_files ops ∅ c3 0 2 file fileID).
    - exact table_empty.
    - apply Z.ltb_lt. vm_compute. reflexivity.
    - exact encodings_free.
    - reflexivity.
    - reflexivity.
    - exact run_c3.
    - exact c3_saved.
    - intros E. apply (f_equal length) in E. unfold fileID in E. rewrite length_arr in E.
      discriminate E.
    - reflexivity. }
  destruct (ends_in_reached _ _ _ He) as (c & Hc & Hend). exists c. split; [|exact Hend].
  etransitivity; [exact run_c3|exact Hc].
Defined.

Lemma interleavings_safe_witness : dag_inv c3.2 ∧ bucket_ok ∅ ops 5 (table c3.2 5).
Proof.
  destruct (interleavings_safe ops ∅ c3 table_empty run_c3) as (_ & H2 & H3 & _). split.
  - apply H3. intros h v Hv. discriminate Hv.
  - apply H2. split; lia.
Defined.
End StoreRunsWitness.
