(* ===== verification/Connections.v ===== *)
(** * From the socket to the table of peers: quic.go and swarm.go together

    The accept loop ([AcceptConn]), the dials and the registration loop of the
    swarm are goroutines that meet in the channel [connChan].  [conn_step]
    interleaves them with everything else that works on the swarm.  A handshake
    touches its own stream only, so it is one step; what it publishes waits
    until the channel has room. *)

From Stdlib Require Import ZArith Lia.
From stdpp Require Import relations.
From S2P Require Import Prelude Sha2 Types Proto ToyCodec Storage Frame Signature Tls Handshake.
From S2P Require Import Transport Dispatcher Stream Sessions Swarm.

(** The capacity that [NewQUICTransport] gives [connChan]. *)
Definition connChan_cap : nat := 10.

Record NetState (S : Type) := mkNet {
  net_swarm : SwarmState (S:=S);
  net_chan : list NewConnEvent;             (* connChan *)
  net_sending : list NewConnEvent;          (* goroutines that send to it *)
  net_accepting : bool;                     (* AcceptConn runs *)
  net_listener : bool;                      (* its listener is open *)
  net_cancelled : bool;                     (* ctx is done *)
  net_errors : nat;                         (* errors AcceptConn has printed *)
  net_nonces : list (ConnID * array 32);    (* history: the nonce sent on a connection *)
  net_published : list NewConnEvent;        (* history: what entered connChan *)
  net_registered : list NewConnEvent        (* history: what left it *)
}.
Arguments mkNet {S} _ _ _ _ _ _ _ _ _ _.
Arguments net_swarm {S} _.
Arguments net_chan {S} _.
Arguments net_sending {S} _.
Arguments net_accepting {S} _.
Arguments net_listener {S} _.
Arguments net_cancelled {S} _.
Arguments net_errors {S} _.
Arguments net_nonces {S} _.
Arguments net_published {S} _.
Arguments net_registered {S} _.

Definition ConnChan {S} (st : NetState S) : list NewConnEvent := net_chan st.

Section connections.
Context {S W : Type} `{Storage S} `{Writer W} `{Codec MessageData} `{Ed25519}.
Variables (RemoteAddr : ConnID → string) (q : QuicTransport).

(** [registrationLoop] takes an event and runs [AddPeer] up to its second
    critical section. *)
Definition registers (ev : NewConnEvent) (s : Swarm S) : SwarmState :=
  let '(s', p) := AddPeer_new RemoteAddr (ev_PeerPubKey ev) (ev_Conn ev) (ev_Addr ev)
                    (ev_IsOut ev) (AddPeer_close (ev_PeerID ev) s) in
  mkSwarmState s' (Some (ev_PeerID ev, p)).

(** The other steps of a swarm: the end of a registration, and those of the
    other goroutines. *)
Definition swarm_other (ss ss' : SwarmState (S:=S)) : Prop :=
  swarm_step RemoteAddr ss ss' ∧ (ss_adding ss' = None ∨ ss_adding ss' = ss_adding ss).

Definition ended {A} (r : res A) : Prop := is_panic r = false.

Inductive conn_step : NetState S → NetState S → Prop :=
(* ListenEarly: [go q.AcceptConn(...)] *)
| cs_listen ss ch sd l c er no pb rg :
    ListenEarly q (inl ()) = Ok () →
    conn_step (mkNet ss ch sd false l c er no pb rg) (mkNet ss ch sd true true c er no pb rg)
(* AcceptConn: Accept returns a connection, its goroutine runs *)
| cs_accept ss ch sd l c er no pb rg conn accepted n r w res (a : Attempt W) :
    AcceptConn_handle RemoteAddr q conn accepted n (mkAttempt (r, w) false None []) = (res, a) →
    ended res →
    conn_step (mkNet ss ch sd true l c er no pb rg)
      (mkNet ss ch (sd ++ connChan a) true l c er (no ++ [(conn, n)]) pb rg)
(* AcceptConn: Accept returns an error, which is printed; [continue] *)
| cs_accept_error ss ch sd l c er no pb rg :
    conn_step (mkNet ss ch sd true l c er no pb rg)
      (mkNet ss ch sd true l c (Datatypes.S er) no pb rg)
(* DialEarly, called by whoever has the transport *)
| cs_dial ss ch sd ac l c er no pb rg resolved conn opened n r w res (a : Attempt W) :
    DialEarly RemoteAddr q resolved (inl conn) opened n (mkAttempt (r, w) false None [])
      = (res, a) →
    ended res →
    conn_step (mkNet ss ch sd ac l c er no pb rg)
      (mkNet ss ch (sd ++ connChan a) ac l c er (no ++ [(conn, n)]) pb rg)
(* newConn: the send *)
| cs_send ss ch sd sd' ac l c er no pb rg ev :
    sd ≡ₚ ev :: sd' → length ch < connChan_cap →
    conn_step (mkNet ss ch sd ac l c er no pb rg)
      (mkNet ss (ch ++ [ev]) sd' ac l c er no (pb ++ [ev]) rg)
(* registrationLoop *)
| cs_register s ch sd ac l c er no pb rg ev :
    conn_step (mkNet (mkSwarmState s None) (ev :: ch) sd ac l c er no pb rg)
      (mkNet (registers ev s) ch sd ac l c er no pb (rg ++ [ev]))
| cs_swarm ss ss' ch sd ac l c er no pb rg :
    swarm_other ss ss' →
    conn_step (mkNet ss ch sd ac l c er no pb rg) (mkNet ss' ch sd ac l c er no pb rg)
(* the end of the context: AcceptConn does not look at it *)
| cs_cancel ss ch sd ac l c er no pb rg :
    conn_step (mkNet ss ch sd ac l c er no pb rg) (mkNet ss ch sd ac l true er no pb rg).

Definition initial (self : PeerID) (k : PeerPrivateKey) (store : S) (n : Z) : NetState S :=
  mkNet (mkSwarmState (NewSwarm self k store n) None) [] [] false false false 0 [] [] [].
End connections.

(** ** Invariants *)
Section invariants.
Context {S W : Type} `{Storage S} `{Writer W} `{Codec MessageData} `{Ed25519}.
Variables (RemoteAddr : ConnID → string) (q : QuicTransport).
Implicit Types (st : NetState S) (ss : SwarmState (S:=S)).

Abbreviation step := (conn_step (W:=W) RemoteAddr q).

(** The key answered the challenge of this very connection. *)
Definition vouched (nonces : list (ConnID * array 32)) (c : ConnID) (pk : PeerPublicKey) : Prop :=
  ∃ n, (c, n) ∈ nonces ∧ authenticated (arr n) pk.

Definition event_ok (nonces : list (ConnID * array 32)) (ev : NewConnEvent) : Prop :=
  ev_PeerID ev = PeerPubKeyToID (ev_PeerPubKey ev)
  ∧ vouched nonces (ev_Conn ev) (ev_PeerPubKey ev).

Definition peer_ok (nonces : list (ConnID * array 32)) (peer : Peer) : Prop :=
  ∃ c, peer_transport peer = Some c ∧ vouched nonces c (peer_pubKey peer).

Record net_inv st : Prop := {
  nv_swarm : swarm_inv (net_swarm st);
  nv_peers : ∀ p peer, peer_heap (ss_swarm (net_swarm st)) !! p = Some peer →
             peer_ok (net_nonces st) peer;
  nv_chan : Forall (event_ok (net_nonces st)) (net_chan st);
  nv_sending : Forall (event_ok (net_nonces st)) (net_sending st);
  nv_cap : length (net_chan st) <= connChan_cap;
  nv_fifo : net_registered st ++ net_chan st = net_published st
}.

Lemma event_ok_more nonces x ev : event_ok nonces ev → event_ok (nonces ++ [x]) ev.
Proof.
  intros (E & n & Hin & Ha). split; [done|]. exists n. split; [|done].
  apply elem_of_app. by left.
Qed.

Lemma events_ok_more nonces x evs :
  Forall (event_ok nonces) evs → Forall (event_ok (nonces ++ [x])) evs.
Proof. intros Hf. eapply Forall_impl; [exact Hf|]. intros ev. apply event_ok_more. Qed.

Lemma peer_ok_more nonces x peer : peer_ok nonces peer → peer_ok (nonces ++ [x]) peer.
Proof.
  intros (c & E & n & Hin & Ha). exists c. split; [done|]. exists n. split; [|done].
  apply elem_of_app. by left.
Qed.

(** What the goroutine of a connection hands over. *)
Lemma attempt_events out conn n (a : Attempt W) nonces :
  published out n [] (connChan a) → Forall (λ ev, ev_Conn ev = conn) (connChan a) →
  Forall (event_ok (nonces ++ [(conn, n)])) (connChan a).
Proof.
  intros [->|(ev & -> & _ & Hid & Ha)] Hc; [done|].
  cbn [app] in *. apply Forall_cons in Hc as [Hc _]. apply Forall_singleton. split; [done|].
  exists n. rewrite Hc. split; [|done]. apply elem_of_app. right. by apply list_elem_of_singleton.
Qed.

Lemma attempt_conn resolved opened accepted conn n r (w : W) :
  Forall (λ ev, ev_Conn ev = conn)
    (connChan (DialEarly RemoteAddr q resolved (inl conn) opened n (mkAttempt (r, w) false None [])).2)
  ∧ Forall (λ ev, ev_Conn ev = conn)
      (connChan (AcceptConn_handle RemoteAddr q conn accepted n (mkAttempt (r, w) false None [])).2).
Proof.
  unfold DialEarly, AcceptConn_handle, defer_Close, try, on_stream, zoom, mbind, M_bind, lift.
  split; [destruct resolved, (q_tr q), opened|destruct accepted]; try done; cbn;
    destruct (authenticatePeer _ _ _ _) as [[pk|e|p] [r' w']]; try done; cbn;
    unfold on_snd, on_fst, zoom; cbn.
  - destruct (sendReadyFrame w') as [[[]|e|p] w2]; try done. by apply Forall_singleton.
  - destruct (acceptReadyFrame r') as [[[]|e|p] r2]; try done. by apply Forall_singleton.
Qed.

(** The swarm's own steps make no peer and change no key. *)
Lemma close_kept (s : Swarm S) p i peer :
  peer_heap (close_ptr s p) !! i = Some peer →
  ∃ old, peer_heap s !! i = Some old ∧ peer_pubKey peer = peer_pubKey old
         ∧ peer_transport peer = peer_transport old.
Proof.
  simpl. destruct (decide (p = i)) as [->|Hne].
  - rewrite lookup_alter_eq. destruct (peer_heap s !! i) as [old|]; [|done].
    intros [= <-]. by exists old.
  - rewrite lookup_alter_ne by done. eauto.
Qed.

Lemma swarm_other_kept ss ss' i peer :
  swarm_other RemoteAddr ss ss' → peer_heap (ss_swarm ss') !! i = Some peer →
  ∃ old, peer_heap (ss_swarm ss) !! i = Some old ∧ peer_pubKey peer = peer_pubKey old
         ∧ peer_transport peer = peer_transport old.
Proof.
  intros [St Hadd].
  destruct St as [s ev Hev|s id p|s a id|s s' a id r E|s a m r s' E]; cbn [ss_swarm] in *.
  - by destruct Hadd.
  - simpl. eauto.
  - unfold RemovePeer. destruct (activePeers s !! id) as [p|]; [|eauto]. apply close_kept.
  - destruct (BanPeer_state _ _ _ _ E) as (s1 & _ & E2 & _ & [->|(p & _ & ->)]).
    + rewrite E2. eauto.
    + intros (old & Ho & Hk & Ht)%close_kept. rewrite E2 in Ho. eauto.
  - destruct (on_storage_table _ _ _ _ E) as (_ & -> & _). eauto.
Qed.

Lemma registers_peers nonces ev (s : Swarm S) :
  swarm_inv (mkSwarmState s None) → event_ok nonces ev →
  (∀ p peer, peer_heap s !! p = Some peer → peer_ok nonces peer) →
  ∀ p peer, peer_heap (ss_swarm (registers RemoteAddr ev s)) !! p = Some peer → peer_ok nonces peer.
Proof.
  intros Hinv [_ Hv] Hp p peer. unfold registers, AddPeer_new. cbn [ss_swarm set_table peer_heap].
  destruct (decide (peer_next (AddPeer_close (ev_PeerID ev) s) = p)) as [<-|Hne].
  - rewrite lookup_insert_eq. intros [= <-]. by exists (ev_Conn ev).
  - rewrite lookup_insert_ne by done. unfold AddPeer_close.
    destruct (activePeers s !! _); [|apply Hp].
    intros (old & Ho & Hk & Ht)%close_kept. unfold peer_ok. rewrite Hk, Ht. by eapply Hp.
Qed.

Lemma registers_inv ev (s : Swarm S) :
  ev_PeerID ev = PeerPubKeyToID (ev_PeerPubKey ev) →
  swarm_inv (mkSwarmState s None) → swarm_inv (registers RemoteAddr ev s).
Proof.
  intros Hev Hinv. unfold registers. destruct (AddPeer_new _ _ _ _ _ _) as [s' p] eqn:E.
  by eapply AddPeer_new_inv.
Qed.

Lemma conn_step_inv st st' : step st st' → net_inv st → net_inv st'.
Proof.
  destruct 1 as [| ss ch sd l c er no pb rg conn accepted n r w res a E _ |
                 | ss ch sd ac l c er no pb rg resolved conn opened n r w res a E _
                 | ss ch sd sd' ac l c er no pb rg ev Hperm Hroom
                 | s ch sd ac l c er no pb rg ev | ss ss' ch sd ac l c er no pb rg Ho | ];
    intros [Hs Hp Hc Hsd Hcap Hf]; cbn in *; split; cbn; auto using events_ok_more.
  - eauto using peer_ok_more.
  - apply Forall_app. split; [by apply events_ok_more|].
    destruct (only_authenticated_published_both RemoteAddr q (inl ()) accepted (inl conn) conn n
                (mkAttempt (r, w) false None [])) as [_ Hpub].
    destruct (attempt_conn (inl ()) (inl ()) accepted conn n r w) as [_ Hcn].
    rewrite E in Hpub, Hcn. by apply (attempt_events false).
  - eauto using peer_ok_more.
  - apply Forall_app. split; [by apply events_ok_more|].
    destruct (only_authenticated_published_both RemoteAddr q resolved opened (inl conn) conn n
                (mkAttempt (r, w) false None [])) as [Hpub _].
    destruct (attempt_conn resolved opened (inl ()) conn n r w) as [Hcn _].
    rewrite E in Hpub, Hcn. by apply (attempt_events true).
  - rewrite Hperm in Hsd. apply Forall_cons in Hsd as [Hev _]. apply Forall_app. split; [done|].
    by apply Forall_singleton.
  - rewrite Hperm in Hsd. by apply Forall_cons in Hsd as [_ ?].
  - rewrite length_app. simpl. lia.
  - by rewrite app_assoc, Hf.
  - apply Forall_cons in Hc as [[Hev _] _]. by apply registers_inv.
  - apply Forall_cons in Hc as [Hev _]. by apply registers_peers.
  - by apply Forall_cons in Hc as [_ ?].
  - lia.
  - by rewrite <- app_assoc.
  - destruct Ho as [St _]. by eapply swarm_step_inv.
  - intros p peer Hpeer. destruct (swarm_other_kept _ _ _ _ Ho Hpeer) as (old & E & Hk & Ht).
    unfold peer_ok. rewrite Hk, Ht. by eapply Hp.
Qed.

Lemma initial_inv self k store n : net_inv (initial self k store n).
Proof.
  split; cbn; try done; [apply NewSwarm_inv|apply le_0_n].
Qed.

Lemma net_reached self k store n st :
  rtc step (initial self k store n) st → net_inv st.
Proof.
  intros Hrun. eapply (rtc_ind_inv step net_inv); [apply conn_step_inv|exact Hrun|].
  apply initial_inv.
Qed.
End invariants.

(** ** Properties *)
Section properties.
Context {S W : Type} `{Storage S} `{Writer W} `{Codec MessageData} `{Ed25519}.
Variables (RemoteAddr : ConnID → string) (q : QuicTransport).

(** C8. Who is in the table: under every interleaving of accepted and dialled
    connections, registrations and the other users of the swarm, [GetPeer] finds
    under an identifier a peer whose key hashes to it and has signed the nonce
    that this node sent on the peer's own connection; the channel between the
    transport and the swarm keeps its ten places and its order. *)
Theorem active_peers_authenticated (self : PeerID) (k : PeerPrivateKey) (store : S) (n : Z)
    (st : NetState S) (id : PeerID) (p : ptr)
    (Hrun : rtc (conn_step (W:=W) RemoteAddr q) (initial self k store n) st)
    (Hp : GetPeer id (ss_swarm (net_swarm st)) = Some p) :
  (∃ peer c nonce, peer_heap (ss_swarm (net_swarm st)) !! p = Some peer
     ∧ peer_id peer = id ∧ id = PeerPubKeyToID (peer_pubKey peer)
     ∧ peer_transport peer = Some c ∧ (c, nonce) ∈ net_nonces st
     ∧ authenticated (arr nonce) (peer_pubKey peer))
  ∧ length (ConnChan st) <= connChan_cap
  ∧ net_registered st ++ ConnChan st = net_published st.
Proof.
  destruct (net_reached _ _ _ _ _ _ _ Hrun) as [Hs Hpe _ _ Hcap Hf].
  split; [|done].
  destruct (sv_table _ Hs id p Hp) as (peer & Hpeer & <-).
  destruct (Hpe _ _ Hpeer) as (c & Hc & nonce & Hin & Ha).
  exists peer, c, nonce. split_and!; try done. by eapply (sv_id _ Hs).
Qed.

(** The accept loop never returns: whatever happens, the end of its context
    included, it goes on with its listener open, and can print another error. *)
Lemma AcceptConn_keeps st st' :
  conn_step (W:=W) RemoteAddr q st st' →
  net_accepting st = true ∧ net_listener st = true →
  net_accepting st' = true ∧ net_listener st' = true.
Proof. destruct 1; simpl; tauto. Qed.

Theorem AcceptConn_never_returns (st st' : NetState S) (errors : nat)
    (Haccept : net_accepting st = true) (Hlistener : net_listener st = true)
    (Hrun : rtc (conn_step (W:=W) RemoteAddr q) st st') :
  net_accepting st' = true ∧ net_listener st' = true
  ∧ ∃ st2, rtc (conn_step (W:=W) RemoteAddr q) st' st2
      ∧ net_errors st2 = errors + net_errors st' ∧ net_cancelled st2 = true
      ∧ net_accepting st2 = true ∧ net_listener st2 = true.
Proof.
  assert (net_accepting st' = true ∧ net_listener st' = true) as [Ha Hl].
  { apply (rtc_ind_inv (conn_step RemoteAddr q)
             (λ st, net_accepting st = true ∧ net_listener st = true) st); try done.
    apply AcceptConn_keeps. }
  split_and!; [done..|].
  destruct st' as [ss ch sd ac l c er no pb rg]. simpl in *. subst ac l.
  exists (mkNet ss ch sd true true true (errors + er) no pb rg).
  split; [|done].
  eapply rtc_l; [apply cs_cancel|].
  induction errors as [|errors IH]; [apply rtc_refl|].
  eapply rtc_r; [exact IH|]. apply (cs_accept_error _ _ _ _ _ _ _ (errors + er)).
Qed.
End properties.

(** Bob accepts a connection of Alice and registers her. *)
Module ConnectionsWitness.
Import ToyWriter ToySig HandshakeWitness ToyBadger BadgerStorage.

Definition alicePub : PeerPublicKey := PeerPrivateKeyToPublic (q_privKey alice).
Definition aliceID : PeerID := PeerPubKeyToID alicePub.
Definition ev : NewConnEvent := mkNewConnEvent 9 false aliceID alicePub (addr 9).

Lemma accept_publishes : connChan accept.2 = [ev].
Proof. vm_compute. reflexivity. Qed.
Lemma accept_ends : accept.1 = Ok ().
Proof. vm_compute. reflexivity. Qed.

Definition net0 : NetState store := initial (zero_array 32) (q_privKey bob) ∅ 100.
Definition s0 : Swarm store := ss_swarm (net_swarm net0).
Definition s1 : SwarmState := registers addr ev s0.
Definition net1 : NetState store :=
  mkNet (mkSwarmState (AddPeer_table aliceID 0 (ss_swarm s1)) None) [] [] true true false 0
    [(9, nB)] [ev] [ev].

Lemma net1_reached : rtc (conn_step (W:=bytes) addr bob) net0 net1.
Proof.
  eapply rtc_l; [by apply cs_listen|].
  eapply rtc_l.
  { apply (cs_accept addr bob _ _ _ _ _ _ _ _ _ 9 (inl ()) nB rB [] (Ok ()) accept.2);
      [exact (run_eq _ _ _ accept_ends)|reflexivity]. }
  rewrite accept_publishes.
  eapply rtc_l; [apply (cs_send addr bob _ [] [ev] [] _ _ _ _ _ _ _ ev);
                 [reflexivity|apply Nat.ltb_lt; reflexivity]|].
  eapply rtc_l; [apply cs_register|].
  apply rtc_once. apply cs_swarm. split; [apply (sw_add_table addr (ss_swarm s1) aliceID 0)|by left].
Qed.

Lemma active_peers_authenticated_witness :
  ∃ peer c nonce, peer_heap (ss_swarm (net_swarm net1)) !! 0 = Some peer
    ∧ aliceID = PeerPubKeyToID (peer_pubKey peer)
    ∧ (c, nonce) ∈ [(9, nB)] ∧ authenticated (arr nonce) (peer_pubKey peer).
Proof.
  destruct (active_peers_authenticated (W:=bytes) addr bob (zero_array 32) (q_privKey bob) ∅ 100
              net1 aliceID 0 net1_reached (lookup_insert_eq _ _ _))
    as ((peer & c & nonce & H1 & _ & H2 & _ & H3 & H4) & _).
  exists peer, c, nonce. by split_and!.
Defined.

Lemma AcceptConn_never_returns_witness :
  ∃ st, rtc (conn_step (W:=bytes) addr bob) net1 st ∧ net_errors st = 5 ∧ net_cancelled st = true.
Proof.
  destruct (AcceptConn_never_returns (W:=bytes) addr bob net1 net1 5 eq_refl eq_refl (rtc_refl _ _))
    as (_ & _ & st & Hst & He & Hc & _).
  exists st. split; [exact Hst|]. split; [exact He|exact Hc].
Defined.
End ConnectionsWitness.
