(* ===== verification/Ingress.v ===== *)
(** * From a gossip stream to a handler: the composition of swarm.go, quic.go and
      dispatcher.go

    Every registered peer has a wrapper of its connection, whose loops hand what
    they read to the callback that [AddPeer] installed, and the callback pushes
    it into the dispatcher that all connections share.  [ingress_step]
    interleaves the transport and the swarm ([Connections]), the loops and
    streams of every connection ([Loops]) and the workers ([Dispatcher]).

    The wrapper's context is a child of the peer's: cancelling a peer cancels
    the wrapper in the same step. *)

From Stdlib Require Import ZArith Lia.
From stdpp Require Import relations.
From S2P Require Import Prelude Task Sha2 Types Proto ToyCodec Storage Frame Signature Tls Handshake.
From S2P Require Import Transport Dispatcher Stream Loops Sessions Swarm Connections.

Section ingress.
Context {S W H T : Type} `{Storage S} `{Writer W} `{Handler H T}
        `{Codec MessageData} `{Codec Envelope} `{Ed25519}.
Variables (RemoteAddr : ConnID → string) (q : QuicTransport).

(** ** The state *)

(** [in_conns] are the wrappers, at the pointers of their peers.  The dispatcher
    is shared, so [cn_data] of a wrapper at rest has no meaning: [share] puts
    the dispatcher there before a step. *)
Record Ingress := mkIngress {
  in_net : NetState S;
  in_conns : gmap ptr (Conn W (Dispatcher H));
  in_world : World H T;
  in_received : list (ptr * GossipStream)   (* history: the gossip streams that peers opened *)
}.

Definition in_heap (st : Ingress) : gmap ptr Peer := peer_heap (ss_swarm (net_swarm (in_net st))).

(** The callbacks that [AddPeer] sets. *)
Definition AddPeer_callbacks : Callbacks (Dispatcher H) :=
  OnNewStream (OnData onData (mkCallbacks None false)).

Definition AddPeer_wrapper (conn : ConnID) (d : Dispatcher H) : Conn W (Dispatcher H) :=
  mkConn (NewPeerWrapper conn) AddPeer_callbacks Idle Idle Idle [] [] [] [] d [] [].

Definition set_wrapper (c : Conn W (Dispatcher H)) (p : PeerWrapper W) : Conn W (Dispatcher H) :=
  mkConn p (cn_callbacks c) (cn_uni c) (cn_dgram c) (cn_bidi c) (cn_uni_queue c)
    (cn_dgram_queue c) (cn_bidi_queue c) (cn_gossip c) (cn_data c) (cn_new_streams c) (cn_printed c).

Definition share (d : Dispatcher H) (c : Conn W (Dispatcher H)) : Conn W (Dispatcher H) :=
  mkConn (cn_wrapper c) (cn_callbacks c) (cn_uni c) (cn_dgram c) (cn_bidi c) (cn_uni_queue c)
    (cn_dgram_queue c) (cn_bidi_queue c) (cn_gossip c) d (cn_new_streams c) (cn_printed c).

(** The parent context is done. *)
Definition cancel_ctx (c : Conn W (Dispatcher H)) : Conn W (Dispatcher H) :=
  let p := cn_wrapper c in
  set_wrapper c (mkPeerWrapper (pw_conn p) (pw_peerID p) true (pw_closed p) (streams p) (heap p)
                   (pending p)).

(** The wrappers that go with a heap of peers: a new peer has a new wrapper, and
    the wrapper of a closed peer is cancelled. *)
Definition sync (d : Dispatcher H) (h : gmap ptr Peer) (cs : gmap ptr (Conn W (Dispatcher H))) :
    gmap ptr (Conn W (Dispatcher H)) :=
  map_imap (λ p peer,
    c ← match cs !! p with
        | Some c => Some c
        | None => conn ← peer_transport peer; Some (AddPeer_wrapper conn d)
        end;
    Some (if peer_cancelled peer then cancel_ctx c else c)) h.

(** What the remote end does: a gossip stream, a datagram, a stream. *)
Inductive arrival :=
  | Uni (r : GossipStream) | Dgram (m : bytes) | Bidi (id : StreamID) (r : Reader) (w : W).
Definition arrive (a : arrival) (c : Conn W (Dispatcher H)) : Conn W (Dispatcher H) :=
  let '(uq, dq, bq) :=
    match a with
    | Uni r => (cn_uni_queue c ++ [r], cn_dgram_queue c, cn_bidi_queue c)
    | Dgram m => (cn_uni_queue c, cn_dgram_queue c ++ [m], cn_bidi_queue c)
    | Bidi id r w => (cn_uni_queue c, cn_dgram_queue c, cn_bidi_queue c ++ [(id, r, w)])
    end in
  mkConn (cn_wrapper c) (cn_callbacks c) (cn_uni c) (cn_dgram c) (cn_bidi c) uq dq bq
    (cn_gossip c) (cn_data c) (cn_new_streams c) (cn_printed c).
Definition arrived (p : ptr) (a : arrival) : list (ptr * GossipStream) :=
  match a with Uni r => [(p, r)] | _ => [] end.

(** The world after a callback has left the dispatcher [d]: what is new in the
    queue was accepted. *)
Definition with_dispatcher (d : Dispatcher H) (w : World H T) : World H T :=
  mkWorld d (w_workers w) (w_state w)
    (w_accepted w ++ drop (length (ingressChan (w_disp w))) (ingressChan d)) (w_taken w)
    (w_processed w).

Inductive ingress_step : Ingress → Ingress → Prop :=
(* the transport, the registration loop and the users of the swarm *)
| ig_net st st' cs w rc :
    Connections.conn_step (W:=W) RemoteAddr q st st' →
    ingress_step (mkIngress st cs w rc)
      (mkIngress st' (sync (w_disp w) (peer_heap (ss_swarm (net_swarm st'))) cs) w rc)
(* registrationLoop: [go p.transport.StartLoops()], after AddPeer *)
| ig_start st cs w rc p c :
    cs !! p = Some c → cn_uni c = Idle →
    (∀ id, ss_adding (net_swarm st) ≠ Some (id, p)) →
    ingress_step (mkIngress st cs w rc) (mkIngress st (<[p := StartLoops c]> cs) w rc)
| ig_arrive st cs w rc p c a :
    cs !! p = Some c →
    ingress_step (mkIngress st cs w rc)
      (mkIngress st (<[p := arrive a c]> cs) w (rc ++ arrived p a))
(* the loops and the streams of a connection *)
| ig_conn (failed : Prop) st cs w rc p c c' :
    cs !! p = Some c → Loops.conn_step failed (share (w_disp w) c) c' →
    ingress_step (mkIngress st cs w rc)
      (mkIngress st (<[p := c']> cs) (with_dispatcher (cn_data c') w) rc)
(* the workers, and Stop: nothing else pushes *)
| ig_worker st cs w w' rc :
    Dispatcher.step w w' → w_accepted w' = w_accepted w →
    ingress_step (mkIngress st cs w rc) (mkIngress st cs w' rc).

Definition ingress_start (self : PeerID) (k : PeerPrivateKey) (store : S) (n : Z)
    (d : Dispatcher H) (t : T) : Ingress :=
  mkIngress (initial self k store n) ∅ (Start d t) [].

(** ** The packets of the streams *)

(** The wrapper's [peerID] is never set, so every packet carries the zero
    identifier. *)
Definition packet_of (r : GossipStream) : option IngressPacket :=
  match readFrame_stream r with
  | Some (Ok (_, m)) =>
      match unmarshal m with
      | inl env => Some (mkIngressPacket env (zero_array 32))
      | inr _ => None
      end
  | _ => None
  end.

(** The streams that a connection has accepted or will accept. *)
Definition unread (c : Conn W (Dispatcher H)) : list GossipStream := cn_uni_queue c ++ cn_gossip c.

Fixpoint unread_all (n : nat) (cs : gmap ptr (Conn W (Dispatcher H))) : list GossipStream :=
  match n with
  | O => []
  | Datatypes.S n => from_option unread [] (cs !! n) ++ unread_all n cs
  end.

Lemma unread_ext n cs cs' :
  (∀ p, from_option unread [] (cs !! p) = from_option unread [] (cs' !! p)) →
  unread_all n cs = unread_all n cs'.
Proof. intros E. induction n as [|n IH]; [done|]. cbn [unread_all]. by rewrite E, IH. Qed.

Lemma unread_more n k cs : unread_all n cs ⊆+ unread_all (k + n) cs.
Proof.
  induction k as [|k IH]; [done|]. cbn [Nat.add unread_all]. etransitivity; [exact IH|].
  apply submseteq_inserts_l. done.
Qed.

Lemma unread_delete n cs p : n <= p → unread_all n (delete p cs) = unread_all n cs.
Proof.
  induction n as [|n IH]; intros Hn; [done|]. cbn [unread_all].
  rewrite lookup_delete_ne by lia. by rewrite IH by lia.
Qed.

Lemma unread_split n cs p c : p < n → cs !! p = Some c →
  unread_all n cs ≡ₚ unread c ++ unread_all n (delete p cs).
Proof.
  induction n as [|n IH]; intros Hp Hc; [lia|]. cbn [unread_all].
  destruct (decide (p = n)) as [->|Hne].
  - rewrite Hc, lookup_delete_eq, unread_delete by lia. done.
  - rewrite lookup_delete_ne by done. rewrite IH by (done || lia). apply Permutation_app_swap_app.
Qed.

(** A connection in place of another. *)
Lemma unread_insert n cs p c c' : p < n → cs !! p = Some c →
  ∃ rest, unread_all n cs ≡ₚ unread c ++ rest ∧ unread_all n (<[p := c']> cs) ≡ₚ unread c' ++ rest.
Proof.
  intros Hp Hc. exists (unread_all n (delete p cs)). split; [by apply unread_split|].
  rewrite (unread_split n _ p c') by (done || apply lookup_insert_eq).
  by rewrite delete_insert_eq.
Qed.
End ingress.

(** ** One step of a connection, seen from the dispatcher *)
Section connection.
Context {W H : Type} `{Writer W} `{Codec Envelope}.
Implicit Types (c : Conn W (Dispatcher H)) (d : Dispatcher H).

Definition push_all (d : Dispatcher H) (pkts : list IngressPacket) : Dispatcher H :=
  foldl (λ d pkt, PushMessage (ip_Envelope pkt) (ip_PeerID pkt) d) d pkts.

(** What a wrapper keeps. *)
Record wrapper_ok (conn : ConnID) c : Prop := {
  wo_conn : pw_conn (cn_wrapper c) = conn;
  wo_peerID : pw_peerID (cn_wrapper c) = zero_array 32;
  wo_callbacks : cn_callbacks c = AddPeer_callbacks
}.

Lemma handle_pushes (p : PeerWrapper W) (r : GossipStream) d d' :
  pw_peerID p = zero_array 32 →
  handleGossipStream (cb_onData (AddPeer_callbacks (H:=H))) p r d = Some (Ok (), d') →
  d' = push_all d (omap packet_of [r]).
Proof.
  intros Hid. unfold handleGossipStream, packet_of. cbn [omap list_omap AddPeer_callbacks OnData
    OnNewStream cb_onData]. rewrite Hid.
  destruct (readFrame_stream r) as [[[t m]|e|x]|]; [|by intros [= <-]|done..].
  unfold onData. destruct (unmarshal m) as [env|e]; by intros [= <-].
Qed.

(** A step of a connection hands at most one of its streams to the dispatcher. *)
Lemma conn_step_pushes failed conn c c' :
  Loops.conn_step failed c c' → wrapper_ok conn c →
  wrapper_ok conn c' ∧ (pw_cancelled (cn_wrapper c) = true → pw_cancelled (cn_wrapper c') = true)
  ∧ ∃ rs, unread c ≡ₚ rs ++ unread c' ∧ length rs <= 1
          ∧ cn_data c' = push_all (cn_data c) (omap packet_of rs).
Proof.
  intros [St|St] [Hc Hid Hcb].
  - destruct St as [p cb dg bi r uq dq bq go d ns pr| |
                    p cb un dg bi uq dq bq go go' r d d' ns pr Hp Hg| | | | |];
      cbn in Hc, Hid, Hcb; subst cb; (split; [by split|]); (split; [done|]);
      try (exists []; split_and!; [done|apply le_0_n|done]).
    + exists []. split_and!; [|apply le_0_n|done]. unfold unread. cbn.
      by rewrite app_assoc, <- Permutation_cons_append.
    + exists [r]. split_and!; [|done|by eapply handle_pushes]. unfold unread. cbn.
      by rewrite Hp, <- Permutation_middle.
  - destruct St as [p p' cb un dg bi uq dq bq go d ns pr St]. cbn in *.
    destruct (step_conn _ _ St) as [Ec Hcan]. pose proof (step_peerID _ _ St) as Eid.
    split; [split; cbn; congruence|]. split; [done|].
    exists []. by split_and!; [|apply le_0_n|].
Qed.
End connection.

(** ** Invariants *)
Section invariants.
Context {S W H T : Type} `{Storage S} `{Writer W} `{Handler H T}
        `{Codec MessageData} `{Codec Envelope} `{Ed25519}.
Variables (RemoteAddr : ConnID → string) (q : QuicTransport).
Implicit Types (d : Dispatcher H) (w : World H T) (st : Ingress (S:=S) (W:=W) (H:=H) (T:=T)).

Abbreviation istep := (ingress_step RemoteAddr q).

(** What a callback does to the dispatcher is a step of the dispatcher. *)
Lemma push_world w pkts : length pkts <= 1 →
  rtc Dispatcher.step w (with_dispatcher (push_all (w_disp w) pkts) w)
  ∧ ∃ acc, w_accepted (with_dispatcher (push_all (w_disp w) pkts) w) = w_accepted w ++ acc
           ∧ acc ⊆+ pkts.
Proof.
  destruct w as [d ws s acc tk pr]. unfold with_dispatcher.
  destruct pkts as [|[env id] [|]]; [| |cbn; lia]; intros _; cbn [push_all foldl].
  - cbn. rewrite drop_all, app_nil_r. split; [done|]. exists []. by rewrite app_nil_r.
  - pose proof (step_push env id d ws s acc tk pr) as Hs. cbn zeta in Hs. revert Hs.
    cbn [ip_Envelope ip_PeerID w_disp w_accepted w_workers w_state w_taken w_processed].
    unfold PushMessage. case_decide; cbn [ingressChan].
    + intros Hs. rewrite drop_app_length. split; [by apply rtc_once|].
      by exists [mkIngressPacket env id].
    + intros Hs. rewrite drop_all, app_nil_r. split; [done|].
      exists []. rewrite app_nil_r. split; [done|apply submseteq_nil_l].
Qed.

(** Peers stay where they are. *)
Lemma conn_step_heap (st st' : NetState S) :
  Connections.conn_step (W:=W) RemoteAddr q st st' → net_inv st →
  heap_ext (peer_heap (ss_swarm (net_swarm st))) (peer_heap (ss_swarm (net_swarm st'))).
Proof.
  destruct 1 as [| | | | |s ch sd ac l c er no pb rg ev|ss ss' ch sd ac l c er no pb rg [St _]|];
    intros Hinv; try done; pose proof (nv_swarm _ Hinv) as Hs; cbn [net_swarm] in *.
  - unfold registers. destruct (AddPeer_new _ _ _ _ _ _) as [s' p] eqn:E. cbn [ss_swarm].
    by eapply AddPeer_new_heap.
  - by eapply swarm_step_heap.
Qed.

Record conn_ok (h : gmap ptr Peer) (p : ptr) (c : Conn W (Dispatcher H)) : Prop := {
  co_peer : ∃ peer conn, h !! p = Some peer ∧ peer_transport peer = Some conn
            ∧ wrapper_ok conn c ∧ (peer_cancelled peer = true → pw_cancelled (cn_wrapper c) = true)
}.

Record ingress_inv (net0 : NetState S) d (t : T) st : Prop := {
  ii_net : rtc (Connections.conn_step (W:=W) RemoteAddr q) net0 (in_net st);
  ii_world : rtc Dispatcher.step (Start d t) (in_world st);
  ii_conns : map_Forall (conn_ok (in_heap st)) (in_conns st);
  ii_received : ∀ p r, (p, r) ∈ in_received st → is_Some (in_heap st !! p);
  ii_once : ∀ n, w_accepted (in_world st) ++ omap packet_of (unread_all n (in_conns st))
                 ⊆+ omap packet_of (in_received st).*2
}.

Lemma sync_unread d h h' cs p :
  heap_ext h h' → map_Forall (conn_ok h) cs →
  from_option unread [] (sync d h' cs !! p) = from_option unread [] (cs !! p).
Proof.
  intros Hext Hcs. unfold sync. rewrite map_lookup_imap.
  destruct (cs !! p) as [c|] eqn:Ec.
  - destruct (Hcs p c Ec) as [(peer & conn & Hp & _)]. destruct (Hext p peer Hp) as (peer' & -> & _).
    cbn. by destruct (peer_cancelled peer').
  - destruct (h' !! p) as [peer|]; [|done]. cbn. destruct (peer_transport peer); [|done].
    cbn. by destruct (peer_cancelled peer).
Qed.

Lemma sync_ok d h h' cs :
  heap_ext h h' → map_Forall (conn_ok h) cs → map_Forall (conn_ok h') (sync d h' cs).
Proof.
  intros Hext Hcs p c. unfold sync. rewrite map_lookup_imap.
  destruct (h' !! p) as [peer|] eqn:Ep; [|done]. cbn. intros Hc. split.
  destruct (cs !! p) as [c0|] eqn:Ec.
  - destruct (Hcs p c0 Ec) as [(old & conn & Ho & Ht & [W1 W2 W3] & Hcan)].
    destruct (Hext p old Ho) as (peer' & E & _ & _ & Et & Hmon).
    assert (peer' = peer) as -> by congruence. exists peer, conn.
    revert Hc. cbn. intros [= <-]. split_and!; [done|congruence| |].
    + by destruct (peer_cancelled peer).
    + by intros ->.
  - revert Hc. destruct (peer_transport peer) as [conn|] eqn:Et; [|done].
    cbn. intros [= <-]. exists peer, conn. split_and!; [done..| |].
    + by destruct (peer_cancelled peer).
    + by intros ->.
Qed.

Lemma worker_runs net cs w w' rc :
  rtc Dispatcher.worker_step w w' → rtc istep (mkIngress net cs w rc) (mkIngress net cs w' rc).
Proof.
  induction 1 as [|w w1 w2 St _ IH]; [done|]. eapply rtc_l; [|exact IH].
  apply ig_worker; [by apply step_worker|by apply worker_step_keeps].
Qed.

Lemma share_ok conn d (c : Conn W (Dispatcher H)) : wrapper_ok conn c → wrapper_ok conn (share d c).
Proof. by intros [? ? ?]. Qed.

Lemma length_omap_1 {A B} (f : A → option B) (l : list A) :
  length l <= 1 → length (omap f l) <= 1.
Proof. destruct l as [|x [|]]; cbn; [lia|destruct (f x); cbn; lia|lia]. Qed.

Lemma omap_Permutation {A B} (f : A → option B) (l k : list A) :
  l ≡ₚ k → omap f l ≡ₚ omap f k.
Proof. by intros ->. Qed.

(** A connection that has read [rs], received [new] and had [a] accepted. *)
Lemma once_update (cs : gmap ptr (Conn W (Dispatcher H))) p (c c' : Conn W (Dispatcher H)) (acc a R : list IngressPacket)
    (rs new : list GossipStream) :
  cs !! p = Some c → unread c' ++ rs ≡ₚ unread c ++ new → a ⊆+ omap packet_of rs →
  (∀ n, acc ++ omap packet_of (unread_all n cs) ⊆+ R) →
  ∀ n, (acc ++ a) ++ omap packet_of (unread_all n (<[p := c']> cs)) ⊆+ R ++ omap packet_of new.
Proof.
  intros Hc Hperm Ha HR n.
  destruct (submseteq_Permutation _ _ (unread_more n (Datatypes.S p) (<[p := c']> cs))) as [k Hk].
  destruct (unread_insert (Datatypes.S p + n) cs p c c') as (rest & E1 & E2); [lia|done|].
  specialize (HR (Datatypes.S p + n)). rewrite E1, omap_app in HR. rewrite E2 in Hk.
  apply (omap_Permutation packet_of) in Hk. rewrite !omap_app in Hk.
  apply (omap_Permutation packet_of) in Hperm. rewrite !omap_app in Hperm.
  transitivity ((acc ++ omap packet_of rs) ++ omap packet_of (unread c') ++ omap packet_of rest).
  - rewrite Hk. apply submseteq_app; [by apply submseteq_app|]. by apply submseteq_inserts_r.
  - rewrite <- app_assoc, (app_assoc (omap packet_of rs)), (Permutation_app_comm (omap _ rs)), Hperm.
    rewrite <- app_assoc, (Permutation_app_comm (omap _ new)), !app_assoc.
    apply submseteq_app; [|done]. by rewrite <- app_assoc.
Qed.

Lemma conns_update h (cs : gmap ptr (Conn W (Dispatcher H))) p (c c' : Conn W (Dispatcher H)) :
  map_Forall (conn_ok h) cs → cs !! p = Some c →
  (∀ conn, wrapper_ok conn c → wrapper_ok conn c') →
  (pw_cancelled (cn_wrapper c) = true → pw_cancelled (cn_wrapper c') = true) →
  map_Forall (conn_ok h) (<[p := c']> cs).
Proof.
  intros Hcs Hc Hw Hcan. apply map_Forall_insert_2; [|done]. split.
  destruct (Hcs p c Hc) as [(peer & conn & ? & ? & ? & ?)]. exists peer, conn. split_and!; auto.
Qed.

Lemma unread_arrive p a (c : Conn W (Dispatcher H)) :
  unread (arrive a c) ≡ₚ unread c ++ (arrived (W:=W) p a).*2.
Proof.
  destruct a; unfold unread; cbn; rewrite ?app_nil_r; [|done..].
  by rewrite <- !app_assoc, <- (Permutation_app_comm (cn_gossip c)).
Qed.

Lemma ingress_step_inv self k store n d t st st' :
  istep st st' → ingress_inv (initial self k store n) d t st →
  ingress_inv (initial self k store n) d t st'.
Proof.
  destruct 1 as [st st' cs w rc St|st cs w rc p c Hc Hi Ha|st cs w rc p c a Hc
                |failed st cs w rc p c c' Hc St|st cs w w' rc St Hacc];
    intros [Hn Hw Hcs Hr Ho]; unfold in_heap in *; cbn [in_net in_conns in_world in_received] in *;
    split; unfold in_heap; cbn [in_net in_conns in_world in_received]; try done.
  - by eapply rtc_r.
  - eapply sync_ok; [|done]. eapply conn_step_heap; [done|]. by eapply net_reached.
  - intros p r [peer Hp]%Hr. destruct (conn_step_heap _ _ St) with p peer as (x & -> & _); eauto.
    by eapply net_reached.
  - intros m. erewrite unread_ext; [apply Ho|]. intros p. eapply sync_unread; [|done].
    eapply conn_step_heap; [done|]. by eapply net_reached.
  - eapply conns_update; try done. intros conn [W1 W2 W3]. by split.
  - intros m. pose proof (once_update cs p c (StartLoops c) (w_accepted w) [] (omap packet_of rc.*2) [] [] Hc
      ltac:(done) ltac:(done) Ho m) as X. cbn [omap list_omap] in X. by rewrite !app_nil_r in X.
  - eapply conns_update; try done; [|by destruct a]. intros conn [W1 W2 W3]. by destruct a; split.
  - intros p' r [Hin|Hin]%elem_of_app; [by eapply Hr|]. destruct a; try by apply elem_of_nil in Hin.
    apply list_elem_of_singleton in Hin as [= -> ->].
    destruct (Hcs p c Hc) as [(peer & ? & -> & _)]. eauto.
  - intros m. pose proof (once_update cs p c (arrive a c) (w_accepted w) [] (omap packet_of rc.*2) []
      (arrived (W:=W) p a).*2 Hc) as X. rewrite app_nil_r, (unread_arrive p) in X.
    rewrite fmap_app, omap_app. rewrite app_nil_r in X. by apply X.
  - destruct (Hcs p c Hc) as [(peer & conn & Hp & Ht & Hwo & Hcan)].
    destruct (conn_step_pushes failed conn _ _ St (share_ok _ _ _ Hwo)) as (_ & _ & rs & _ & Hl & ->).
    etransitivity; [exact Hw|]. apply push_world. by apply length_omap_1.
  - destruct (Hcs p c Hc) as [(peer & conn & Hp & Ht & Hwo & Hcan)].
    destruct (conn_step_pushes failed conn _ _ St (share_ok _ _ _ Hwo)) as (Hwo' & Hcan' & _).
    apply map_Forall_insert_2; [|done]. split. exists peer, conn. split_and!; auto.
  - intros m. destruct (Hcs p c Hc) as [(peer & conn & Hp & Ht & Hwo & Hcan)].
    destruct (conn_step_pushes failed conn _ _ St (share_ok _ _ _ Hwo)) as (_ & _ & rs & Hu & Hl & ->).
    destruct (push_world w (omap packet_of rs)) as [_ (a & Ea & Ha)]; [by apply length_omap_1|].
    cbn [share cn_data]. rewrite Ea.
    pose proof (once_update cs p c c' (w_accepted w) a (omap packet_of rc.*2) rs [] Hc) as X.
    cbn [omap list_omap] in X. rewrite !app_nil_r in X. apply X; [|done|exact Ho].
    rewrite Permutation_app_comm. by symmetry.
  - by eapply rtc_r.
  - by rewrite Hacc.
Qed.
End invariants.

(** ** Properties *)
Section properties.
Context {S W H T : Type} `{Storage S} `{Writer W} `{Handler H T}
        `{CodecLaws MessageData} `{Codec Envelope} `{Ed25519}.
Variables (RemoteAddr : ConnID → string) (q : QuicTransport).
Implicit Types (st : Ingress (S:=S) (W:=W) (H:=H) (T:=T)).

Lemma ingress_reached self k store n (d : Dispatcher H) (t : T) st :
  ingressChan d = [] →
  rtc (ingress_step RemoteAddr q) (ingress_start self k store n d t) st →
  ingress_inv RemoteAddr q (initial self k store n) d t st.
Proof.
  intros Hd Hrun.
  apply (rtc_ind_inv (ingress_step RemoteAddr q) (ingress_inv RemoteAddr q (initial self k store n) d t)
           (ingress_start self k store n d t) st); [apply ingress_step_inv|exact Hrun|].
  split; try done.
  - intros p r Hin. by apply elem_of_nil in Hin.
  - intros m. cbn. rewrite Hd. by induction m.
Qed.

(** A peer vouched for the connection at [p]. *)
Definition peer_connection st (p : ptr) : Prop :=
  ∃ peer conn nonce, in_heap st !! p = Some peer ∧ peer_transport peer = Some conn
    ∧ (conn, nonce) ∈ net_nonces (in_net st) ∧ authenticated (arr nonce) (peer_pubKey peer).

(** C6. What reaches the handlers comes from authenticated connections: under
    every interleaving of handshakes, registrations, bans, loops, streams and
    workers, each packet the dispatcher has accepted is the content of a gossip
    stream that was opened on the connection of a peer whose key signed this
    node's nonce on that very connection; a stream gives at most one packet; and
    the state of the handlers is what processing some of the accepted packets,
    each once and one after the other, gives - for handlers that touch it once, as
    their last act. *)
Theorem ingress_provenance `{!SingleAccess H T} (self : PeerID) (k : PeerPrivateKey) (store : S) (n : Z)
    (d : Dispatcher H) (t : T) st
    (Hd : ingressChan d = [])
    (Hrun : rtc (ingress_step RemoteAddr q) (ingress_start self k store n d t) st) :
  (∀ pkt, pkt ∈ w_accepted (in_world st) →
     ∃ p r, (p, r) ∈ in_received st ∧ packet_of r = Some pkt ∧ peer_connection st p)
  ∧ w_accepted (in_world st) ⊆+ omap packet_of (in_received st).*2
  ∧ ∃ ps, ps ⊆+ w_accepted (in_world st) ∧ process_all d ps t = (Ok (), w_state (in_world st)).
Proof.
  destruct (ingress_reached _ _ _ _ _ _ _ Hd Hrun) as [Hn Hw _ Hr Ho].
  specialize (Ho 0). cbn [unread_all omap list_omap] in Ho. rewrite app_nil_r in Ho.
  split_and!; [|done|].
  - intros pkt Hpkt. apply (elem_of_submseteq _ _ _ Hpkt) in Ho.
    apply list_elem_of_omap in Ho as (r & Hin & Hp).
    apply list_elem_of_fmap in Hin as ([p r'] & -> & Hin). exists p, r'. split_and!; [done..|].
    destruct (Hr _ _ Hin) as [peer Hpeer].
    destruct (nv_peers _ (net_reached _ _ _ _ _ _ _ Hn) p peer Hpeer) as (conn & Hc & nonce & ? & ?).
    by exists peer, conn, nonce.
  - destruct (sq_run _ _ _ (steps_sequential d t _ _ Hw (Start_sequential d t))) as (ps & Hps & Hrun').
    exists ps. split; [|done].
    rewrite <- (inv_fifo _ _ (steps_inv _ _ _ Hw (Start_inv d t ltac:(rewrite Hd; apply le_0_n)))).
    rewrite <- Hps. rewrite <- app_assoc. by apply submseteq_inserts_r.
Qed.

(** The composition refines its parts: every run of it is, seen from the
    transport and the swarm, a run of [Connections], and seen from the
    dispatcher a run of [Dispatcher], so what is proved about each part alone
    holds when they work together. *)
Theorem ingress_refines (self : PeerID) (k : PeerPrivateKey) (store : S) (n : Z)
    (d : Dispatcher H) (t : T) st
    (Hd : ingressChan d = [])
    (Hrun : rtc (ingress_step RemoteAddr q) (ingress_start self k store n d t) st) :
  rtc (Connections.conn_step (W:=W) RemoteAddr q) (initial self k store n) (in_net st)
  ∧ rtc Dispatcher.step (Start d t) (in_world st).
Proof. by destruct (ingress_reached _ _ _ _ _ _ _ Hd Hrun). Qed.

(** C23. One connection per identity: at any time two wrappers whose contexts
    are not done belong to the same peer or to different identities.  And the
    loops of a peer that was replaced, removed or banned end: once they are
    started and the peer sends nothing more, however they run on the shared
    dispatcher, they can only come to rest when the three loops have returned and
    no gossip handler is left but those that wait on a silent stream, which stay;
    provided no frame that waits is empty, which ends the process, and the
    identifiers of the new streams are new. *)
Theorem one_live_connection (self : PeerID) (k : PeerPrivateKey) (store : S) (n : Z)
    (d : Dispatcher H) (t : T) st
    (Hd : ingressChan d = [])
    (Hrun : rtc (ingress_step RemoteAddr q) (ingress_start self k store n d t) st) :
  (∀ p p' c c' peer peer',
     in_conns st !! p = Some c → in_conns st !! p' = Some c' →
     in_heap st !! p = Some peer → in_heap st !! p' = Some peer' →
     pw_cancelled (cn_wrapper c) = false → pw_cancelled (cn_wrapper c') = false →
     peer_id peer = peer_id peer' → p = p')
  ∧ (∀ p c peer (failed : Prop),
       in_conns st !! p = Some c → in_heap st !! p = Some peer → peer_cancelled peer = true →
       healthy (share (w_disp (in_world st)) c) →
       ends_in (loop_step failed) (λ c', all_returned c' ∧ waiting_for_ever c ⊆+ cn_gossip c')
         (share (w_disp (in_world st)) c)).
Proof.
  destruct (ingress_reached _ _ _ _ _ _ _ Hd Hrun) as [Hn _ Hcs _ _].
  pose proof (nv_swarm _ (net_reached _ _ _ _ _ _ _ Hn)) as Hs. split.
  - intros p p' c c' peer peer' Hc Hc' Hp Hp' Hl Hl'.
    destruct (Hcs p c Hc) as [(x & _ & Ex & _ & _ & Hx)].
    destruct (Hcs p' c' Hc') as [(y & _ & Ey & _ & _ & Hy)].
    assert (x = peer) as -> by congruence. assert (y = peer') as -> by congruence.
    apply (live_unique _ _ _ _ _ Hs); split; try done.
    + destruct (peer_cancelled peer); [|done]. by rewrite Hx in Hl.
    + destruct (peer_cancelled peer'); [|done]. by rewrite Hy in Hl'.
  - intros p c peer failed Hc Hp Hcan Hh.
    destruct (Hcs p c Hc) as [(x & _ & Ex & _ & _ & Hx)].
    assert (x = peer) as -> by congruence.
    destruct (closed_loops_end failed (share (w_disp (in_world st)) c)) as [Hsn Hend]; [by apply Hx|done|].
    split; [exact Hsn|]. intros c' Hc'. destruct (Hend c' Hc') as [?|(Hr & Hw & _)]; [by left|by right].
Qed.
End properties.

(** Bob accepts a connection of Alice, registers her, starts her loops, and
    handles the message of a gossip stream that she opens. *)
Module IngressWitness.
Import ToyWriter ToySig HandshakeWitness ToyBadger BadgerStorage ConnectionsWitness DispatcherWitness.

Abbreviation State := (Ingress (S:=store) (W:=bytes) (H:=nat) (T:=list (nat * MessageData))).
Definition d : Dispatcher nat := disp 3.
Definition istart : State := ingress_start (zero_array 32) (q_privKey bob) ∅ 100 d [].
Abbreviation run := (rtc (ingress_step addr bob)).
Definition wrapper : Conn bytes (Dispatcher nat) := AddPeer_wrapper 9 d.

Lemma alice_registered : ∃ cs, run istart (mkIngress net1 cs (Start d []) [])
  ∧ cs !! 0 = Some wrapper ∧ ∀ i, i ≠ 0 → cs !! i = None.
Proof.
  eexists. split.
  - eapply rtc_l; [apply ig_net; by apply cs_listen|].
    eapply rtc_l.
    { apply ig_net.
      apply (cs_accept addr bob _ _ _ _ _ _ _ _ _ 9 (inl ()) nB rB [] (Ok ()) accept.2);
        [exact (run_eq _ _ _ accept_ends)|reflexivity]. }
    rewrite accept_publishes.
    eapply rtc_l; [apply ig_net; apply (cs_send addr bob _ [] [ev] [] _ _ _ _ _ _ _ ev);
                   [reflexivity|apply Nat.ltb_lt; reflexivity]|].
    eapply rtc_l; [apply ig_net; apply cs_register|].
    apply rtc_once. apply ig_net. apply cs_swarm.
    split; [apply (sw_add_table addr (ss_swarm s1) aliceID 0)|by left].
  - split; [vm_compute; reflexivity|]. intros i Hi. unfold sync. rewrite map_lookup_imap.
    cbn -[alicePub aliceID]. by rewrite !lookup_insert_ne by done.
Qed.

Definition packet : IngressPacket := mkIngressPacket envelope (zero_array 32).
Definition stream : GossipStream := mkGossipStream [frame_bytes TypeGossip (ser envelope)] false.
Lemma stream_packet : packet_of stream = Some packet.
Proof. vm_compute. reflexivity. Qed.

Definition accepting (uq go : list GossipStream) (d : Dispatcher nat) : Conn bytes (Dispatcher nat) :=
  mkConn (NewPeerWrapper 9) AddPeer_callbacks Running Running Running uq [] [] go d [] [].
Lemma handled : handleGossipStream (W:=bytes) (cb_onData AddPeer_callbacks) (NewPeerWrapper 9) stream d
                = Some (Ok (), PushMessage envelope (zero_array 32) d).
Proof. vm_compute. reflexivity. Qed.

Definition world1 : World nat (list (nat * MessageData)) :=
  mkWorld (PushMessage envelope (zero_array 32) d) [Waiting; Waiting] [] [packet] [] [].
Definition world2 : World nat (list (nat * MessageData)) :=
  mkWorld d [Returned; Waiting] [(7, msg)] [packet] [packet] [packet].

Lemma pushed : with_dispatcher (PushMessage envelope (zero_array 32) d)
                 (with_dispatcher d (Start d [])) = world1.
Proof. vm_compute. reflexivity. Qed.

Lemma delivered : ∃ cs, run istart (mkIngress net1 cs world2 [(0, stream)]).
Proof.
  destruct alice_registered as (cs & Hrun & Hcs & _). eexists. etransitivity; [exact Hrun|].
  eapply rtc_l; [apply (ig_start _ _ _ _ _ _ 0 wrapper Hcs); [reflexivity|discriminate]|].
  eapply rtc_l; [apply (ig_arrive _ _ _ _ _ _ 0 (StartLoops wrapper) (Uni stream)), lookup_insert_eq|].
  eapply rtc_l.
  { eapply (ig_conn _ _ False _ _ _ _ 0 _ (accepting [] [stream] d)); [apply lookup_insert_eq|].
    left. apply ls_uni. }
  eapply rtc_l.
  { eapply (ig_conn _ _ False _ _ _ _ 0 _ (accepting [] [] (PushMessage envelope (zero_array 32) d)));
      [apply lookup_insert_eq|].
    left. apply (ls_gossip _ _ _ _ _ _ _ _ _ [stream] [] stream); [reflexivity|exact handled]. }
  cbn [cn_data accepting]. rewrite pushed.
  apply worker_runs.
  apply (worker_alone 0 packet [] [] [(7, msg)] (PushMessage envelope (zero_array 32) d)
           [Waiting; Waiting]); reflexivity.
Qed.

Lemma ingress_provenance_witness :
  ∃ st : State, w_state (in_world st) = [(7, msg)] ∧
    ∃ p r, (p, r) ∈ in_received st ∧ packet_of r = Some packet ∧ peer_connection st p.
Proof.
  destruct delivered as [cs Hrun]. eexists. split; [|refine (proj1 (ingress_provenance addr bob
    _ _ _ _ d [] _ eq_refl Hrun) packet _)]; [reflexivity|]. apply list_elem_of_here.
Defined.

Lemma ingress_refines_witness :
  rtc Dispatcher.step (Start d []) world2.
Proof.
  destruct delivered as [cs Hrun].
  exact (proj2 (ingress_refines addr bob _ _ _ _ d [] _ eq_refl Hrun)).
Defined.

Lemma one_live_connection_witness :
  ∃ st : State, run istart st
    ∧ ∀ p p' c c' peer peer',
        in_conns st !! p = Some c → in_conns st !! p' = Some c' →
        in_heap st !! p = Some peer → in_heap st !! p' = Some peer' →
        pw_cancelled (cn_wrapper c) = false → pw_cancelled (cn_wrapper c') = false →
        peer_id peer = peer_id peer' → p = p'.
Proof.
  destruct delivered as [cs Hrun]. eexists. split; [exact Hrun|].
  exact (proj1 (one_live_connection addr bob _ _ _ _ d [] _ eq_refl Hrun)).
Defined.
End IngressWitness.
