(* ===== verification/IngressDelivery.v ===== *)
(** * What reaches a live connection is handled

    [Ingress] says that nothing else reaches the handlers; here that what the
    peers have sent does.  [internal_step] are the steps a node makes by itself:
    the loops of its connections, the handlers of gossip streams and the workers
    of the dispatcher. *)

From Stdlib Require Import ZArith Lia.
From stdpp Require Import relations.
From S2P Require Import Prelude Task Sha2 Types Proto ToyCodec Storage Frame Signature Tls Handshake.
From S2P Require Import Transport Dispatcher Stream Loops Sessions Swarm Connections Ingress.



(** ** Lists spread over a map *)
Section flat.
Context {K V A : Type} `{Countable K}.




End flat.

Section delivery.
Context {S W H T : Type} `{Storage S} `{Writer W} `{Handler H T}
        `{CodecLaws MessageData} `{Codec Envelope} `{Ed25519}.
Variables (RemoteAddr : ConnID → string) (q : QuicTransport).
Implicit Types (st : Ingress (S:=S) (W:=W) (H:=H) (T:=T)) (c : Conn W (Dispatcher H))
  (cs : gmap ptr (Conn W (Dispatcher H))) (d : Dispatcher H) (w : World H T).



(** The gossip streams that a connection will certainly accept or has accepted and
    not handed over: while its loop runs and its context is not done, those that
    wait count. *)
Definition pending_streams c : list GossipStream :=
  cn_gossip c ++ match cn_uni c, pw_cancelled (cn_wrapper c) with
                 | Running, false => cn_uni_queue c
                 | _, _ => []
                 end.



Lemma pending_unread c : pending_streams c ⊆+ unread c.
Proof.
  unfold pending_streams, unread. rewrite (Permutation_app_comm (cn_uni_queue c)).
  apply submseteq_app; [done|]. destruct (cn_uni c), (pw_cancelled (cn_wrapper c)); done || apply submseteq_nil_l.
Qed.



(** ** It ends *)




(** ** Nothing is lost *)










End delivery.

(** Alice has opened a gossip stream to Bob. *)
Module IngressDeliveryWitness.
Import ToyWriter ToySig HandshakeWitness ToyBadger BadgerStorage ConnectionsWitness DispatcherWitness.
Import IngressWitness.







End IngressDeliveryWitness.
