(* ===== verification/Gossip.v ===== *)
(** * Gossip: internal/p2p/gossip/manager.go

    A message is broadcast to the connected peers once per message identifier,
    with a hop limit.  The goroutines that [Broadcast] starts are recorded in
    [started], in order; each runs [Swarm.SendDataForPeer] with the message as
    it is then (the message is shared by pointer and only its [HopLimit]
    changes, before the first goroutine starts). *)

From Stdlib Require Import ZArith Lia.
From S2P Require Import Prelude Sha2 Types Proto ToyCodec Storage Frame Signature Handshake.
From S2P Require Import Dispatcher Stream Sessions Swarm.

#[export] Instance MessageID_eq_dec : EqDecision MessageID := array_eq_dec 16.
#[export] Instance MessageID_countable : Countable MessageID := array_countable 16.

(** A goroutine [SendDataForPeer(peerID, msgType, msgData)]. *)
Record Sending := mkSending {
  to_peer : PeerID;
  sending_type : MessageType;
  sending_msg : MessageData
}.

#[export] Instance Sending_eq_dec : EqDecision Sending.
Proof. unfold MessageType in *. solve_decision. Defined.

Record Manager := mkManager {
  seenCache : gset MessageID;
  started : list Sending
}.

Definition NewManager : Manager := mkManager ∅ [].

Section gossip.
Context {S : Type} `{Uuid}.
Implicit Types (s : Swarm S).

Definition go_send (x : Sending) : M Manager unit := λ g,
  (Ok (), mkManager (seenCache g) (started g ++ [x])).

(** [msgData.HopLimit--] on a [uint32]. *)
Definition decrement (msgData : MessageData) : MessageData :=
  set_HopLimit msgData (mk_uint 32 (uv (MessageData_HopLimit msgData) - 1)).

Fixpoint Broadcast_loop s (peers : list ptr) (msgType : MessageType) (msgData : MessageData) :
    M Manager unit :=
  match peers with
  | [] => mret ()
  | p :: peers =>
      match peer_heap s !! p with
      | None => lift (Panic PanicNil)
      | Some peer =>
          origin ← lift (to_array 32 (MessageData_OriginId msgData));
          if decide (peer_id peer = origin)
          then Broadcast_loop s peers msgType msgData
          else
            _ ← go_send (mkSending (peer_id peer) msgType msgData);
            Broadcast_loop s peers msgType msgData
      end
  end.

(** [order] is the order in which [GetAllPeers] iterates the table.  The result
    is the message as [Broadcast] leaves it. *)
Definition Broadcast s (order : list (PeerID * ptr)) (msgType : MessageType)
    (msgData : MessageData) : M Manager MessageData :=
  match ParseMessageID (MessageData_MessageId msgData) with
  | Err _ => mret msgData
  | Panic q => lift (Panic q)
  | Ok mesID =>
      g ← get_state;
      if decide (mesID ∈ seenCache g) then mret msgData
      else
        _ ← put_state (mkManager (seenCache g ∪ {[mesID]}) (started g));
        let msgData := decrement msgData in
        if decide (uv (MessageData_HopLimit msgData) <= 0)%Z then mret msgData
        else
          _ ← Broadcast_loop s (GetAllPeers order) msgType msgData;
          mret msgData
  end.

Definition HandleIncoming s (order : list (PeerID * ptr)) (msgType : MessageType)
    (msgData : MessageData) : M Manager MessageData :=
  match ParseMessageID (MessageData_MessageId msgData) with
  | Err _ => mret msgData
  | Panic q => lift (Panic q)
  | Ok mesID =>
      g ← get_state;
      if decide (mesID ∈ seenCache g) then mret msgData
      else Broadcast s order msgType msgData
  end.

(** ** Lemmas *)

(** The peers of a list that are not the origin, as far as the heap knows them. *)
Definition targets s (origin : PeerID) (peers : list ptr) : list PeerID :=
  filter (λ i, i ≠ origin) (omap (λ p, peer_id <$> peer_heap s !! p) peers).

Lemma Broadcast_loop_run s peers t m g origin :
  Forall (λ p, is_Some (peer_heap s !! p)) peers →
  to_array 32 (MessageData_OriginId m) = Ok origin →
  Broadcast_loop s peers t m g
  = (Ok (), mkManager (seenCache g)
              (started g ++ ((λ i, mkSending i t m) <$> targets s origin peers))).
Proof.
  intros Hp Ho. revert g. induction Hp as [|p peers [peer Hpeer] _ IH]; intros g.
  - simpl. rewrite app_nil_r. by destruct g.
  - cbn [Broadcast_loop]. rewrite Hpeer. run_M. rewrite Ho.
    unfold targets. cbn [omap list_omap]. rewrite Hpeer. cbn [fmap option_fmap option_map].
    destruct (decide (peer_id peer = origin)) as [->|Hne].
    + rewrite filter_cons_False by (by intros ?). apply IH.
    + rewrite filter_cons_True by done. unfold go_send. rewrite IH. simpl.
      by rewrite <- app_assoc.
Qed.

(** Whatever happens, a broadcast adds nothing, or - for a new identifier - the
    sends of one message with that identifier to peers of the iteration. *)
Lemma Broadcast_loop_started s peers t m g :
  ∃ l, (Broadcast_loop s peers t m g).2 = mkManager (seenCache g) (started g ++ l)
    ∧ Forall (λ x, sending_msg x = m ∧ sending_type x = t) l
    ∧ (to_peer <$> l) `sublist_of` omap (λ p, peer_id <$> peer_heap s !! p) peers.
Proof.
  revert g. induction peers as [|p peers IH]; intros g.
  { exists []. simpl. rewrite app_nil_r. by destruct g. }
  cbn [Broadcast_loop]. destruct (peer_heap s !! p) as [peer|] eqn:Ep.
  2: { exists []. simpl. rewrite app_nil_r, Ep. destruct g. split_and!; [done..|].
       apply sublist_nil_l. }
  run_M. cbn [omap list_omap]. rewrite Ep. cbn [fmap option_fmap option_map].
  destruct (to_array 32 _) as [origin|e|q].
  2, 3: exists []; simpl; rewrite app_nil_r; destruct g; split_and!; [done..|];
        apply sublist_nil_l.
  destruct (decide (peer_id peer = origin)).
  - destruct (IH g) as (l & E & Hl & Hs). exists l. split_and!; [done..|].
    by apply sublist_cons.
  - unfold go_send. set (g1 := mkManager _ _). destruct (IH g1) as (l & E & Hl & Hs).
    exists (mkSending (peer_id peer) t m :: l). rewrite E. subst g1. simpl.
    rewrite <- app_assoc. split_and!; [done| |by apply sublist_skip]. by constructor.
Qed.
End gossip.

Section gossip_properties.
Context {S : Type} `{UuidLaws}.
Implicit Types (s : Swarm S) (g : Manager).

(** The pointers of the iteration are peers of the heap ([sv_table]). *)
Definition iterates s (order : list (PeerID * ptr)) : Prop :=
  Forall (λ p, is_Some (peer_heap s !! p)) order.*2.

Definition ids s (order : list (PeerID * ptr)) : list PeerID :=
  omap (λ p, peer_id <$> peer_heap s !! p) order.*2.

(** C26. A broadcast of a new message: it is marked as seen, its hop limit goes
    down by one - in 32 bits: from 0 to 2^32 - 1 - and unless it becomes zero
    the message goes to every peer of the table whose identifier differs from
    [OriginId]; a message seen before is not sent again. *)
Theorem Broadcast_spec s order (t : MessageType) (m : MessageData) g
    (origin : array 32) (mid : MessageID)
    (Horder : iterates s order)
    (Hmid : MessageData_MessageId m = arr mid)
    (Horigin : to_array 32 (MessageData_OriginId m) = Ok origin) :
  let hops := uv (MessageData_HopLimit m) in
  let m' := set_HopLimit m (mk_uint 32 (if decide (hops = 0)%Z then 2 ^ 32 - 1 else hops - 1)) in
  Broadcast s order t m g
  = if decide (mid ∈ seenCache g) then (Ok m, g)
    else (Ok m', mkManager (seenCache g ∪ {[mid]})
            (started g ++ if decide (hops = 1)%Z then []
                          else (λ i, mkSending i t m')
                                 <$> filter (λ i, i ≠ origin) (ids s order))).
Proof.
  intros hops m'.
  unfold Broadcast. rewrite Hmid, ParseMessageID_16 by apply length_arr.
  rewrite pad_array_arr. run_M.
  destruct (decide (mid ∈ seenCache g)); [done|].
  pose proof (uint_range (MessageData_HopLimit m)) as Hr. fold hops in Hr.
  change (2 ^ 32)%Z with 4294967296%Z in *.
  assert (decrement m = m') as ->.
  { unfold decrement, m'. fold hops. f_equal. apply uint_eq. simpl.
    case_decide as E; [by rewrite E|done]. }
  assert (uv (MessageData_HopLimit m') <= 0 ↔ hops = 1)%Z as Hzero.
  { subst m'. cbn [set_HopLimit MessageData_HopLimit].
    case_decide; rewrite uv_mk by (change (2 ^ 32)%Z with 4294967296%Z; lia); lia. }
  case_decide as Hd.
  - rewrite decide_True by by apply Hzero. by rewrite app_nil_r.
  - rewrite decide_False by (intros ?; by apply Hd, Hzero).
    rewrite (Broadcast_loop_run s _ t m' _ origin); [done|exact Horder|exact Horigin].
Qed.

(** One call of the manager, with the swarm and the iteration it meets. *)
Record Call := mkCall {
  c_incoming : bool; c_swarm : Swarm S; c_order : list (PeerID * ptr);
  c_type : MessageType; c_msg : MessageData
}.
Definition run_call (g : Manager) (c : Call) : Manager :=
  ((if c_incoming c then HandleIncoming else Broadcast)
     (c_swarm c) (c_order c) (c_type c) (c_msg c) g).2.

Definition sent_to (x : Sending) : PeerID * bytes :=
  (to_peer x, MessageData_MessageId (sending_msg x)).

Record gossip_inv g : Prop := {
  gi_once : NoDup (sent_to <$> started g);
  gi_seen : ∀ x, x ∈ started g → ∃ mid,
    ParseMessageID (MessageData_MessageId (sending_msg x)) = Ok mid ∧ mid ∈ seenCache g
}.

Lemma Broadcast_inv s order t m g :
  NoDup (ids s order) → gossip_inv g → gossip_inv (Broadcast s order t m g).2.
Proof.
  intros Hids [Ho Hs]. unfold Broadcast.
  destruct (ParseMessageID (MessageData_MessageId m)) as [mid|e|q] eqn:Em; [|by split..].
  run_M.
  destruct (decide (mid ∈ seenCache g)) as [?|Hnew]; [by split|].
  set (g1 := mkManager _ _).
  assert (gossip_inv g1) as Hg1.
  { split; [done|]. intros x (i & Ei & Hi)%Hs. exists i. split; [done|].
    apply elem_of_union. by left. }
  case_decide; [done|].
  destruct (Broadcast_loop_started s (GetAllPeers order) t (decrement m) g1)
    as (l & E & Hl & Hsub).
  assert (gossip_inv (mkManager (seenCache g1) (started g1 ++ l))) as Hfin.
  { split; cbn [started seenCache].
    - rewrite fmap_app. apply NoDup_app. split; [done|]. split.
      + intros [i b] (x & Ex & Hx)%list_elem_of_fmap (y & Ey & Hy)%list_elem_of_fmap.
        destruct (Hs x Hx) as (mx & Hmx & Hin).
        rewrite Forall_forall in Hl. destruct (Hl y Hy) as [Hmy _].
        assert (MessageData_MessageId (sending_msg x) = MessageData_MessageId m) as Hxm.
        { injection Ex as _ ->. injection Ey as _ ->. by rewrite Hmy. }
        rewrite Hxm, Em in Hmx. by injection Hmx as <-.
      + apply (NoDup_fmap_1 fst). rewrite <- list_fmap_compose.
        by eapply sublist_NoDup; [exact Hids|].
    - intros x [Hx|Hx]%elem_of_app.
      + destruct (gi_seen _ Hg1 x Hx) as (i & ? & ?). eauto.
      + rewrite Forall_forall in Hl. destruct (Hl x Hx) as [-> _].
        exists mid. split; [done|]. apply elem_of_union. right. by apply elem_of_singleton. }
  rewrite <- E in Hfin. by destruct (Broadcast_loop _ _ _ _ _) as [[[]|e|q] g2].
Qed.

(** Flooding is bounded: over any sequence of broadcasts and incoming
    messages, whatever the peers connected at each, a peer is sent a message
    identifier at most once. *)
Theorem gossip_at_most_once (calls : list Call)
    (Hids : Forall (λ c, NoDup (ids (c_swarm c) (c_order c))) calls) :
  NoDup (sent_to <$> started (foldl run_call NewManager calls)).
Proof.
  assert (gossip_inv NewManager) as Hinit by (split; [constructor|by intros x ?%elem_of_nil]).
  apply gi_once. revert Hinit. generalize NewManager as g.
  induction Hids as [|c calls Hc _ IH]; intros g Hg; [done|].
  apply IH. unfold run_call. destruct (c_incoming c); [|by apply Broadcast_inv].
  unfold HandleIncoming. destruct (ParseMessageID _); [|done..].
  run_M. case_decide; [done|]. by apply Broadcast_inv.
Qed.

(** The message goes back to its origin: [OriginId] is a public key and
    identifiers are hashes, so the comparison that should spare the origin
    does not, when it is connected. *)
Theorem Broadcast_echoes_to_origin s order (t : MessageType) (m : MessageData) g
    (pub : PeerPublicKey) (mid : MessageID)
    (Horder : iterates s order)
    (Hmid : MessageData_MessageId m = arr mid) (Hnew : mid ∉ seenCache g)
    (Horigin : MessageData_OriginId m = arr pub)
    (Hconn : PeerPubKeyToID pub ∈ ids s order)
    (Hhash : PeerPubKeyToID pub ≠ pub) (Hhops : uv (MessageData_HopLimit m) ≠ 1%Z) :
  PeerPubKeyToID pub ∈ to_peer <$> started (Broadcast s order t m g).2.
Proof.
  unfold Broadcast. rewrite Hmid, ParseMessageID_16 by apply length_arr.
  rewrite pad_array_arr. run_M.
  rewrite decide_False by done.
  pose proof (uint_range (MessageData_HopLimit m)) as Hr.
  change (2 ^ 32)%Z with 4294967296%Z in *.
  rewrite decide_False.
  2: { unfold decrement. cbn [set_HopLimit MessageData_HopLimit uv mk_uint].
       destruct (decide (uv (MessageData_HopLimit m) = 0)%Z) as [->|]; [by vm_compute|].
       rewrite Z.mod_small by (change (2 ^ 32)%Z with 4294967296%Z; lia). lia. }
  rewrite (Broadcast_loop_run s _ t (decrement m) _ pub);
    [|exact Horder|simpl; by rewrite Horigin, to_array_arr].
  unfold mret, M_ret. cbn [snd started]. rewrite fmap_app, elem_of_app. right.
  rewrite <- list_fmap_compose. apply list_elem_of_fmap. exists (PeerPubKeyToID pub).
  split; [done|]. by apply list_elem_of_filter.
Qed.
End gossip_properties.

Module GossipWitness.
Import ToyUuid ToyBadger BadgerStorage SwarmWitness.

Definition order : list (PeerID * ptr) := [(id, 0)].
Definition mid : MessageID := pad_array 16 (str "message").
Definition message (hops : Z) : MessageData :=
  mkMessageData (arr mid) (arr key) [] (mk_uint 64 0) (mk_uint 32 hops) None.

Lemma order_iterates : iterates s1 order.
Proof. apply Forall_singleton. eexists. reflexivity. Qed.
Lemma order_ids : ids s1 order = [id].
Proof. reflexivity. Qed.
Lemma hash_is_not_key : PeerPubKeyToID key ≠ key.
Proof. intros E%(f_equal arr). vm_compute in E. discriminate. Qed.

(** A message that comes with hop limit 0 is forwarded with 2^32 - 1. *)
Lemma Broadcast_spec_witness :
  ∃ g, Broadcast s1 order TypeChatMessage (message 0) NewManager
       = (Ok (message (2 ^ 32 - 1)), g)
       ∧ (λ x, (to_peer x, uv (MessageData_HopLimit (sending_msg x)))) <$> started g
         = [(id, (2 ^ 32 - 1)%Z)].
Proof.
  assert (to_array 32 (MessageData_OriginId (message 0)) = Ok key) as Ho
    by apply to_array_arr.
  pose proof (Broadcast_spec s1 order TypeChatMessage (message 0) NewManager key mid
                order_iterates eq_refl Ho) as T.
  cbv zeta in T. rewrite decide_False in T by (apply not_elem_of_empty).
  eexists. split; [exact T|]. cbn [started NewManager app].
  rewrite decide_False by done. rewrite order_ids, filter_cons_True by apply hash_is_not_key.
  reflexivity.
Defined.

Lemma gossip_at_most_once_witness :
  NoDup (sent_to <$> started (foldl run_call NewManager
    [mkCall false s1 order TypeChatMessage (message 20);
     mkCall true s1 order TypeChatMessage (message 19)])).
Proof.
  apply gossip_at_most_once. apply Forall_cons_2; [|apply Forall_singleton];
    cbn [c_swarm c_order]; rewrite order_ids; apply NoDup_singleton.
Defined.

Lemma Broadcast_echoes_to_origin_witness :
  PeerPubKeyToID key
    ∈ to_peer <$> started (Broadcast s1 order TypeChatMessage (message 20) NewManager).2.
Proof.
  apply (Broadcast_echoes_to_origin s1 order TypeChatMessage (message 20) NewManager key mid).
  - exact order_iterates.
  - reflexivity.
  - apply not_elem_of_empty.
  - reflexivity.
  - rewrite order_ids. by apply list_elem_of_singleton.
  - exact hash_is_not_key.
  - done.
Defined.
End GossipWitness.
