(* ===== verification/GossipRuns.v ===== *)
(** * Concurrent calls of the gossip manager: manager.go with its lock

    [Broadcast] and [HandleIncoming] may run in any number of goroutines, while
    the swarm registers and removes peers.  The lock is held for the look at the
    cache of seen messages and for the test and mark of [Broadcast] only; the
    list of peers is a snapshot.  [gossip_step] interleaves these sections, and
    the iterations of the loops, one step each.  A slice too short for its array
    panics, which ends the process and has no successor state. *)

From Stdlib Require Import ZArith Lia.
From stdpp Require Import relations.
From S2P Require Import Prelude Sha2 Types Proto ToyCodec Storage Frame Signature Handshake.
From S2P Require Import Dispatcher Stream Sessions Swarm Gossip.

(** Where a call stands. *)
Inductive phase :=
  | Looking                        (* HandleIncoming, before RLock *)
  | Entering                       (* Broadcast, before Lock *)
  | Marked                         (* after Unlock *)
  | Looping (peers : list PeerID)  (* the identifiers of the peers still to visit *)
  | Returned.

Record GossipCall := mkGossipCall {
  gc_type : MessageType;
  gc_msg : MessageData;
  gc_phase : phase;
  (* history: whether it has marked its message, what GetAllPeers returned, whom
     it has started a transmission to *)
  gc_marked : bool;
  gc_snapshot : option (list PeerID);
  gc_sent : list PeerID
}.

Record GossipState (S : Type) := mkGossipState {
  gs_swarm : SwarmState (S:=S);
  gs_manager : Manager;
  gs_calls : list GossipCall
}.
Arguments mkGossipState {S} _ _ _.
Arguments gs_swarm {S} _.
Arguments gs_manager {S} _.
Arguments gs_calls {S} _.

Section gossip_runs.
Context {S : Type} `{Storage S} `{Uuid}.
Variable RemoteAddr : ConnID → string.

Definition gossip_call (incoming : bool) (t : MessageType) (m : MessageData) : GossipCall :=
  mkGossipCall t m (if incoming then Looking else Entering) false None [].

Definition set_phase (c : GossipCall) (ph : phase) : GossipCall :=
  mkGossipCall (gc_type c) (gc_msg c) ph (gc_marked c) (gc_snapshot c) (gc_sent c).
Definition mark (c : GossipCall) : GossipCall :=
  mkGossipCall (gc_type c) (gc_msg c) Marked true (gc_snapshot c) (gc_sent c).
Definition lower (c : GossipCall) (ph : phase) (snapshot : option (list PeerID)) : GossipCall :=
  mkGossipCall (gc_type c) (decrement (gc_msg c)) ph (gc_marked c) snapshot (gc_sent c).
Definition sends (c : GossipCall) (id : PeerID) (peers : list PeerID) : GossipCall :=
  mkGossipCall (gc_type c) (gc_msg c) (Looping peers) (gc_marked c) (gc_snapshot c) (gc_sent c ++ [id]).

Definition call_id (c : GossipCall) : res MessageID :=
  ParseMessageID (MessageData_MessageId (gc_msg c)).

(** One section of a call, in the swarm [s]. *)
Inductive call_section (s : Swarm S) : Manager → GossipCall → Manager → GossipCall → Prop :=
| gs_parse_error g c e :
    gc_phase c ∈ [Looking; Entering] → call_id c = Err e →
    call_section s g c g (set_phase c Returned)
| gs_look_seen g c id :
    gc_phase c = Looking → call_id c = Ok id → id ∈ seenCache g →
    call_section s g c g (set_phase c Returned)
| gs_look_new g c id :
    gc_phase c = Looking → call_id c = Ok id → id ∉ seenCache g →
    call_section s g c g (set_phase c Entering)
| gs_enter_seen g c id :
    gc_phase c = Entering → call_id c = Ok id → id ∈ seenCache g →
    call_section s g c g (set_phase c Returned)
| gs_mark g c id :
    gc_phase c = Entering → call_id c = Ok id → id ∉ seenCache g →
    call_section s g c (mkManager (seenCache g ∪ {[id]}) (started g)) (mark c)
| gs_last_hop g c :
    gc_phase c = Marked → (uv (MessageData_HopLimit (decrement (gc_msg c))) <= 0)%Z →
    call_section s g c g (lower c Returned None)
(* GetAllPeers: a range over the table, in any order *)
| gs_peers g c order :
    gc_phase c = Marked → ¬ (uv (MessageData_HopLimit (decrement (gc_msg c))) <= 0)%Z →
    order ≡ₚ map_to_list (activePeers s) →
    call_section s g c g (lower c (Looping (ids s order)) (Some (ids s order)))
| gs_skip g c id peers :
    gc_phase c = Looping (id :: peers) → to_array 32 (MessageData_OriginId (gc_msg c)) = Ok id →
    call_section s g c g (set_phase c (Looping peers))
| gs_go g c id origin peers :
    gc_phase c = Looping (id :: peers) → to_array 32 (MessageData_OriginId (gc_msg c)) = Ok origin →
    id ≠ origin →
    call_section s g c (mkManager (seenCache g) (started g ++ [mkSending id (gc_type c) (gc_msg c)]))
      (sends c id peers)
| gs_return g c :
    gc_phase c = Looping [] → call_section s g c g (set_phase c Returned).

Inductive gossip_step : GossipState S → GossipState S → Prop :=
(* somebody calls Broadcast or HandleIncoming *)
| gst_call ss g cs incoming t m :
    gossip_step (mkGossipState ss g cs) (mkGossipState ss g (cs ++ [gossip_call incoming t m]))
| gst_section ss g g' cs i c c' :
    cs !! i = Some c → call_section (ss_swarm ss) g c g' c' →
    gossip_step (mkGossipState ss g cs) (mkGossipState ss g' (<[i := c']> cs))
(* the other users of the swarm *)
| gst_swarm ss ss' g cs :
    swarm_step RemoteAddr ss ss' → gossip_step (mkGossipState ss g cs) (mkGossipState ss' g cs).

Definition gossip_start (self : PeerID) (k : PeerPrivateKey) (store : S) (n : Z) : GossipState S :=
  mkGossipState (mkSwarmState (NewSwarm self k store n) None) NewManager [].

(** ** What holds throughout *)

(** The peers of a snapshot that are not the origin of the message. *)
Definition spared (m : MessageData) (peers : list PeerID) : list PeerID :=
  match to_array 32 (MessageData_OriginId m) with
  | Ok origin => filter (λ i, i ≠ origin) peers
  | _ => []
  end.

Definition has_id (mid : MessageID) (x : Sending) : bool :=
  match ParseMessageID (MessageData_MessageId (sending_msg x)) with
  | Ok id => bool_decide (id = mid)
  | _ => false
  end.

(** The transmissions of a call: it is the only one that has any for its message. *)
Definition transmissions (c : GossipCall) : list Sending :=
  (λ p, mkSending p (gc_type c) (gc_msg c)) <$> gc_sent c.

(** A call by itself. *)
Record call_ok (c : GossipCall) : Prop := {
  ck_unmarked : gc_marked c = false → gc_sent c = [] ∧ gc_snapshot c = None
                ∧ (gc_phase c = Looking ∨ gc_phase c = Entering ∨ gc_phase c = Returned);
  ck_marked : gc_marked c = true → gc_phase c ≠ Looking ∧ gc_phase c ≠ Entering;
  ck_id : gc_marked c = true → ∃ id, call_id c = Ok id;
  ck_nodup : ∀ ps, gc_snapshot c = Some ps → NoDup ps;
  ck_fresh : gc_phase c = Marked → gc_sent c = [] ∧ gc_snapshot c = None;
  ck_looping : ∀ peers, gc_phase c = Looping peers →
    ∃ ps, gc_snapshot c = Some ps ∧ spared (gc_msg c) ps = gc_sent c ++ spared (gc_msg c) peers;
  ck_returned : gc_phase c = Returned →
    ∀ ps, gc_snapshot c = Some ps → spared (gc_msg c) ps = gc_sent c
}.

(** A snapshot lists the identifiers of the table. *)
Lemma snapshot_ids (ss : SwarmState (S:=S)) order :
  swarm_inv ss → order ≡ₚ map_to_list (activePeers (ss_swarm ss)) →
  ids (ss_swarm ss) order = order.*1 ∧ NoDup (ids (ss_swarm ss) order).
Proof.
  intros Hs Hp.
  assert (ids (ss_swarm ss) order = order.*1) as E.
  { assert (∀ x, x ∈ order → activePeers (ss_swarm ss) !! x.1 = Some x.2) as Hin.
    { intros [i p] Hx. rewrite Hp in Hx. by apply elem_of_map_to_list in Hx. }
    clear Hp. unfold ids. induction order as [|[i p] order IH]; [done|]. cbn.
    destruct (sv_table _ Hs i p (Hin (i, p) ltac:(left))) as (peer & -> & <-). cbn.
    rewrite IH; [done|]. intros x Hx. apply Hin. by right. }
  split; [done|]. rewrite E, Hp. apply NoDup_fst_map_to_list.
Qed.

Lemma spared_cons_skip m id peers :
  to_array 32 (MessageData_OriginId m) = Ok id → spared m (id :: peers) = spared m peers.
Proof. intros Ho. unfold spared. rewrite Ho, filter_cons_False; [done|]. by intros []. Qed.

Lemma spared_cons_go m origin id peers :
  to_array 32 (MessageData_OriginId m) = Ok origin → id ≠ origin →
  spared m (id :: peers) = id :: spared m peers.
Proof. intros Ho Hne. unfold spared. by rewrite Ho, filter_cons_True. Qed.

Lemma spared_nil m : spared m [] = [].
Proof. unfold spared. by destruct (to_array _ _). Qed.

Lemma spared_NoDup m ps : NoDup ps → NoDup (spared m ps).
Proof. intros Hn. unfold spared. destruct (to_array _ _); [by apply NoDup_filter|constructor..]. Qed.

Lemma call_ok_new incoming t m : call_ok (gossip_call incoming t m).
Proof. destruct incoming; split; cbn; try done; auto. Qed.

(** Before the mark nothing has happened; after it the call is known as marked. *)
Lemma call_ok_unmarked c : call_ok c → gc_phase c = Looking ∨ gc_phase c = Entering →
  gc_marked c = false ∧ gc_sent c = [] ∧ gc_snapshot c = None.
Proof.
  intros [Hu Hm _ _ _ _ _] Hp. destruct (gc_marked c).
  - destruct (Hm eq_refl) as [??]. by destruct Hp.
  - by destruct (Hu eq_refl) as (? & ? & _).
Qed.

Lemma call_ok_marked c : call_ok c →
  gc_phase c ≠ Looking → gc_phase c ≠ Entering → gc_phase c ≠ Returned → gc_marked c = true.
Proof.
  intros [Hu _ _ _ _ _ _] ???. destruct (gc_marked c); [done|].
  by destruct (Hu eq_refl) as (_ & _ & [?|[?|?]]).
Qed.

(** A call that ends, or goes on to [Broadcast], before the mark. *)
Lemma call_ok_early c ph : call_ok c → gc_phase c = Looking ∨ gc_phase c = Entering →
  ph = Returned ∨ ph = Entering → call_ok (set_phase c ph).
Proof.
  intros Hc Hp Hph. destruct (call_ok_unmarked c Hc Hp) as (E1 & E2 & E3).
  destruct Hph as [-> | ->]; split; cbn; rewrite ?E1, ?E2, ?E3; done || auto.
Qed.

(** Each section keeps its call in order. *)
Lemma section_ok (ss : SwarmState (S:=S)) g c g' c' :
  swarm_inv ss → call_section (ss_swarm ss) g c g' c' → call_ok c → call_ok c'.
Proof.
  intros Hs St Hc.
  destruct St as [g c e Hp _|g c id Hp _ _|g c id Hp _ _|g c id Hp _ _|g c id Hp Hid _|g c Hp _
                 |g c order Hp _ Ho|g c id peers Hp Hid|g c id origin peers Hp Hor Hne|g c Hp].
  - apply elem_of_cons in Hp as [?| ?%list_elem_of_singleton]; apply call_ok_early; auto.
  - apply call_ok_early; auto.
  - apply call_ok_early; auto.
  - apply call_ok_early; auto.
  - destruct (call_ok_unmarked c Hc) as (Em & E1 & E2); [by right|].
    split; cbn; rewrite ?E2; try done. intros _. by exists id.
  - pose proof (call_ok_marked c Hc) as Em. rewrite Hp in Em.
    split; cbn; rewrite ?Em by done; try done.
    intros _. by apply Hc, Em.
  - pose proof (call_ok_marked c Hc) as Em. rewrite Hp in Em.
    destruct (ck_fresh _ Hc Hp) as [E1 E2]. destruct (snapshot_ids ss order Hs Ho) as [_ Hnd].
    split; cbn; rewrite ?Em by done; try done;
      [intros _; by apply Hc, Em|by intros ps [= <-]|].
    intros peers [= <-]. eexists. split; [done|]. by rewrite E1.
  - pose proof (call_ok_marked c Hc) as Em. rewrite Hp in Em.
    destruct (ck_looping _ Hc _ Hp) as (ps & E1 & E2). rewrite (spared_cons_skip _ _ _ Hid) in E2.
    split; cbn; rewrite ?Em by done; try done;
      [intros _; by apply Hc, Em|by apply Hc|]. intros peers' [= <-]. eauto.
  - pose proof (call_ok_marked c Hc) as Em. rewrite Hp in Em.
    destruct (ck_looping _ Hc _ Hp) as (ps & E1 & E2). rewrite (spared_cons_go _ _ _ _ Hor Hne) in E2.
    split; cbn; rewrite ?Em by done; try done;
      [intros _; by apply Hc, Em|by apply Hc|]. intros peers' [= <-]. exists ps.
    split; [done|]. by rewrite <- app_assoc.
  - pose proof (call_ok_marked c Hc) as Em. rewrite Hp in Em.
    destruct (ck_looping _ Hc _ Hp) as (ps & E1 & E2). rewrite spared_nil, app_nil_r in E2.
    split; cbn; rewrite ?Em by done; try done;
      [intros _; by apply Hc, Em|by apply Hc|]. intros _ ps'. congruence.
Qed.

(** What a section does, seen from the other calls: nothing, a mark, or a
    transmission of a marked call. *)
Lemma section_kind s g c g' c' : call_section s g c g' c' → call_ok c →
  call_id c' = call_id c ∧
  ((g' = g ∧ gc_marked c' = gc_marked c
    ∧ (gc_marked c = true → transmissions c' = transmissions c))
   ∨ (∃ id, call_id c = Ok id ∧ (id ∉ seenCache g) ∧ c' = mark c
            ∧ g' = mkManager (seenCache g ∪ {[id]}) (started g) ∧ transmissions c' = [])
   ∨ (∃ id x, call_id c = Ok id ∧ gc_marked c = true ∧ gc_marked c' = true
              ∧ g' = mkManager (seenCache g) (started g ++ [x])
              ∧ sending_msg x = gc_msg c ∧ transmissions c' = transmissions c ++ [x]
              ∧ NoDup (to_peer <$> transmissions c'))).
Proof.
  intros St Hc.
  destruct St as [g c e Hp He|g c id Hp _ _|g c id Hp _ _|g c id Hp _ _|g c id Hp Hid Hnew|g c Hp _
                 |g c order Hp _ Ho|g c id peers Hp Hid|g c id origin peers Hp Hor Hne|g c Hp];
    (split; [done|]); try by left.
  - right. left. exists id. destruct (call_ok_unmarked c Hc) as (_ & E1 & _); [by right|].
    unfold transmissions. cbn. by rewrite E1.
  - left. split; [done|]. split; [done|]. destruct (ck_fresh _ Hc Hp) as [E1 _].
    unfold transmissions. cbn. by rewrite E1.
  - left. split; [done|]. split; [done|]. destruct (ck_fresh _ Hc Hp) as [E1 _].
    unfold transmissions. cbn. by rewrite E1.
  - right. right. pose proof (call_ok_marked c Hc) as Em. rewrite Hp in Em. specialize (Em ltac:(done) ltac:(done) ltac:(done)).
    destruct (ck_id _ Hc Em) as [mid Hmid]. exists mid, (mkSending id (gc_type c) (gc_msg c)).
    destruct (ck_looping _ Hc _ Hp) as (ps & E1 & E2). rewrite (spared_cons_go _ _ _ _ Hor Hne) in E2.
    split_and!; [done..|unfold transmissions; cbn; by rewrite fmap_app|].
    unfold transmissions. rewrite <- list_fmap_compose. cbn. rewrite list_fmap_id.
    pose proof (spared_NoDup (gc_msg c) ps (ck_nodup _ Hc _ E1)) as Hnd. rewrite E2 in Hnd.
    rewrite cons_middle, app_assoc in Hnd. by apply NoDup_app in Hnd as (? & _ & _).
Qed.

Lemma has_id_ok mid x b : sending_msg x = b → ParseMessageID (MessageData_MessageId b) = Ok mid →
  has_id mid x = true.
Proof. unfold has_id. intros -> ->. by apply bool_decide_eq_true. Qed.

Lemma has_id_inv mid x : has_id mid x = true →
  ParseMessageID (MessageData_MessageId (sending_msg x)) = Ok mid.
Proof. unfold has_id. destruct (ParseMessageID _); [|done..]. by intros ->%bool_decide_eq_true. Qed.

(** Where the calls of a state come from, when one of them is replaced. *)
Lemma lookup_update (cs : list GossipCall) i c c' j d :
  cs !! i = Some c → <[i := c']> cs !! j = Some d →
  (j = i ∧ d = c') ∨ (j ≠ i ∧ cs !! j = Some d).
Proof.
  intros Hi. destruct (decide (j = i)) as [->|Hne].
  - rewrite list_lookup_insert_eq by (by eapply lookup_lt_Some). intros [= ->]. by left.
  - rewrite list_lookup_insert_ne by done. by right.
Qed.

Definition parsed (x : Sending) : PeerID * res MessageID :=
  (to_peer x, ParseMessageID (MessageData_MessageId (sending_msg x))).

(** The part of the invariant that is about calls and manager. *)
Record calls_inv (g : Manager) (cs : list GossipCall) : Prop := {
  ci_calls : Forall call_ok cs;
  ci_seen : ∀ i c id, cs !! i = Some c → gc_marked c = true → call_id c = Ok id →
    id ∈ seenCache g;
  ci_unique : ∀ i j c c' id, cs !! i = Some c → cs !! j = Some c' →
    gc_marked c = true → gc_marked c' = true → call_id c = Ok id → call_id c' = Ok id → i = j;
  ci_sends : ∀ i c id, cs !! i = Some c → gc_marked c = true → call_id c = Ok id →
    filter (has_id id) (started g) = transmissions c;
  ci_started : ∀ x, x ∈ started g →
    ∃ i c id, cs !! i = Some c ∧ gc_marked c = true ∧ call_id c = Ok id
              ∧ ParseMessageID (MessageData_MessageId (sending_msg x)) = Ok id;
  ci_once : NoDup (parsed <$> started g)
}.

Lemma calls_quiet g cs i c c' :
  cs !! i = Some c → call_ok c' → call_id c' = call_id c → gc_marked c' = gc_marked c →
  (gc_marked c = true → transmissions c' = transmissions c) →
  calls_inv g cs → calls_inv g (<[i := c']> cs).
Proof.
  intros Hi Hok Eid Em Et [Hc Hs Hu Hsd Hst Ho].
  assert (∀ j d, <[i := c']> cs !! j = Some d → gc_marked d = true →
            ∃ d0, cs !! j = Some d0 ∧ gc_marked d0 = true ∧ call_id d = call_id d0
                  ∧ transmissions d = transmissions d0) as Hback.
  { intros j d [[-> ->]|[_ Hj]]%(lookup_update _ _ _ _ _ _ Hi) Hd; [|by exists d].
    exists c. rewrite Em in Hd. by auto. }
  split; [by apply Forall_insert| | | | |done].
  - intros j d id Hj Hd Hid. destruct (Hback j d Hj Hd) as (d0 & Hj0 & Hd0 & E & _).
    rewrite E in Hid. by eapply Hs.
  - intros j k d d' id Hj Hk Hd Hd' Hid Hid'.
    destruct (Hback j d Hj Hd) as (d0 & Hj0 & Hd0 & E & _).
    destruct (Hback k d' Hk Hd') as (d1 & Hk1 & Hd1 & E' & _).
    rewrite E in Hid. rewrite E' in Hid'. by eapply (Hu j k d0 d1).
  - intros j d id Hj Hd Hid. destruct (Hback j d Hj Hd) as (d0 & Hj0 & Hd0 & E & ->).
    rewrite E in Hid. by eapply Hsd.
  - intros x (j & d & id & Hj & Hd & Hid & Hx)%Hst. destruct (decide (j = i)) as [->|Hne].
    + exists i, c', id. rewrite list_lookup_insert_eq by (by eapply lookup_lt_Some).
      rewrite Hi in Hj. injection Hj as <-. rewrite Em, Eid. done.
    + exists j, d, id. by rewrite list_lookup_insert_ne.
Qed.

Lemma calls_mark g cs i c id :
  cs !! i = Some c → call_ok (mark c) → call_id c = Ok id → id ∉ seenCache g →
  transmissions (mark c) = [] → calls_inv g cs →
  calls_inv (mkManager (seenCache g ∪ {[id]}) (started g)) (<[i := mark c]> cs).
Proof.
  intros Hi Hok Eid Hnew Et [Hc Hs Hu Hsd Hst Ho].
  assert (∀ j d id', j ≠ i → cs !! j = Some d → gc_marked d = true → call_id d = Ok id' → id' ≠ id) as Hne.
  { intros j d id' _ Hj Hd Hid ->. by eapply Hnew, Hs. }
  split; cbn [seenCache started]; [by apply Forall_insert| | | | |done].
  - intros j d id' [[-> ->]|[_ Hj]]%(lookup_update _ _ _ _ _ _ Hi) Hd Hid; apply elem_of_union.
    + right. change (call_id c = Ok id') in Hid. apply elem_of_singleton. congruence.
    + left. by eapply Hs.
  - intros j k d d' id' [[-> ->]|[Hji Hj]]%(lookup_update _ _ _ _ _ _ Hi)
      [[-> ->]|[Hki Hk]]%(lookup_update _ _ _ _ _ _ Hi) Hd Hd' Hid Hid'; [done| | |by eapply Hu].
    + change (call_id c = Ok id') in Hid. by destruct (Hne k d' id' Hki Hk Hd' Hid'); congruence.
    + change (call_id c = Ok id') in Hid'. by destruct (Hne j d id' Hji Hj Hd Hid); congruence.
  - intros j d id' [[-> ->]|[Hji Hj]]%(lookup_update _ _ _ _ _ _ Hi) Hd Hid; [|by eapply Hsd].
    change (call_id c = Ok id') in Hid. assert (id' = id) as -> by congruence. rewrite Et.
    destruct (filter _ (started g)) as [|x l] eqn:Ef; [done|exfalso].
    assert (x ∈ filter (has_id id) (started g)) as Hx by (rewrite Ef; by left).
    apply list_elem_of_filter in Hx as [Hxid%Is_true_true Hx].
    destruct (Hst x Hx) as (k & d & id2 & Hk & Hd2 & Hid2 & Hp). apply has_id_inv in Hxid.
    assert (id2 = id) as -> by congruence. by eapply Hnew, Hs.
  - intros x (j & d & id' & Hj & Hd & Hid & Hx)%Hst. destruct (decide (j = i)) as [->|Hji].
    + exfalso. rewrite Hi in Hj. injection Hj as <-. assert (id' = id) as -> by congruence.
      by eapply Hnew, Hs.
    + exists j, d, id'. by rewrite list_lookup_insert_ne.
Qed.

Lemma calls_send g cs i c c' id x :
  cs !! i = Some c → call_ok c' → call_id c' = call_id c → call_id c = Ok id →
  gc_marked c = true → gc_marked c' = true → sending_msg x = gc_msg c →
  transmissions c' = transmissions c ++ [x] → NoDup (to_peer <$> transmissions c') →
  calls_inv g cs → calls_inv (mkManager (seenCache g) (started g ++ [x])) (<[i := c']> cs).
Proof.
  intros Hi Hok Eid Hid Hm Hm' Hx Et Hnd [Hc Hs Hu Hsd Hst Ho].
  assert (has_id id x = true) as Hxid by (by eapply has_id_ok).
  split; cbn [seenCache started]; [by apply Forall_insert| | | | |].
  - intros j d id' [[-> ->]|[_ Hj]]%(lookup_update _ _ _ _ _ _ Hi) Hd Hid'; [|by eapply Hs].
    rewrite Eid in Hid'. by eapply Hs.
  - intros j k d d' id' [[-> ->]|[Hji Hj]]%(lookup_update _ _ _ _ _ _ Hi)
      [[-> ->]|[Hki Hk]]%(lookup_update _ _ _ _ _ _ Hi) Hd Hd' Hj' Hk'; [done| | |by eapply Hu].
    + rewrite Eid in Hj'. by eapply (Hu i k c d').
    + rewrite Eid in Hk'. by eapply (Hu j i d c).
  - intros j d id' [[-> ->]|[Hji Hj]]%(lookup_update _ _ _ _ _ _ Hi) Hd Hid'; rewrite filter_app.
    + rewrite Eid in Hid'. assert (id' = id) as -> by congruence.
      rewrite (Hsd i c id Hi Hm Hid), Et. by rewrite filter_cons_True by (by rewrite Hxid).
    + rewrite (Hsd j d id' Hj Hd Hid'). rewrite filter_cons_False; [by rewrite app_nil_r|].
      intros Hx'%Is_true_true%has_id_inv. apply has_id_inv in Hxid.
      apply Hji. eapply (Hu j i d c id'); try done. congruence.
  - intros y [Hy| ->%list_elem_of_singleton]%elem_of_app.
    + destruct (Hst y Hy) as (j & d & id' & Hj & Hd & Hid' & Hp).
      destruct (decide (j = i)) as [->|Hji].
      * rewrite Hi in Hj. injection Hj as <-. exists i, c', id'.
        rewrite list_lookup_insert_eq by (by eapply lookup_lt_Some). by rewrite Eid.
      * exists j, d, id'. by rewrite list_lookup_insert_ne.
    + exists i, c', id. rewrite list_lookup_insert_eq by (by eapply lookup_lt_Some).
      rewrite Eid. split_and!; [done..|]. by apply has_id_inv.
  - rewrite fmap_app. apply NoDup_app. split; [done|]. split; [|apply NoDup_singleton].
    intros b (y & -> & Hy)%list_elem_of_fmap Hb. apply list_elem_of_singleton in Hb.
    injection Hb as Ep Ei. apply has_id_inv in Hxid. rewrite Hxid in Ei.
    assert (y ∈ transmissions c) as Hyt.
    { rewrite <- (Hsd i c id Hi Hm Hid). apply list_elem_of_filter. split; [|done].
      apply Is_true_true. by eapply has_id_ok. }
    rewrite Et, fmap_app in Hnd. apply NoDup_app in Hnd as (_ & Hd & _).
    apply (Hd (to_peer y)); [by apply list_elem_of_fmap_2|]. rewrite Ep. by left.
Qed.

Record gossip_run_inv (st : GossipState S) : Prop := {
  gr_swarm : swarm_inv (gs_swarm st);
  gr_calls : calls_inv (gs_manager st) (gs_calls st)
}.

Lemma calls_inv_nil : calls_inv NewManager [].
Proof.
  split; cbn [started NewManager]; try (intros *; rewrite lookup_nil; done); [constructor| |constructor].
  by intros x Hx%elem_of_nil.
Qed.

Lemma calls_new g cs incoming t m :
  calls_inv g cs → calls_inv g (cs ++ [gossip_call incoming t m]).
Proof.
  intros [Hc Hs Hu Hsd Hst Ho].
  assert (∀ j d, (cs ++ [gossip_call incoming t m]) !! j = Some d → gc_marked d = true → cs !! j = Some d)
    as Hold.
  { intros j d [Hj|[_ Hj]]%lookup_app_Some Hd; [done|].
    apply list_lookup_singleton_Some in Hj as [_ <-]. by destruct incoming. }
  split; [apply Forall_app; split; [done|constructor; [apply call_ok_new|done]]|eauto|eauto 7|eauto| |done].
  intros x (j & d & id & Hj & ?)%Hst. exists j, d, id. split; [|done]. by apply lookup_app_l_Some.
Qed.

Lemma gossip_step_inv st st' : gossip_step st st' → gossip_run_inv st → gossip_run_inv st'.
Proof.
  destruct 1 as [ss g cs incoming t m|ss g g' cs i c c' Hi St|ss ss' g cs St]; intros [Hs Hc];
    split; cbn [gs_swarm gs_manager gs_calls] in *; try done.
  - by apply calls_new.
  - assert (call_ok c) as Hok by (by eapply Forall_lookup_1; [apply Hc|]).
    pose proof (section_ok ss g c g' c' Hs St Hok) as Hok'.
    destruct (section_kind _ _ _ _ _ St Hok) as
      (Eid & [(-> & Em & Et)|[(id & Hid & Hnew & -> & -> & Et)|(id & x & Hid & Hm & Hm' & -> & Hx & Et & Hnd)]]).
    + by apply (calls_quiet g cs i c).
    + by apply calls_mark.
    + by eapply calls_send.
  - by eapply swarm_step_inv.
Qed.

(** ** A call that nobody interrupts is the function *)

Definition section_run (s : Swarm S) (x y : Manager * GossipCall) : Prop :=
  call_section s x.1 x.2 y.1 y.2.

Lemma sections_step ss g cs i c g' c' :
  cs !! i = Some c → rtc (section_run (ss_swarm ss)) (g, c) (g', c') →
  rtc gossip_step (mkGossipState ss g cs) (mkGossipState ss g' (<[i := c']> cs)).
Proof.
  intros Hi Hrun. remember (g, c) as x eqn:Ex. remember (g', c') as y eqn:Ey.
  revert g c cs Ex Hi. induction Hrun as [x|x [g1 c1] y St _ IH]; intros g c cs -> Hi.
  - injection Ey as -> ->. by rewrite list_insert_id.
  - eapply rtc_l; [by eapply (gst_section ss g g1 cs i c c1)|].
    rewrite <- (list_insert_insert_eq cs i c' c1). apply (IH Ey g1 c1); [done|].
    apply list_lookup_insert_eq. by eapply lookup_lt_Some.
Qed.

Lemma loop_alone s (peers : list ptr) g c u g' :
  Forall (λ p, is_Some (peer_heap s !! p)) peers →
  gc_phase c = Looping (omap (λ p, peer_id <$> peer_heap s !! p) peers) →
  Broadcast_loop s peers (gc_type c) (gc_msg c) g = (Ok u, g') →
  ∃ c', gc_phase c' = Looping [] ∧ gc_msg c' = gc_msg c ∧ rtc (section_run s) (g, c) (g', c').
Proof.
  intros Hp. revert g c. induction Hp as [|p peers [peer Hpeer] _ IH]; intros g c Hph Hrun.
  - injection Hrun as _ <-. by exists c.
  - cbn [omap list_omap] in Hph. rewrite Hpeer in Hph. cbn [fmap option_fmap option_map] in Hph.
    cbn [Broadcast_loop] in Hrun. rewrite Hpeer in Hrun. revert Hrun. run_M.
    destruct (to_array 32 _) as [origin|e|q] eqn:Eo; [|done..].
    destruct (decide (peer_id peer = origin)) as [E|Hne]; intros Hrun.
    + destruct (IH g (set_phase c (Looping (omap (λ p, peer_id <$> peer_heap s !! p) peers))) eq_refl Hrun)
        as (c' & H1 & H2 & H3). exists c'. split_and!; [done..|]. eapply rtc_l; [|exact H3].
      eapply gs_skip; [exact Hph|]. by rewrite E.
    + unfold go_send in Hrun.
      destruct (IH _ (sends c (peer_id peer) (omap (λ p, peer_id <$> peer_heap s !! p) peers)) eq_refl Hrun)
        as (c' & H1 & H2 & H3). exists c'. split_and!; [done..|]. eapply rtc_l; [|exact H3].
      by eapply gs_go.
Qed.

(** A broadcast that nobody interrupts does what the function [Broadcast] does. *)
Lemma broadcast_alone ss g cs i t m order m' g' :
  swarm_inv ss → order ≡ₚ map_to_list (activePeers (ss_swarm ss)) →
  cs !! i = Some (gossip_call false t m) →
  Broadcast (ss_swarm ss) order t m g = (Ok m', g') →
  ∃ c, gc_phase c = Returned ∧ gc_msg c = m'
       ∧ rtc gossip_step (mkGossipState ss g cs) (mkGossipState ss g' (<[i := c]> cs)).
Proof.
  intros Hs Ho Hi Hb. set (c0 := gossip_call false t m) in *. set (s := ss_swarm ss) in *.
  assert (∃ c, gc_phase c = Returned ∧ gc_msg c = m' ∧ rtc (section_run s) (g, c0) (g', c))
    as (c & H1 & H2 & H3); [|exists c; split_and!; [done..|by eapply sections_step]].
  unfold Broadcast in Hb. destruct (ParseMessageID (MessageData_MessageId m)) as [id|e|q] eqn:Em; [| |done].
  2:{ injection Hb as <- <-. exists (set_phase c0 Returned). split_and!; [done..|].
      apply rtc_once. eapply gs_parse_error; [by right; left|exact Em]. }
  revert Hb. run_M. destruct (decide (id ∈ seenCache g)) as [Hin|Hnew].
  { intros [= <- <-]. exists (set_phase c0 Returned). split_and!; [done..|].
    apply rtc_once. by eapply gs_enter_seen. }
  set (g1 := mkManager _ _). case_decide as Hz.
  { intros [= <- <-]. exists (lower (mark c0) Returned None). split_and!; [done..|].
    apply (rtc_l _ _ (g1, mark c0)); [by apply (gs_mark s g c0 id)|].
    apply rtc_once. by apply (gs_last_hop s g1 (mark c0)). }
  destruct (Broadcast_loop _ _ _ _ _) as [[u|e|q] g2] eqn:El; [|done..]. intros [= <- <-].
  set (c1 := lower (mark c0) (Looping (ids s order)) (Some (ids s order))).
  destruct (loop_alone s (GetAllPeers order) g1 c1 u g2) as (c' & H1 & H2 & H3); [|done|exact El|].
  { apply Forall_forall. intros p Hp. apply list_elem_of_fmap in Hp as ([j p'] & -> & Hp).
    rewrite Ho in Hp. apply elem_of_map_to_list in Hp.
    destruct (sv_table _ Hs j p' Hp) as (peer & Hpeer & _). by exists peer. }
  exists (set_phase c' Returned). split_and!; [done..|].
  apply (rtc_l _ _ (g1, mark c0)); [by apply (gs_mark s g c0 id)|].
  apply (rtc_l _ _ (g1, c1)); [by apply (gs_peers s g1 (mark c0) order)|].
  eapply rtc_r; [exact H3|]. by apply gs_return.
Qed.

(** ** Properties *)

(** C25. Flooding is bounded under concurrency: however any number of calls of
    [Broadcast] and [HandleIncoming] interleave with each other and with the
    registration, removal and banning of peers, a peer is sent a message
    identifier at most once; and when a call that has listed the peers returns,
    the transmissions of its identifier are its own, one to each peer of the list
    but the origin, in that order - no other call has any. *)
Theorem gossip_once_concurrently (self : PeerID) (k : PeerPrivateKey) (store : S) (n : Z)
    (st : GossipState S) (Hrun : rtc gossip_step (gossip_start self k store n) st) :
  NoDup (parsed <$> started (gs_manager st))
  ∧ ∀ i c ps id, gs_calls st !! i = Some c → gc_phase c = Returned → gc_snapshot c = Some ps →
      call_id c = Ok id →
      filter (has_id id) (started (gs_manager st))
      = (λ p, mkSending p (gc_type c) (gc_msg c)) <$> spared (gc_msg c) ps.
Proof.
  assert (gossip_run_inv st) as [_ [Hc _ _ Hsd _ Ho]].
  { apply (rtc_ind_inv gossip_step gossip_run_inv (gossip_start self k store n) st);
      [apply gossip_step_inv|exact Hrun|].
    split; [apply NewSwarm_inv|apply calls_inv_nil]. }
  split; [exact Ho|]. intros i c ps id Hi Hp Hps Hid.
  assert (call_ok c) as Hok by by eapply Forall_lookup_1.
  rewrite (ck_returned _ Hok Hp ps Hps). apply (Hsd i c id Hi); [|done].
  destruct (gc_marked c) eqn:Em; [done|]. destruct (ck_unmarked _ Hok Em) as (_ & ? & _). congruence.
Qed.
End gossip_runs.

(** A message comes in while it is broadcast: one of the two calls sends it. *)
Module GossipRunsWitness.
Import ToySig ToyUuid ToyBadger BadgerStorage SwarmWitness GossipWitness.

Definition T : MessageType := TypeChatMessage.
Definition ss1 : SwarmState := mkSwarmState s1 None.
Definition a0 : GossipCall := gossip_call true T (message 19).
Definition a1 : GossipCall := set_phase a0 Entering.
Definition a2 : GossipCall := set_phase a1 Returned.
Definition b0 : GossipCall := gossip_call false T (message 20).
Definition b1 : GossipCall := mark b0.
Definition b2 : GossipCall := lower b1 (Looping [id]) (Some [id]).
Definition b3 : GossipCall := sends b2 id [].
Definition b4 : GossipCall := set_phase b3 Returned.
Definition g1 : Manager := mkManager (seenCache NewManager ∪ {[mid]}) [].
Definition g2 : Manager := mkManager (seenCache g1) [mkSending id T (decrement (message 20))].
Definition final : GossipState store := mkGossipState ss1 g2 [a2; b4].

Lemma id_a : call_id a0 = Ok mid.
Proof. vm_compute. reflexivity. Qed.
Lemma id_b : call_id b0 = Ok mid.
Proof. vm_compute. reflexivity. Qed.
Lemma mid_seen : mid ∈ seenCache g1.
Proof. apply elem_of_union. right. by apply elem_of_singleton. Qed.
Lemma hops_left : ¬ (uv (MessageData_HopLimit (decrement (gc_msg b1))) <= 0)%Z.
Proof. intros Hz. apply Z.leb_le in Hz. vm_compute in Hz. discriminate. Qed.
Lemma origin_b : to_array 32 (MessageData_OriginId (gc_msg b2)) = Ok key.
Proof. apply to_array_arr. Qed.

Lemma id_is_not_key : id ≠ key.
Proof. exact hash_is_not_key. Qed.

Lemma final_reached :
  rtc (gossip_step addr)
    (gossip_start (zero_array 32) (NewKeyFromSeed (zero_array 32)) (∅ : store) 100) final.
Proof.
  eapply rtc_l; [apply (gst_swarm addr _ (mkSwarmState (new 1 s0).1 (Some (id, 0))));
                 apply (sw_add_new addr s0 (event 1)); reflexivity|].
  eapply rtc_l; [apply (gst_swarm addr _ ss1); apply (sw_add_table addr (new 1 s0).1 id 0)|].
  eapply rtc_l; [apply (gst_call addr ss1 NewManager [] true T (message 19))|].
  eapply rtc_l; [apply (gst_call addr ss1 NewManager [a0] false T (message 20))|].
  eapply rtc_l; [apply (gst_section addr ss1 NewManager NewManager [a0; b0] 0 a0 a1 eq_refl);
                 apply (gs_look_new s1 NewManager a0 mid eq_refl id_a), not_elem_of_empty|].
  eapply rtc_l; [apply (gst_section addr ss1 NewManager g1 [a1; b0] 1 b0 b1 eq_refl);
                 apply (gs_mark s1 NewManager b0 mid eq_refl id_b), not_elem_of_empty|].
  eapply rtc_l; [apply (gst_section addr ss1 g1 g1 [a1; b1] 0 a1 a2 eq_refl);
                 apply (gs_enter_seen s1 g1 a1 mid eq_refl id_a), mid_seen|].
  eapply rtc_l; [apply (gst_section addr ss1 g1 g1 [a2; b1] 1 b1 b2 eq_refl);
                 apply (gs_peers s1 g1 b1 order eq_refl hops_left); reflexivity|].
  eapply rtc_l; [apply (gst_section addr ss1 g1 g2 [a2; b2] 1 b2 b3 eq_refl);
                 apply (gs_go s1 g1 b2 id key [] eq_refl origin_b id_is_not_key)|].
  apply rtc_once. apply (gst_section addr ss1 g2 g2 [a2; b3] 1 b3 b4 eq_refl).
  apply (gs_return s1 g2 b3 eq_refl).
Qed.

Lemma gossip_once_concurrently_witness :
  filter (has_id mid) (started g2) = [mkSending id T (decrement (message 20))].
Proof.
  destruct (gossip_once_concurrently addr _ _ _ _ final final_reached) as [_ Hc].
  etransitivity; [exact (Hc 1 b4 [id] mid eq_refl eq_refl eq_refl id_b)|].
  unfold spared. change (gc_msg b4) with (gc_msg b2). rewrite origin_b.
  rewrite filter_cons_True by exact id_is_not_key. reflexivity.
Defined.
End GossipRunsWitness.
