(* ===== verification/Messenger.v ===== *)
(** * The messenger: internal/services/messenger/service.go

    Chat messages: [Send] encrypts for the recipient and broadcasts, [Handle]
    decrypts what the dispatcher routes to it and logs the text. *)

From Stdlib Require Import ZArith Lia.
From S2P Require Import Prelude Task Sha2 Types Proto ToyCodec Frame Signature Engine.
From S2P Require Import Dispatcher Stream Sessions Swarm Gossip.

Record MessageService := mkMessageService {
  cryptoEngine : Engine;
  ms_myPrivKey : PeerPrivateKey
}.

Definition NewMessageService (myPrivKey : PeerPrivateKey) (cryptoEngine : Engine) :
    MessageService := mkMessageService cryptoEngine myPrivKey.

(** A line of the log: ["Decrypted data: "] with the text, or an error. *)
Abbreviation LogLine := (bytes + gerror)%type.

Section messenger.
Context `{EngineLib} `{Uuid}.

Definition log_Println (l : LogLine) : M (list LogLine) unit := λ log, (Ok (), log ++ [l]).

Definition Messenger_Handle (s : MessageService) (msg : MessageData) (peerID : PeerID) :
    M (list LogLine) unit :=
  match MessageData_Payload msg with
  | Some (MessageData_ChatMessage c) =>
      let encryptedPayload := ChatMessage_EncryptedPayload c in
      pubKey ← lift (to_array 32 (MessageData_OriginId msg));
      match Decrypt (cryptoEngine s) encryptedPayload pubKey with
      | Err err => log_Println (inr err)
      | Panic q => lift (Panic q)
      | Ok data => log_Println (inl data)
      end
  | _ => lift (Panic PanicType)
  end.

(** The same access by access: the line is printed under the mutex of [log], the
    rest is private. *)
Definition log_Println_task (l : LogLine) : task (list LogLine) :=
  Access (λ log, log ++ [l]) (λ _, Ends (Ok ())).

Definition Messenger_Handle_task (s : MessageService) (msg : MessageData) (peerID : PeerID) :
    task (list LogLine) :=
  match MessageData_Payload msg with
  | Some (MessageData_ChatMessage c) =>
      match to_array 32 (MessageData_OriginId msg) with
      | Panic q => Ends (Panic q)
      | Err err => Ends (Err err)
      | Ok pubKey =>
          match Decrypt (cryptoEngine s) (ChatMessage_EncryptedPayload c) pubKey with
          | Err err => log_Println_task (inr err)
          | Panic q => Ends (Panic q)
          | Ok data => log_Println_task (inl data)
          end
      end
  | _ => Ends (Panic PanicType)
  end.

Lemma run_Messenger_Handle_task s msg peerID log :
  run_task (Messenger_Handle_task s msg peerID) log = Messenger_Handle s msg peerID log.
Proof.
  unfold Messenger_Handle_task, Messenger_Handle, mbind, M_bind, lift.
  destruct (MessageData_Payload msg) as [[]|]; try done.
  destruct (to_array _ _) as [pk|e|q]; try done. by destruct (Decrypt _ _ _).
Qed.

Lemma Messenger_Handle_once s msg peerID : at_most_once (Messenger_Handle_task s msg peerID).
Proof.
  unfold Messenger_Handle_task. destruct (MessageData_Payload msg) as [[]|]; try done.
  destruct (to_array _ _) as [pk|e|q]; try done. by destruct (Decrypt _ _ _).
Qed.

(** [id] is [uuid.New()], [now] the time. *)
Definition PackChatMessage (id : MessageID) (now : uint 64) (encryptedPayload from to : bytes) :
    MessageData :=
  mkMessageData (arr id) from to now (mk_uint 32 20)
    (Some (MessageData_ChatMessage (mkChatMessage encryptedPayload))).

Definition Messenger_Send {S} (s : MessageService) (sw : Swarm S) (order : list (PeerID * ptr))
    (rnd : array gcm_NonceSize + gerror) (id : MessageID) (now : uint 64)
    (toPeerPubKey : PeerPublicKey) (data : bytes) : M Manager unit :=
  encryptData ← lift (Encrypt (cryptoEngine s) rnd data toPeerPubKey);
  let pubKey := PeerPrivateKeyToPublic (ms_myPrivKey s) in
  let chatMessage := PackChatMessage id now encryptData (arr pubKey) (arr toPeerPubKey) in
  _ ← Broadcast sw order TypeChatMessage chatMessage;
  mret ().
End messenger.

Definition Messenger_GetSubscribedTypes : list (option PayloadType) := [Some T_ChatMessage].

(** ** Properties *)

Lemma Messenger_Handle_cases `{EngineLib} s msg c peerID log :
  MessageData_Payload msg = Some (MessageData_ChatMessage c) →
  (∃ n, n < 32 ∧ Messenger_Handle s msg peerID log = (Panic (PanicConvert n 32), log))
  ∨ ∃ line, Messenger_Handle s msg peerID log = (Ok (), log ++ [line]).
Proof.
  intros Hmsg. unfold Messenger_Handle, mbind, M_bind, lift. rewrite Hmsg.
  destruct (decide (length (MessageData_OriginId msg) < 32)) as [Hn|Hn].
  - left. rewrite to_array_short by done. eauto.
  - right. destruct (to_array_long 32 (MessageData_OriginId msg)) as (pk & -> & _); [lia|].
    pose proof (Decrypt_no_panic (cryptoEngine s) (ChatMessage_EncryptedPayload c) pk) as Hp.
    destruct (Decrypt _ _ _); [by eexists..|done].
Qed.

(** A chat message whose [OriginId] has fewer than 32 bytes ends the
    receiving process, whoever signed its envelope: the conversion panics before
    anything is decrypted.  Every other chat message is logged, as text or as an
    error, and nothing else happens. *)
Theorem Messenger_Handle_total `{EngineLib} (s : MessageService) (msg : MessageData)
    (c : ChatMessage) (peerID : PeerID) (log : list LogLine)
    (Hmsg : MessageData_Payload msg = Some (MessageData_ChatMessage c)) :
  let n := length (MessageData_OriginId msg) in
  (n < 32 → Messenger_Handle s msg peerID log = (Panic (PanicConvert n 32), log))
  ∧ (32 <= n → ∃ line, Messenger_Handle s msg peerID log = (Ok (), log ++ [line])).
Proof.
  intros n. unfold Messenger_Handle, mbind, M_bind, lift. rewrite Hmsg. split; intros Hn.
  - by rewrite to_array_short.
  - destruct (to_array_long 32 (MessageData_OriginId msg) Hn) as (pk & -> & _).
    pose proof (Decrypt_no_panic (cryptoEngine s) (ChatMessage_EncryptedPayload c) pk) as Hp.
    destruct (Decrypt _ _ _); [by eexists..|done].
Qed.

(** What [Send] starts: the encrypted message, with 19 hops left, to the peers of
    the table. *)
Lemma Messenger_Send_started {S} `{EngineLib, UuidLaws} (s : MessageService) (sw : Swarm S)
    order rnd id now to data (g g' : Manager) :
  iterates sw order → id ∉ seenCache g →
  Messenger_Send s sw order rnd id now to data g = (Ok (), g') →
  ∃ ct, Encrypt (cryptoEngine s) rnd data to = Ok ct ∧
    let pub := PeerPrivateKeyToPublic (ms_myPrivKey s) in
    let m := set_HopLimit (PackChatMessage id now ct (arr pub) (arr to)) (mk_uint 32 19) in
    started g' = started g ++ ((λ i, mkSending i TypeChatMessage m)
                                 <$> filter (λ i, i ≠ pub) (ids sw order)).
Proof.
  intros Hit Hnew. unfold Messenger_Send, mbind, M_bind, lift.
  destruct (Encrypt _ _ _ _) as [ct|e|q]; [|done..]. intros Hrun. exists ct. split; [done|].
  set (pub := PeerPrivateKeyToPublic (ms_myPrivKey s)) in *. cbv zeta in *.
  set (m0 := PackChatMessage id now ct (arr pub) (arr to)) in *.
  unfold Broadcast in Hrun. unfold mbind, M_bind, get_state, put_state in Hrun.
  rewrite ParseMessageID_16 in Hrun by apply length_arr.
  cbn [m0 PackChatMessage MessageData_MessageId] in Hrun. rewrite pad_array_arr in Hrun.
  rewrite decide_False in Hrun by done.
  assert (decrement m0 = set_HopLimit m0 (mk_uint 32 19)) as E by (by vm_compute).
  rewrite E in Hrun. rewrite decide_False in Hrun by (vm_compute; congruence).
  rewrite (Broadcast_loop_run sw _ TypeChatMessage (set_HopLimit m0 (mk_uint 32 19)) _ pub) in Hrun;
    [|exact Hit|apply to_array_arr].
  injection Hrun as <-. done.
Qed.

(** An identifier that was seen: nothing is started. *)
Lemma Messenger_Send_seen {S} `{EngineLib, UuidLaws} (s : MessageService) (sw : Swarm S)
    order rnd id now to data (g g' : Manager) :
  id ∈ seenCache g → Messenger_Send s sw order rnd id now to data g = (Ok (), g') → g' = g.
Proof.
  intros Hs. unfold Messenger_Send, mbind, M_bind, lift.
  destruct (Encrypt _ _ _ _) as [ct|e|q]; [|done..]. unfold Broadcast.
  cbn [PackChatMessage MessageData_MessageId].
  rewrite ParseMessageID_16 by apply length_arr. rewrite pad_array_arr. run_M.
  rewrite decide_True by done. by intros [= <-].
Qed.

Module MessengerWitness.
Import ToyEngine.
Definition svc : MessageService := mkMessageService (EngineWitness.engine_of bob) bob.
Definition short_origin : MessageData :=
  PackChatMessage (zero_array 16) (mk_uint 64 0) [] (str "short") [].

Lemma Messenger_Handle_total_witness :
  Messenger_Handle svc short_origin (zero_array 32) [] = (Panic (PanicConvert 5 32), []).
Proof.
  refine (proj1 (Messenger_Handle_total svc short_origin (mkChatMessage []) (zero_array 32) [] _) _).
  - reflexivity.
  - apply Nat.ltb_lt. reflexivity.
Defined.
End MessengerWitness.
