(* ===== verification/Services.v ===== *)
(** * Services that are not written yet: internal/services/content, kademlia

    Both services exist as types with their constructors; their methods are
    [panic("implement me")] and no part of the program uses them. *)

From Stdlib Require Import ZArith Lia.
From S2P Require Import Prelude Task Sha2 Types Proto ToyCodec Storage Frame Signature Handshake.
From S2P Require Import Dispatcher Stream Sessions Swarm MerkleDag RoutingTable Dht.

(** ** content/service.go *)

(** The pointers to the swarm and to the DHT may be nil; the storage is the state
    that the swarm holds. *)
Record ContentService (S : Type) := mkContentService {
  cs_swarm : option (Swarm S);
  cs_dht : option DHT
}.
Arguments mkContentService {S} _ _.
Arguments cs_swarm {S} _.
Arguments cs_dht {S} _.

Section content.
Context {S T : Type}.

Definition NewContentService (swarm : option (Swarm S)) (dht : option DHT) : ContentService S :=
  mkContentService swarm dht.

Definition Content_GetSubscribedTypes (c : ContentService S) : res (list (option PayloadType)) :=
  Panic (PanicText "implement me").

Definition Content_Handle (c : ContentService S) (msg : MessageData) (peerID : PeerPublicKey) :
    M T unit := lift (Panic (PanicText "implement me")).

(** It looks at the session manager and does nothing with it. *)
Definition DownloadFile (c : ContentService S) (fileHash : ContentHash) (peerID : PeerPublicKey) :
    M T unit :=
  match cs_swarm c with
  | None => lift (Panic PanicNil)
  | Some swarm => let _ := GetSessionManager swarm in mret ()
  end.
End content.

(** ** kademlia/service.go *)
Record KademliaService := mkKademliaService { ks_db : option unit }.

(** The storage stays nil. *)
Definition NewKademliaService : KademliaService := mkKademliaService None.

Definition Kademlia_GetSubscribedTypes (k : KademliaService) : res (list (option PayloadType)) :=
  Panic (PanicText "implement me").

Definition Kademlia_Handle {T} (k : KademliaService) (msg : MessageData) (peerID : PeerID) :
    M T unit := lift (Panic (PanicText "implement me")).

#[export] Instance kademlia_handler {T} : Handler KademliaService T.
Proof.
  refine {| Handle := Kademlia_Handle;
            Handle_task _ _ _ := Ends (Panic (PanicText "implement me")) |}.
  reflexivity.
Defined.

(** Registered by hand, the Kademlia service ends the process at the first
    correctly signed message of its type. *)
Lemma kademlia_handler_panics {T} `{CodecLaws MessageData} `{Ed25519}
    (d : Dispatcher KademliaService) k t pk data sig m id (s : T) :
  reflect_TypeOf (MessageData_Payload m) = t →
  VerifySignature pk data sig = true → unmarshal data = inl m →
  processPacket (Registry d t k) (mkIngressPacket (mkEnvelope data sig (arr pk)) id) s
  = (Panic (PanicText "implement me"), s).
Proof.
  intros <- V U. rewrite (processPacket_signed _ pk data sig m id s V U).
  unfold route, Registry. cbn [handlers]. by rewrite lookup_insert_eq.
Qed.
