(* ===== verification/Discovery.v ===== *)
(** * Discovery: internal/services/discovery/service.go

    Peers ask each other for addresses: a [PeerReq] is meant to be answered by
    the giver with a [PeerRes]. *)

From Stdlib Require Import ZArith Lia.
From S2P Require Import Prelude Task Sha2 Types Proto ToyCodec Storage Frame Signature.
From S2P Require Import Handshake Dispatcher Stream Sessions Swarm Gossip.

(** The service; its storage, gossip manager and swarm are the arguments and the
    state of the operations, and the getter and the giver only refer to it. *)
Record DiscoveryService := mkDiscoveryService { ds_myPubKey : PeerPublicKey }.

Definition NewDiscoveryService (myPubKey : PeerPublicKey) : DiscoveryService :=
  mkDiscoveryService myPubKey.

Record peerGetter := mkPeerGetter { getter_service : DiscoveryService }.
Record peerGiver := mkPeerGiver { giver_service : DiscoveryService }.
Definition newPeerGetter (service : DiscoveryService) : peerGetter := mkPeerGetter service.
Definition newPeerGiver (service : DiscoveryService) : peerGiver := mkPeerGiver service.

Section discovery.
Context {S W : Type} `{Uuid} `{Writer W} `{Codec MessageData} `{Codec Envelope} `{Ed25519}.
Implicit Types (sw : Swarm S).

(** What a call may change: the gossip manager and the stream of one
    [SendDataForPeer]. *)
Abbreviation DState := (Manager * W)%type.

Definition peerGetter_Handle (msg : MessageData) (peerID : PeerID) : M DState unit := mret ().

(** The entry that [peerGiver] sends for a peer. *)
Definition peer_info (p : Peer) : PeerInfo := mkPeerInfo (arr (peer_pubKey p)) (peer_addr p).

(** [mesID] is [uuid.New()]; [opened] and [closed] are the results of the QUIC
    calls of [SendDataForPeer]. *)
Definition peerGiver_Handle sw (order : list (PeerID * ptr)) (myPubKey : PeerPublicKey)
    (mesID : MessageID) (now : uint 64) (opened closed : unit + gerror) (msg : MessageData)
    (peerID : PeerID) : M DState unit :=
  match MessageData_Payload msg with
  | Some (MessageData_PeerReq req) =>
      let peers := GetMyRandomPeers (Z.to_N (uv (PeerRequest_Count req))) order in
      let peersInfo := omap (λ p, peer_info <$> peer_heap sw !! p) peers in
      let peerResponse :=
        mkMessageData (arr mesID) (arr myPubKey) (MessageData_OriginId msg) now (mk_uint 32 20)
          (Some (MessageData_PeerRes (mkPeerResponse peersInfo))) in
      originID ← lift (to_array 32 (MessageData_OriginId msg));
      let broadcast : M DState unit :=
        _ ← on_fst (Broadcast sw order TypeGetPeerResponse peerResponse); mret () in
      if ThisIsActivePeer originID sw then
        err ← try (on_snd (SendDataForPeer sw originID opened closed TypeGetPeerResponse
                             peerResponse));
        match err with
        | inl _ => mret ()
        | inr _ => broadcast
        end
      else broadcast
  | _ => mret ()
  end.

(** The same access by access; what [Broadcast] does under its lock is in
    [GossipRuns]. *)
Definition peerGiver_task sw (order : list (PeerID * ptr)) (myPubKey : PeerPublicKey)
    (mesID : MessageID) (now : uint 64) (opened closed : unit + gerror) (msg : MessageData)
    (peerID : PeerID) : task DState :=
  match MessageData_Payload msg with
  | Some (MessageData_PeerReq req) =>
      let peers := GetMyRandomPeers (Z.to_N (uv (PeerRequest_Count req))) order in
      let peersInfo := omap (λ p, peer_info <$> peer_heap sw !! p) peers in
      let peerResponse :=
        mkMessageData (arr mesID) (arr myPubKey) (MessageData_OriginId msg) now (mk_uint 32 20)
          (Some (MessageData_PeerRes (mkPeerResponse peersInfo))) in
      match to_array 32 (MessageData_OriginId msg) with
      | Panic q => Ends (Panic q)
      | Err err => Ends (Err err)
      | Ok originID =>
          let broadcast : task DState :=
            atomically (_ ← on_fst (Broadcast sw order TypeGetPeerResponse peerResponse); mret ()) in
          if ThisIsActivePeer originID sw then
            let send : M DState unit :=
              on_snd (SendDataForPeer sw originID opened closed TypeGetPeerResponse peerResponse) in
            Access (λ st, (send st).2) (λ st,
              match (send st).1 with
              | Ok _ => Ends (Ok ())
              | Err _ => broadcast
              | Panic q => Ends (Panic q)
              end)
          else broadcast
      end
  | _ => Ends (Ok ())
  end.

(** The cases of the [switch] are the wrong way round: a response goes to the
    giver and a request to the getter. *)
Definition Discovery_Handle sw order myPubKey mesID now opened closed (msg : MessageData)
    (peerID : PeerID) : M DState unit :=
  match MessageData_Payload msg with
  | Some (MessageData_PeerRes _) =>
      peerGiver_Handle sw order myPubKey mesID now opened closed msg peerID
  | Some (MessageData_PeerReq _) => peerGetter_Handle msg peerID
  | _ => mret ()
  end.

Definition Discovery_Handle_task sw order myPubKey mesID now opened closed (msg : MessageData)
    (peerID : PeerID) : task DState :=
  match MessageData_Payload msg with
  | Some (MessageData_PeerRes _) =>
      peerGiver_task sw order myPubKey mesID now opened closed msg peerID
  | _ => Ends (Ok ())
  end.

Lemma run_peerGiver_task sw order myPubKey mesID now opened closed msg peerID st :
  run_task (peerGiver_task sw order myPubKey mesID now opened closed msg peerID) st
  = peerGiver_Handle sw order myPubKey mesID now opened closed msg peerID st.
Proof.
  unfold peerGiver_task, peerGiver_Handle.
  destruct (MessageData_Payload msg) as [[]|]; try done. cbv zeta.
  unfold mbind at 3, M_bind at 3, lift. destruct (to_array _ _) as [origin|e|q]; try done.
  destruct (ThisIsActivePeer _ _); [|apply run_atomically].
  cbn [run_task]. unfold mbind at 2, M_bind at 2, try.
  destruct (on_snd _ st) as [[[]|e|q] st']; cbn [fst snd]; try done. apply run_atomically.
Qed.

Lemma run_Discovery_Handle_task sw order myPubKey mesID now opened closed msg peerID st :
  run_task (Discovery_Handle_task sw order myPubKey mesID now opened closed msg peerID) st
  = Discovery_Handle sw order myPubKey mesID now opened closed msg peerID st.
Proof.
  unfold Discovery_Handle_task, Discovery_Handle.
  destruct (MessageData_Payload msg) as [[]|]; try done. apply run_peerGiver_task.
Qed.

(** The wrong way round, the task has no access at all. *)
Lemma Discovery_Handle_no_access sw order myPubKey mesID now opened closed msg peerID :
  Discovery_Handle_task sw order myPubKey mesID now opened closed msg peerID = Ends (Ok ()).
Proof.
  unfold Discovery_Handle_task. destruct (MessageData_Payload msg) as [[]|] eqn:E; try done.
  unfold peerGiver_task. by rewrite E.
Qed.
End discovery.

Definition Discovery_GetSubscribedTypes : list (option PayloadType) :=
  [Some T_PeerReq; Some T_PeerRes].

(** Discovery never does anything: no message, request or response, makes
    it send or change anything. *)
Theorem Discovery_Handle_idle {S W : Type} `{Uuid, Writer W, Codec MessageData, Codec Envelope,
    Ed25519} (sw : Swarm S) (order : list (PeerID * ptr)) (myPubKey : PeerPublicKey)
    (mesID : MessageID) (now : uint 64) (opened closed : unit + gerror) (msg : MessageData)
    (peerID : PeerID) (st : Manager * W) :
  Discovery_Handle sw order myPubKey mesID now opened closed msg peerID st = (Ok (), st).
Proof.
  unfold Discovery_Handle. destruct (MessageData_Payload msg) as [[]|] eqn:E; try done.
  unfold peerGiver_Handle. by rewrite E.
Qed.

(** What the giver would broadcast: the addresses of at most as many peers as the
    request asks for. *)
Lemma peerGiver_Handle_count {S : Type} (sw : Swarm S) order (n : N) :
  length (omap (λ p, peer_info <$> peer_heap sw !! p) (GetMyRandomPeers n order))
  <= N.to_nat n.
Proof.
  rewrite GetMyRandomPeers_take.
  etransitivity; [|apply firstn_le_length with (l := order.*2)].
  generalize (take (N.to_nat n) order.*2) as l.
  induction l as [|p l IH]; [done|]. cbn [omap list_omap].
  destruct (peer_heap sw !! p); simpl; lia.
Qed.
