(* ===== verification/Mdns.v ===== *)
(** * mDNS: internal/services/discovery/m_dns.go

    Nodes find each other in the local network by service records that carry the
    identifier in hexadecimal.  github.com/grandcat/zeroconf registers the
    service and delivers the entries that it finds on a channel; what it returns
    and delivers is an argument. *)

From Stdlib Require Import ZArith Lia.
From stdpp Require Import pretty.
From S2P Require Import Prelude Sha2 Types Storage Signature KeyStore.

Definition ServiceInstance : string := "EchoFogNode".
Definition ServiceType : string := "_echo-for-p2p._udp".
Definition Domain : string := "local.".

Record ServiceEntry := mkServiceEntry {
  Text : list string;
  AddrIPv4 : list string;      (* printed addresses *)
  AddrIPv6 : list string;
  Port : Z
}.

Definition string_HasPrefix (p s : string) : bool := String.prefix p s.
Definition TrimPrefix (p s : string) : string :=
  if String.prefix p s then String.substring (String.length p) (String.length s - String.length p) s
  else s.

(** The TXT records that [Start] registers. *)
Definition txtRecords (myID : PeerID) : list string :=
  [String.append "id=" (Hex.EncodeToString (arr myID)); "v=1.0.0"].

(** The loop over the records: it stops at the first one with the prefix. *)
Fixpoint find_id (records : list string) : option PeerID :=
  match records with
  | [] => None
  | record :: records =>
      if string_HasPrefix "id=" record then
        match Hex.DecodeString (TrimPrefix "id=" record) with
        | Ok idBytes => match ToPeerID idBytes with Ok id => Some id | _ => None end
        | _ => None
        end
      else find_id records
  end.

(** The call of [notif.AddPotentialPeer], if any. *)
Definition handleEntry (myID : PeerID) (entry : ServiceEntry) : option (PeerID * string) :=
  match find_id (Text entry) with
  | None => None
  | Some remoteID =>
      if decide (remoteID = myID) then None
      else
        match AddrIPv4 entry, AddrIPv6 entry with
        | ip :: _, _ => Some (remoteID, ip +:+ ":" +:+ pretty (Port entry))
        | [], ip :: _ => Some (remoteID, "[" +:+ ip +:+ "]:" +:+ pretty (Port entry))
        | [], [] => None
        end
  end%string.

Lemma prefix_append p s : String.prefix p (String.append p s) = true.
Proof.
  induction p as [|c p IH]; simpl; [by destruct s|].
  by destruct (Ascii.ascii_dec c c).
Qed.

Lemma substring_skip p s n :
  String.substring (String.length p) n (String.append p s) = String.substring 0 n s.
Proof. by induction p. Qed.

Lemma substring_full s : String.substring 0 (String.length s) s = s.
Proof. induction s as [|c s IH]; simpl; [done|]. by rewrite IH. Qed.

Lemma length_append p s : String.length (String.append p s) = String.length p + String.length s.
Proof. induction p as [|c p IH]; simpl; [done|]. by rewrite IH. Qed.

Lemma TrimPrefix_append p s : TrimPrefix p (String.append p s) = s.
Proof.
  unfold TrimPrefix. rewrite prefix_append, substring_skip, length_append.
  replace (String.length p + String.length s - String.length p) with (String.length s) by lia.
  apply substring_full.
Qed.

Lemma ToPeerID_arr (id : PeerID) : ToPeerID (arr id) = Ok id.
Proof. unfold ToPeerID. rewrite length_arr. simpl. by rewrite pad_array_arr. Qed.

Lemma find_id_txtRecords id : find_id (txtRecords id) = Some id.
Proof.
  unfold txtRecords. cbn [find_id]. unfold string_HasPrefix.
  by rewrite prefix_append, TrimPrefix_append, Hex.DecodeString_EncodeToString, ToPeerID_arr.
Qed.

(** mDNS round trip: the record a node announces is read back by another
    node as its identifier, with its address, and by itself as its own, which it
    ignores. *)
Theorem mdns_roundtrip (me other : PeerID) (ip4 ip6 : list string) (port : Z) :
  match handleEntry me (mkServiceEntry (txtRecords other) ip4 ip6 port) with
  | Some (id, _) => id = other ∧ other ≠ me ∧ (ip4 ≠ [] ∨ ip6 ≠ [])
  | None => other = me ∨ (ip4 = [] ∧ ip6 = [])
  end.
Proof.
  unfold handleEntry. cbn [Text AddrIPv4 AddrIPv6 Port]. rewrite find_id_txtRecords.
  case_decide as Hd; [by left|].
  destruct ip4 as [|a ip4]; [destruct ip6 as [|a ip6]|]; [by right|..].
  - split_and!; [done|done|by right].
  - split_and!; [done|done|by left].
Qed.

(** ** The service *)

(** The node it belongs to and, once it is registered, whether the server is
    up. *)
Record MDNSService := mkMDNSService {
  md_myID : PeerID;
  md_port : Z;
  md_server : option bool
}.

Definition NewMDNS (id : PeerID) (port : Z) : MDNSService := mkMDNSService id port None.

(** What is given to [zeroconf.Register]. *)
Record Registration := mkRegistration {
  rg_instance : string; rg_service : string; rg_domain : string; rg_port : Z; rg_text : list string
}.

Definition registration (s : MDNSService) : Registration :=
  let idHex := Hex.EncodeToString (arr (md_myID s)) in
  mkRegistration (String.append "EchoFog-" (String.substring 0 6 idHex)) ServiceType Domain
    (md_port s) (txtRecords (md_myID s)).

(** [registered] is the result of [Register]; then [browseLoop] is started. *)
Definition Mdns_Start (registered : Registration → unit + gerror) : M MDNSService unit := λ s,
  match registered (registration s) with
  | inr err => (Err (ErrorWrap "failed to register mDNS service" err), s)
  | inl _ => (Ok (), mkMDNSService (md_myID s) (md_port s) (Some true))
  end.

(** [s.server.Shutdown()]; a second one does nothing. *)
Definition Shutdown : M MDNSService unit := λ s,
  match md_server s with
  | None => (Panic PanicNil, s)
  | Some _ => (Ok (), mkMDNSService (md_myID s) (md_port s) (Some false))
  end.

Definition Mdns_Stop : M MDNSService unit :=
  s ← get_state;
  match md_server s with None => mret () | Some _ => Shutdown end.

(** What the [select] of the loop takes next: the end of the context, an entry,
    or - from a channel that was closed - a nil entry. *)
Inductive browse_event := CtxDone | Entry (e : ServiceEntry) | EntriesClosed.

(** The calls of [notif.AddPotentialPeer], in order, are the result. *)
Fixpoint browseLoop_events (events : list browse_event) (found : list (PeerID * string)) :
    M MDNSService (list (PeerID * string)) :=
  match events with
  | [] => mret found
  | CtxDone :: _ => _ ← Shutdown; mret found
  | Entry e :: events =>
      s ← get_state;
      browseLoop_events events
        (found ++ match handleEntry (md_myID s) e with Some x => [x] | None => [] end)
  | EntriesClosed :: _ => lift (Panic PanicNil)      (* entry.Text of a nil entry *)
  end.

(** [resolver] is the result of [NewResolver]. *)
Definition browseLoop (resolver : unit + gerror) (events : list browse_event) :
    M MDNSService (list (PeerID * string)) :=
  match resolver with
  | inr err => mret []
  | inl _ => browseLoop_events events []
  end.

Lemma browseLoop_entries es rest found s :
  browseLoop_events ((Entry <$> es) ++ rest) found s
  = browseLoop_events rest (found ++ omap (handleEntry (md_myID s)) es) s.
Proof.
  revert found. induction es as [|e es IH]; intros found; [by rewrite app_nil_r|].
  cbn [fmap list_fmap app browseLoop_events]. run_M. rewrite IH. f_equal.
  rewrite <- app_assoc. f_equal. cbn [omap list_omap].
  by destruct (handleEntry (md_myID s) e).
Qed.

(** Browsing: a node whose service is registered proposes exactly the peers
    of the entries it gets, in their order and never itself, until its context
    ends, when it takes its own service down - unless the resolver's end, which
    closes the channel of entries, is seen first: then the process panics. *)
Theorem browseLoop_spec (registered : Registration → unit + gerror) (id : PeerID) (port : Z)
    (s : MDNSService) (es : list ServiceEntry) (rest : list browse_event)
    (Hstart : Mdns_Start registered (NewMDNS id port) = (Ok (), s)) :
  browseLoop (inl ()) ((Entry <$> es) ++ CtxDone :: rest) s
    = (Ok (omap (handleEntry id) es), mkMDNSService id port (Some false))
  ∧ Forall (λ x, x.1 ≠ id) (omap (handleEntry id) es)
  ∧ browseLoop (inl ()) ((Entry <$> es) ++ EntriesClosed :: rest) s = (Panic PanicNil, s)
  ∧ (Mdns_Stop s).2 = mkMDNSService id port (Some false).
Proof.
  unfold Mdns_Start in Hstart. destruct (registered _); [|done]. injection Hstart as <-.
  unfold browseLoop. rewrite !browseLoop_entries. split_and!; try done.
  apply Forall_forall. intros [i a] (e & _ & He)%list_elem_of_omap. cbn.
  unfold handleEntry in He. destruct (find_id (Text e)) as [r|]; [|done].
  case_decide as Hne; [done|]. destruct (AddrIPv4 e), (AddrIPv6 e); by simplify_eq.
Qed.

Module MdnsWitness.
Definition me : PeerID := zero_array 32.
Definition other : PeerID := pad_array 32 (str "other").
Definition entry (id : PeerID) : ServiceEntry :=
  mkServiceEntry (txtRecords id) ["192.168.0.7"] [] 4242.

Lemma browseLoop_spec_witness :
  (browseLoop (inl ()) [Entry (entry other); Entry (entry me); CtxDone]
     (mkMDNSService me 4242 (Some true))).1 = Ok [(other, "192.168.0.7:4242")].
Proof.
  assert (Mdns_Start (λ _, inl ()) (NewMDNS me 4242) = (Ok (), mkMDNSService me 4242 (Some true))) as E
    by reflexivity.
  destruct (browseLoop_spec (λ _, inl ()) me 4242 _ [entry other; entry me] [] E) as [T _].
  transitivity (Ok (omap (handleEntry me) [entry other; entry me])).
  - exact (f_equal fst T).
  - vm_compute. reflexivity.
Defined.
End MdnsWitness.
