(* ===== verification/Logger.v ===== *)
(** * Logging to a channel: internal/logger/channel_handler.go

    The handler of [log/slog] that writes entries to a bounded channel.
    [WithAttrs] appends to a slice that handlers share, so slices are modelled
    with their backing arrays: [Memory] maps a pointer to an array, and [append]
    writes in place when the capacity allows it. *)

From Stdlib Require Import ZArith Lia.
From S2P Require Import Prelude.

Record Attr := mkAttr { Key : string; Value : string }.

(** ** Slices of attributes *)
Record slice := mkSlice { s_ptr : nat; s_len : nat; s_cap : nat }.

Record Memory := mkMemory { arrays : gmap nat (list Attr); next_ptr : nat }.

Definition nil_slice : slice := mkSlice 0 0 0.

Definition backing (mem : Memory) (s : slice) : list Attr := default [] (arrays mem !! s_ptr s).

Definition elems (mem : Memory) (s : slice) : list Attr := take (s_len s) (backing mem s).

(** A slice fits the array it points to. *)
Definition slice_ok (mem : Memory) (s : slice) : Prop :=
  s_len s <= s_cap s ∧ (s_cap s = 0 ∨
    s_ptr s < next_ptr mem ∧ length (backing mem s) = s_cap s).

(** [append(s, xs...)]; [grow] is the runtime's choice of a new capacity, at least
    what is asked for. *)
Definition append (grow : nat → nat) (mem : Memory) (s : slice) (xs : list Attr) :
    Memory * slice :=
  let n := s_len s + length xs in
  if decide (n <= s_cap s) then
    (mkMemory (<[s_ptr s := take (s_len s) (backing mem s) ++ xs ++ drop n (backing mem s)]>
                 (arrays mem)) (next_ptr mem),
     mkSlice (s_ptr s) n (s_cap s))
  else
    let cap := n `max` grow n in
    let new := elems mem s ++ xs ++ replicate (cap - n) (mkAttr "" "") in
    (mkMemory (<[next_ptr mem := new]> (arrays mem)) (S (next_ptr mem)),
     mkSlice (next_ptr mem) n cap).

(** ** channel_handler.go *)
Record LogEntry := mkLogEntry {
  le_Time : string;
  le_Level : string;
  le_Message : string;
  le_Attrs : gmap string string
}.

(** [out] is the channel that all handlers derived from one share: it is state,
    not a field.  [opts.Level] is an interface that may be nil. *)
Record ChannelHandler := mkChannelHandler {
  opts_Level : option Z;
  attrs : slice;
  groupPrefix : string
}.

(** [opts] is nil or has a level that may be nil. *)
Definition NewChannelHandler (opts : option (option Z)) : ChannelHandler :=
  let opts := match opts with None => None | Some l => l end in
  mkChannelHandler opts nil_slice "".

Definition Enabled (h : ChannelHandler) (level : Z) : res bool :=
  match opts_Level h with
  | None => Panic PanicNil
  | Some l => Ok (l <=? level)%Z
  end.

Record LogRecord := mkLogRecord {
  rec_Time : string;        (* formatted *)
  rec_Level : string;
  rec_Message : string;
  rec_Attrs : list Attr
}.

Definition insert_attrs (m : gmap string string) (l : list Attr) : gmap string string :=
  foldl (λ m a, <[Key a := Value a]> m) m l.

(** The state of the channel is its content; [cap] its capacity. *)
Definition Handle_log (cap : nat) (mem : Memory) (h : ChannelHandler) (r : LogRecord) :
    M (list LogEntry) unit := λ out,
  let m := insert_attrs ∅ (rec_Attrs r) in
  let m := insert_attrs m (elems mem (attrs h)) in
  let entry := mkLogEntry (rec_Time r) (rec_Level r) (rec_Message r) m in
  if decide (length out < cap) then (Ok (), out ++ [entry]) else (Ok (), out).

Definition WithGroup (h : ChannelHandler) (name : string) : ChannelHandler := h.

Definition WithAttrs (grow : nat → nat) (mem : Memory) (h : ChannelHandler) (l : list Attr) :
    Memory * ChannelHandler :=
  let '(mem, s) := append grow mem (attrs h) l in
  (mem, mkChannelHandler (opts_Level h) s "").

(** ** Lemmas *)

Lemma append_elems grow mem s xs :
  slice_ok mem s →
  elems (append grow mem s xs).1 (append grow mem s xs).2 = elems mem s ++ xs.
Proof.
  intros [Hlen Hback]. unfold append. case_decide as Hcap; unfold elems, backing; cbn [arrays
    s_ptr s_len fst snd]; rewrite lookup_insert_eq; cbn [default id from_option].
  - fold (backing mem s). set (b := backing mem s) in *.
    assert (length (take (s_len s) b) = s_len s) as Ht.
    { rewrite length_take. destruct Hback as [?|[_ ?]]; subst b; lia. }
    rewrite take_app_ge by lia. rewrite Ht. f_equal.
    replace (s_len s + length xs - s_len s) with (length xs) by lia. apply take_app_length.
  - fold (backing mem s). fold (elems mem s).
    assert (length (elems mem s) = s_len s) as He.
    { unfold elems. rewrite length_take. destruct Hback as [?|[_ ?]]; [|lia].
      assert (s_len s = 0) by lia. lia. }
    rewrite take_app_ge by lia. rewrite He. f_equal.
    replace (s_len s + length xs - s_len s) with (length xs) by lia. apply take_app_length.
Qed.

(** An append keeps the elements of the slice it starts from. *)
Lemma append_keeps grow mem s xs :
  slice_ok mem s → elems (append grow mem s xs).1 s = elems mem s.
Proof.
  intros [Hlen Hback]. unfold append. case_decide as Hcap; unfold elems at 1, backing at 1;
    cbn [arrays s_ptr s_len fst snd].
  - rewrite lookup_insert_eq. cbn [default id from_option].
    rewrite take_app_le.
    + by rewrite take_take, Nat.min_id.
    + rewrite length_take. destruct Hback as [?|[_ ?]]; lia.
  - destruct Hback as [Hc|[Hp _]].
    + assert (s_len s = 0) as Hz by lia. unfold elems. by rewrite Hz, !take_0.
    + rewrite lookup_insert_ne by lia. done.
Qed.

(** [WithAttrs] gives a handler with the attributes of its parent followed by
    the new ones, and the parent keeps its own.  But two handlers derived from
    one parent that has spare capacity share the slot: the second [WithAttrs]
    replaces the attribute of the first. *)
Theorem WithAttrs_aliasing (grow : nat → nat) (mem : Memory) (h : ChannelHandler) (a b : Attr)
    (Hok : slice_ok mem (attrs h)) :
  let '(mem1, h1) := WithAttrs grow mem h [a] in
  let '(mem2, h2) := WithAttrs grow mem1 h [b] in
  elems mem1 (attrs h1) = elems mem (attrs h) ++ [a]
  ∧ elems mem1 (attrs h) = elems mem (attrs h)
  ∧ (s_len (attrs h) < s_cap (attrs h) → elems mem2 (attrs h1) = elems mem (attrs h) ++ [b])
  ∧ (s_len (attrs h) = s_cap (attrs h) → elems mem2 (attrs h1) = elems mem (attrs h) ++ [a]).
Proof.
  unfold WithAttrs.
  pose proof (append_elems grow mem (attrs h) [a] Hok) as E1.
  pose proof (append_keeps grow mem (attrs h) [a] Hok) as K1.
  destruct (append grow mem (attrs h) [a]) as [mem1 s1] eqn:A1. cbn [fst snd] in E1, K1.
  destruct (append grow mem1 (attrs h) [b]) as [mem2 s2] eqn:A2. cbn [attrs].
  split; [done|]. split; [done|].
  destruct Hok as [Hlen Hback]. unfold append in A1, A2. simpl length in A1, A2. split; intros Hc.
  - rewrite decide_True in A1 by lia. rewrite decide_True in A2 by lia.
    injection A1 as <- <-. injection A2 as <- <-.
    destruct Hback as [?|[_ Hb]]; [lia|].
    unfold elems, backing in *. cbn [arrays s_ptr s_len] in *.
    rewrite lookup_insert_eq in *. cbn [default id from_option] in *.
    cbn [app] in *. set (B := default [] (arrays mem !! s_ptr (attrs h))) in *.
    rewrite lookup_insert_eq. cbn [default id from_option]. rewrite K1.
    assert (length (take (s_len (attrs h)) B) = s_len (attrs h)) as Ht
      by len.
    rewrite take_app_ge by lia. rewrite Ht. f_equal.
    by replace (s_len (attrs h) + 1 - s_len (attrs h)) with 1 by lia.
  - rewrite decide_False in A1 by lia. rewrite decide_False in A2 by lia.
    injection A1 as <- <-. injection A2 as <- <-. rewrite <- E1.
    unfold elems, backing. cbn [arrays s_ptr s_len next_ptr].
    by rewrite (lookup_insert_ne _ (S (next_ptr mem))) by lia.
Qed.

(** An attribute of the handler wins over one of the record with the same key;
    a full channel drops the entry and never blocks. *)
Lemma insert_attrs_app m l l' : insert_attrs m (l ++ l') = insert_attrs (insert_attrs m l) l'.
Proof. apply foldl_app. Qed.

Lemma Handle_log_spec cap mem h r out :
  Handle_log cap mem h r out
  = (Ok (), if decide (length out < cap)
            then out ++ [mkLogEntry (rec_Time r) (rec_Level r) (rec_Message r)
                           (insert_attrs ∅ (rec_Attrs r ++ elems mem (attrs h)))]
            else out).
Proof. unfold Handle_log. rewrite insert_attrs_app. by case_decide. Qed.

(** A handler made without options, or without a level, panics at the first
    call of [Enabled]. *)
Lemma Enabled_nil_level opts level :
  opts = None ∨ opts = Some None → Enabled (NewChannelHandler opts) level = Panic PanicNil.
Proof. by intros [->| ->]. Qed.

Module LoggerWitness.
(** A handler with one attribute in an array of two. *)
Definition x : Attr := mkAttr "x" "1".
Definition mem : Memory := mkMemory {[0 := [x; x]]} 1.
Definition h : ChannelHandler := mkChannelHandler (Some 0%Z) (mkSlice 0 1 2) "".
Definition a : Attr := mkAttr "peer" "alice".
Definition b : Attr := mkAttr "peer" "bob".
Definition h1 : Memory * ChannelHandler := WithAttrs (λ n, n) mem h [a].
Definition h2 : Memory * ChannelHandler := WithAttrs (λ n, n) h1.1 h [b].

Lemma WithAttrs_aliasing_witness : elems h2.1 (attrs h1.2) = [x; b].
Proof.
  assert (slice_ok mem (attrs h)) as Hok.
  { split; [apply Nat.leb_le; reflexivity|]. right. split; [apply Nat.ltb_lt; reflexivity|].
    reflexivity. }
  destruct (WithAttrs_aliasing (λ n, n) mem h a b Hok) as (_ & _ & T & _).
  apply T. apply Nat.ltb_lt. reflexivity.
Defined.
End LoggerWitness.
