(* ===== verification/Node.v ===== *)
(** * The node: pkg/node/node.go, and a message from end to end

    [Start] puts the components together: identity from the key store, the TLS
    configuration and the socket, the swarm, the crypto engine and the dispatcher
    with the services registered.  The last section follows a chat message
    through every component, from [Messenger.Send] on one node to
    [Messenger.Handle] on the other. *)

From Stdlib Require Import ZArith Lia.
From stdpp Require Import relations pretty.
From S2P Require Import Prelude Task Sha2 Types Proto ToyCodec Config Storage Frame Signature KeyStore.
From S2P Require Import Identity Engine Tls Handshake Transport Dispatcher Stream Sessions Swarm.
From S2P Require Import Gossip Messenger Discovery Logger.

(** ** Services *)
Inductive Service := SvcDiscovery | SvcMessenger.

Definition GetSubscribedTypes (s : Service) : list (option PayloadType) :=
  match s with
  | SvcDiscovery => Discovery_GetSubscribedTypes
  | SvcMessenger => Messenger_GetSubscribedTypes
  end.

(** The two loops of [Start] that register the services. *)
Definition register_service (d : Dispatcher Service) (s : Service) : Dispatcher Service :=
  foldl (λ d msgType, Registry d msgType s) d (GetSubscribedTypes s).
Definition register_all (d : Dispatcher Service) (svcList : list Service) : Dispatcher Service :=
  foldl register_service d svcList.

(** ** node.go *)

(** The pointers that [Start] sets are nil before.  The logger is its handler. *)
Record Node (S : Type) := mkNode {
  n_Cfg : AppConfig;
  n_Logger : ChannelHandler;
  n_ID : PeerID;
  n_PrivKey : PeerPrivateKey;
  n_PubKey : PeerPublicKey;
  n_Storage : bool;
  n_Transport : option QuicTransport;
  n_Dispatcher : option (Dispatcher Service);
  n_Swarm : option (Swarm S);
  n_Discovery : option DiscoveryService;
  n_Messenger : option MessageService
}.
Arguments mkNode {S} _ _ _ _ _ _ _ _ _ _ _.
Arguments n_Cfg {S} _.
Arguments n_Logger {S} _.
Arguments n_ID {S} _.
Arguments n_PrivKey {S} _.
Arguments n_PubKey {S} _.
Arguments n_Storage {S} _.
Arguments n_Transport {S} _.
Arguments n_Dispatcher {S} _.
Arguments n_Swarm {S} _.
Arguments n_Discovery {S} _.
Arguments n_Messenger {S} _.

(** A node, the database at its path and the channel of its log. *)
Record NodeState (S : Type) := mkNodeState {
  ns_node : Node S;
  ns_db : S;
  ns_LogChan : list LogEntry
}.
Arguments mkNodeState {S} _ _ _.
Arguments ns_node {S} _.
Arguments ns_db {S} _.
Arguments ns_LogChan {S} _.

Definition LevelDebug : Z := -4.
Definition LevelInfo : Z := 0.
Definition logChan_cap : nat := 100.

Definition NewNode {S} (cfg : AppConfig) : Node S :=
  mkNode cfg (NewChannelHandler (Some (Some LevelDebug))) (zero_array 32) (zero_array 64)
    (zero_array 32) false None None None None None.

Definition GetLogChannel {S} (st : NodeState S) : list LogEntry := ns_LogChan st.

(** The world outside of one [Start]: the results of the calls that are not the
    program's, the random source, the clock and the number of CPUs. *)
Record Startup := mkStartup {
  su_open : unit + gerror;                    (* badger.Open *)
  su_rnd : KeyRandom;
  su_cert : CertRandom;
  su_cpus : Z;
  su_listen : unit + gerror;                  (* quic.Transport.ListenEarly *)
  su_addrs : list net_Addr + gerror;          (* net.InterfaceAddrs *)
  su_outbound : local_addr + gerror;          (* net.Dial("udp", ...) *)
  su_time : string → string                   (* when a message is logged *)
}.

Section node.
Context {S : Type} `{Storage S} `{Codec EncryptedPrivateKey} `{KeyLib} `{Ed25519} `{EngineLib}
        `{X509} `{Net}.

Abbreviation MN := (M (NodeState S)).

Definition on_db {A} (m : M S A) : MN A :=
  zoom ns_db (λ d st, mkNodeState (ns_node st) d (ns_LogChan st)) m.

(** [n.Logger.Info]: [slog] asks [Enabled] first. *)
Definition Info (clock : string → string) (msg : string) (args : list Attr) : MN unit := λ st,
  let h := n_Logger (ns_node st) in
  match Enabled h LevelInfo with
  | Ok true =>
      let '(r, out) := Handle_log logChan_cap (mkMemory ∅ 0) h
                         (mkLogRecord (clock msg) "INFO" msg args) (ns_LogChan st) in
      (r, mkNodeState (ns_node st) (ns_db st) out)
  | Ok false => (Ok (), st)
  | Err e => (Err e, st)
  | Panic p => (Panic p, st)
  end.

(** An error is returned as [fmt.Errorf("...: %w", err)]. *)
Definition wrap {T A} (text : string) (m : M T A) : M T A :=
  r ← try m;
  match r with inl a => mret a | inr err => lift (Err (ErrorWrap text err)) end.

(** The assignments to the fields. *)
Definition modify (f : Node S → Node S) : MN unit := λ st,
  (Ok (), mkNodeState (f (ns_node st)) (ns_db st) (ns_LogChan st)).
Definition set_Storage (n : Node S) : Node S :=
  mkNode (n_Cfg n) (n_Logger n) (n_ID n) (n_PrivKey n) (n_PubKey n) true (n_Transport n)
    (n_Dispatcher n) (n_Swarm n) (n_Discovery n) (n_Messenger n).
Definition set_identity (k : PeerPrivateKey) (n : Node S) : Node S :=
  let pubKey := PeerPrivateKeyToPublic k in
  mkNode (n_Cfg n) (n_Logger n) (PeerPubKeyToID pubKey) k pubKey (n_Storage n) (n_Transport n)
    (n_Dispatcher n) (n_Swarm n) (n_Discovery n) (n_Messenger n).
Definition set_Dispatcher (d : Dispatcher Service) (n : Node S) : Node S :=
  mkNode (n_Cfg n) (n_Logger n) (n_ID n) (n_PrivKey n) (n_PubKey n) (n_Storage n) (n_Transport n)
    (Some d) (n_Swarm n) (n_Discovery n) (n_Messenger n).
Definition set_network (t : QuicTransport) (sw : Swarm S) (n : Node S) : Node S :=
  mkNode (n_Cfg n) (n_Logger n) (n_ID n) (n_PrivKey n) (n_PubKey n) (n_Storage n) (Some t)
    (n_Dispatcher n) (Some sw) (n_Discovery n) (n_Messenger n).
Definition set_services (ds : DiscoveryService) (ms : MessageService) (n : Node S) : Node S :=
  mkNode (n_Cfg n) (n_Logger n) (n_ID n) (n_PrivKey n) (n_PubKey n) (n_Storage n) (n_Transport n)
    (n_Dispatcher n) (n_Swarm n) (Some ds) (Some ms).

(** The ignored error of the two addresses leaves an empty text. *)
Definition text_of (r : res string) : res string :=
  match r with Err _ => Ok EmptyString | r => r end.

Definition Node_Start (su : Startup) (password : bytes) : MN unit :=
  st ← get_state;
  let cfg := n_Cfg (ns_node st) in
  let Info := Info (su_time su) in
  _ ← Info "EchoFog Core is initializing..." [mkAttr "version" (pretty (uv CurrentProtocolVersion))];
  _ ← wrap "failed to open badger db" (lift (of_lib (su_open su)));
  _ ← modify set_Storage;
  _ ← Info "Storage initialized" [mkAttr "path" (DatabasePath cfg)];
  let keyStore := NewSecureKeyStore password in
  privKeyEd ← wrap "auth failed" (on_db (GetOrGenerateKeys keyStore (su_rnd su)));
  privKey ← lift (to_array 64 privKeyEd);
  _ ← modify (set_identity privKey);
  let pubKey := PeerPrivateKeyToPublic privKey in
  let id := PeerPubKeyToID pubKey in
  _ ← Info "Identity unlocked" [mkAttr "peer_id" (Hex.EncodeToString (arr id))];
  tlsConfig ← wrap "tls config failed" (lift (GenerateTLSConfig (su_cert su) privKeyEd));
  let dispatcher := NewDispatcher (su_cpus su) in
  _ ← modify (set_Dispatcher dispatcher);
  transport ← lift (NewQUICTransport (ListenAddr cfg) tlsConfig GetQuicConfig privKey
                      (ProtocolVersion cfg));
  st ← get_state;
  _ ← modify (set_network transport (NewSwarm id privKey (ns_db st) (sv (cfg_MaxConnections cfg))));
  eng ← wrap "crypto engine init failed" (lift (NewEngine privKeyEd));
  _ ← modify (set_services (NewDiscoveryService pubKey) (NewMessageService privKey eng));
  _ ← modify (set_Dispatcher (register_all dispatcher [SvcDiscovery; SvcMessenger]));
  _ ← Info "Starting network stack..." [];
  _ ← wrap "transport listen failed" (lift (ListenEarly transport (su_listen su)));
  localIP ← lift (text_of (GetLocalIP (su_addrs su)));
  outboundIP ← lift (text_of (GetOutboundIP (su_outbound su)));
  Info "Node started successfully"
    [mkAttr "local_ip" localIP; mkAttr "outbound_ip" outboundIP; mkAttr "listen_addr" (Addr transport)].

(** It closes nothing. *)
Definition Node_Stop (clock : string → string) : MN unit := Info clock "Node stopped" [].
End node.

(** The services of a node as handlers of its dispatcher; what they change is the
    log of the messenger and the state of the gossip manager. *)
Record ServicesState (W : Type) := mkServicesState {
  ns_log : list LogLine;
  ns_gossip : Manager * W
}.
Arguments mkServicesState {W} _ _.
Arguments ns_log {W} _.
Arguments ns_gossip {W} _.

Section handlers.
Context {S W : Type} `{Uuid} `{Writer W} `{Codec MessageData} `{Codec Envelope} `{Ed25519}
        `{EngineLib}.
Variables (sw : Swarm S) (order : list (PeerID * ptr)) (messenger : MessageService)
          (mesID : MessageID) (now : uint 64) (opened closed : unit + gerror).

Definition service_Handle (svc : Service) (msg : MessageData) (peerID : PeerID) :
    M (ServicesState W) unit :=
  match svc with
  | SvcMessenger =>
      zoom ns_log (λ l st, mkServicesState l (ns_gossip st))
        (Messenger_Handle messenger msg peerID)
  | SvcDiscovery =>
      zoom ns_gossip (λ g st, mkServicesState (ns_log st) g)
        (Discovery_Handle sw order (PeerPrivateKeyToPublic (ms_myPrivKey messenger))
           mesID now opened closed msg peerID)
  end.

Definition service_task (svc : Service) (msg : MessageData) (peerID : PeerID) :
    task (ServicesState W) :=
  match svc with
  | SvcMessenger =>
      zoom_task ns_log (λ l st, mkServicesState l (ns_gossip st))
        (Messenger_Handle_task messenger msg peerID)
  | SvcDiscovery =>
      zoom_task ns_gossip (λ g st, mkServicesState (ns_log st) g)
        (Discovery_Handle_task sw order (PeerPrivateKeyToPublic (ms_myPrivKey messenger))
           mesID now opened closed msg peerID)
  end.

Lemma service_task_once svc msg peerID : at_most_once (service_task svc msg peerID).
Proof.
  destruct svc; apply zoom_task_once; [|apply Messenger_Handle_once].
  by rewrite Discovery_Handle_no_access.
Qed.

Lemma run_service_task svc msg peerID st :
  run_task (service_task svc msg peerID) st = service_Handle svc msg peerID st.
Proof.
  pose proof (service_task_once svc msg peerID) as Ho. unfold service_task, service_Handle in *.
  destruct svc; rewrite run_zoom_task; unfold zoom.
  - by rewrite run_Discovery_Handle_task.
  - by intros [].
  - by rewrite Discovery_Handle_no_access.
  - by rewrite run_Messenger_Handle_task.
  - by intros [].
  - apply Messenger_Handle_once.
Qed.

#[local] Instance node_handler : Handler Service (ServicesState W) := {|
  Handle := service_Handle; Handle_task := service_task; run_Handle_task := run_service_task
|}.
#[local] Instance node_handler_once : SingleAccess Service (ServicesState W) := service_task_once.

Lemma registered (d : Dispatcher Service) :
  handlers (register_all d [SvcDiscovery; SvcMessenger]) !! Some T_ChatMessage = Some SvcMessenger.
Proof. apply lookup_insert_eq. Qed.

(** What a packet can do to a node whose dispatcher has the two services: end the
    process with a conversion of a short slice, or add at most one line to the
    log. *)
Definition packet_effect (st st' : ServicesState W) (r : res unit) : Prop :=
  ns_gossip st' = ns_gossip st
  ∧ ((∃ n, n < 32 ∧ r = Panic (PanicConvert n 32) ∧ ns_log st' = ns_log st)
     ∨ (r = Ok () ∧ (ns_log st' = ns_log st ∨ ∃ line, ns_log st' = ns_log st ++ [line]))).

Lemma packet_effect_refl st : packet_effect st st (Ok ()).
Proof. split; [done|]. right. split; [done|by left]. Qed.

Lemma services_typed svc msg peerID st :
  reflect_TypeOf (MessageData_Payload msg) ∈ GetSubscribedTypes svc →
  packet_effect st (Handle (H:=Service) (S:=ServicesState W) svc msg peerID st).2
    (Handle (H:=Service) (S:=ServicesState W) svc msg peerID st).1.
Proof.
  intros Ht. destruct st as [log g]. destruct svc.
  - unfold Handle, node_handler, service_Handle, zoom. cbn [ns_gossip ns_log].
    rewrite Discovery_Handle_idle. apply packet_effect_refl.
  - apply list_elem_of_singleton in Ht.
    destruct (MessageData_Payload msg) as [[x|x|x|c|x|x|x|x|x]|] eqn:Ep; try done.
    unfold Handle, node_handler, service_Handle, zoom. cbn [ns_gossip ns_log].
    destruct (Messenger_Handle_cases messenger msg c peerID log Ep)
      as [(n & Hn & ->)|(line & ->)]; (split; [done|]).
    + left. by exists n.
    + right. split; [done|]. right. by exists line.
Qed.
End handlers.

(** ** Properties *)

Section start_lemmas.
Context {S : Type} `{Storage S} `{Codec EncryptedPrivateKey} `{KeyLib} `{Ed25519} `{EngineLib}
        `{X509} `{Net}.
Implicit Types (st : NodeState S).

(** Logging never fails for a node, and changes the channel only, which keeps its
    bound. *)
Lemma Info_run clock msg args (n : Node S) d l :
  opts_Level (n_Logger n) = Some LevelDebug → length l <= logChan_cap →
  ∃ l', Info clock msg args (mkNodeState n d l) = (Ok (), mkNodeState n d l')
        ∧ length l' <= logChan_cap.
Proof.
  intros E Hl. unfold Info, Enabled. cbn [ns_node]. rewrite E. cbn. unfold Handle_log.
  case_decide; eexists; (split; [done|]); cbn; rewrite ?length_app; cbn; lia.
Qed.

Lemma bind_Info {A} clock msg args (f : unit → M (NodeState S) A) n d l r :
  (Info clock msg args ≫= f) (mkNodeState n d l) = r →
  opts_Level (n_Logger n) = Some LevelDebug → length l <= logChan_cap →
  ∃ l', f () (mkNodeState n d l') = r ∧ length l' <= logChan_cap.
Proof.
  intros <- E Hl. destruct (Info_run clock msg args n d l E Hl) as (l' & Ei & Hl').
  exists l'. split; [|done]. unfold mbind, M_bind. by rewrite Ei.
Qed.

Lemma bind_wrap {T A B} text (m : M T A) (f : A → M T B) (s : T) (r : B) s' :
  (wrap text m ≫= f) s = (Ok r, s') → ∃ a s1, m s = (Ok a, s1) ∧ f a s1 = (Ok r, s').
Proof.
  unfold wrap, mbind, M_bind, try, lift, mret, M_ret.
  destruct (m s) as [[a|e|p] s1]; [|done..]. eauto.
Qed.

Lemma bind_lift {T A B} (x : res A) (f : A → M T B) (s : T) (r : B) s' :
  (lift x ≫= f) s = (Ok r, s') → ∃ a, x = Ok a ∧ f a s = (Ok r, s').
Proof. unfold mbind, M_bind, lift. destruct x; [eauto|done..]. Qed.

Lemma lift_ok {T A} (x : res A) (s : T) a s1 : lift x s = (Ok a, s1) → x = Ok a ∧ s1 = s.
Proof. unfold lift. by intros [= -> ->]. Qed.

Lemma on_db_ok {A} (m : M S A) n d l (a : A) st' :
  on_db m (mkNodeState n d l) = (Ok a, st') →
  ∃ d', m d = (Ok a, d') ∧ st' = mkNodeState n d' l.
Proof. unfold on_db, zoom. cbn [ns_db ns_node ns_LogChan]. destruct (m d) as [r d']. intros [= -> <-]. eauto. Qed.

(** Which handler the dispatcher of a node has for a type. *)
Lemma registered_iff cpus t s :
  handlers (register_all (NewDispatcher cpus) [SvcDiscovery; SvcMessenger]) !! t = Some s
  ↔ t ∈ GetSubscribedTypes s.
Proof.
  change (handlers _) with (<[Some T_ChatMessage := SvcMessenger]>
    (<[Some T_PeerRes := SvcDiscovery]> (<[Some T_PeerReq := SvcDiscovery]>
      (∅ : gmap (option PayloadType) Service)))).
  rewrite !lookup_insert_Some, lookup_empty. unfold GetSubscribedTypes, Discovery_GetSubscribedTypes,
    Messenger_GetSubscribedTypes.
  destruct s; rewrite ?elem_of_cons, elem_of_nil; split; intros Ht.
  - destruct Ht as [[_ [=]]|(_ & [[<- _]|(_ & [[<- _]|[_ [=]]])])]; auto.
  - destruct Ht as [->|[->|[]]]; right; (split; [done|]); [right; split; [done|]|]; by left.
  - destruct Ht as [[<- _]|(_ & [[_ [=]]|(_ & [[_ [=]]|[_ [=]]])])]; auto.
  - destruct Ht as [->|[]]. by left.
Qed.

(** Processing any packet on such a node. *)
Lemma node_processPacket {T W : Type} `{Uuid, Writer W, Codec MessageData, Codec Envelope}
    (sw : Swarm T) order messenger mesID now opened closed cpus (d : Dispatcher Service) packet
    (st : ServicesState W) :
  handlers d = handlers (register_all (NewDispatcher cpus) [SvcDiscovery; SvcMessenger]) →
  packet_effect st
    (@processPacket _ _ (node_handler sw order messenger mesID now opened closed) _ _ d packet st).2
    (@processPacket _ _ (node_handler sw order messenger mesID now opened closed) _ _ d packet st).1.
Proof.
  intros Hreg. unfold processPacket, mbind, M_bind, lift.
  destruct (decide (length (Envelope_PubKey (ip_Envelope packet)) < 32)) as [Hs|Hs].
  { rewrite to_array_short by done. split; [done|]. left. eauto. }
  destruct (to_array_long 32 (Envelope_PubKey (ip_Envelope packet))) as (pk & -> & _); [lia|].
  destruct (_ || _); [apply packet_effect_refl|].
  destruct (unmarshal _) as [m|]; [|apply packet_effect_refl].
  unfold route. destruct (handlers d !! _) as [svc|] eqn:Eh; [|apply packet_effect_refl].
  apply services_typed. rewrite Hreg in Eh. by apply registered_iff in Eh.
Qed.

(** What a successful start has done. *)
Record wired (cfg : AppConfig) (su : Startup) (pw : bytes) (d d' : S) (n : Node S) : Prop := {
  wi_key : ∃ k, GetOrGenerateKeys (NewSecureKeyStore pw) (su_rnd su) d = (Ok k, d')
    ∧ to_array 64 k = Ok (n_PrivKey n)
    ∧ ∃ tls, GenerateTLSConfig (su_cert su) k = Ok tls
    ∧ ∃ t, NewQUICTransport (ListenAddr cfg) tls GetQuicConfig (n_PrivKey n) (ProtocolVersion cfg) = Ok t
           ∧ n_Transport n = Some t
    ∧ ∃ eng, NewEngine k = Ok eng ∧ n_Messenger n = Some (NewMessageService (n_PrivKey n) eng);
  wi_pub : n_PubKey n = PeerPrivateKeyToPublic (n_PrivKey n);
  wi_id : n_ID n = PeerPubKeyToID (n_PubKey n);
  wi_swarm : n_Swarm n
             = Some (NewSwarm (n_ID n) (n_PrivKey n) d' (sv (cfg_MaxConnections cfg)));
  wi_disp : n_Dispatcher n
            = Some (register_all (NewDispatcher (su_cpus su)) [SvcDiscovery; SvcMessenger])
}.

Lemma Node_Start_wired cfg su pw d l st' :
  length l <= logChan_cap →
  Node_Start su pw (mkNodeState (NewNode cfg) d l) = (Ok (), st') →
  wired cfg su pw d (ns_db st') (ns_node st') ∧ length (ns_LogChan st') <= logChan_cap.
Proof.
  intros Hl Hrun. unfold Node_Start in Hrun.
  change (get_state ≫= ?f) with (λ st, f st st : res () * NodeState S) in Hrun. cbv beta in Hrun.
  apply bind_Info in Hrun as (l1 & Hrun & Hl1); [|done..].
  apply bind_wrap in Hrun as (u & s1 & (_ & ->)%lift_ok & Hrun).
  change (modify ?g ≫= ?f) with
    (λ st, f () (mkNodeState (g (ns_node st)) (ns_db st) (ns_LogChan st)) : res () * NodeState S) in Hrun.
  cbv beta in Hrun. cbn [ns_node ns_db ns_LogChan] in Hrun.
  apply bind_Info in Hrun as (l2 & Hrun & Hl2); [|done..].
  apply bind_wrap in Hrun as (k & s1 & (d' & Hk & ->)%on_db_ok & Hrun).
  apply bind_lift in Hrun as (priv & Hpriv & Hrun).
  cbn [ns_node ns_db ns_LogChan] in Hrun.
  apply bind_Info in Hrun as (l3 & Hrun & Hl3); [|done..].
  apply bind_wrap in Hrun as (tls & s1 & (Htls & ->)%lift_ok & Hrun).
  apply bind_lift in Hrun as (t & Ht & Hrun).
  apply bind_wrap in Hrun as (eng & s1 & (Heng & ->)%lift_ok & Hrun).
  apply bind_Info in Hrun as (l4 & Hrun & Hl4); [|done..].
  apply bind_wrap in Hrun as (u2 & s1 & (_ & ->)%lift_ok & Hrun).
  apply bind_lift in Hrun as (ip1 & _ & Hrun).
  apply bind_lift in Hrun as (ip2 & _ & Hrun).
  cbn [ns_node ns_db ns_LogChan] in Hrun.
  edestruct (Info_run (su_time su)) as (l5 & E5 & Hl5); [| |rewrite E5 in Hrun]; [done|exact Hl4|].
  injection Hrun as <-. split; [|exact Hl5]. split; try done.
  exists k. split; [done|]. split; [done|]. exists tls. split; [done|]. exists t.
  split; [done|]. split; [done|]. by exists eng.
Qed.
End start_lemmas.
Section node_properties.
Context {S : Type} `{StorageLaws S} `{CodecLaws EncryptedPrivateKey} `{KeyLibLaws} `{Ed25519}
        `{EngineLib} `{X509Laws} `{Net}.

(** A node keeps its identity: a later start with the same password, on the
    database the first one left, gives the same key pair and the same peer
    identifier, which is the hash of the public key - whatever its random
    source, its configuration and its machine - and leaves the database as it
    is. *)
Theorem Node_Start_identity (cfg cfg' : AppConfig) (su su' : Startup) (password : bytes)
    (d : S) (log log' : list LogEntry) (st st' : NodeState S)
    (Hlog : length log <= logChan_cap) (Hlog' : length log' <= logChan_cap)
    (Hfirst : Node_Start su password (mkNodeState (NewNode cfg) d log) = (Ok (), st))
    (Hagain : Node_Start su' password (mkNodeState (NewNode cfg') (ns_db st) log') = (Ok (), st')) :
  n_PrivKey (ns_node st') = n_PrivKey (ns_node st) ∧ n_ID (ns_node st') = n_ID (ns_node st)
  ∧ n_ID (ns_node st) = PeerPubKeyToID (PeerPrivateKeyToPublic (n_PrivKey (ns_node st)))
  ∧ ns_db st' = ns_db st.
Proof.
  destruct (Node_Start_wired _ _ _ _ _ _ Hlog Hfirst) as [[(k & Hk & Ha & _) Hp Hi _ _] _].
  destruct (Node_Start_wired _ _ _ _ _ _ Hlog' Hagain) as [[(k' & Hk' & Ha' & _) Hp' Hi' _ _] _].
  destruct (GetOrGenerateKeys_again _ _ (su_rnd su') _ _ _ Hk) as [Hs _].
  unfold NewSecureKeyStore in *. rewrite (Hs k eq_refl) in Hk'. injection Hk' as <- <-.
  assert (n_PrivKey (ns_node st') = n_PrivKey (ns_node st)) as E by congruence.
  by rewrite Hi', Hi, Hp', Hp, E.
Qed.

(** C33. What a node is made of after its first start: one key for the identity, the TLS
    certificate, the handshakes, the swarm's signatures and the encryption; a dispatcher that routes to a
    service exactly the types it subscribed to; an empty swarm, which cannot dial;
    and a log within its bound. *)
Theorem Node_Start_wiring (cfg : AppConfig) (su : Startup) (password : bytes) (d : S)
    (log : list LogEntry) (st : NodeState S) (Hlog : length log <= logChan_cap)
    (Hnew : kv d !! secretKeys = None)
    (Hstart : Node_Start su password (mkNodeState (NewNode cfg) d log) = (Ok (), st)) :
  let n := ns_node st in
  (n_PubKey n = PeerPrivateKeyToPublic (n_PrivKey n) ∧ n_ID n = PeerPubKeyToID (n_PubKey n))
  ∧ (∃ t tls der, n_Transport n = Some t ∧ is_Some (q_tr t) ∧ q_privKey t = n_PrivKey n
     ∧ q_tlsCfg t = Some tls ∧ Certificates tls = [mkTlsCertificate [der] (arr (n_PrivKey n))])
  ∧ (∃ ms, n_Messenger n = Some ms ∧ ms_myPrivKey ms = n_PrivKey n
     ∧ NewEngine (arr (n_PrivKey n)) = Ok (cryptoEngine ms))
  ∧ (∃ disp, n_Dispatcher n = Some disp ∧ ingressChan disp = []
     ∧ ∀ t s, handlers disp !! t = Some s ↔ t ∈ GetSubscribedTypes s)
  ∧ (∃ sw, n_Swarm n = Some sw ∧ myPrivKey sw = n_PrivKey n ∧ activePeers sw = ∅
     ∧ q_tr (netTransport sw) = None)
  ∧ length (GetLogChannel st) <= logChan_cap.
Proof.
  intros n. subst n.
  destruct (Node_Start_wired _ _ _ _ _ _ Hlog Hstart)
    as [[(k & Hk & Ha & tls & Htls & t & Ht & Et & eng & Heng & Em) Hpub Hid Es Ed] Hl].
  destruct (GetOrGenerateKeys_pair _ _ _ _ _ Hnew Hk) as [Hlen _]. unfold PrivateKeySize in Hlen.
  assert (k = arr (n_PrivKey (ns_node st))) as ->.
  { destruct (to_array_long 64 k) as (a & E & Ea); [lia|]. rewrite Ha in E. injection E as <-.
    rewrite Ea, take_ge; [done|lia]. }
  split_and!; [exact Hpub|exact Hid| | | | |exact Hl].
  - destruct (NewQUICTransport_ok _ _ _ _ _ _ Ht) as (Htr & Hpk & _ & Htl & _).
    destruct (GenerateTLSConfig_certificate _ _ _ Htls) as [der Hder]. by exists t, tls, der.
  - eexists. by split_and!.
  - eexists. split; [exact Ed|]. split; [done|]. intros ty s. apply registered_iff.
  - eexists. split; [exact Es|]. done.
Qed.
End node_properties.

(** C29. The services see only what they can handle: on a node with the
    registrations of [Start], whatever packet is processed, the type assertions
    and pointers of the handlers never fail; the only panic left is that of a
    slice too short for its array.  And handling a packet sends nothing: its
    whole effect is at most one line of the log. *)
Theorem services_well_typed {S W : Type} `{Uuid, Writer W, Codec MessageData, Codec Envelope,
    Ed25519, EngineLib} (sw : Swarm S) (order : list (PeerID * ptr)) (messenger : MessageService)
    (mesID : MessageID) (now : uint 64) (opened closed : unit + gerror) (cpus : Z)
    (d : Dispatcher Service) (packet : IngressPacket) (st : ServicesState W)
    (Hreg : handlers d = handlers (register_all (NewDispatcher cpus) [SvcDiscovery; SvcMessenger])) :
  let run := @processPacket _ _ (node_handler sw order messenger mesID now opened closed) _ _
               d packet st in
  packet_effect st run.2 run.1.
Proof. by eapply node_processPacket. Qed.

(** ** A chat message from end to end *)

Section chat.
Context {S W : Type} `{WriterLaws W} `{!ReliableWriter W} `{UuidLaws}
        `{CodecLaws MessageData} `{CodecLaws Envelope} `{Ed25519Laws} `{!EngineLib} `{!EngineLaws}.

(** What [SendDataForPeer] puts on the stream: one frame with a signed
    envelope of the message. *)
Lemma SendDataForPeer_frame (sw : Swarm S) id opened closed t m (w w' : W) :
  SendDataForPeer sw id opened closed t m w = (Ok (), w') →
  ∃ env bs, signMessageData (myPrivKey sw) m = Ok env ∧ marshal env = inl bs
    ∧ written w' = written w ++ frame_bytes t bs.
Proof.
  unfold SendDataForPeer.
  destruct (p ← GetPeer id sw; peer_heap sw !! p) as [peer|]; [|discriminate].
  unfold mbind at 1, M_bind at 1, lift at 1.
  destruct (signMessageData (myPrivKey sw) m) as [env|e|q]; [|discriminate..].
  unfold Send, mbind at 1, M_bind at 1, lift at 1.
  destruct (marshal env) as [bs|e] eqn:Em; cbn [of_lib]; [|discriminate].
  destruct (peer_transport peer); [|discriminate].
  unfold SendGossipMessage, mbind, M_bind, lift.
  destruct opened; cbn [of_lib]; [|discriminate].
  destruct (writeFrame t bs w) as [[[]|e|q] w1] eqn:Ew; [|discriminate..].
  destruct closed as [[]|]; cbn [of_lib]; [|discriminate]. intros [= <-].
  exists env, bs. split_and!; try done. by apply writeFrame_written.
Qed.

(** The receiving side: a frame with such an envelope becomes a packet of the
    dispatcher, and processing it runs the handler of the message. *)
Lemma gossip_to_dispatcher {Hd St : Type} `{Handler Hd St} (p : PeerWrapper W)
    (d : Dispatcher Hd) (r : Reader) (ends : bool) t env bs pk m :
  marshal env = inl bs → valid_message (mkStreamMessage t bs) → concat r = frame_bytes t bs →
  Envelope_PubKey env = arr pk →
  VerifySignature pk (Envelope_Data env) (Envelope_Signature env) = true →
  unmarshal (Envelope_Data env) = inl m →
  length (ingressChan d) < ingress_cap →
  ∃ d' packet, handleGossipStream (Some onData) p (mkGossipStream r ends) d = Some (Ok (), d')
    ∧ ingressChan d' = ingressChan d ++ [packet] ∧ handlers d' = handlers d
    ∧ ∀ st : St, processPacket d' packet st = route d' m (pw_peerID p) st.
Proof.
  intros Hm [Ht Hl] Hr Hpk Hv Hu Hroom. simpl in Ht, Hl.
  destruct (readFrame_bytes t bs [] r) as (r' & Er & _); [done|done|by rewrite app_nil_r|].
  unfold handleGossipStream. rewrite (readFrame_stream_ok r ends (t, bs)) by by rewrite Er. unfold onData.
  rewrite (unmarshal_marshal _ _ Hm). unfold PushMessage. rewrite decide_True by done.
  eexists _, (mkIngressPacket env (pw_peerID p)). split_and!; [done..|].
  intros st. destruct env as [data sig pkb]. simpl in *. subst pkb.
  by rewrite (processPacket_signed _ pk data sig m).
Qed.

(** A chat message is bound neither to its envelope nor to a direction: whoever
    has a key and has seen a ciphertext that Alice sent to Bob - or Bob to Alice -
    can put it into a message of its own in Alice's name, as often as it likes,
    and Bob's messenger logs the text each time. *)
Theorem chat_replay (a b c : PeerPrivateKey) (ea eb : Engine)
    (rnd : array gcm_NonceSize + gerror) (text ct : bytes) (m : MessageData) (env : Envelope)
    (from : PeerID) (d : Dispatcher Service) (swB : Swarm S) (orderB : list (PeerID * ptr))
    (idB : MessageID) (nowB : uint 64) (ob cb : unit + gerror) (st : ServicesState W)
    (Ha : key_pair a) (Hb : key_pair b) (Hc : key_pair c)
    (Hea : NewEngine (arr a) = Ok ea) (Heb : NewEngine (arr b) = Ok eb)
    (Hct : Encrypt ea rnd text (PeerPrivateKeyToPublic b) = Ok ct
           ∨ Encrypt eb rnd text (PeerPrivateKeyToPublic a) = Ok ct)
    (Horigin : MessageData_OriginId m = arr (PeerPrivateKeyToPublic a))
    (Hpayload : MessageData_Payload m = Some (MessageData_ChatMessage (mkChatMessage ct)))
    (Henv : signMessageData c m = Ok env)
    (Hreg : handlers d !! Some T_ChatMessage = Some SvcMessenger) :
  @processPacket _ _ (node_handler swB orderB (mkMessageService eb b) idB nowB ob cb) _ _ d
    (mkIngressPacket env from) st
  = (Ok (), mkServicesState (ns_log st ++ [inl text]) (ns_gossip st)).
Proof.
  destruct (signMessageData_verifies _ _ _ Hc Henv) as (Hk & Hv & Hu).
  assert (Decrypt eb ct (PeerPrivateKeyToPublic a) = Ok text) as Hdec.
  { destruct Hct as [Hct|Hct]; [by eapply (engines_agree a b)|by eapply engine_own]. }
  destruct env as [data sig pk].
  cbn [Envelope_PubKey Envelope_Data Envelope_Signature] in Hk, Hv, Hu. subst pk.
  rewrite (@processPacket_signed _ _ (node_handler (W:=W) swB orderB (mkMessageService eb b) idB nowB ob cb)
             _ _ d _ data sig m) by done.
  unfold route. rewrite Hpayload. change (reflect_TypeOf _) with (Some T_ChatMessage). rewrite Hreg.
  unfold Handle, node_handler, service_Handle, zoom, Messenger_Handle. rewrite Hpayload.
  run_M. rewrite Horigin, to_array_arr. cbn [cryptoEngine ChatMessage_EncryptedPayload].
  by rewrite Hdec.
Qed.

(** C1. End to end: Alice's [Send] of a text under a fresh message identifier to
    Bob, who is connected to her, starts a transmission to Bob; when that ends
    without an error, its frame stays below 4 GiB and Bob's node, whose queue has
    room, reads the bytes it wrote, whether or not the stream ends then, Bob's
    dispatcher gets a packet, and the worker that processes it makes Bob's
    messenger log exactly the text. *)
Theorem chat_end_to_end (a b : PeerPrivateKey) (ea eb : Engine) (sw : Swarm S)
    (order : list (PeerID * ptr)) (rnd : array gcm_NonceSize + gerror) (id : MessageID)
    (now : uint 64) (text : bytes) (g g' : Manager)
    (d : Dispatcher Service) (p : PeerWrapper W)
    (swB : Swarm S) (orderB : list (PeerID * ptr)) (idB : MessageID) (nowB : uint 64)
    (ob cb : unit + gerror)
    (Ha : key_pair a) (Hb : key_pair b)
    (Hea : NewEngine (arr a) = Ok ea) (Heb : NewEngine (arr b) = Ok eb)
    (Hself : myPrivKey sw = a) (Horder : iterates sw order) (Hnew : id ∉ seenCache g)
    (Hconn : PeerPubKeyToID (PeerPrivateKeyToPublic b) ∈ ids sw order)
    (Hne : PeerPubKeyToID (PeerPrivateKeyToPublic b) ≠ PeerPrivateKeyToPublic a)
    (Hsend : Messenger_Send (mkMessageService ea a) sw order rnd id now
               (PeerPrivateKeyToPublic b) text g = (Ok (), g'))
    (Hreg : handlers d !! Some T_ChatMessage = Some SvcMessenger)
    (Hroom : length (ingressChan d) < ingress_cap) :
  ∃ x, x ∈ started g' ∧ to_peer x = PeerPubKeyToID (PeerPrivateKeyToPublic b)
    ∧ ∀ (w w' : W) (r : Reader) (ends : bool) (st : ServicesState W),
        SendDataForPeer sw (to_peer x) (inl ()) (inl ()) (sending_type x) (sending_msg x) w
          = (Ok (), w') →
        written w ++ concat r = written w' →
        (Z.of_nat (length (concat r)) < 2 ^ 32)%Z →
        ∃ d' packet, handleGossipStream (Some onData) p (mkGossipStream r ends) d = Some (Ok (), d')
          ∧ ingressChan d' = ingressChan d ++ [packet]
          ∧ @processPacket _ _ (node_handler swB orderB (mkMessageService eb b) idB nowB ob cb)
              _ _ d' packet st
            = (Ok (), mkServicesState (ns_log st ++ [inl text]) (ns_gossip st)).
Proof.
  destruct (Messenger_Send_started _ _ _ _ _ _ _ _ _ _ Horder Hnew Hsend) as (ct & Henc & Hg').
  cbn [cryptoEngine ms_myPrivKey] in Henc, Hg'. cbv zeta in Hg'.
  set (m := set_HopLimit _ _) in Hg'.
  exists (mkSending (PeerPubKeyToID (PeerPrivateKeyToPublic b)) TypeChatMessage m).
  split; [|split; [done|]].
  { rewrite Hg'. apply elem_of_app. right. apply list_elem_of_fmap.
    exists (PeerPubKeyToID (PeerPrivateKeyToPublic b)). split; [done|].
    by apply list_elem_of_filter. }
  intros w w' r ends st Htx Hnet Hlen. cbn [to_peer sending_type sending_msg] in Htx.
  rewrite <- Hself in Ha.
  destruct (SendDataForPeer_frame _ _ _ _ _ _ _ _ Htx) as (env & bs & Hsig & Hm & Hw).
  destruct (signMessageData_verifies _ _ _ Ha Hsig) as (Hpk & Hv & Hu).
  rewrite Hw in Hnet. apply app_inv_head in Hnet.
  assert (valid_message (mkStreamMessage TypeChatMessage bs)) as Hvalid.
  { split; [by vm_compute|]. simpl. rewrite Hnet in Hlen. unfold frame_bytes in Hlen.
    rewrite length_app, length_be_put in Hlen. cbn [length] in Hlen. lia. }
  pose (hd := node_handler (W:=W) swB orderB (mkMessageService eb b) idB nowB ob cb).
  destruct (@gossip_to_dispatcher _ _ hd p d r ends TypeChatMessage env bs _ m Hm Hvalid Hnet Hpk Hv
              Hu Hroom) as (d' & packet & Hgos & Hq & Hh & Hproc).
  exists d', packet. split_and!; [done|done|]. fold hd. rewrite Hproc.
  unfold route.
  change (reflect_TypeOf (MessageData_Payload m)) with (Some T_ChatMessage).
  rewrite Hh, Hreg.
  unfold Handle, hd, node_handler, service_Handle, zoom, Messenger_Handle.
  cbn [m set_HopLimit PackChatMessage MessageData_Payload ChatMessage_EncryptedPayload
       MessageData_OriginId cryptoEngine].
  run_M. rewrite to_array_arr.
  rewrite Hself in Ha. by rewrite (engines_agree a b ea eb rnd text ct Ha Hb Hea Heb Henc).
Qed.
End chat.

(** ** Witnesses *)
Module NodeWitness.
Import ToyWriter HandshakeWitness ToyUuid ToyEngine ToyKeys ToyX509 ToyNet ToyBadger BadgerStorage.

Definition alicePub : PeerPublicKey := PeerPrivateKeyToPublic ToyEngine.alice.
Definition bobPub : PeerPublicKey := PeerPrivateKeyToPublic ToyEngine.bob.
Definition bobID : PeerID := PeerPubKeyToID bobPub.

(** Alice's swarm, with Bob connected. *)
Definition sw : Swarm store :=
  AddPeer_table bobID 0
    (AddPeer_new SwarmWitness.addr bobPub 1 "" false
       (NewSwarm (zero_array 32) ToyEngine.alice ∅ 100)).1.
Definition order : list (PeerID * ptr) := [(bobID, 0)].
Definition ea : Engine := EngineWitness.engine_of ToyEngine.alice.
Definition eb : Engine := EngineWitness.engine_of ToyEngine.bob.
Definition msgID : MessageID := pad_array 16 (str "message").
Definition text : bytes := str "hello Bob".
Definition rnd0 : array (@gcm_NonceSize ToyEngine.lib) + gerror := inl EngineWitness.nonce.
Definition sent : res unit * Manager :=
  Messenger_Send (mkMessageService ea ToyEngine.alice) sw order rnd0
    msgID (mk_uint 64 0) bobPub text NewManager.
Definition sending : Sending :=
  List.hd (mkSending bobID TypeUnknown (init_msg [])) (started sent.2).
Definition transmitted : res unit * bytes :=
  SendDataForPeer sw bobID (inl ()) (inl ()) (sending_type sending) (sending_msg sending) [].
Definition bob_disp : Dispatcher Service :=
  register_all (NewDispatcher 4) [SvcDiscovery; SvcMessenger].
Definition st0 : ServicesState bytes := mkServicesState [] (NewManager, []).

Lemma engine_alice : NewEngine (arr ToyEngine.alice) = Ok ea.
Proof. vm_compute. reflexivity. Qed.
Lemma engine_bob : NewEngine (arr ToyEngine.bob) = Ok eb.
Proof. vm_compute. reflexivity. Qed.
Lemma sent_ok : sent.1 = Ok ().
Proof. vm_compute. reflexivity. Qed.
Lemma started_one : started sent.2 = [sending] ∧ to_peer sending = bobID.
Proof. split; vm_compute; reflexivity. Qed.
Lemma transmitted_ok :
  transmitted.1 = Ok () ∧ (Z.of_nat (length transmitted.2) <? 2 ^ 32)%Z = true.
Proof. split; vm_compute; reflexivity. Qed.
Lemma bob_is_not_alice : bobID ≠ alicePub.
Proof. intros E%(f_equal arr). vm_compute in E. discriminate. Qed.

Lemma chat_end_to_end_witness :
  ∃ d' packet,
    handleGossipStream (Some onData) (NewPeerWrapper 5 : PeerWrapper bytes)
      (mkGossipStream [transmitted.2] false)
      bob_disp = Some (Ok (), d')
    ∧ ingressChan d' = [packet]
    ∧ @processPacket _ _ (node_handler sw order (mkMessageService eb ToyEngine.bob) msgID
        (mk_uint 64 0) (inl ()) (inl ())) _ _ d' packet st0
      = (Ok (), mkServicesState [inl text] (NewManager, [])).
Proof.
  destruct (chat_end_to_end (W:=bytes) ToyEngine.alice ToyEngine.bob ea eb sw order
              rnd0 msgID (mk_uint 64 0) text NewManager sent.2 bob_disp
              (NewPeerWrapper 5) sw order msgID (mk_uint 64 0) (inl ()) (inl ()))
    as (x & Hx & Hto & T).
  - apply NewKeyFromSeed_pair.
  - apply NewKeyFromSeed_pair.
  - exact engine_alice.
  - exact engine_bob.
  - reflexivity.
  - apply Forall_singleton. eexists. reflexivity.
  - apply not_elem_of_empty.
  - apply elem_of_cons. left. reflexivity.
  - exact bob_is_not_alice.
  - exact (run_eq _ _ _ sent_ok).
  - reflexivity.
  - apply Nat.ltb_lt. reflexivity.
  - destruct started_one as [E1 E2]. rewrite E1 in Hx.
    apply list_elem_of_singleton in Hx. subst x. rewrite E2 in T.
    assert (concat [transmitted.2] = transmitted.2) as Ec by apply app_nil_r.
    destruct transmitted_ok as [T1 T2].
    refine (T [] transmitted.2 [transmitted.2] false st0 (run_eq _ _ _ T1) Ec _).
    rewrite Ec. apply Z.ltb_lt. exact T2.
Defined.

Definition su (seed : string) (cpus : Z) : Startup :=
  mkStartup (inl ()) (rnd seed) (mkCertRandom 1 2 3 []) cpus (inl ())
    (inl [IPNet IP.IPv6loopback; IPNet [Byte.xc0; Byte.xa8; Byte.x00; Byte.x0a]])
    (inr (ErrLib 60)) (λ _, "12:00:00").
Definition cfg : AppConfig := default_config "/home/user".
Definition start (seed : string) (cpus : Z) (d : store) : res unit * NodeState store :=
  Node_Start (su seed cpus) (str "password") (mkNodeState (NewNode cfg) d []).
Definition start1 : res unit * NodeState store := start "one" 2 ∅.
Definition start2 : res unit * NodeState store := start "two" 8 (ns_db start1.2).

Lemma start1_ok : start1.1 = Ok ().
Proof. vm_compute. reflexivity. Qed.
Lemma start2_ok : start2.1 = Ok ().
Proof. vm_compute. reflexivity. Qed.

Lemma no_log : length (@nil LogEntry) <= logChan_cap.
Proof. apply Nat.le_0_l. Qed.

Lemma Node_Start_identity_witness :
  n_ID (ns_node start2.2) = n_ID (ns_node start1.2).
Proof.
  refine (proj1 (proj2 (Node_Start_identity cfg cfg (su "one" 2) (su "two" 8) (str "password") ∅
            [] [] start1.2 start2.2 no_log no_log
            (run_eq _ _ _ start1_ok) (run_eq _ _ _ start2_ok)))).
Defined.

Lemma Node_Start_wiring_witness :
  ∃ disp, n_Dispatcher (ns_node start1.2) = Some disp ∧ ingressChan disp = []
    ∧ handlers disp !! Some T_ChatMessage = Some SvcMessenger.
Proof.
  destruct (Node_Start_wiring cfg (su "one" 2) (str "password") ∅ [] start1.2 no_log)
    as (_ & _ & _ & (disp & H1 & H2 & H3) & _).
  - reflexivity.
  - exact (run_eq _ _ _ start1_ok).
  - exists disp. split; [exact H1|]. split; [exact H2|]. apply H3. by apply list_elem_of_singleton.
Defined.

(** The log of the first start. *)
Example start1_log :
  le_Message <$> GetLogChannel start1.2
  = ["EchoFog Core is initializing..."; "Storage initialized"; "Identity unlocked";
     "Starting network stack..."; "Node started successfully"].
Proof. vm_compute. reflexivity. Qed.

Definition packet : IngressPacket := mkIngressPacket (mkEnvelope [] [] (str "short")) (zero_array 32).
Lemma services_well_typed_witness :
  ns_gossip (@processPacket _ _ (node_handler sw order (mkMessageService eb ToyEngine.bob) msgID
               (mk_uint 64 0) (inl ()) (inl ())) _ _ bob_disp packet st0).2 = (NewManager, []).
Proof.
  refine (proj1 (services_well_typed sw order (mkMessageService eb ToyEngine.bob) msgID
                   (mk_uint 64 0) (inl ()) (inl ()) 4 bob_disp packet st0 _)).
  reflexivity.
Defined.
End NodeWitness.
