(* ===== verification/NodeIngress.v ===== *)
(** * What the world can make a started node log

    [Ingress] with the services of [Node] as its handlers: the system that runs
    once [Start] has returned, against peers that send anything.  Neither
    service touches the swarm or the storage when it handles a message, so their
    state is the log of the messenger and the state of the gossip manager. *)

From Stdlib Require Import ZArith Lia Permutation.
From stdpp Require Import relations.
From S2P Require Import Prelude Task Sha2 Types Proto ToyCodec Config Storage Frame Signature KeyStore.
From S2P Require Import Identity Engine Tls Handshake Transport Dispatcher Stream Loops Sessions.
From S2P Require Import Swarm Connections Ingress Gossip Messenger Discovery Logger Node.

(** A part of what a list gives comes from a part of the list. *)
Lemma submseteq_omap_inv {A B} (f : A → option B) (l : list A) (k : list B) :
  k ⊆+ omap f l → ∃ l', l' ⊆+ l ∧ Forall2 (λ x y, f x = Some y) l' k.
Proof.
  revert k. induction l as [|x l IH]; intros k Hk.
  { apply submseteq_nil_r in Hk as ->. by exists []. }
  cbn [omap list_omap] in Hk. destruct (f x) as [y|] eqn:E.
  2:{ destruct (IH _ Hk) as (l' & Hl & Hf). exists l'. split; [by apply submseteq_cons|done]. }
  apply submseteq_cons_r in Hk as [Hk|(k' & Hp & Hk)].
  { destruct (IH _ Hk) as (l' & Hl & Hf). exists l'. split; [by apply submseteq_cons|done]. }
  destruct (IH _ Hk) as (l' & Hl & Hf). symmetry in Hp.
  assert (Forall2 (λ x y, f x = Some y) (x :: l') (y :: k')) as Hf' by by constructor.
  apply Forall2_flip in Hf'. destruct (Permutation_Forall2 Hp Hf') as (l'' & Hp' & Hf'').
  exists l''. split; [|by apply Forall2_flip in Hf'']. rewrite <- Hp'. by apply submseteq_skip.
Qed.

Lemma omap_snd {A B C} (f : B → option C) (l : list (A * B)) :
  omap f l.*2 = omap (λ x, f x.2) l.
Proof. induction l as [|[a b] l IH]; [done|]. cbn. by rewrite IH. Qed.

Lemma Forall2_and_l {A B} (P : A → Prop) (Q : A → B → Prop) l k :
  Forall P l → Forall2 Q l k → Forall2 (λ x y, P x ∧ Q x y) l k.
Proof. intros Hp Hq. revert Hp. induction Hq; intros Hp; inversion Hp; constructor; auto. Qed.

Lemma Forall2_compose {A B C} (P : A → B → Prop) (Q : B → C → Prop) l k m :
  Forall2 P l k → Forall2 Q k m → Forall2 (λ x z, ∃ y, P x y ∧ Q y z) l m.
Proof. intros Hp. revert m. induction Hp; intros m Hq; inversion Hq; constructor; eauto. Qed.

(** ** The line of a packet *)
Section lines.
Context `{EngineLib} `{Codec MessageData} `{Ed25519}.
Implicit Types (s : MessageService) (pkt : IngressPacket).

(** The envelope is signed by the key in it, its data is a chat message, and the
    line is what decrypting that for its origin gives. *)
Definition line_of s pkt (line : LogLine) : Prop :=
  ∃ (signer origin : PeerPublicKey) (m : MessageData) (c : ChatMessage),
    let env := ip_Envelope pkt in
    arr signer = take 32 (Envelope_PubKey env)
    ∧ VerifySignature signer (Envelope_Data env) (Envelope_Signature env) = true
    ∧ unmarshal (Envelope_Data env) = inl m
    ∧ MessageData_Payload m = Some (MessageData_ChatMessage c)
    ∧ arr origin = take 32 (MessageData_OriginId m)
    ∧ Decrypt (cryptoEngine s) (ChatMessage_EncryptedPayload c) origin
      = match line with inl text => Ok text | inr err => Err err end.

Lemma Messenger_Handle_line s m c id log log' :
  MessageData_Payload m = Some (MessageData_ChatMessage c) →
  Messenger_Handle s m id log = (Ok (), log') →
  ∃ origin line, arr origin = take 32 (MessageData_OriginId m) ∧ log' = log ++ [line]
    ∧ Decrypt (cryptoEngine s) (ChatMessage_EncryptedPayload c) origin
      = match line with inl text => Ok text | inr err => Err err end.
Proof.
  intros Hm. unfold Messenger_Handle, mbind, M_bind, lift. rewrite Hm.
  destruct (decide (length (MessageData_OriginId m) < 32)) as [Hs|Hs].
  { by rewrite to_array_short. }
  destruct (to_array_long 32 (MessageData_OriginId m)) as (pk & -> & Hpk); [lia|].
  destruct (Decrypt _ _ pk) as [text|err|p] eqn:E; [| |done]; intros [= <-]; exists pk.
  - by exists (inl text).
  - by exists (inr err).
Qed.
End lines.

(** ** The log of a node *)
Section node_log.
Context {S W : Type} `{Uuid} `{Writer W} `{Codec MessageData} `{Codec Envelope} `{Ed25519}
        `{EngineLib}.
Variables (sw : Swarm S) (order : list (PeerID * ptr)) (ms : MessageService)
          (mesID : MessageID) (now : uint 64) (opened closed : unit + gerror) (cpus : Z).

#[local] Instance node_services : Handler Service (ServicesState W) :=
  node_handler sw order ms mesID now opened closed.

Definition node_registrations (d : Dispatcher Service) : Prop :=
  handlers d = handlers (register_all (NewDispatcher cpus) [SvcDiscovery; SvcMessenger]).

(** A packet that does not end the process adds its line, if it has one. *)
Lemma processPacket_line d pkt (st st' : ServicesState W) :
  node_registrations d → processPacket d pkt st = (Ok (), st') →
  ns_gossip st' = ns_gossip st
  ∧ (ns_log st' = ns_log st ∨ ∃ line, line_of ms pkt line ∧ ns_log st' = ns_log st ++ [line]).
Proof.
  intros Hreg Hrun.
  pose proof (node_processPacket sw order ms mesID now opened closed cpus d pkt st Hreg) as [Hg _].
  change (node_handler _ _ _ _ _ _ _) with node_services in Hg. rewrite Hrun in Hg. split; [exact Hg|].
  revert Hrun. unfold processPacket, mbind, M_bind, lift.
  destruct (decide (length (Envelope_PubKey (ip_Envelope pkt)) < 32)) as [Hs|Hs].
  { by rewrite to_array_short. }
  destruct (to_array_long 32 (Envelope_PubKey (ip_Envelope pkt))) as (pk & -> & Hpk); [lia|].
  rewrite length_arr. cbn [Nat.eqb negb orb].
  destruct (VerifySignature pk _ _) eqn:V; [|by intros [= <-]; left].
  destruct (unmarshal _) as [m|e] eqn:U; [|by intros [= <-]; left].
  unfold route. destruct (handlers d !! _) as [svc|] eqn:Eh; [|by intros [= <-]; left].
  rewrite Hreg in Eh. apply registered_iff in Eh. cbn [negb].
  unfold Handle, node_services, node_handler, service_Handle, zoom. destruct svc.
  - destruct st as [log g]. cbn [ns_gossip ns_log].
    rewrite Discovery_Handle_idle. intros [= <-]. by left.
  - apply list_elem_of_singleton in Eh.
    destruct (MessageData_Payload m) as [[x|x|x|c|x|x|x|x|x]|] eqn:Ep; try done.
    destruct (Messenger_Handle ms m (ip_PeerID pkt) (ns_log st)) as [r log'] eqn:E.
    intros [= -> <-]. cbn [ns_log].
    destruct (Messenger_Handle_line _ _ _ _ _ _ Ep E) as (origin & line & Ho & -> & Hd).
    right. exists line. split; [|done]. by exists pk, origin, m, c.
Qed.

Lemma process_all_lines d ps (st st' : ServicesState W) :
  node_registrations d → process_all d ps st = (Ok (), st') →
  ns_gossip st' = ns_gossip st
  ∧ ∃ qs lines, qs `sublist_of` ps ∧ Forall2 (line_of ms) qs lines
                ∧ ns_log st' = ns_log st ++ lines.
Proof.
  intros Hreg. revert st. induction ps as [|p ps IH]; intros st; cbn [process_all].
  - intros [= <-]. split; [done|]. exists [], []. by rewrite app_nil_r.
  - unfold mbind, M_bind. destruct (processPacket d p st) as [[[]|e|x] s1] eqn:E; [|done..].
    intros (Hg & qs & lines & Hqs & Hl & Hlog)%IH.
    destruct (processPacket_line _ _ _ _ Hreg E) as [Hg1 Hone]. split; [congruence|].
    destruct Hone as [E1|(line & Hline & E1)].
    + exists qs, lines. split; [by apply sublist_cons|]. by rewrite Hlog, E1.
    + exists (p :: qs), (line :: lines). split; [by apply sublist_skip|].
      split; [by constructor|]. by rewrite Hlog, E1, <- app_assoc.
Qed.
End node_log.

(** ** The property *)
Section node_ingress.
Context {S W : Type} `{Storage S} `{Codec EncryptedPrivateKey} `{KeyLib} `{Ed25519} `{EngineLib}
        `{X509} `{Net} `{Uuid} `{Writer W} `{CodecLaws MessageData} `{Codec Envelope}.
Variables (RemoteAddr : ConnID → string).
Variables (swH : Swarm S) (order : list (PeerID * ptr)) (mesID : MessageID) (now : uint 64)
          (opened closed : unit + gerror).

(** The services of a node that has started: those of its [MessageService]. *)
Definition services_of (ms : MessageService) : Handler Service (ServicesState W) :=
  node_handler swH order ms mesID now opened closed.

#[local] Instance services_of_once ms :
  @SingleAccess Service (ServicesState W) (services_of ms) :=
  node_handler_once swH order ms mesID now opened closed.

(** The system of a node that has started, before anything arrives. *)
Definition node_ingress (cfg : AppConfig) (st : NodeState S) (d : Dispatcher Service)
    (g : Manager * W) : Ingress (S:=S) (W:=W) (H:=Service) (T:=ServicesState W) :=
  ingress_start (n_ID (ns_node st)) (n_PrivKey (ns_node st)) (ns_db st)
    (sv (cfg_MaxConnections cfg)) d (mkServicesState [] g).

(** C4. What the world can make a node log.  After a start, under every
    interleaving of handshakes, registrations, bans, loops, streams and workers
    with peers that send anything, the lines of the messenger's log stand for
    different gossip streams, each opened on the connection of a peer whose key
    signed this node's nonce on that connection: the stream carries an envelope
    that the key in it signed, around a chat message, and the line is what
    decrypting that for the origin named in it gives, the text or the error.
    Nothing that arrives reaches the gossip manager. *)
Theorem node_log_provenance (cfg : AppConfig) (su : Startup) (password : bytes) (db : S)
    (log : list LogEntry) (st : NodeState S) (q : QuicTransport) (d : Dispatcher Service)
    (ms : MessageService) (g : Manager * W) (ig : Ingress (S:=S) (W:=W) (H:=Service) (T:=ServicesState W))
    (Hlog : length log <= logChan_cap)
    (Hstart : Node_Start su password (mkNodeState (NewNode cfg) db log) = (Ok (), st))
    (Hd : n_Dispatcher (ns_node st) = Some d) (Hms : n_Messenger (ns_node st) = Some ms)
    (Hq : n_Transport (ns_node st) = Some q)
    (Hrun : rtc (@ingress_step _ _ _ _ _ _ (services_of ms) _ _ _ RemoteAddr q)
              (node_ingress cfg st d g) ig) :
  (∃ srcs : list (ptr * GossipStream), srcs ⊆+ in_received ig
     ∧ Forall2 (λ src line, peer_connection ig src.1
                            ∧ ∃ pkt, packet_of src.2 = Some pkt ∧ line_of ms pkt line)
         srcs (ns_log (w_state (in_world ig))))
  ∧ ns_gossip (w_state (in_world ig)) = g.
Proof.
  destruct (Node_Start_wired _ _ _ _ _ _ Hlog Hstart) as [[_ _ _ _ Ed] _].
  rewrite Hd in Ed. injection Ed as Ed.
  assert (ingressChan d = []) as Hempty by (by rewrite Ed).
  pose (hd := services_of ms : Handler Service (ServicesState W)). fold hd in Hrun.
  pose proof (services_of_once ms : @SingleAccess Service (ServicesState W) hd) as Hone.
  unfold node_ingress in Hrun.
  destruct (ingress_reached _ _ _ _ _ _ _ _ _ Hempty Hrun) as [Hn Hw _ Hr Ho].
  destruct (sq_run _ _ _ (steps_sequential d _ _ _ Hw (Start_sequential d _))) as (ps & Hps & Hproc).
  destruct (process_all_lines swH order ms mesID now opened closed (su_cpus su) d ps _ _
              ltac:(by rewrite Ed) Hproc) as (Hg & qs & lines & Hqs & Hlines & Hl).
  split; [|exact Hg]. rewrite Hl. cbn [ns_log app].
  assert (qs ⊆+ omap (λ src, packet_of src.2) (in_received ig)) as Hsub.
  { rewrite <- omap_snd. etransitivity; [by apply sublist_submseteq|].
    specialize (Ho 0). cbn [unread_all omap list_omap] in Ho. rewrite app_nil_r in Ho.
    etransitivity; [|exact Ho].
    rewrite <- (inv_fifo _ _ (steps_inv _ _ _ Hw (Start_inv d _ ltac:(rewrite Hempty; apply le_0_n)))).
    rewrite <- Hps, <- app_assoc. by apply submseteq_inserts_r. }
  destruct (submseteq_omap_inv _ _ _ Hsub) as (srcs & Hin & Hf). exists srcs. split; [done|].
  assert (Forall (λ src, peer_connection ig src.1) srcs) as Hpeers.
  { apply Forall_forall. intros [p r] Hsrc. eapply elem_of_submseteq in Hsrc; [|exact Hin].
    destruct (Hr p r Hsrc) as [peer Hp].
    destruct (nv_peers _ (net_reached _ _ _ _ _ _ _ Hn) p peer Hp) as (conn & Hc & nonce & ? & ?).
    by exists peer, conn, nonce. }
  apply Forall2_and_l; [done|]. by eapply Forall2_compose.
Qed.
End node_ingress.

(** ** Witnesses *)

(** One peer connects and opens one gossip stream. *)
Section one_message.
Context {S W H T : Type} `{Storage S} `{Writer W} `{Handler H T}
        `{Codec MessageData} `{Codec Envelope} `{Ed25519}.
Variables (RemoteAddr : ConnID → string) (q : QuicTransport) (self : PeerID) (k : PeerPrivateKey)
          (store : S) (n : Z) (hs : gmap (option PayloadType) H) (cpus : Z) (t t' : T).
Variables (conn : ConnID) (nonce : array 32) (r : Reader) (stream : GossipStream) (w : W) (a : Attempt W)
          (ev : NewConnEvent) (env : Envelope).

Let d : Dispatcher H := mkDispatcher [] hs cpus false.
Let wrapper : Conn W (Dispatcher H) := AddPeer_wrapper conn d.
Let accepting (uq go : list GossipStream) (d : Dispatcher H) : Conn W (Dispatcher H) :=
  mkConn (NewPeerWrapper conn) AddPeer_callbacks Running Running Running uq [] [] go d [] [].
Let packet : IngressPacket := mkIngressPacket env (zero_array 32).

Lemma one_message :
  ListenEarly q (inl ()) = Ok () →
  AcceptConn_handle RemoteAddr q conn (inl ()) nonce (mkAttempt (r, w) false None []) = (Ok (), a) →
  connChan a = [ev] → ev_Conn ev = conn →
  Z.to_nat cpus = 1 →
  handleGossipStream (W:=W) (cb_onData AddPeer_callbacks) (NewPeerWrapper conn) stream d
    = Some (Ok (), PushMessage env (zero_array 32) d) →
  processPacket d packet t = (Ok (), t') →
  ∃ ig, rtc (ingress_step (W:=W) RemoteAddr q) (ingress_start self k store n d t) ig
        ∧ w_state (in_world ig) = t'.
Proof.
  intros Hlisten Hacc Hev Hconn Hw Hgossip Hproc.
  assert (∃ net cs, rtc (ingress_step (W:=W) RemoteAddr q) (ingress_start self k store n d t)
                      (mkIngress net cs (Start d t) []) ∧ cs !! 0 = Some wrapper
                    ∧ ss_adding (net_swarm net) = None) as (net & cs & Hrun & Hcs & Hadd).
  { do 2 eexists. split.
    - eapply rtc_l; [apply ig_net; by apply cs_listen|].
      eapply rtc_l; [apply ig_net; by eapply (cs_accept _ _ _ _ _ _ _ _ _ _ _ conn)|].
      rewrite Hev.
      eapply rtc_l; [apply ig_net; apply (cs_send _ _ _ [] [ev] [] _ _ _ _ _ _ _ ev);
                     [reflexivity|apply Nat.ltb_lt; reflexivity]|].
      eapply rtc_l; [apply ig_net; apply cs_register|].
      apply rtc_once. apply ig_net. apply cs_swarm.
      split; [apply sw_add_table|by left].
    - split; [|reflexivity]. unfold wrapper. rewrite <- Hconn. vm_compute. reflexivity. }
  assert (Start d t = mkWorld d [Waiting] t [] [] []) as Es by (unfold Start; cbn; by rewrite Hw).
  rewrite Es in Hrun.
  set (d1 := PushMessage env (zero_array 32) d) in *.
  assert (d1 = mkDispatcher [packet] hs cpus false) as Ed1 by (vm_compute; reflexivity).
  exists (mkIngress net (<[0 := accepting [] [] d1]> cs)
            (mkWorld d [Returned] t' [packet] [packet] [packet]) [(0, stream)]).
  split; [|reflexivity]. etransitivity; [exact Hrun|].
  eapply rtc_l; [apply (ig_start _ _ _ _ _ _ 0 wrapper Hcs); [reflexivity|congruence]|].
  eapply rtc_l; [apply (ig_arrive _ _ _ _ _ _ 0 (StartLoops wrapper) (Uni stream)), lookup_insert_eq|].
  eapply rtc_l.
  { eapply (ig_conn _ _ False _ _ _ _ 0 _ (accepting [] [stream] d)); [apply lookup_insert_eq|].
    left. apply ls_uni. }
  eapply rtc_l.
  { eapply (ig_conn _ _ False _ _ _ _ 0 _ (accepting [] [] d1)); [apply lookup_insert_eq|].
    left. apply (ls_gossip _ _ _ _ _ _ _ _ _ [stream] [] stream); [reflexivity|exact Hgossip]. }
  rewrite !insert_insert_eq. cbn [cn_data accepting]. rewrite Ed1.
  apply worker_runs.
  by apply (worker_alone 0 packet [] t t' (mkDispatcher [packet] hs cpus false) [Waiting]).
Qed.
End one_message.

(** Bob's node starts; Alice connects to it and sends it a text. *)
Module NodeIngressWitness.
Import ToyWriter HandshakeWitness ToyUuid ToyEngine ToyKeys ToyX509 ToyNet ToyBadger BadgerStorage.
Import NodeWitness.

Definition node1 : NodeState store := start1.2.
Definition key : PeerPrivateKey := n_PrivKey (ns_node node1).
Definition pub : PeerPublicKey := n_PubKey (ns_node node1).
Definition q1 : QuicTransport := default HandshakeWitness.alice (n_Transport (ns_node node1)).
Definition ms1 : MessageService :=
  default (mkMessageService ea ToyEngine.alice) (n_Messenger (ns_node node1)).
Definition d1 : Dispatcher Service :=
  mkDispatcher [] (handlers (register_all (NewDispatcher 2) [SvcDiscovery; SvcMessenger])) 1 false.

Lemma node1_dispatcher : n_Dispatcher (ns_node node1) = Some d1.
Proof. vm_compute. reflexivity. Qed.
Lemma node1_transport : n_Transport (ns_node node1) = Some q1.
Proof. vm_compute. reflexivity. Qed.
Lemma node1_messenger : n_Messenger (ns_node node1) = Some ms1.
Proof. vm_compute. reflexivity. Qed.

Definition accept1 : res unit * Attempt bytes :=
  AcceptConn_handle addr q1 9 (inl ()) nB (mkAttempt (rB, []) false None []).
Definition ev1 : NewConnEvent := ConnectionsWitness.ev.
Lemma accept1_ok : accept1.1 = Ok () ∧ connChan accept1.2 = [ev1] ∧ ListenEarly q1 (inl ()) = Ok ().
Proof. vm_compute. by split_and!. Qed.

Definition cipher : bytes := match Encrypt ea rnd0 text pub with Ok ct => ct | _ => [] end.
Definition message : MessageData :=
  PackChatMessage msgID (mk_uint 64 0) cipher (arr alicePub) (arr pub).
Definition env1 : Envelope :=
  match signMessageData ToyEngine.alice message with Ok env => env | _ => mkEnvelope [] [] [] end.
Definition stream1 : GossipStream := mkGossipStream [frame_bytes TypeChatMessage (ser env1)] false.
Definition st1 : ServicesState bytes := mkServicesState [inl text] (NewManager, []).

Lemma stream1_packet :
  handleGossipStream (W:=bytes) (cb_onData AddPeer_callbacks) (NewPeerWrapper 9) stream1 d1
  = Some (Ok (), PushMessage env1 (zero_array 32) d1).
Proof. vm_compute. reflexivity. Qed.

#[local] Instance services1 : Handler Service (ServicesState bytes) :=
  services_of sw order msgID (mk_uint 64 0) (inl ()) (inl ()) ms1.

#[local] Instance services1_once : SingleAccess Service (ServicesState bytes) :=
  services_of_once sw order msgID (mk_uint 64 0) (inl ()) (inl ()) ms1.

Lemma packet1_logged :
  processPacket d1 (mkIngressPacket env1 (zero_array 32)) st0 = (Ok (), st1).
Proof. vm_compute. reflexivity. Qed.

Lemma node_log_provenance_witness :
  ∃ ig : Ingress (S:=store) (W:=bytes) (H:=Service) (T:=ServicesState bytes),
    ns_log (w_state (in_world ig)) = [inl text]
    ∧ ∃ p r pkt, (p, r) ∈ in_received ig ∧ peer_connection ig p ∧ packet_of r = Some pkt
                 ∧ line_of ms1 pkt (inl text).
Proof.
  destruct accept1_ok as (E1 & E2 & E3).
  destruct (one_message (W:=bytes) addr q1 (n_ID (ns_node node1)) key (ns_db node1)
              (sv (cfg_MaxConnections cfg)) (handlers d1) 1 st0 st1 9 nB rB stream1 [] accept1.2 ev1
              env1 E3 (run_eq _ _ _ E1) E2 eq_refl eq_refl stream1_packet packet1_logged)
    as (ig & Hrun & Hst).
  exists ig. rewrite Hst. split; [reflexivity|].
  destruct (node_log_provenance addr sw order msgID (mk_uint 64 0) (inl ()) (inl ()) cfg (su "one" 2)
              (str "password") ∅ [] node1 q1 d1 ms1 (NewManager, []) ig no_log
              (run_eq _ _ _ start1_ok) node1_dispatcher node1_messenger node1_transport Hrun)
    as [(srcs & Hin & Hf) _].
  rewrite Hst in Hf. cbn [ns_log st1] in Hf.
  apply Forall2_cons_inv_r in Hf as ([p r] & srcs' & (Hp & pkt & Hpkt & Hl) & _ & ->).
  exists p, r, pkt. split; [|split; [exact Hp|split; [exact Hpkt|exact Hl]]].
  eapply elem_of_submseteq; [|exact Hin]. apply list_elem_of_here.
Defined.
End NodeIngressWitness.
