(* ===== verification/Main.v ===== *)
(** * The program: cmd/app/main.go

    The command asks for a password, starts a node and waits for a signal.  What
    the user types is a sequence of runes; [fmt.Scanln] is written out. *)

From Stdlib Require Import ZArith Lia.
From S2P Require Import Prelude Sha2 Types Proto ToyCodec Config Storage Signature Engine KeyStore.
From S2P Require Import Identity Tls Transport Dispatcher Swarm Logger Node.

(** ** fmt.Scanln into a string *)
Module Scan.

(** The spaces of package fmt. *)
Definition isSpace (r : Z) : bool :=
  (((9 <=? r) && (r <=? 13)) || (r =? 32) || (r =? 133) || (r =? 160) || (r =? 5760)
  || ((8192 <=? r) && (r <=? 8202)) || (r =? 8232) || (r =? 8233) || (r =? 8239)
  || (r =? 8287) || (r =? 12288))%Z.

Definition newline : Z := 10%Z.

(** The word up to the next space, or the end of the input. *)
Fixpoint token (l : list Z) : list Z :=
  match l with r :: l => if isSpace r then [] else r :: token l | [] => [] end.

(** Spaces are skipped; a newline, or the end, before a word is an error. *)
Fixpoint Scanln (l : list Z) : option (list Z) :=
  match l with
  | [] => None
  | r :: l' =>
      if (r =? newline)%Z then None
      else if isSpace r then Scanln l'
      else Some (token l)
  end.

(** The UTF-8 form of a rune. *)
Definition encode (r : Z) : bytes :=
  (if r <? 128 then [Zb r]
  else if r <? 2048 then [Zb (192 + r / 64); Zb (128 + r mod 64)]
  else if r <? 65536 then
    [Zb (224 + r / 4096); Zb (128 + (r / 64) mod 64); Zb (128 + r mod 64)]
  else
    [Zb (240 + r / 262144); Zb (128 + (r / 4096) mod 64); Zb (128 + (r / 64) mod 64);
     Zb (128 + r mod 64)])%Z.
End Scan.

(** The runes of an ASCII text. *)
Definition runes (s : string) : list Z := bZ <$> str s.

(** What the program prints: a line, or ["Fatal error: %v"] with the error. *)
Inductive printed := Line (text : string) | FatalError (err : gerror).

(** ** main *)

Record Process (F S : Type) := mkProcess {
  pr_files : F;
  pr_db : S;
  pr_node : option (Node S);
  pr_log : list LogEntry;         (* the channel of the node's log *)
  pr_out : list printed           (* what was printed *)
}.
Arguments mkProcess {F S} _ _ _ _ _.
Arguments pr_files {F S} _.
Arguments pr_db {F S} _.
Arguments pr_node {F S} _.
Arguments pr_log {F S} _.
Arguments pr_out {F S} _.

Section main.
Context {F S : Type} `{FileSystem F} `{Storage S} `{Codec EncryptedPrivateKey} `{KeyLib}
        `{Ed25519} `{EngineLib} `{X509} `{Net}.

Abbreviation MP := (M (Process F S)).

Definition Print (x : printed) : MP unit := λ p,
  (Ok (), mkProcess (pr_files p) (pr_db p) (pr_node p) (pr_log p) (pr_out p ++ [x])).

(** A method of the node that [main] has made. *)
Definition on_node {A} (m : M (NodeState S) A) : MP A := λ p,
  match pr_node p with
  | None => (Panic PanicNil, p)
  | Some n =>
      let '(r, st) := m (mkNodeState n (pr_db p) (pr_log p)) in
      (r, mkProcess (pr_files p) (ns_db st) (Some (ns_node st)) (ns_LogChan st) (pr_out p))
  end.

(** The goroutine that prints the log takes one entry. *)
Definition print_entry (p : Process F S) : Process F S :=
  match pr_log p with
  | [] => p
  | e :: log =>
      mkProcess (pr_files p) (pr_db p) (pr_node p) log
        (pr_out p ++ [Line ("[" +:+ le_Time e +:+ "] " +:+ le_Level e +:+ ": " +:+ le_Message e)%string])
  end.

Definition with_paths (cfg : AppConfig) : AppConfig :=
  mkAppConfig (Callsign cfg) (KeyPath cfg) "0.0.0.0:4242" (BootstrapNodes cfg)
    (cfg_MaxConnections cfg) (ProtocolVersion cfg) (EnableMDNS cfg) "./data" (DownloadsDir cfg)
    (AnonymousMode cfg) (HideTraffic cfg).

(** The error of [Scanln] is ignored and leaves [password] empty. *)
Definition read_password (stdin : list Z) : bytes :=
  match Scan.Scanln stdin with
  | Some word => concat (Scan.encode <$> word)
  | None => []
  end.

Definition main (stdin : list Z) (su : Startup) : MP unit :=
  cfg ← zoom pr_files
    (λ f p, mkProcess f (pr_db p) (pr_node p) (pr_log p) (pr_out p)) DefaultConfig;
  _ ← (λ p, (Ok (), mkProcess (pr_files p) (pr_db p) (Some (NewNode (with_paths cfg))) (pr_log p)
                      (pr_out p)));
  _ ← Print (Line "Enter password to unlock identity:");
  let password := read_password stdin in
  started ← try (on_node (Node_Start su password));
  match started with
  | inr err => _ ← Print (FatalError err); lift (Panic (Exit 1))
  | inl _ =>
      (* a signal arrives *)
      _ ← Print (Line (String (Ascii.Ascii false true false true false false false false) "Shutting down EchoFog..."));
      on_node (Node_Stop (su_time su))
  end.
End main.

(** ** Properties *)

Lemma token_word w rest :
  Forall (λ r, Scan.isSpace r = false) w → (∀ r l, rest = r :: l → Scan.isSpace r = true) →
  Scan.token (w ++ rest) = w.
Proof.
  intros Hw Hr. induction Hw as [|r w E _ IH]; cbn.
  - destruct rest as [|r l]; [done|]. cbn. by rewrite (Hr r l).
  - by rewrite E, IH.
Qed.

Lemma Scanln_word w rest :
  w ≠ [] → Forall (λ r, Scan.isSpace r = false) w →
  (∀ r l, rest = r :: l → Scan.isSpace r = true) → Scan.Scanln (w ++ rest) = Some w.
Proof.
  intros Hne Hw Hr. pose proof (token_word w rest Hw Hr) as Ht.
  destruct w as [|r w]; [done|]. apply Forall_cons in Hw as [E _].
  cbn [app Scan.Scanln] in *. rewrite E.
  destruct (Z.eqb_spec r Scan.newline) as [->|]; [done|]. by rewrite Ht.
Qed.

Lemma Scanln_spaces sp l :
  Forall (λ r, Scan.isSpace r = true ∧ r ≠ Scan.newline) sp → Scan.Scanln (sp ++ l) = Scan.Scanln l.
Proof.
  induction 1 as [|r sp [E Hn] _ IH]; [done|]. cbn [app Scan.Scanln].
  apply Z.eqb_neq in Hn. by rewrite Hn, E, IH.
Qed.

(** Only the first word of a passphrase counts: whatever the user types
    after it, and whatever spaces before it, the program does exactly what it
    does for that word alone; and an empty line is the empty password. *)
Theorem main_first_word {F S : Type} `{FileSystem F, Storage S, Codec EncryptedPrivateKey, KeyLib,
    Ed25519, EngineLib, X509, Net} (sp w rest : list Z) (gap : Z) (su : Startup) (p : Process F S)
    (Hsp : Forall (λ r, Scan.isSpace r = true ∧ r ≠ Scan.newline) sp) (Hne : w ≠ [])
    (Hw : Forall (λ r, Scan.isSpace r = false) w) (Hgap : Scan.isSpace gap = true) :
  main (sp ++ w ++ gap :: rest) su p = main w su p
  ∧ read_password (sp ++ w ++ gap :: rest) = concat (Scan.encode <$> w)
  ∧ read_password (sp ++ [Scan.newline]) = [].
Proof.
  assert (Scan.Scanln (sp ++ w ++ gap :: rest) = Some w) as E1.
  { rewrite Scanln_spaces by done. apply Scanln_word; [done..|]. by intros r l [= <- _]. }
  assert (Scan.Scanln w = Some w) as E2.
  { rewrite <- (app_nil_r w) at 1. by apply Scanln_word. }
  unfold main, read_password. rewrite E1, E2, Scanln_spaces by done. done.
Qed.

Module MainWitness.
Import ToySig ToyEngine ToyKeys ToyX509 ToyNet ToyBadger BadgerStorage ToyConfig.

Definition init : Process files store := mkProcess ∅ ∅ None [] [].

Lemma main_first_word_witness :
  main (runes "correct horse") (NodeWitness.su "one" 2) init
  = main (runes "correct") (NodeWitness.su "one" 2) init.
Proof.
  refine (proj1 (main_first_word [] (runes "correct") (runes "horse") 32%Z (NodeWitness.su "one" 2)
                   init _ _ _ _)).
  - apply Forall_nil_2.
  - discriminate.
  - repeat (apply Forall_cons; split; [reflexivity|]). apply Forall_nil_2.
  - reflexivity.
Defined.
End MainWitness.
