(* ===== verification/Network.v ===== *)
(** * A network of nodes: chat messages between any number of them

    The composition of the components for any number of honest nodes, each with
    its key, its encryption engine, its gossip manager, its dispatcher with
    workers, and its log.  A step is a [Messenger.Send] of a user, the
    transmission of one message to one peer, its loss, its arrival at the peer's
    dispatcher, or a step of a worker; they interleave in any way, and whom a
    node is connected to may change from one broadcast to the next. *)

From Stdlib Require Import ZArith Lia.
From stdpp Require Import relations functions.
From S2P Require Import Prelude Task Sha2 Types Proto ToyCodec Storage Frame Signature Engine Handshake.
From S2P Require Import Dispatcher Stream Sessions Swarm Gossip Messenger Discovery Node.

(** A call of [Messenger.Send], with the peers it was broadcast to. *)
Record Sent (I : Type) := mkSent {
  s_from : I;
  s_to : PeerPublicKey;
  s_text : bytes;
  s_id : MessageID;
  s_peers : list PeerID
}.
Arguments mkSent {I} _ _ _ _ _.
Arguments s_from {I} _.
Arguments s_to {I} _.
Arguments s_text {I} _.
Arguments s_id {I} _.
Arguments s_peers {I} _.

(** A transmission: the node it comes from and the goroutine of its gossip
    manager. *)
Abbreviation Transmission I := (I * Sending)%type.

Record Network (I W : Type) := mkNetwork {
  nw_world : I → World Service (ServicesState W);
  nw_wire : list (Transmission I * bytes);               (* written, not yet read *)
  nw_done : list (Transmission I);                       (* goroutines that have run *)
  nw_arrived : I → list (IngressPacket * Transmission I);  (* history: what was queued *)
  nw_sent : list (Sent I)                               (* history: what users sent *)
}.
Arguments mkNetwork {I W} _ _ _ _ _.
Arguments nw_world {I W} _.
Arguments nw_wire {I W} _.
Arguments nw_done {I W} _.
Arguments nw_arrived {I W} _.
Arguments nw_sent {I W} _.

Section network.
Context {I S W : Type} `{EqDecision I} `{WriterLaws W} `{!ReliableWriter W} `{UuidLaws}
        `{CodecLaws MessageData} `{CodecLaws Envelope} `{Ed25519Laws} `{!EngineLib} `{!EngineLaws}.

(** The nodes, and what the discovery service of a node would use. *)
Variables (key : I → PeerPrivateKey) (engine : I → Engine) (cpus : I → Z).
Variables (swD : Swarm S) (orderD : list (PeerID * ptr)) (idD : MessageID) (nowD : uint 64)
          (openedD closedD : unit + gerror).

Definition pub (i : I) : PeerPublicKey := PeerPrivateKeyToPublic (key i).
Definition nid (i : I) : PeerID := PeerPubKeyToID (pub i).
Definition svc (i : I) : MessageService := mkMessageService (engine i) (key i).
Definition disp (i : I) : Dispatcher Service :=
  register_all (NewDispatcher (cpus i)) [SvcDiscovery; SvcMessenger].
Definition handler (i : I) : Handler Service (ServicesState W) :=
  node_handler swD orderD (svc i) idD nowD openedD closedD.
#[local] Instance handler_once i : @SingleAccess Service (ServicesState W) (handler i) :=
  node_handler_once swD orderD (svc i) idD nowD openedD closedD.
Definition work (i : I) : World Service (ServicesState W) → World Service (ServicesState W) → Prop :=
  @Dispatcher.worker_step _ _ (handler i) _ _.

Definition mgr (w : World Service (ServicesState W)) : Manager := (ns_gossip (w_state w)).1.
Definition set_mgr (g : Manager) (w : World Service (ServicesState W)) :
    World Service (ServicesState W) :=
  mkWorld (w_disp w) (w_workers w)
    (mkServicesState (ns_log (w_state w)) (g, (ns_gossip (w_state w)).2)) (w_accepted w) (w_taken w)
    (w_processed w).

(** The packets that a push has added to a queue. *)
Definition added (d d' : Dispatcher Service) : list IngressPacket :=
  drop (length (ingressChan d)) (ingressChan d').
Definition set_disp (d' : Dispatcher Service) (w : World Service (ServicesState W)) :
    World Service (ServicesState W) :=
  mkWorld d' (w_workers w) (w_state w) (w_accepted w ++ added (w_disp w) d') (w_taken w)
    (w_processed w).

Definition initial (w0 : W) : Network I W :=
  mkNetwork (λ i, Start (disp i) (mkServicesState [] (NewManager, w0))) [] [] (λ _, []) [].

(** [users] tells whether users send, [faults] whether transmissions can fail or
    be lost. *)
Inductive net_step (users faults : Prop) : Network I W → Network I W → Prop :=
(* a user sends: MessageService.Send, up to Broadcast *)
| nw_send nodes wire dn arr sent i to text rnd id now (sw : Swarm S) order g' :
    users → iterates sw order → NoDup (ids sw order) →
    Messenger_Send (svc i) sw order rnd id now to text (mgr (nodes i)) = (Ok (), g') →
    net_step users faults (mkNetwork nodes wire dn arr sent)
      (mkNetwork (<[i := set_mgr g' (nodes i)]> nodes) wire dn arr
         (sent ++ [mkSent i to text id (ids sw order)]))
(* a goroutine that Broadcast has started: Swarm.SendDataForPeer *)
| nw_transmit nodes wire dn arr sent i x (sw : Swarm S) opened closed w w' frame :
    x ∈ started (mgr (nodes i)) → (i, x) ∉ dn → myPrivKey sw = key i →
    SendDataForPeer sw (to_peer x) opened closed (sending_type x) (sending_msg x) w = (Ok (), w') →
    written w' = written w ++ frame →
    net_step users faults (mkNetwork nodes wire dn arr sent)
      (mkNetwork nodes (wire ++ [((i, x), frame)]) (dn ++ [(i, x)]) arr sent)
| nw_fail nodes wire dn arr sent i x :
    faults → x ∈ started (mgr (nodes i)) → (i, x) ∉ dn →
    net_step users faults (mkNetwork nodes wire dn arr sent)
      (mkNetwork nodes wire (dn ++ [(i, x)]) arr sent)
| nw_lose nodes wire wire' dn arr sent e :
    faults → wire ≡ₚ e :: wire' →
    net_step users faults (mkNetwork nodes wire dn arr sent)
      (mkNetwork nodes wire' dn arr sent)
(* the receiver reads the stream: handleGossipStream with the callback onData *)
| nw_arrive nodes wire wire' dn arr sent j e frame (p : PeerWrapper W) (r : GossipStream) d' :
    wire ≡ₚ (e, frame) :: wire' → to_peer e.2 = nid j →
    concat (gs_data r) = frame → (Z.of_nat (length frame) < 2 ^ 32)%Z →
    handleGossipStream (Some onData) p r (w_disp (nodes j)) = Some (Ok (), d') →
    net_step users faults (mkNetwork nodes wire dn arr sent)
      (mkNetwork (<[j := set_disp d' (nodes j)]> nodes) wire' dn
         (<[j := arr j ++ ((λ q, (q, e)) <$> added (w_disp (nodes j)) d')]> arr) sent)
(* a worker of a dispatcher *)
| nw_work nodes wire dn arr sent j w' :
    work j (nodes j) w' →
    net_step users faults (mkNetwork nodes wire dn arr sent)
      (mkNetwork (<[j := w']> nodes) wire dn arr sent).

(** The workers of one node run. *)
Lemma work_runs users faults nodes wire dn arr sent j w w' :
  rtc (work j) w w' → nodes j = w →
  ∃ nodes', rtc (net_step users faults) (mkNetwork nodes wire dn arr sent)
              (mkNetwork nodes' wire dn arr sent) ∧ nodes' j = w'.
Proof.
  intros Hr. revert nodes. induction Hr as [w|w w1 w2 St _ IH]; intros nodes Hj; [by exists nodes|].
  destruct (IH (<[j := w1]> nodes)) as (nodes' & Hrun & Hw); [by rewrite fn_lookup_insert|].
  exists nodes'. split; [|done]. eapply rtc_l; [|exact Hrun]. apply nw_work. by rewrite Hj.
Qed.

(** ** What is known of a transmission *)

Hypothesis Hkey : ∀ i, key_pair (key i).
Hypothesis Hengine : ∀ i, NewEngine (arr (key i)) = Ok (engine i).

(** It carries what a user has sent, encrypted. *)
Definition carries (e : Transmission I) (t : Sent I) : Prop :=
  s_from t = e.1 ∧ to_peer e.2 ∈ s_peers t ∧ sending_type e.2 = TypeChatMessage
  ∧ ∃ rnd now ct, Encrypt (engine e.1) rnd (s_text t) (s_to t) = Ok ct
    ∧ sending_msg e.2 = set_HopLimit
        (PackChatMessage (s_id t) now ct (arr (pub e.1)) (arr (s_to t))) (mk_uint 32 19).

Definition signed (env : Envelope) (e : Transmission I) : Prop :=
  Envelope_PubKey env = arr (pub e.1)
  ∧ VerifySignature (pub e.1) (Envelope_Data env) (Envelope_Signature env) = true
  ∧ unmarshal (Envelope_Data env) = inl (sending_msg e.2).

(** The line that the messenger of [j] logs for it. *)
Definition line_of (j : I) (e : Transmission I) : LogLine :=
  match MessageData_Payload (sending_msg e.2) with
  | Some (MessageData_ChatMessage c) =>
      match Decrypt (engine j) (ChatMessage_EncryptedPayload c) (pub e.1) with
      | Ok text => inl text
      | Err err => inr err
      | Panic _ => inr EOF
      end
  | _ => inr EOF
  end.

Lemma line_addressed j e t : carries e t → s_to t = pub j → line_of j e = inl (s_text t).
Proof.
  intros (Hf & _ & _ & rnd & now & ct & Henc & Hm) Hto. unfold line_of. rewrite Hm.
  cbn [set_HopLimit PackChatMessage MessageData_Payload ChatMessage_EncryptedPayload].
  rewrite Hto in Henc. unfold pub in *.
  by rewrite (engines_agree (key e.1) (key j) (engine e.1) (engine j) rnd (s_text t) ct
                (Hkey _) (Hkey _) (Hengine _) (Hengine _) Henc).
Qed.

Lemma process_signed j d p e t (st : ServicesState W) :
  handlers d = handlers (disp j) → signed (ip_Envelope p) e → carries e t →
  @processPacket _ _ (handler j) _ _ d p st
  = (Ok (), mkServicesState (ns_log st ++ [line_of j e]) (ns_gossip st)).
Proof.
  intros Hh (Hk & Hv & Hu) (_ & _ & _ & rnd & now & ct & _ & Hm).
  destruct p as [[data sig pk] id]. cbn in Hk, Hv, Hu. subst pk.
  rewrite (@processPacket_signed _ _ (handler j) _ _ d (pub e.1) data sig (sending_msg e.2)) by done.
  unfold route. rewrite Hh. unfold line_of. rewrite Hm.
  change (reflect_TypeOf _) with (Some T_ChatMessage).
  change (handlers (disp j) !! Some T_ChatMessage) with (Some SvcMessenger).
  unfold Handle, handler, node_handler, service_Handle, zoom, Messenger_Handle.
  cbn [set_HopLimit PackChatMessage MessageData_Payload ChatMessage_EncryptedPayload
       MessageData_OriginId cryptoEngine svc].
  run_M. rewrite to_array_arr.
  pose proof (Decrypt_no_panic (engine j) ct (pub e.1)) as Hn.
  destruct (Decrypt _ _ _); done.
Qed.

(** Its task is the access to the log. *)
Lemma task_signed j d p e t (st : ServicesState W) :
  handlers d = handlers (disp j) → signed (ip_Envelope p) e → carries e t →
  ∃ f k, @processPacket_task _ _ (handler j) _ _ d p = Access f k.
Proof.
  intros Hh Hs Hc. destruct (@processPacket_task _ _ (handler j) _ _ d p) as [r|f k] eqn:E; [exfalso|eauto].
  pose proof (process_signed j d p e t st Hh Hs Hc) as Hr.
  rewrite <- (@run_processPacket_task _ _ (handler j)), E in Hr.
  pose proof (f_equal (λ x, length (ns_log x.2)) Hr) as El.
  cbn in El. rewrite length_app in El. cbn in El. lia.
Qed.

(** ** One node

    [arr] is what has arrived at [j]. *)
Record node_inv (j : I) (arr : list (IngressPacket * Transmission I))
    (w : World Service (ServicesState W)) : Prop := {
  ni_accepted : w_accepted w = arr.*1;
  ni_signed : ∀ p e, (p, e) ∈ arr → signed (ip_Envelope p) e;
  ni_world : world_inv (workersNum (disp j)) w;
  ni_handlers : handlers (w_disp w) = handlers (disp j);
  ni_tasks : Forall (@task_ok _ _ (handler j) _ _ (disp j)) (w_workers w);
  ni_log : ∃ qs hs, qs ++ hs ≡ₚ take (length (w_taken w)) arr
                    ∧ hs.*1 ≡ₚ held_packets (w_workers w)
                    ∧ ns_log (w_state w) = line_of j <$> qs.*2
}.

Lemma node_inv_start j (st : ServicesState W) :
  ns_log st = [] → node_inv j [] (Start (disp j) st).
Proof.
  intros E. split; cbn; try done.
  - by intros p e ?%elem_of_nil.
  - apply (Start_inv (disp j) st). apply Nat.le_0_l.
  - by apply Forall_replicate.
  - exists [], []. unfold Start, held_packets. cbn [w_workers w_state w_taken].
    by rewrite omap_replicate_None, E.
Qed.

Lemma node_inv_mgr j arr g w : node_inv j arr w → node_inv j arr (set_mgr g w).
Proof. by intros [? ? [? ? ? ? ?] ? ? ?]. Qed.

Lemma PushMessage_added (d : Dispatcher Service) env id :
  added d (PushMessage env id d)
  = if decide (length (ingressChan d) < ingress_cap) then [mkIngressPacket env id] else [].
Proof.
  unfold added, PushMessage. case_decide; cbn; [by rewrite drop_app_length|].
  by rewrite drop_ge.
Qed.

Lemma node_inv_push j arr env id e w :
  let d' := PushMessage env id (w_disp w) in
  signed env e → node_inv j arr w →
  node_inv j (arr ++ ((λ q, (q, e)) <$> added (w_disp w) d')) (set_disp d' w).
Proof.
  intros d' He [Ha Hs [Hc Hf Hl Ho Hpr] Hh Ht (qs & hs & Hq & Hhd & Hlog)].
  subst d'. unfold set_disp. rewrite !PushMessage_added.
  assert (length (w_taken w) <= length arr) as Hlen.
  { apply (f_equal length) in Hf. rewrite Ha in Hf. rewrite length_app, length_fmap in Hf. lia. }
  split; cbn [w_disp w_workers w_state w_accepted w_taken w_processed].
  - rewrite fmap_app, Ha. f_equal. by case_decide.
  - intros p e' [Hin|Hin]%elem_of_app; [by apply Hs|].
    case_decide; [|by apply elem_of_nil in Hin].
    apply list_elem_of_singleton in Hin. by injection Hin as -> ->.
  - split; cbn; [| |done..].
    + unfold PushMessage. case_decide; cbn; [rewrite length_app; cbn; lia|done].
    + unfold PushMessage. case_decide; cbn.
      * by rewrite app_assoc, Hf.
      * by rewrite app_nil_r.
  - unfold PushMessage. by case_decide.
  - done.
  - exists qs, hs. by rewrite take_app_le.
Qed.

Lemma lookup_arrived j arr w p rest :
  node_inv j arr w → ingressChan (w_disp w) = p :: rest →
  ∃ e, arr !! length (w_taken w) = Some (p, e).
Proof.
  intros [Ha _ [_ Hf _ _ _] _ _ _] Hq. rewrite Hq, Ha in Hf.
  assert (arr.*1 !! length (w_taken w) = Some p) as E.
  { rewrite <- Hf. rewrite lookup_app_r, Nat.sub_diag by lia. done. }
  apply list_lookup_fmap_Some in E as ([p' e] & -> & E). by exists e.
Qed.

(** A packet in hand has arrived. *)
Lemma held_arrived j arr w p :
  node_inv j arr w → p ∈ held_packets (w_workers w) → ∃ e, (p, e) ∈ arr.
Proof.
  intros [_ _ _ _ _ (qs & hs & Hq & Hhd & _)] Hp. rewrite <- Hhd in Hp.
  apply list_elem_of_fmap in Hp as ([p' e] & -> & Hin). exists e.
  eapply elem_of_sublist; [|apply sublist_take]. rewrite <- Hq. apply elem_of_app. by right.
Qed.

Lemma elem_of_held (ws : list (worker (ServicesState W))) i x p :
  ws !! i = Some x → in_hand x = Some p → p ∈ held_packets ws.
Proof. intros Hi Hx. apply list_elem_of_omap. exists x. split; [by eapply list_elem_of_lookup_2|done]. Qed.

(** The log, when the packets in hand stay what they were, or one is done with. *)
Definition log_ok (j : I) arr tk (ws : list (worker (ServicesState W)))
    (st : ServicesState W) : Prop :=
  ∃ qs hs, qs ++ hs ≡ₚ take tk arr ∧ hs.*1 ≡ₚ held_packets ws ∧ ns_log st = line_of j <$> qs.*2.

Lemma log_same j arr tk ws st i x y :
  ws !! i = Some x → in_hand x = in_hand y → log_ok j arr tk ws st → log_ok j arr tk (<[i := y]> ws) st.
Proof.
  intros Hi E (qs & hs & Hq & Hhd & Hlog). exists qs, hs. split_and!; [done| |done].
  by rewrite Hhd, (held_same ws i x y Hi E).
Qed.

Lemma log_done j arr tk ws st f i x y p :
  ws !! i = Some x → in_hand x = Some p → in_hand y = None →
  (∀ e, (p, e) ∈ arr → ns_log (f st) = ns_log st ++ [line_of j e]) →
  log_ok j arr tk ws st → log_ok j arr tk (<[i := y]> ws) (f st).
Proof.
  intros Hi Ex Ey Hf (qs & hs & Hq & Hhd & Hlog). rewrite (held_loss ws i x y p Hi Ex Ey) in Hhd.
  assert (p ∈ hs.*1) as ([p' e] & -> & Hin)%list_elem_of_fmap by (rewrite Hhd; by left).
  apply elem_of_Permutation in Hin as [hs' Hhs]. cbn [fst] in *.
  assert ((p', e) ∈ arr) as Harr.
  { eapply elem_of_sublist; [|apply sublist_take]. rewrite <- Hq, Hhs. apply elem_of_app. right. by left. }
  exists (qs ++ [(p', e)]), hs'. split_and!.
  - by rewrite <- app_assoc, <- Hq, Hhs.
  - rewrite Hhs in Hhd. cbn in Hhd. by apply Permutation_cons_inv in Hhd.
  - by rewrite (Hf e Harr), !fmap_app, Hlog.
Qed.

Lemma node_inv_work j arr w w' :
  (∀ p e, (p, e) ∈ arr → ∃ t, carries e t) → work j w w' → node_inv j arr w →
  node_inv j arr w' ∧ mgr w' = mgr w.
Proof.
  intros Hc St Hinv. pose proof Hinv as [Ha Hs Hw Hh Ht Hlog].
  pose proof (@worker_step_inv _ _ (handler j) _ _ _ _ _ St Hw) as Hw'.
  destruct (@step_tasks _ _ (handler j) _ _ _ (disp j) _ _ (@step_worker _ _ (handler j) _ _ _ _ St) Hh Ht)
    as [Hh' Ht'].
  assert (∀ p, p ∈ held_packets (w_workers w) → ∃ e t, (p, e) ∈ arr ∧ signed (ip_Envelope p) e
               ∧ carries e t) as Hheld.
  { intros p (e & He)%(held_arrived j arr w); [|done].
    destruct (Hc p e He) as [t Hcar]. exists e, t. split_and!; [done|by apply Hs|done]. }
  destruct St as [i p rest d ws st acc tk pr Hi Hch|i p d ws st acc tk pr Hi
                 |i p f k d ws st acc tk pr Hi|i p d ws st acc tk pr Hi|i d ws st acc tk pr Hi _];
    cbn [w_workers w_state w_taken w_accepted w_disp] in *.
  - split; [|done]. destruct (lookup_arrived _ _ _ _ _ Hinv Hch) as [e Hle]. cbn in *.
    split; [done..|]. destruct Hlog as (qs & hs & Hq & Hhd & Hlog).
    exists qs, ((p, e) :: hs). split_and!; [| |done]; cbn.
    + rewrite length_app. cbn. rewrite Nat.add_1_r, (take_S_r _ _ _ Hle), <- Hq.
      rewrite <- app_assoc. apply Permutation_app_head, Permutation_cons_append.
    + by rewrite Hhd, (held_gain ws i Waiting (Processing p) p Hi).
  - split; [|done]. destruct (Hheld p) as (e & t & _ & Hsg & Hcar); [by eapply elem_of_held|].
    destruct (task_signed j d p e t st Hh Hsg Hcar) as (f & k & Ek).
    split; [done..|]. eapply log_same; [exact Hi| |exact Hlog]. by rewrite Ek.
  - destruct (@access_processes _ _ (handler j) _ _ _ (disp j) p f k st) as [Ek Ep];
      [exact (Forall_lookup_1 _ _ _ _ Ht Hi)|].
    assert (p ∈ held_packets ws) as Hp by by eapply elem_of_held.
    assert (∀ e, (p, e) ∈ arr →
              f st = mkServicesState (ns_log st ++ [line_of j e]) (ns_gossip st)) as Hf.
    { intros e He. destruct (Hc p e He) as [t Hcar].
      rewrite (process_signed j (disp j) p e t st eq_refl (Hs p e He) Hcar) in Ep. by injection Ep as <-. }
    split.
    + split; [done..|]. eapply log_done; [exact Hi|done|by rewrite Ek| |exact Hlog].
      intros e He. by rewrite (Hf e He).
    + destruct (Hheld p Hp) as (e & _ & He & _). unfold mgr. cbn. by rewrite (Hf e He).
  - split; [|done]. split; [done..|]. by eapply log_same.
  - split; [|done]. split; [done..|]. by eapply log_same.
Qed.

(** ** The network *)

(** What the transmission writes. *)
Definition is_frame (e : Transmission I) (frame : bytes) : Prop :=
  ∃ env bs, signMessageData (key e.1) (sending_msg e.2) = Ok env ∧ marshal env = inl bs
    ∧ frame = frame_bytes (sending_type e.2) bs.

Record net_inv (nw : Network I W) : Prop := {
  iv_gossip : ∀ i, gossip_inv (mgr (nw_world nw i));
  iv_started : ∀ i x, x ∈ started (mgr (nw_world nw i)) →
               ∃ t, t ∈ nw_sent nw ∧ carries (i, x) t;
  iv_done : ∀ i x, (i, x) ∈ nw_done nw → x ∈ started (mgr (nw_world nw i));
  iv_wire : NoDup (nw_wire nw).*1 ∧ (nw_wire nw).*1 ⊆ nw_done nw;
  iv_arrived : ∀ j, NoDup (nw_arrived nw j).*2 ∧ (nw_arrived nw j).*2 ⊆ nw_done nw
               ∧ (∀ e, e ∈ (nw_arrived nw j).*2 → e ∉ (nw_wire nw).*1)
               ∧ ∀ e, e ∈ (nw_arrived nw j).*2 → to_peer e.2 = nid j;
  iv_frames : ∀ e frame, (e, frame) ∈ nw_wire nw → is_frame e frame;
  iv_node : ∀ j, node_inv j (nw_arrived nw j) (nw_world nw j)
}.

Lemma network_initial_inv w0 : net_inv (initial w0).
Proof.
  split; cbn; try done.
  - intros i. split; [constructor|by intros x ?%elem_of_nil].
  - by intros i x ?%elem_of_nil.
  - by intros i x ?%elem_of_nil.
  - split; [constructor|done].
  - intros j. split_and!; [constructor|done|by intros e ?%elem_of_nil..].
  - by intros e fr ?%elem_of_nil.
  - intros j. by apply node_inv_start.
Qed.

(** A transmission that was started carries what was sent, now and later. *)
Lemma arrived_carry nw j p e :
  net_inv nw → (p, e) ∈ nw_arrived nw j → ∃ t, t ∈ nw_sent nw ∧ carries e t.
Proof.
  intros Hinv Hin. destruct (iv_arrived _ Hinv j) as (_ & Hd & _).
  destruct e as [i x]. apply (iv_started _ Hinv i x), (iv_done _ Hinv), Hd.
  apply list_elem_of_fmap. by exists (p, (i, x)).
Qed.

(** What [Messenger.Send] does to a manager. *)
Lemma Send_started i to text rnd id now (sw : Swarm S) order g g' :
  iterates sw order → NoDup (ids sw order) →
  Messenger_Send (svc i) sw order rnd id now to text g = (Ok (), g') →
  (gossip_inv g → gossip_inv g')
  ∧ (∀ x, x ∈ started g → x ∈ started g')
  ∧ ∀ x, x ∈ started g' → x ∈ started g
         ∨ carries (i, x) (mkSent i to text id (ids sw order)).
Proof.
  intros Hit Hnd Hrun. split_and!.
  - intros Hg. unfold Messenger_Send, mbind, M_bind, lift in Hrun.
    destruct (Encrypt _ _ _ _) as [ct|e|q]; [|done..].
    pose proof (Broadcast_inv sw order TypeChatMessage (PackChatMessage id now ct
      (arr (PeerPrivateKeyToPublic (ms_myPrivKey (svc i)))) (arr to)) g Hnd Hg) as Hb.
    destruct (Broadcast _ _ _ _ g) as [[m|e|q] g1]; [|done..]. by injection Hrun as <-.
  - intros x Hx. destruct (decide (id ∈ seenCache g)) as [Hs|Hn].
    + by rewrite (Messenger_Send_seen _ _ _ _ _ _ _ _ _ _ Hs Hrun).
    + destruct (Messenger_Send_started _ _ _ _ _ _ _ _ _ _ Hit Hn Hrun) as (ct & _ & Hg).
      cbv zeta in Hg. rewrite Hg. apply elem_of_app. by left.
  - intros x Hx. destruct (decide (id ∈ seenCache g)) as [Hs|Hn].
    + left. by rewrite (Messenger_Send_seen _ _ _ _ _ _ _ _ _ _ Hs Hrun) in Hx.
    + destruct (Messenger_Send_started _ _ _ _ _ _ _ _ _ _ Hit Hn Hrun) as (ct & Henc & Hg).
      cbv zeta in Hg. rewrite Hg in Hx. apply elem_of_app in Hx as [Hx|Hx]; [by left|right].
      apply list_elem_of_fmap in Hx as (pid & -> & Hpid).
      apply list_elem_of_filter in Hpid as [_ Hpid].
      split_and!; [done..|]. by exists rnd, now, ct.
Qed.

Lemma step_inv_send nodes wire dn arr sent i to text rnd id now (sw : Swarm S) order g' :
  iterates sw order → NoDup (ids sw order) →
  Messenger_Send (svc i) sw order rnd id now to text (mgr (nodes i)) = (Ok (), g') →
  net_inv (mkNetwork nodes wire dn arr sent) →
  net_inv (mkNetwork (<[i := set_mgr g' (nodes i)]> nodes) wire dn arr
             (sent ++ [mkSent i to text id (ids sw order)])).
Proof.
  intros Hit Hnd Hrun [Hg Hst Hd Hw Ha Hf Hn]. cbn in *.
  destruct (Send_started _ _ _ _ _ _ _ _ _ _ Hit Hnd Hrun) as (Hginv & Hmono & Hnew).
  assert (∀ k x, x ∈ started (mgr (nodes k)) →
            x ∈ started (mgr ((<[i := set_mgr g' (nodes i)]> nodes) k))) as Hkeep.
  { intros k x. destruct (decide (k = i)) as [->|Hne].
    - rewrite fn_lookup_insert. apply Hmono.
    - by rewrite fn_lookup_insert_ne. }
  split; cbn; try done.
  - intros k. destruct (decide (k = i)) as [->|Hne]; [|by rewrite fn_lookup_insert_ne].
    rewrite fn_lookup_insert. apply Hginv, Hg.
  - intros k x. destruct (decide (k = i)) as [->|Hne].
    + rewrite fn_lookup_insert. intros [Hx|Hx]%Hnew.
      * destruct (Hst _ _ Hx) as (t & Ht & Hc). exists t. split; [|done]. apply elem_of_app. by left.
      * eexists. split; [|exact Hx]. apply elem_of_app. right. by apply list_elem_of_singleton.
    + rewrite fn_lookup_insert_ne by done. intros Hx.
      destruct (Hst _ _ Hx) as (t & Ht & Hc). exists t. split; [|done]. apply elem_of_app. by left.
  - intros k x Hx. by apply Hkeep, Hd.
  - intros j. destruct (decide (j = i)) as [->|Hne]; [|by rewrite fn_lookup_insert_ne].
    rewrite fn_lookup_insert. by apply node_inv_mgr.
Qed.

Lemma step_inv_transmit nodes wire dn arr sent i x (sw : Swarm S) opened closed (w w' : W) frame :
  x ∈ started (mgr (nodes i)) → (i, x) ∉ dn → myPrivKey sw = key i →
  SendDataForPeer sw (to_peer x) opened closed (sending_type x) (sending_msg x) w = (Ok (), w') →
  written w' = written w ++ frame →
  net_inv (mkNetwork nodes wire dn arr sent) →
  net_inv (mkNetwork nodes (wire ++ [((i, x), frame)]) (dn ++ [(i, x)]) arr sent).
Proof.
  intros Hx Hnew Hk Hrun Hw [Hg Hst Hd [Hwn Hws] Ha Hf Hn]. cbn in *.
  destruct (SendDataForPeer_frame _ _ _ _ _ _ _ _ Hrun) as (env & bs & Hsig & Hm & Ew).
  rewrite Ew in Hw. apply app_inv_head in Hw as <-. rewrite Hk in Hsig.
  split; cbn; try done.
  - intros k y [Hy|Hy]%elem_of_app; [by apply Hd|].
    apply list_elem_of_singleton in Hy. by injection Hy as -> ->.
  - rewrite fmap_app. split.
    + apply NoDup_app. split_and!; [done| |apply NoDup_singleton].
      intros e He ->%list_elem_of_singleton. by apply Hnew, Hws.
    + intros e [He|He]%elem_of_app; apply elem_of_app; [left; by apply Hws|by right].
  - intros j. destruct (Ha j) as (A1 & A2 & A3 & A4). split_and!; [done| | |done].
    + intros e He. apply elem_of_app. left. by apply A2.
    + intros e He. rewrite fmap_app. intros [Hin|Hin]%elem_of_app; [by eapply A3|].
      apply list_elem_of_singleton in Hin as ->. by apply Hnew, A2.
  - intros e fr [Hin|Hin]%elem_of_app; [by apply Hf|].
    apply list_elem_of_singleton in Hin. injection Hin as -> ->. by exists env, bs.
Qed.

Lemma step_inv_fail nodes wire dn arr sent i x :
  x ∈ started (mgr (nodes i)) → (i, x) ∉ dn →
  net_inv (mkNetwork nodes wire dn arr sent) →
  net_inv (mkNetwork nodes wire (dn ++ [(i, x)]) arr sent).
Proof.
  intros Hx Hnew [Hg Hst Hd [Hwn Hws] Ha Hf Hn]. cbn in *. split; cbn; try done.
  - intros k y [Hy|Hy]%elem_of_app; [by apply Hd|].
    apply list_elem_of_singleton in Hy. by injection Hy as -> ->.
  - split; [done|]. intros e He. apply elem_of_app. left. by apply Hws.
  - intros j. destruct (Ha j) as (A1 & A2 & A3 & A4). split_and!; [done| |done..].
    intros e He. apply elem_of_app. left. by apply A2.
Qed.

(** Taking a transmission off the wire. *)
Lemma step_inv_lose nodes wire wire' dn arr sent e :
  wire ≡ₚ e :: wire' →
  net_inv (mkNetwork nodes wire dn arr sent) → net_inv (mkNetwork nodes wire' dn arr sent).
Proof.
  intros Hp [Hg Hst Hd [Hwn Hws] Ha Hf Hn]. cbn in *.
  assert (wire'.*1 ⊆ wire.*1) as Hsub by (intros x Hx; rewrite Hp; by right).
  split; cbn; try done.
  - split; [|by intros x Hx%Hsub%Hws]. rewrite Hp in Hwn. by apply NoDup_cons in Hwn as [_ ?].
  - intros j. destruct (Ha j) as (A1 & A2 & A3 & A4). split_and!; [done..| |done].
    intros x Hx Hin%Hsub. by eapply A3.
  - intros x fr Hin. apply Hf. rewrite Hp. by right.
Qed.

(** Reading the stream pushes the envelope of the frame. *)
Lemma arrive_push (p : PeerWrapper W) (r : GossipStream) (t : MessageType) env bs
    (d : Dispatcher Service) :
  marshal env = inl bs → (0 <= t < 256)%Z → concat (gs_data r) = frame_bytes t bs →
  (Z.of_nat (length (concat (gs_data r))) < 2 ^ 32)%Z →
  handleGossipStream (Some onData) p r d = Some (Ok (), PushMessage env (pw_peerID p) d).
Proof.
  destruct r as [r ends]. cbn [gs_data]. intros Hm Ht Hr Hlen. unfold handleGossipStream.
  destruct (readFrame_bytes t bs [] r) as (r' & Er & _); [done| |by rewrite app_nil_r|].
  { rewrite Hr in Hlen. unfold frame_bytes in Hlen.
    rewrite length_app, length_be_put in Hlen. cbn [length] in Hlen. lia. }
  rewrite (readFrame_stream_ok r ends (t, bs)) by by rewrite Er.
  unfold onData. by rewrite (unmarshal_marshal _ _ Hm).
Qed.

Lemma arrives nodes wire wire' dn arr sent j e frame (p : PeerWrapper W) (r : GossipStream) d' :
  wire ≡ₚ (e, frame) :: wire' → concat (gs_data r) = frame → (Z.of_nat (length frame) < 2 ^ 32)%Z →
  handleGossipStream (Some onData) p r (w_disp (nodes j)) = Some (Ok (), d') →
  net_inv (mkNetwork nodes wire dn arr sent) →
  ∃ env, signed env e ∧ d' = PushMessage env (pw_peerID p) (w_disp (nodes j)).
Proof.
  intros Hp Hr Hlen Hrun Hinv.
  destruct (iv_frames _ Hinv e frame) as (env & bs & Hsg & Hm & Efr); [cbn; rewrite Hp; by left|].
  exists env. split; [exact (signMessageData_verifies _ _ _ (Hkey _) Hsg)|].
  destruct (iv_wire _ Hinv) as [_ Hws]. destruct e as [i x]. cbn in *.
  assert ((i, x) ∈ dn) as Hedn by (apply Hws; rewrite Hp; by left).
  destruct (iv_started _ Hinv i x (iv_done _ Hinv _ _ Hedn)) as (t & _ & _ & _ & Ety & _).
  cbn in Ety. rewrite Ety in Efr. rewrite <- Hr in Efr, Hlen.
  rewrite (arrive_push p r TypeChatMessage env bs _ Hm) in Hrun; [|by vm_compute|done..].
  by injection Hrun as <-.
Qed.

Lemma step_inv_arrive nodes wire wire' dn arr sent j e frame (p : PeerWrapper W) (r : GossipStream) d' :
  wire ≡ₚ (e, frame) :: wire' → to_peer e.2 = nid j →
  concat (gs_data r) = frame → (Z.of_nat (length frame) < 2 ^ 32)%Z →
  handleGossipStream (Some onData) p r (w_disp (nodes j)) = Some (Ok (), d') →
  net_inv (mkNetwork nodes wire dn arr sent) →
  net_inv (mkNetwork (<[j := set_disp d' (nodes j)]> nodes) wire' dn
             (<[j := arr j ++ ((λ q, (q, e)) <$> added (w_disp (nodes j)) d')]> arr) sent).
Proof.
  intros Hp Hto Hr Hlen Hrun Hinv.
  pose proof (step_inv_lose _ _ _ _ _ _ _ Hp Hinv) as [Hg Hst Hd Hw Ha Hf Hn].
  destruct (arrives _ _ _ _ _ _ _ _ _ _ _ _ Hp Hr Hlen Hrun Hinv) as (env & Hsig & ->).
  pose proof (iv_wire _ Hinv) as [Hwn Hws]. cbn in *.
  assert (e ∈ dn) as Hedn by (apply Hws; rewrite Hp; by left).
  assert (e ∉ wire'.*1) as Hewire by (rewrite Hp in Hwn; by apply NoDup_cons in Hwn as [? _]).
  assert (∀ k, mgr ((<[j := set_disp (PushMessage env (pw_peerID p) (w_disp (nodes j))) (nodes j)]>
                       nodes) k) = mgr (nodes k)) as Hmgr.
  { intros k. destruct (decide (k = j)) as [->|Hne];
      [by rewrite fn_lookup_insert|by rewrite fn_lookup_insert_ne]. }
  split; cbn.
  - intros k. rewrite Hmgr. apply Hg.
  - intros k x. rewrite Hmgr. apply Hst.
  - intros k x. rewrite Hmgr. apply Hd.
  - done.
  - intros k. destruct (decide (k = j)) as [->|Hne]; [|by rewrite fn_lookup_insert_ne].
    rewrite fn_lookup_insert, PushMessage_added. destruct (Ha j) as (A1 & A2 & A3 & A4).
    assert (e ∉ (arr j).*2) as Hnot.
    { intros Hin. destruct (iv_arrived _ Hinv j) as (_ & _ & A3' & _).
      apply (A3' e Hin). cbn. rewrite Hp. by left. }
    case_decide; cbn [fmap list_fmap]; [|by rewrite app_nil_r].
    rewrite fmap_app. cbn [fmap list_fmap snd]. split_and!.
    + apply NoDup_app. split_and!; [done| |apply NoDup_singleton].
      by intros x Hx ->%list_elem_of_singleton.
    + intros x [Hx| ->%list_elem_of_singleton]%elem_of_app; [by apply A2|done].
    + intros x [Hx| ->%list_elem_of_singleton]%elem_of_app; [by apply A3|done].
    + intros x [Hx| ->%list_elem_of_singleton]%elem_of_app; [by apply A4|done].
  - done.
  - intros k. destruct (decide (k = j)) as [->|Hne]; [|by rewrite !fn_lookup_insert_ne].
    rewrite !fn_lookup_insert. by apply node_inv_push.
Qed.

Lemma step_inv_work nodes wire dn arr sent j w' :
  work j (nodes j) w' →
  net_inv (mkNetwork nodes wire dn arr sent) →
  net_inv (mkNetwork (<[j := w']> nodes) wire dn arr sent).
Proof.
  intros Hwork Hinv. pose proof Hinv as [Hg Hst Hd Hw Ha Hf Hn]. cbn in *.
  destruct (node_inv_work j (arr j) (nodes j) w') as [Hnode Em]; [|done..|].
  { intros p e Hin. destruct (arrived_carry _ j p e Hinv Hin) as (t & _ & Ht). by exists t. }
  assert (∀ k, mgr ((<[j := w']> nodes) k) = mgr (nodes k)) as Hmgr.
  { intros k. destruct (decide (k = j)) as [->|Hne];
      [by rewrite fn_lookup_insert|by rewrite fn_lookup_insert_ne]. }
  split; cbn; [..|done| |done|].
  - intros k. rewrite Hmgr. apply Hg.
  - intros k x. rewrite Hmgr. apply Hst.
  - intros k x. rewrite Hmgr. apply Hd.
  - done.
  - intros k. destruct (decide (k = j)) as [->|Hne];
      [by rewrite fn_lookup_insert|by rewrite fn_lookup_insert_ne].
Qed.

Lemma net_step_inv users faults nw nw' : net_step users faults nw nw' → net_inv nw → net_inv nw'.
Proof.
  destruct 1; eauto using step_inv_send, step_inv_transmit, step_inv_fail, step_inv_lose,
    step_inv_arrive, step_inv_work.
Qed.

(** ** Where the lines of a log come from *)

Lemma NoDup_fmap_inj_on {A B} (f : A → B) (l : list A) x y :
  NoDup (f <$> l) → x ∈ l → y ∈ l → f x = f y → x = y.
Proof.
  intros Hnd [a Ha]%list_elem_of_lookup [b Hb]%list_elem_of_lookup E.
  assert (a = b) as -> by (eapply (NoDup_lookup _ a b (f y) Hnd);
    rewrite list_lookup_fmap, ?Ha, ?Hb; cbn; by rewrite ?E).
  rewrite Ha in Hb. by injection Hb.
Qed.

(** A line of the log of [j] and the call of [Send] it comes from. *)
Definition accounts (nw : Network I W) (j : I) (t : Sent I) (line : LogLine) : Prop :=
  t ∈ nw_sent nw ∧ nid j ∈ s_peers t ∧ (s_to t = pub j → line = inl (s_text t)).

(** One for every transmission that was processed, and different ones. *)
Lemma account_lines nw j es :
  net_inv nw → NoDup es → es ⊆ (nw_arrived nw j).*2 →
  ∃ ts, Forall2 (accounts nw j) ts (line_of j <$> es)
        ∧ NoDup ((λ t, (s_from t, s_id t)) <$> ts)
        ∧ (∀ t, t ∈ ts → ∃ e, e ∈ es ∧ carries e t).
Proof.
  intros Hinv. destruct (iv_arrived _ Hinv j) as (_ & Hdone & _ & Hto).
  induction es as [|e es IH]; intros Hnd Hsub.
  { exists []. split_and!; [constructor..|]. by intros t ?%elem_of_nil. }
  apply NoDup_cons in Hnd as [Hne Hnd].
  destruct IH as (ts & A1 & A2 & A3); [done|intros x Hx; apply Hsub; by right|].
  assert (∀ x, x ∈ e :: es → x.2 ∈ started (mgr (nw_world nw x.1)) ∧ to_peer x.2 = nid j) as Hall.
  { intros x Hx%Hsub. split; [|by apply Hto]. apply (iv_done _ Hinv).
    destruct x. by apply Hdone. }
  destruct (Hall e) as [Hes Hej]; [by left|].
  destruct (iv_started _ Hinv e.1 e.2) as (t & Ht & Hc); [done|].
  assert (carries e t) as Hct by by destruct e.
  exists (t :: ts). split_and!.
  - cbn. constructor; [|done]. split_and!; [done| |by apply line_addressed].
    destruct Hct as (_ & Hp & _). by rewrite Hej in Hp.
  - cbn. apply NoDup_cons. split; [|done].
    intros (t' & E & (e' & He' & Hc')%A3)%list_elem_of_fmap. injection E as Ef Ei. apply Hne.
    destruct (Hall e') as [Hes' Hej']; [by right|].
    destruct Hct as (F & _ & _ & rn & nw1 & ct & _ & Em), Hc' as (F' & _ & _ & rn' & nw2 & ct' & _ & Em').
    destruct e as [i s], e' as [i' s']. cbn in *. assert (i' = i) as -> by congruence.
    assert (s = s') as ->; [|done].
    apply (NoDup_fmap_inj_on sent_to (started (mgr (nw_world nw i))));
      [apply gi_once, iv_gossip, Hinv|done..|].
    unfold sent_to. rewrite Hej, Hej', Em, Em'. cbn. by rewrite Ei.
  - intros t' [->|Ht']%elem_of_cons; [exists e; split; [by left|done]|].
    destruct (A3 _ Ht') as (e' & ? & ?). exists e'. split; [by right|done].
Qed.

(** C2. Authenticity in a network of any number of honest nodes: whatever users
    send, whichever transmissions fail, are lost or overtake each other, and
    however the workers interleave, the lines that a node has logged come from
    different calls of [Send], each of a node that had this node among its
    connected peers then - nothing is relayed - and the line of a text that was
    addressed to this node is exactly that text.  A node logs no more lines than
    its dispatcher has workers. *)
Theorem network_provenance (users faults : Prop) (w0 : W) (nw : Network I W) (j : I)
    (Hrun : rtc (net_step users faults) (initial w0) nw) :
  ∃ ts, Forall2 (accounts nw j) ts (ns_log (w_state (nw_world nw j)))
        ∧ NoDup ((λ t, (s_from t, s_id t)) <$> ts)
        ∧ length ts <= Z.to_nat (workersNum (disp j)).
Proof.
  pose proof (rtc_ind_inv _ net_inv _ _ (net_step_inv users faults) Hrun (network_initial_inv w0)) as Hinv.
  destruct (iv_node _ Hinv j) as [_ _ [_ _ _ Ho _] _ _ (qs & hs & Hq & _ & ->)].
  destruct (iv_arrived _ Hinv j) as (Hnd & _).
  assert ((qs ++ hs).*2 ⊆ (nw_arrived nw j).*2) as Hsub.
  { intros e (q & -> & Hin)%list_elem_of_fmap. rewrite Hq in Hin. apply list_elem_of_fmap.
    exists q. split; [done|]. eapply elem_of_sublist; [exact Hin|apply sublist_take]. }
  rewrite fmap_app in Hsub.
  assert (NoDup qs.*2) as Hnq.
  { assert (NoDup (qs ++ hs).*2) as Hn.
    { rewrite Hq. eapply sublist_NoDup; [exact Hnd|]. apply fmap_sublist, sublist_take. }
    rewrite fmap_app in Hn. by apply NoDup_app in Hn as (? & _). }
  destruct (account_lines nw j qs.*2 Hinv Hnq) as (ts & A1 & A2 & _).
  { intros e He. apply Hsub, elem_of_app. by left. }
  exists ts. split_and!; [done..|]. apply Forall2_length in A1. rewrite A1, !length_fmap.
  apply Permutation_length in Hq. rewrite length_app, length_take in Hq. lia.
Qed.
End network.

(** ** Witness: Alice writes to Bob *)
Module NetworkWitness.
Import ToyWriter HandshakeWitness ToyUuid ToyEngine ToyBadger BadgerStorage NodeWitness.

(** Alice is [true], Bob [false]. *)
Definition key (i : bool) : PeerPrivateKey := if i then ToyEngine.alice else ToyEngine.bob.
Definition engine (i : bool) : Engine := if i then ea else eb.
Definition nodes : bool → World Service (ServicesState bytes) :=
  nw_world (initial (λ _, 4%Z) []).
Definition step_to (nw nw' : Network bool bytes) : Prop :=
  net_step (S:=store) key engine sw order msgID (mk_uint 64 0) (inl ()) (inl ()) True True nw nw'.

Definition note : Sent bool := mkSent true bobPub text msgID (ids sw order).
Definition arrived : res unit * Dispatcher Service :=
  default (Panic PanicNil, bob_disp)
    (handleGossipStream (Some onData) (NewPeerWrapper 5 : PeerWrapper bytes)
       (mkGossipStream [transmitted.2] false) bob_disp).
Definition packet : IngressPacket := List.hd NodeWitness.packet (ingressChan arrived.2).
Definition hears : Transmission bool := (true, sending).
Definition nodes1 : bool → World Service (ServicesState bytes) :=
  <[true := set_mgr sent.2 (nodes true)]> nodes.
Definition bob0 : World Service (ServicesState bytes) := set_disp arrived.2 (nodes1 false).
Definition arr0 : bool → list (IngressPacket * Transmission bool) := λ _, [].
Definition arr1 : bool → list (IngressPacket * Transmission bool) :=
  <[false := arr0 false ++ ((λ q, (q, hears)) <$> added (w_disp (nodes1 false)) arrived.2)]> arr0.
Definition bob2 : World Service (ServicesState bytes) :=
  mkWorld (set_chan arrived.2 []) (<[0 := Returned]> (w_workers bob0))
    (mkServicesState [inl text] (NewManager, [])) (w_accepted bob0) [packet] [packet].
Lemma arrived_ok : arrived.1 = Ok () ∧ ingressChan arrived.2 = [packet].
Proof. split; vm_compute; reflexivity. Qed.
Lemma arrived_some :
  handleGossipStream (Some onData) (NewPeerWrapper 5 : PeerWrapper bytes)
    (mkGossipStream [transmitted.2] false) (w_disp (nodes1 false)) = Some (Ok (), arrived.2).
Proof.
  change (w_disp (nodes1 false)) with bob_disp. pose proof (proj1 arrived_ok) as Ha.
  unfold arrived in *. destruct (handleGossipStream _ _ _ _) as [[x d]|]; [|done].
  cbn in Ha |- *. by rewrite Ha.
Qed.
Lemma bob_processed :
  @processPacket _ _ (handler key engine sw order msgID (mk_uint 64 0) (inl ()) (inl ()) false) _ _
    (set_chan arrived.2 []) packet st0 = (Ok (), mkServicesState [inl text] (NewManager, [])).
Proof. vm_compute. reflexivity. Qed.

Lemma bob0_start :
  bob0 = mkWorld arrived.2 (replicate 3 Waiting) st0 (w_accepted bob0) [] [].
Proof.
  unfold bob0. assert (nodes1 false = mkWorld bob_disp (replicate 3 Waiting) st0 [] [] []) as ->
    by reflexivity.
  reflexivity.
Qed.

Lemma run : ∃ final, rtc step_to (initial (λ _, 4%Z) []) final ∧ nw_world final false = bob2.
Proof.
  destruct arrived_ok as [Ha Hq]. destruct transmitted_ok as [Ht Hl].
  destruct started_one as [Hs Hto].
  destruct (work_runs (S:=store) key engine sw order msgID (mk_uint 64 0) (inl ()) (inl ()) True True
              (<[false := bob0]> nodes1) [] [hears] arr1 [note] false bob0 bob2) as (nodes' & Hrun & Hw).
  { rewrite bob0_start at 1. unfold bob2. rewrite bob0_start at 1.
    apply (@worker_alone _ _ (handler key engine sw order msgID (mk_uint 64 0) (inl ()) (inl ()) false)
             _ _ 0 packet []); [reflexivity|exact Hq|exact bob_processed]. }
  { by rewrite fn_lookup_insert. }
  exists (mkNetwork nodes' [] [hears] arr1 [note]). split; [|exact Hw].
  eapply rtc_l.
  { eapply nw_send with (i := true) (to := bobPub) (text := text) (rnd := rnd0) (id := msgID)
      (now := mk_uint 64 0) (sw := sw) (order := order) (g' := sent.2); [exact I|apply Forall_singleton; by eexists|apply NoDup_singleton|].
    exact (run_eq _ _ _ sent_ok). }
  fold nodes nodes1 note arr0. eapply rtc_l.
  { eapply nw_transmit with (i := true) (x := sending) (sw := sw) (opened := inl ())
      (closed := inl ()) (w := []) (w' := transmitted.2) (frame := transmitted.2); [|apply not_elem_of_nil|reflexivity| |reflexivity].
    - unfold nodes1. rewrite fn_lookup_insert. cbn [mgr set_mgr w_state ns_gossip fst].
      rewrite Hs. by left.
    - rewrite Hto. exact (run_eq _ _ _ Ht). }
  eapply rtc_l.
  { eapply nw_arrive with (wire' := []) (j := false) (e := hears) (frame := transmitted.2)
      (p := NewPeerWrapper 5) (r := mkGossipStream [transmitted.2] false) (d' := arrived.2); [reflexivity|exact Hto|apply app_nil_r| |].
    - by apply Z.ltb_lt.
    - exact arrived_some. }
  fold bob0 arr1. cbn [app].
  exact Hrun.
Qed.

Lemma network_provenance_witness :
  ∃ final : Network bool bytes, ns_log (w_state (nw_world final false)) = [inl text]
  ∧ ∃ ts, Forall2 (accounts key final false) ts [inl text] ∧ length ts <= 3.
Proof.
  destruct run as (final & Hrun & Hw). exists final. rewrite Hw. split; [reflexivity|].
  destruct (network_provenance (S:=store) key engine (λ _, 4%Z) sw order msgID (mk_uint 64 0)
              (inl ()) (inl ()) (λ i, match i with true => NewKeyFromSeed_pair _ | false => NewKeyFromSeed_pair _ end)
              (λ i, match i with true => engine_alice | false => engine_bob end) True True []
              final false Hrun)
    as (ts & A1 & _ & A2).
  rewrite Hw in A1. exists ts. split; [exact A1|exact A2].
Defined.
End NetworkWitness.
