(* ===== verification/NetworkDelivery.v ===== *)
(** * A network of nodes: messages do arrive

    [Network] says where every logged line comes from, whatever fails.  This file
    is the other half: when nothing fails any more and no user sends, a network
    comes to rest by itself, and at rest every text whose transmission had not
    begun has been logged by the node it is for - as long as that node has a
    worker and a place in its queue for every message it is sent. *)

From Stdlib Require Import ZArith Lia.
From stdpp Require Import relations functions finite.
From S2P Require Import Prelude Task Sha2 Types Proto ToyCodec Storage Frame Signature Engine Handshake.
From S2P Require Import Dispatcher Stream Sessions Swarm Gossip Messenger Discovery Node Network.

(** ** Sums over all nodes *)
Section sums.
Context {I : Type} `{Finite I}.

Definition sum_over (f : I → nat) : nat := sum_list_with f (enum I).

Lemma sum_over_change (f g : I → nat) k :
  (∀ i, i ≠ k → g i = f i) → sum_over g + f k = sum_over f + g k.
Proof.
  intros Heq. unfold sum_over.
  destruct (elem_of_Permutation (enum I) k) as [[l Hl] _]; [apply elem_of_enum|].
  pose proof (NoDup_enum I) as Hnd. rewrite Hl in Hnd. apply NoDup_cons in Hnd as [Hk _].
  rewrite Hl. cbn. assert (sum_list_with g l = sum_list_with f l) as ->; [|lia].
  clear Hl. induction l as [|i l IH]; [done|]. apply not_elem_of_cons in Hk as [Hi Hk]. cbn.
  by rewrite (Heq i), IH.
Qed.
End sums.

Section delivery.
Context {I S W : Type} `{EqDecision I} `{!Finite I} `{WriterLaws W} `{!ReliableWriter W} `{UuidLaws}
        `{CodecLaws MessageData} `{CodecLaws Envelope} `{Ed25519Laws} `{!EngineLib} `{!EngineLaws}.

Variables (key : I → PeerPrivateKey) (engine : I → Engine) (cpus : I → Z).
Variables (swD : Swarm S) (orderD : list (PeerID * ptr)) (idD : MessageID) (nowD : uint 64)
          (openedD closedD : unit + gerror).
Hypothesis Hkey : ∀ i, key_pair (key i).
Hypothesis Hengine : ∀ i, NewEngine (arr (key i)) = Ok (engine i).

Abbreviation step := (net_step key engine swD orderD idD nowD openedD closedD).
Abbreviation Inv := (net_inv key engine cpus swD orderD idD nowD openedD closedD).
Abbreviation hd := (handler key engine swD orderD idD nowD openedD closedD).
#[local] Instance hd_once j : @SingleAccess Service (ServicesState W) (hd j) :=
  handler_once key engine swD orderD idD nowD openedD closedD j.
Abbreviation disp := (disp cpus).
Abbreviation nid := (nid key).
Implicit Types (nw : Network I W).

(** Nobody sends, nothing fails. *)
Definition deliver : Network I W → Network I W → Prop := step False False.

(** ** Workers are not lost *)

Definition live nw : Prop :=
  ∀ j, @busy_inv _ _ (hd j) _ _ (disp j) (nw_world nw j) ∧ ctx_done (w_disp (nw_world nw j)) = false.

Lemma gossip_disp (p : PeerWrapper W) (r : GossipStream) (d d' : Dispatcher Service) :
  handleGossipStream (Some onData) p r d = Some (Ok (), d') →
  d' = d ∨ ∃ env, d' = PushMessage env (pw_peerID p) d.
Proof.
  unfold handleGossipStream, onData. destruct (readFrame_stream r) as [[[t bs]|e|q]|]; [| |done..].
  - destruct (unmarshal bs) as [env|e]; intros [= <-]; [right; by exists env|by left].
  - intros [= <-]. by left.
Qed.

Lemma live_set_disp j (w : World Service (ServicesState W)) (p : PeerWrapper W) r d' :
  handleGossipStream (Some onData) p r (w_disp w) = Some (Ok (), d') →
  @busy_inv _ _ (hd j) _ _ (disp j) w ∧ ctx_done (w_disp w) = false →
  @busy_inv _ _ (hd j) _ _ (disp j) (set_disp d' w) ∧ ctx_done d' = false.
Proof.
  intros [->|[env ->]]%gossip_disp [[Hh He Hp] Hc]; [by split|].
  unfold PushMessage. by case_decide.
Qed.

Lemma worker_step_ctx j (w w' : World Service (ServicesState W)) :
  work key engine swD orderD idD nowD openedD closedD j w w' →
  ctx_done (w_disp w') = ctx_done (w_disp w).
Proof. intros St. by destruct St. Qed.

Lemma live_step users faults nw nw' : step users faults nw nw' → live nw → live nw'.
Proof.
  destruct 1 as [nodes wire dn ar sent i to text rnd id now sw order g' _ _ _ _| | | |
                 nodes wire wire' dn ar sent j e frame p r d' _ _ _ _ Hg|
                 nodes wire dn ar sent j w' Hw]; intros Hl k; cbn in *; try apply Hl.
  - destruct (decide (k = i)) as [->|Hne]; [|rewrite fn_lookup_insert_ne by done; apply Hl].
    rewrite fn_lookup_insert. destruct (Hl i) as [[? ? ?] ?]. by split.
  - destruct (decide (k = j)) as [->|Hne]; [|rewrite fn_lookup_insert_ne by done; apply Hl].
    rewrite fn_lookup_insert. eapply live_set_disp; [exact Hg|apply Hl].
  - destruct (decide (k = j)) as [->|Hne]; [|rewrite fn_lookup_insert_ne by done; apply Hl].
    rewrite fn_lookup_insert. destruct (Hl j) as [Hb Hc]. split.
    + by eapply (@worker_step_busy _ _ (handler key engine swD orderD idD nowD
        openedD closedD j)); [exact Hw|].
    + by rewrite (worker_step_ctx _ _ _ Hw).
Qed.

(** ** What there is to deliver *)

Definition transmissions nw : list (Transmission I) :=
  i ← enum I; (λ x, (i, x)) <$> started (mgr (nw_world nw i)).
Definition incoming nw (j : I) : list (Transmission I) :=
  filter (λ e, to_peer e.2 = nid j) (transmissions nw).

Lemma elem_of_transmissions nw e :
  e ∈ transmissions nw ↔ e.2 ∈ started (mgr (nw_world nw e.1)).
Proof.
  unfold transmissions. rewrite list_elem_of_bind. split.
  - by intros (i & (x & -> & Hx)%list_elem_of_fmap & _).
  - intros He. exists e.1. split; [|apply elem_of_enum]. apply list_elem_of_fmap. exists e.2.
    by destruct e.
Qed.

Definition same_managers nw nw' : Prop :=
  ∀ i, mgr (nw_world nw' i) = mgr (nw_world nw i).

Lemma transmissions_same nw nw' : same_managers nw nw' → transmissions nw' = transmissions nw.
Proof.
  intros Hm. unfold transmissions. induction (enum I) as [|i l IH]; [done|]. cbn.
  by rewrite Hm, IH.
Qed.

(** A place in the queue and a worker for each. *)
Definition roomy nw : Prop :=
  ∀ j, length (incoming nw j) <= ingress_cap
       ∧ length (incoming nw j) <= Z.to_nat (workersNum (disp j)).

(** Each can be encoded, in a frame below 4 GiB, and is for a node. *)
Definition addressed nw : Prop :=
  ∀ e, e ∈ transmissions nw →
    ∃ frame j, is_frame key e frame ∧ (Z.of_nat (length frame) < 2 ^ 32)%Z ∧ to_peer e.2 = nid j.

Lemma done_transmissions nw e : Inv nw → e ∈ nw_done nw → e ∈ transmissions nw.
Proof.
  intros Hinv He. apply elem_of_transmissions, (iv_done _ _ _ _ _ _ _ _ _ _ Hinv). by destruct e.
Qed.

Lemma arrived_incoming nw j : Inv nw → (nw_arrived nw j).*2 ⊆ incoming nw j.
Proof.
  intros Hinv e He. destruct (iv_arrived _ _ _ _ _ _ _ _ _ _ Hinv j) as (_ & Hd & _ & Hto).
  apply list_elem_of_filter. split; [by apply Hto|]. by apply done_transmissions, Hd.
Qed.

Lemma NoDup_length_le {A} (l k : list A) : NoDup l → l ⊆ k → length l <= length k.
Proof. intros Hl Hs. by apply submseteq_length, NoDup_submseteq. Qed.

Lemma arrived_le nw j : Inv nw → length (nw_arrived nw j) <= length (incoming nw j).
Proof.
  intros Hinv. rewrite <- (length_fmap snd).
  apply NoDup_length_le; [apply (iv_arrived _ _ _ _ _ _ _ _ _ _ Hinv j)|by apply arrived_incoming].
Qed.

Lemma arrived_lt nw j e :
  Inv nw → e ∈ (nw_wire nw).*1 → to_peer e.2 = nid j →
  length (nw_arrived nw j) < length (incoming nw j).
Proof.
  intros Hinv He Hto. destruct (iv_arrived _ _ _ _ _ _ _ _ _ _ Hinv j) as (Hnd & _ & Hw & _).
  rewrite <- (length_fmap snd (nw_arrived nw j)).
  apply (NoDup_length_le (e :: (nw_arrived nw j).*2)).
  - apply NoDup_cons. split; [|done]. intros Hin. by apply (Hw e).
  - intros x [->|Hx]%elem_of_cons; [|by apply arrived_incoming].
    apply list_elem_of_filter. split; [done|].
    apply done_transmissions; [done|]. by apply (iv_wire _ _ _ _ _ _ _ _ _ _ Hinv).
Qed.

Lemma queue_arrived nw j :
  Inv nw → length (w_taken (nw_world nw j)) + length (ingressChan (w_disp (nw_world nw j)))
           = length (nw_arrived nw j).
Proof.
  intros Hinv. destruct (iv_node _ _ _ _ _ _ _ _ _ _ Hinv j) as [Ha _ [_ Hf _ _ _] _ _ _].
  rewrite <- length_app, Hf, Ha. apply length_fmap.
Qed.

(** ** Runs without faults *)

Record running nw0 nw : Prop := {
  rn_inv : Inv nw;
  rn_live : live nw;
  rn_same : same_managers nw0 nw;
  rn_kept : ∀ e, e ∈ nw_done nw →
            e ∈ nw_done nw0 ∨ e ∈ (nw_wire nw).*1 ∨ ∃ j, e ∈ (nw_arrived nw j).*2
}.

Lemma running_start nw : Inv nw → live nw → running nw nw.
Proof. intros Hi Hl. split; [done|done|done|]. intros e He. by left. Qed.

Lemma same_insert (nodes : I → World Service (ServicesState W)) j w wire dn ar sent :
  mgr w = mgr (nodes j) →
  same_managers (mkNetwork nodes wire dn ar sent)
    (mkNetwork (<[j := w]> nodes) wire dn ar sent).
Proof.
  intros E k. cbn. destruct (decide (k = j)) as [->|Hne];
    [by rewrite fn_lookup_insert|by rewrite fn_lookup_insert_ne].
Qed.

Lemma work_same nw j w' :
  Inv nw → work key engine swD orderD idD nowD openedD closedD j (nw_world nw j) w' →
  mgr w' = mgr (nw_world nw j).
Proof.
  intros Hinv Hw.
  eapply (node_inv_work key engine cpus swD orderD idD nowD openedD closedD j (nw_arrived nw j));
    [|exact Hw|apply (iv_node _ _ _ _ _ _ _ _ _ _ Hinv)].
  intros p e Hin. destruct (arrived_carry _ _ _ _ _ _ _ _ _ _ _ _ _ Hinv Hin) as (t & _ & Ht). by exists t.
Qed.

Lemma deliver_same nw nw' : Inv nw → deliver nw nw' → same_managers nw nw'.
Proof.
  intros Hinv St. destruct St; try done.
  - intros k. cbn. destruct (decide (k = j)) as [->|Hne];
      [by rewrite fn_lookup_insert|by rewrite fn_lookup_insert_ne].
  - apply same_insert. by apply (work_same _ _ _ Hinv).
Qed.

Lemma arrive_kept nodes wire wire' dn ar sent j e frame (p : PeerWrapper W) (r : GossipStream) d' x :
  wire ≡ₚ (e, frame) :: wire' → to_peer e.2 = nid j → concat (gs_data r) = frame →
  (Z.of_nat (length frame) < 2 ^ 32)%Z →
  handleGossipStream (Some onData) p r (w_disp (nodes j)) = Some (Ok (), d') →
  Inv (mkNetwork nodes wire dn ar sent) → roomy (mkNetwork nodes wire dn ar sent) →
  x ∈ wire.*1 →
  x ∈ wire'.*1
  ∨ ∃ k, x ∈ ((<[j := ar j ++ ((λ q, (q, e)) <$> added (w_disp (nodes j)) d')]> ar) k).*2.
Proof.
  intros Hp Hto Hr Hlen Hrun Hinv Hroom Hx. rewrite Hp in Hx. cbn in Hx.
  apply elem_of_cons in Hx as [->|Hx]; [right|by left]. exists j.
  rewrite fn_lookup_insert.
  destruct (arrives _ _ _ _ _ _ _ _ _ Hkey _ _ _ _ _ _ _ _ _ _ _ _ Hp Hr Hlen Hrun Hinv) as (env & _ & ->).
  rewrite PushMessage_added, decide_True; [rewrite fmap_app; apply elem_of_app; right; by left|].
  pose proof (queue_arrived _ j Hinv). destruct (Hroom j) as [Hcap _].
  assert (length (ar j) < length (incoming (mkNetwork nodes wire dn ar sent) j)).
  { apply (arrived_lt (mkNetwork nodes wire dn ar sent) j e Hinv); [|done].
    cbn. rewrite Hp. by left. }
  cbn in *. lia.
Qed.

Lemma incoming_same nw nw' j : same_managers nw nw' → incoming nw' j = incoming nw j.
Proof. intros Hm. unfold incoming. by rewrite (transmissions_same _ _ Hm). Qed.

Lemma roomy_same nw nw' : same_managers nw nw' → roomy nw → roomy nw'.
Proof. intros Hm Hr j. rewrite (incoming_same _ _ j Hm). apply Hr. Qed.

Lemma running_step nw0 nw nw' : roomy nw0 → deliver nw nw' → running nw0 nw → running nw0 nw'.
Proof.
  intros Hroom St [Hinv Hlive Hsame Hkept].
  pose proof (roomy_same _ _ Hsame Hroom) as Hroom'.
  split.
  - by eapply (net_step_inv key engine cpus); [..|exact St|].
  - by eapply live_step; [exact St|].
  - intros i. rewrite (deliver_same _ _ Hinv St). apply Hsame.
  - destruct St as [|nodes wire dn ar sent i x| | |
                    nodes wire wire' dn ar sent j e frame p r d' Hp Hto Hr Hlen Hg|
                    nodes wire dn ar sent j w' Hw]; try done; cbn in *.
    + rewrite fmap_app. intros e [He|He]%elem_of_app.
      * destruct (Hkept e He) as [?|[?|?]]; [by left|right; left|by right; right].
        apply elem_of_app. by left.
      * right. left. apply elem_of_app. right. by apply list_elem_of_singleton in He as ->; left.
    + intros x Hx. destruct (Hkept x Hx) as [?|[Hin|(k & Hin)]]; [by left|..]; right.
      * by eapply arrive_kept.
      * right. exists k. destruct (decide (k = j)) as [->|Hne];
          [|by rewrite fn_lookup_insert_ne].
        rewrite fn_lookup_insert, fmap_app. apply elem_of_app. by left.
Qed.

(** *** They end *)

(** The steps that a worker of these handlers can still take with its packet. *)
Definition worker_left (x : worker (ServicesState W)) : nat :=
  match x with
  | Processing _ => 3
  | Handling _ (Access _ _) => 2
  | Handling _ (Ends _) => 1
  | _ => 0
  end.
Definition workers_left (ws : list (worker (ServicesState W))) : nat := sum_list_with worker_left ws.

Lemma workers_left_insert ws i x y :
  ws !! i = Some x → workers_left (<[i := y]> ws) + worker_left x = workers_left ws + worker_left y.
Proof.
  intros Hi. unfold workers_left. rewrite insert_take_drop by (by eapply lookup_lt_Some).
  rewrite <- (take_drop_middle ws i x Hi) at 3. rewrite !sum_list_with_app. cbn. lia.
Qed.

Definition node_left (w : World Service (ServicesState W)) : nat :=
  4 * length (ingressChan (w_disp w)) + workers_left (w_workers w).
Definition undone nw : nat := length (filter (λ e, e ∉ nw_done nw) (transmissions nw)).
Definition left_over nw : nat :=
  6 * undone nw + 5 * length (nw_wire nw) + sum_over (λ j, node_left (nw_world nw j)).

Lemma filter_shorter {A} (P Q : A → Prop) `{∀ x, Decision (P x)} `{∀ x, Decision (Q x)} l x :
  (∀ y, Q y → P y) → x ∈ l → P x → ¬ Q x → length (filter Q l) < length (filter P l).
Proof.
  intros HQP Hx HP HQ. rewrite <- (list_filter_filter_l Q P) by done.
  apply (length_filter_lt Q _ x); [by apply list_elem_of_filter|done].
Qed.

Lemma undone_same nw nw' :
  same_managers nw nw' → nw_done nw' = nw_done nw → undone nw' = undone nw.
Proof. intros Hm Hd. unfold undone. by rewrite (transmissions_same _ _ Hm), Hd. Qed.

Lemma push_left env id w :
  node_left (set_disp (PushMessage env id (w_disp w)) w) <= 4 + node_left w.
Proof.
  unfold node_left, PushMessage. cbn [set_disp w_disp w_workers].
  case_decide; cbn; rewrite ?length_app; cbn; lia.
Qed.

Lemma work_left_less j (w w' : World Service (ServicesState W)) :
  ctx_done (w_disp w) = false → Forall (@task_ok _ _ (hd j) _ _ (disp j)) (w_workers w) →
  work key engine swD orderD idD nowD openedD closedD j w w' → node_left w' < node_left w.
Proof.
  intros Hc Ht St. unfold node_left.
  destruct St as [i p rest d ws st ac tk pr Hi Hq|i p d ws st ac tk pr Hi|i p f k d ws st ac tk pr Hi
                 |i p d ws st ac tk pr Hi|i d ws st ac tk pr Hi Hd];
    cbn [w_disp w_workers set_chan ingressChan] in *; [| | | |congruence];
    match goal with |- _ + workers_left (<[_ := ?y]> _) < _ =>
      pose proof (workers_left_insert ws i _ y Hi) as E end; cbn [worker_left] in E.
  - rewrite Hq. cbn [length]. lia.
  - destruct (processPacket_task d p); lia.
  - destruct (@access_processes _ _ (hd j) _ _ _ (disp j) p f k st) as [Ek _];
      [exact (Forall_lookup_1 _ _ _ _ Ht Hi)|]. rewrite Ek in E |- *. lia.
  - lia.
Qed.

Lemma sum_insert (nodes : I → World Service (ServicesState W)) j w :
  sum_over (λ k, node_left ((<[j := w]> nodes) k)) + node_left (nodes j)
  = sum_over (λ k, node_left (nodes k)) + node_left w.
Proof.
  pose proof (sum_over_change (λ k, node_left (nodes k))
                (λ k, node_left ((<[j := w]> nodes) k)) j) as E.
  cbn in E. rewrite fn_lookup_insert in E. apply E.
  intros k Hk. by rewrite fn_lookup_insert_ne.
Qed.

Lemma deliver_left nw nw' : Inv nw → live nw → deliver nw nw' → left_over nw' < left_over nw.
Proof.
  intros Hinv Hlive St. pose proof (deliver_same _ _ Hinv St) as Hm. unfold left_over.
  destruct St as [|nodes wire dn ar sent i x sw op cl w w' frame Hx Hnew _ _ _| | |
                  nodes wire wire' dn ar sent j e frame p r d' Hp Hto Hr Hlen Hg|
                  nodes wire dn ar sent j w' Hw]; try done.
  - assert (undone (mkNetwork nodes (wire ++ [((i, x), frame)]) (dn ++ [(i, x)]) ar sent)
            < undone (mkNetwork nodes wire dn ar sent)) as Hu.
    { unfold undone. rewrite (transmissions_same _ _ Hm).
      apply (filter_shorter _ _ _ (i, x)); cbn; [|by apply elem_of_transmissions|done|].
      - intros y Hy Hin. apply Hy, elem_of_app. by left.
      - intros Hn. apply Hn, elem_of_app. right. by left. }
    cbn [nw_wire nw_world] in *. rewrite length_app. cbn [length]. lia.
  - destruct (arrives _ _ _ _ _ _ _ _ _ Hkey _ _ _ _ _ _ _ _ _ _ _ _ Hp Hr Hlen Hg Hinv) as (env & _ & E).
    rewrite (undone_same _ _ Hm) by done. cbn [nw_wire nw_world].
    pose proof (sum_insert nodes j (set_disp d' (nodes j))) as Es.
    pose proof (push_left env (pw_peerID p) (nodes j)) as Hl. rewrite <- E in Hl.
    apply Permutation_length in Hp. cbn in Hp. lia.
  - rewrite (undone_same _ _ Hm) by done. cbn [nw_wire nw_world].
    pose proof (sum_insert nodes j w') as Es.
    pose proof (work_left_less j _ _ (proj2 (Hlive j)) (ni_tasks _ _ _ _ _ _ _ _ _ _ _ _ (iv_node _ _ _ _ _ _ _ _ _ _ Hinv j)) Hw) as Hl. cbn [nw_world] in Hl. lia.
Qed.

(** *** They go on until everything is delivered *)

Definition rest nw : Prop :=
  (∀ e, e ∈ transmissions nw → e ∈ nw_done nw) ∧ nw_wire nw = []
  ∧ ∀ j, held_packets (w_workers (nw_world nw j)) = []
         ∧ ingressChan (w_disp (nw_world nw j)) = [].

Lemma is_frame_fun e f f' : is_frame key e f → is_frame key e f' → f = f'.
Proof.
  intros (env & bs & E1 & E2 & ->) (env' & bs' & E1' & E2' & ->).
  rewrite E1 in E1'. injection E1' as <-. rewrite E2 in E2'. by injection E2' as <-.
Qed.

(** A stream to write to. *)
Variable w0 : W.

(** A swarm of node [i] with one peer. *)
Definition connected_to (i : I) (id : PeerID) : Swarm S :=
  let '(sw, p) := AddPeer_new (λ _, "") (zero_array 32) 0 "" false
                    (NewSwarm (zero_array 32) (key i) (swarm_storage swD) 0) in
  AddPeer_table id p sw.

Lemma can_transmit nw i x frame :
  x ∈ started (mgr (nw_world nw i)) → (i, x) ∉ nw_done nw → is_frame key (i, x) frame →
  red deliver nw.
Proof.
  destruct nw as [nodes wire dn ar sent]. cbn. intros Hx Hnew (env & bs & Es & Em & ->).
  destruct (writeFrame_reliable (sending_type x) bs w0) as (w' & Ew & Hw).
  eexists. eapply nw_transmit with (sw := connected_to i (to_peer x)) (opened := inl ())
    (closed := inl ()) (w := w0); [exact Hx|exact Hnew|done| |exact Hw].
  unfold SendDataForPeer, connected_to, AddPeer_new, AddPeer_table, GetPeer.
  cbn [activePeers set_table peer_heap].
  rewrite lookup_insert_eq. cbn [mbind option_bind]. rewrite lookup_insert_eq.
  cbn [myPrivKey set_table]. cbn in Es.
  change (myPrivKey _) with (key i). unfold Send, SendGossipMessage. run_M.
  rewrite Es, Em. cbn. by rewrite Ew.
Qed.

Lemma can_arrive nw e frame wire' :
  Inv nw → addressed nw → nw_wire nw = (e, frame) :: wire' → red deliver nw.
Proof.
  intros Hinv Hadd Hwire.
  assert (e ∈ nw_done nw) as Hd.
  { apply (iv_wire _ _ _ _ _ _ _ _ _ _ Hinv). rewrite Hwire. by left. }
  destruct (Hadd e (done_transmissions _ _ Hinv Hd)) as (frame' & j & Hf' & Hlen & Hto).
  assert (is_frame key e frame) as Hf.
  { apply (iv_frames _ _ _ _ _ _ _ _ _ _ Hinv). rewrite Hwire. by left. }
  rewrite <- (is_frame_fun _ _ _ Hf Hf') in Hlen.
  assert (sending_type e.2 = TypeChatMessage) as Ety.
  { destruct e as [i x]. destruct (iv_started _ _ _ _ _ _ _ _ _ _ Hinv i x) as (t & _ & _ & _ & E & _); [|exact E].
    by apply (iv_done _ _ _ _ _ _ _ _ _ _ Hinv). }
  destruct Hf as (env & bs & _ & Em & Efr). rewrite Ety in Efr.
  destruct nw as [nodes wire dn ar sent]. cbn in Hwire. subst wire.
  eexists. eapply nw_arrive with (p := NewPeerWrapper 0) (r := mkGossipStream [frame] true) (j := j) (e := e);
    [reflexivity|exact Hto|apply app_nil_r|exact Hlen|].
  apply (arrive_push (NewPeerWrapper 0) (mkGossipStream [frame] true) TypeChatMessage env bs _ Em); [by vm_compute| |];
    cbn; by rewrite app_nil_r.
Qed.

Lemma can_work nw j w' :
  work key engine swD orderD idD nowD openedD closedD j (nw_world nw j) w' → red deliver nw.
Proof. destruct nw as [nodes wire dn ar sent]. intros Hw. eexists. by eapply nw_work. Qed.

(** The handler of a packet that has arrived does not fail. *)
Lemma arrived_never_fails nw j p e :
  Inv nw → (p, e) ∈ nw_arrived nw j → never_fails (@processPacket_task _ _ (hd j) _ _ (disp j) p).
Proof.
  intros Hinv Harr. destruct (arrived_carry _ _ _ _ _ _ _ _ _ _ _ _ _ Hinv Harr) as (t & _ & Ht).
  pose proof (ni_signed _ _ _ _ _ _ _ _ _ _ _ _ (iv_node _ _ _ _ _ _ _ _ _ _ Hinv j) _ _ Harr) as Hs.
  eapply once_never_fails; [apply processPacket_once|].
  rewrite (@run_processPacket_task _ _ (hd j)).
  exact (process_signed key engine cpus swD orderD idD nowD openedD closedD j (disp j) p e t
           (w_state (nw_world nw j)) eq_refl Hs Ht).
Qed.

Lemma can_process nw j i x :
  Inv nw → live nw → w_workers (nw_world nw j) !! i = Some x → idle x = false → red deliver nw.
Proof.
  intros Hinv Hlive Hi Hx.
  destruct (@busy_progress _ _ (hd j) _ _ (disp j) (nw_world nw j) i x) as [w' Hw];
    [apply Hlive|done..| |by eapply can_work].
  intros p Hp. destruct (iv_node _ _ _ _ _ _ _ _ _ _ Hinv j) as [Ha _ [_ Hf _ _ _] _ _ _].
  assert (p ∈ (nw_arrived nw j).*1) as ([p' e] & -> & Hin)%list_elem_of_fmap.
  { rewrite <- Ha, <- Hf. apply elem_of_app. by left. }
  by eapply arrived_never_fails.
Qed.

Lemma can_take nw j :
  Inv nw → live nw → roomy nw → ingressChan (w_disp (nw_world nw j)) ≠ [] → red deliver nw.
Proof.
  intros Hinv Hlive Hroom Hq. pose proof (queue_arrived _ j Hinv) as Hlen.
  pose proof (arrived_le _ j Hinv) as Ha. destruct (Hroom j) as [_ Hr].
  destruct (Hlive j) as [[_ He _] Hc]. specialize (He Hc).
  destruct (nw_world nw j) as [d ws st ac tk pr] eqn:Ew. cbn [w_disp w_workers w_taken] in *.
  destruct (ingressChan d) as [|p q] eqn:Eq; [done|]. cbn [length] in Hlen.
  destruct (waiting_some ws) as [i Hi]; [lia|].
  eapply (can_work nw j). rewrite Ew. by apply (step_take i p q).
Qed.

Lemma deliver_progress nw :
  Inv nw → live nw → roomy nw → addressed nw → red deliver nw ∨ rest nw.
Proof.
  intros Hinv Hlive Hroom Hadd.
  destruct (decide (Forall (λ e, e ∈ nw_done nw) (transmissions nw))) as [Hd|Hd].
  2: { left. apply not_Forall_Exists in Hd; [|apply _].
       apply Exists_exists in Hd as ([i x] & He & Hn).
       destruct (Hadd _ He) as (frame & _ & Hf & _).
       apply elem_of_transmissions in He. by eapply can_transmit. }
  destruct (nw_wire nw) as [|[e frame] wire'] eqn:Hwire; [|left; by eapply can_arrive].
  destruct (decide (∃ j, length (ingressChan (w_disp (nw_world nw j))) ≠ 0)) as [[j Hj]|Hq].
  { left. apply (can_take nw j); [done..|]. intros E. by rewrite E in Hj. }
  destruct (decide (∃ j, length (held_packets (w_workers (nw_world nw j))) ≠ 0)) as [[j Hj]|Hh].
  { left. destruct (find_busy (w_workers (nw_world nw j))) as [(i & x & Hi & Hx)|Hn].
    - by eapply can_process.
    - by rewrite (held_idle _ Hn) in Hj. }
  right. split_and!; [by apply Forall_forall|done|]. intros j. split; apply length_zero_iff_nil.
  - destruct (decide (length (held_packets (w_workers (nw_world nw j))) = 0)); [done|].
    destruct Hh. by exists j.
  - destruct (decide (length (ingressChan (w_disp (nw_world nw j))) = 0)); [done|].
    destruct Hq. by exists j.
Qed.

Lemma addressed_same nw nw' : same_managers nw nw' → addressed nw → addressed nw'.
Proof. intros Hm Ha e. rewrite (transmissions_same _ _ Hm). apply Ha. Qed.

Lemma network_rests nw0 :
  Inv nw0 → live nw0 → roomy nw0 → addressed nw0 →
  ends_in deliver (λ nw, rest nw ∧ running nw0 nw) nw0.
Proof.
  intros Hinv Hlive Hroom Hadd.
  assert (∀ nw, rtc deliver nw0 nw → running nw0 nw) as Hrun.
  { intros nw Hr. apply (rtc_ind_inv deliver (running nw0) nw0 nw); [|exact Hr|by apply running_start].
    intros x y. by apply running_step. }
  split.
  - apply (sn_measure _ left_over). intros nw Hr nw' St. destruct (Hrun _ Hr).
    by apply deliver_left.
  - intros nw Hr. destruct (Hrun _ Hr) as [Hi Hl Hs Hk].
    destruct (deliver_progress nw) as [?|?]; [done|done| | |by left|by right].
    + by eapply roomy_same.
    + by eapply addressed_same.
Qed.

(** At rest the log of a node has the lines of all that has arrived. *)
Lemma rest_log nw j :
  Inv nw → rest nw → ns_log (w_state (nw_world nw j)) ≡ₚ line_of key engine j <$> (nw_arrived nw j).*2.
Proof.
  intros Hinv (_ & _ & Hr). destruct (Hr j) as [Hheld Hqueue].
  pose proof (queue_arrived _ j Hinv) as Hlen. rewrite Hqueue in Hlen. cbn in Hlen.
  destruct (iv_node _ _ _ _ _ _ _ _ _ _ Hinv j) as [_ _ _ _ _ (qs & hs & Hq & Hhd & ->)].
  rewrite Hheld in Hhd. apply Permutation_nil_r in Hhd. apply fmap_nil_inv in Hhd as ->.
  rewrite app_nil_r, take_ge in Hq by lia. by rewrite Hq.
Qed.

Lemma rest_delivered nw0 nw e j :
  Inj (=) (=) nid → running nw0 nw → rest nw →
  e ∈ transmissions nw0 → e ∉ nw_done nw0 → to_peer e.2 = nid j →
  line_of key engine j e ∈ ns_log (w_state (nw_world nw j)).
Proof.
  intros Hinj [Hinv _ Hsame Hkept] Hrest He Hn Hto.
  pose proof Hrest as (Hdone & Hwire & _).
  rewrite (rest_log _ j Hinv Hrest). apply list_elem_of_fmap. exists e. split; [done|].
  destruct (Hkept e) as [?|[Hin|(k & Hin)]]; [|done|by rewrite Hwire in Hin; apply elem_of_nil in Hin|].
  - apply Hdone. by rewrite (transmissions_same _ _ Hsame).
  - destruct (iv_arrived _ _ _ _ _ _ _ _ _ _ Hinv k) as (_ & _ & _ & Hk). pose proof (Hk e Hin) as E.
    rewrite Hto in E. by apply Hinj in E as ->.
Qed.

Lemma initial_live : live (initial cpus w0).
Proof. intros j. split; [apply Start_busy|done]. Qed.

Lemma reachable users faults nw :
  rtc (step users faults) (initial cpus w0) nw → Inv nw ∧ live nw.
Proof.
  intros Hrun. split.
  - apply (rtc_ind_inv (step users faults) Inv (initial cpus w0) nw); [|exact Hrun|].
    + intros x y. by apply net_step_inv.
    + apply network_initial_inv.
  - apply (rtc_ind_inv (step users faults) live (initial cpus w0) nw); [|exact Hrun|apply initial_live].
    intros x y. apply live_step.
Qed.

(** The network after a [Send]. *)
Definition after_send nw i (to : PeerPublicKey) text id (sw : Swarm S) order (g' : Manager) : Network I W :=
  mkNetwork (<[i := set_mgr g' (nw_world nw i)]> (nw_world nw)) (nw_wire nw) (nw_done nw)
    (nw_arrived nw) (nw_sent nw ++ [mkSent i to text id (ids sw order)]).

(** C3. Messages arrive.  In a network of honest nodes, whatever has happened in it
    before: after a user's [Send] of a text to a connected node, once nobody sends
    and nothing fails any more, every run of the network ends, whatever the order
    of transmissions, arrivals and workers; and it can only end when nothing is on
    the wire and the text is in the log of that node, as is the line of every
    other message whose transmission had not begun - provided every node has a
    worker and a place in its queue for each message it is ever sent. *)
Theorem network_delivers (users faults : Prop) nw (i j : I) (text : bytes)
    (sw : Swarm S) (order : list (PeerID * ptr)) rnd (id : MessageID) now (g' : Manager)
    (Hinj : Inj (=) (=) nid)
    (Hrun : rtc (step users faults) (initial cpus w0) nw)
    (Horder : iterates sw order) (Hids : NoDup (ids sw order))
    (Hconn : nid j ∈ ids sw order) (Hne : nid j ≠ pub key i)
    (Hnew : id ∉ seenCache (mgr (nw_world nw i)))
    (Hsend : Messenger_Send (svc key engine i) sw order rnd id now (pub key j) text
               (mgr (nw_world nw i)) = (Ok (), g'))
    (Hroom : roomy (after_send nw i (pub key j) text id sw order g'))
    (Haddr : addressed (after_send nw i (pub key j) text id sw order g')) :
  ends_in deliver (λ nw2, nw_wire nw2 = []
      ∧ inl text ∈ ns_log (w_state (nw_world nw2 j))
      ∧ ∀ e k, e ∈ transmissions (after_send nw i (pub key j) text id sw order g') →
          e ∉ nw_done nw → to_peer e.2 = nid k →
          line_of key engine k e ∈ ns_log (w_state (nw_world nw2 k)))
    (after_send nw i (pub key j) text id sw order g').
Proof.
  destruct (reachable _ _ _ Hrun) as [Hinv Hlive]. set (nw1 := after_send _ _ _ _ _ _ _ _) in *.
  assert (step True faults nw nw1) as St.
  { subst nw1. destruct nw as [nodes wire dn ar sent]. by eapply nw_send. }
  destruct (network_rests nw1) as [Hsn Hend]; [|by eapply live_step|done..|].
  { by eapply (net_step_inv key engine cpus); [..|exact St|]. }
  split; [exact Hsn|]. intros nw2 Hr. destruct (Hend nw2 Hr) as [?|[Hrest Hrunning]]; [by left|right].
  pose proof (rest_delivered nw1 nw2) as Hall.
  split_and!; [apply Hrest| |intros e k He Hn Hto; by apply Hall].
  destruct (Messenger_Send_started _ _ _ _ _ _ _ _ _ _ Horder Hnew Hsend) as (ct & Henc & Hg).
  cbv zeta in Hg. set (m := set_HopLimit _ _) in Hg.
  set (x := mkSending (nid j) TypeChatMessage m).
  assert (x ∈ started g') as Hx.
  { rewrite Hg. apply elem_of_app. right. apply list_elem_of_fmap. exists (nid j). split; [done|].
    by apply list_elem_of_filter. }
  assert (line_of key engine j (i, x) = inl text) as <-.
  { apply (line_addressed key engine Hkey Hengine j (i, x)
             (mkSent i (pub key j) text id (ids sw order))); [|done].
    split_and!; [done..|]. by exists rnd, now, ct. }
  apply Hall; [done..| | |done].
  - apply elem_of_transmissions. cbn. by rewrite fn_lookup_insert.
  - cbn. intros Hd%(iv_done _ _ _ _ _ _ _ _ _ _ Hinv).
    destruct (gi_seen _ (iv_gossip _ _ _ _ _ _ _ _ _ _ Hinv i) x Hd) as (mid & Hmid & Hseen).
    cbn [x m sending_msg set_HopLimit PackChatMessage MessageData_MessageId] in Hmid.
    rewrite ParseMessageID_16, pad_array_arr in Hmid by apply length_arr.
    injection Hmid as <-. done.
Qed.
End delivery.

(** ** Witness: Alice writes to Bob, and Bob reads it *)
Module NetworkDeliveryWitness.
Import ToyWriter HandshakeWitness ToyUuid ToyEngine ToyBadger BadgerStorage NodeWitness NetworkWitness.

Abbreviation start := (initial (λ _ : bool, 4%Z) ([] : bytes)).
Definition nw1 : Network bool bytes := after_send start true bobPub text msgID sw order sent.2.

Lemma nw1_transmissions : transmissions nw1 = [(true, sending)].
Proof.
  unfold transmissions, nw1, after_send. cbn [nw_world]. change (enum bool) with [true; false].
  cbn [mbind list_bind]. rewrite fn_lookup_insert, fn_lookup_insert_ne by done.
  change (started (mgr (set_mgr sent.2 _))) with (started sent.2).
  rewrite (proj1 started_one). reflexivity.
Qed.

Lemma nw1_roomy : roomy key (λ _, 4%Z) nw1.
Proof.
  intros j. unfold incoming. rewrite nw1_transmissions.
  assert (∀ l : list (Transmission bool), length (filter (λ e, to_peer e.2 = nid key j) l) <= length l)
    as Hl by (intros l; apply length_filter).
  specialize (Hl [(true, sending)]). cbn [length] in Hl. unfold ingress_cap.
  change (Z.to_nat _) with 3. lia.
Qed.

Lemma nw1_addressed : addressed key nw1.
Proof.
  intros e. rewrite nw1_transmissions. intros ->%list_elem_of_singleton.
  destruct started_one as [_ Hto]. destruct transmitted_ok as [Ht Hl].
  destruct (SendDataForPeer_frame (W:=bytes) sw bobID (inl ()) (inl ()) (sending_type sending)
              (sending_msg sending) [] transmitted.2 (run_eq _ _ _ Ht)) as (env & bs & Es & Em & Ew).
  exists (frame_bytes (sending_type sending) bs), false. split_and!.
  - exists env, bs. split; [exact Es|]. split; [exact Em|reflexivity].
  - change (transmitted.2 = [] ++ frame_bytes (sending_type sending) bs) in Ew.
    cbn [app] in Ew. rewrite <- Ew. by apply Z.ltb_lt.
  - exact Hto.
Qed.

Lemma ids_differ : Inj (=) (=) (nid key).
Proof.
  assert (nid key true ≠ nid key false) as Hne
    by (intros E%(f_equal arr); vm_compute in E; discriminate).
  intros [] [] E; [reflexivity|destruct (Hne E)|destruct (Hne (eq_sym E))|reflexivity].
Qed.

Lemma network_delivers_witness :
  ∃ nw2, rtc (deliver key engine sw order msgID (mk_uint 64 0) (inl ()) (inl ())) nw1 nw2
         ∧ inl text ∈ ns_log (w_state (nw_world nw2 false)).
Proof.
  assert (ends_in (deliver key engine sw order msgID (mk_uint 64 0) (inl ()) (inl ()))
            (λ nw2, inl text ∈ ns_log (w_state (nw_world nw2 false))) nw1) as T.
  { destruct (network_delivers (S:=store) key engine (λ _, 4%Z) sw order msgID (mk_uint 64 0)
                (inl ()) (inl ())
                (λ i, match i with true => NewKeyFromSeed_pair _ | false => NewKeyFromSeed_pair _ end)
                (λ i, match i with true => engine_alice | false => engine_bob end)
                [] True True start true false text sw order rnd0 msgID (mk_uint 64 0) sent.2
                ids_differ (rtc_refl _ _)) as [T1 T2].
    - apply Forall_singleton. by eexists.
    - apply NoDup_singleton.
    - apply elem_of_cons. by left.
    - exact bob_is_not_alice.
    - apply not_elem_of_empty.
    - exact (run_eq _ _ _ sent_ok).
    - exact nw1_roomy.
    - exact nw1_addressed.
    - split; [exact T1|]. intros y Hy. destruct (T2 y Hy) as [?|(_ & ? & _)]; [by left|by right]. }
  exact (ends_in_reached _ _ _ T).
Defined.
End NetworkDeliveryWitness.
